(* ===== verification/_CoqProject ===== *)
-Q . S2P
Prelude.v
Effects.v
Money.v
Identity.v
Units.v
Price.v
Policy.v
Budget.v
Cost.v
Plan.v
Decision.v
Samples.v
CostFacts.v
Governor.v
Evaluate.v
Codec.v
Ledger.v
System.v
Accounts.v
Fencing.v
EvaluateFacts.v
Snapshot.v
Recovery.v
Wire.v
WireFacts.v
Types.v
Coordinator.v
CoordinatorFacts.v
Dispatch.v
Concurrent.v
Lifecycle.v
Client.v
ClientFacts.v
Processes.v
Tools.v
Floats.v
Cuda.v
Bench.v
