(* ===== verification/Prelude.v ===== *)
(** * A verification development for Cost Governor

    Cost Governor is a runtime that decides whether execution plans may run under
    monetary budgets.  Workers publish prices and usage evidence; clients reserve,
    commit, release and consume budget amounts and ask for a decision among
    candidate plans; a decision is validated again before dispatch; the durable
    part of the state is written to a checksummed snapshot file and recovered
    after a restart.  Authority is fenced by the coordinator epoch, by generations
    and by the boot of each worker.  A coordinator process serves one governor to
    workers and clients over framed TCP messages; a proof runner drives it through
    scenarios, and a command line tool, examples, a benchmark and a GPU program show
    the library at work.

    ** The parts and the files that model them

    - Prelude.v: 64-bit integers as [Z] with their wrap-around, stable sorting,
      lexicographic keys, sums, 8-bit enums.
    - Effects.v: include/costgovernor/status.hpp; exceptions as the error type
      [exn], fallible code in [res], state-changing code in [St], and the
      parameter [SignedOverflow], the meaning of int64 overflow (two's complement
      [wrapping], or [strict]: undefined behaviour).  The state after a throw is
      kept, since C++ does not roll back.
    - Money.v, Identity.v, Units.v: money.hpp, identity.hpp, units.hpp.
    - Price.v, Policy.v, Budget.v, Plan.v, Decision.v: the data of price.hpp,
      clock.hpp, policy.hpp, budget.hpp, plan.hpp, decision.hpp and the snapshot
      records of persistence.hpp, with the constructors and the names of the code.
    - Cost.v: src/cost.cpp, [CostCalculator].  CostFacts.v: its reference semantics
      ([attempt_cost]: the sum of the exact rounded-up costs) and theorems.
    - Governor.v: [CostGovernor::Impl] and its state-changing methods
      (src/governor.cpp), one definition per method with every guard.  The shared
      [BudgetReservation&] argument of [commit] and [release] is part of the
      state they transform, distinct from the governor's own copy.
    - Evaluate.v: plan feasibility, ranking, decision and dispatch validation of
      src/governor.cpp.  EvaluateFacts.v: their theorems, against the declarative
      [plan_feasible] and [rank_key].
    - Ledger.v: the case analysis of each operation.  System.v: all calls of
      all clients as a transition system; every method holds the one mutex, so
      a concurrent run is a sequence of calls.  [reachable] has the calls that
      return, budgets created with accounts of zero ([op_ok]), each reservation held
      once, and no [load], which Recovery.v and Lifecycle.v treat; what happens
      without these conditions is shown by example.  Accounts.v and Fencing.v: the
      invariants by induction on [reachable].
    - Codec.v, Snapshot.v: Writer, Reader, CRC-32 and [SnapshotCodec] of
      src/persistence.cpp.  Recovery.v: [StateStore], [persist] and [load].
    - Types.v: which values are values of their C++ types ([yields] for readers,
      [impl_typed] for the governor), and that nothing else is ever reached.  The
      class [Invariant] states what the coordinator's theorems need of a set of
      system states; its instances are the states reachable from an empty governor
      and those that also follow from a recovery ([sound]).
    - Wire.v: distributed/chan.hpp and msgs.hpp, the message codecs and the framing
      over sockets that read and write in pieces, or would block ([SendResult]).
      WireFacts.v: their theorems.
      Both readers are instances of the class [Format] of Codec.v.
    - Coordinator.v: distributed/coordinator.cpp, a handler per message, the session
      loop and the set-up.  A handler runs the governor's operations on the shared
      state [Coord]; COMMIT and RELEASE keep their three critical sections apart.
      CoordinatorFacts.v: its theorems, the refinement among them, for any
      [Invariant].
    - Dispatch.v: evaluation, new prices and boots, and revalidation over the wire.
    - Concurrent.v: the sessions' threads.  A message in progress is a value of
      [Pc]; [next] executes its next critical section, and [interleave] lets the
      sections of any number of messages alternate.
    - Lifecycle.v: the coordinator over its whole life, [life]: messages, crashes
      (also inside a save) and restarts, as long as the reader's bound of a million
      entries is kept ([savable]), which the writer does not check.
    - Client.v: the remote calls and scenarios of distributed/proof_runner.cpp, the
      arguments that a spawned process sees on either [Platform], and the messages of
      worker.cpp.  ClientFacts.v: their theorems.
    - Processes.v: [Sock] of chan.hpp as the owner of a handle of the operating
      system, connecting, and the [main] functions of worker.cpp, coordinator.cpp
      and proof_runner.cpp with their exit codes.
    - Tools.v: tools/cg_cli.cpp, examples/ and version.hpp.
    - Floats.v: the doubles of cuda_proof.cu and benchmark.cpp, as the binary64 of
      the Standard Library's SpecFloat.
    - Cuda.v: cuda/cuda_proof.cu, the kernel and its launch, the calls of the CUDA
      runtime over device memory and events, the measurements and the economics.  Bench.v: bench/benchmark.cpp.
    - Samples.v: concrete data, after tests/test_helpers.hpp, that the witnesses
      evaluate.

    ** What the theorems show

    - Arithmetic: checked money arithmetic, division and [ceil_mul_div] are exact
      or throw, with the exact range of each; what overflow does if undefined.
    - Cost: [project] is total exactly on chargeable evidence, its total is the
      exact sum over all attempts, does not depend on their order, counts
      retries once, and never charges zero for a missing price.
    - Accounts: in every reachable state [reserved], [consumed] and [released] are
      the sums over the reservations and charges made, within their bounds.
    - Fencing: refused calls change nothing, stale epochs and boots are refused,
      boots are isolated, histories are unique, interventions follow their lifecycle.
    - Decisions: a plan is feasible iff the declarative conditions hold; the
      authorized plan is the first of minimal rank (the generation does not count),
      fits every hard budget, does
      not depend on hash iteration order, and passes dispatch validation.
    - Persistence: encode/decode round trip; every single-byte change, truncation
      and extension is refused; saving is atomic under crashes; persist and load
      restore exactly the durable state and demand revalidation.
    - Types: decoders return well-typed values from any bytes, and every state
      reached from well-typed arguments with strings of at most 16 MiB is well-typed
      and can be written, and read back within the reader's bound.
    - Wire: messages and frames round trip through any partial reads and writes;
      damage to the checked parts of a frame is detected; what is not checked.
    - Coordinator: a refinement, every state it reaches by handling messages one at
      a time is a state of the transition system of System.v with its reservations
      as tokens, hence the budget invariants; sessions terminate and answer every
      request in order; after a new price or boot no earlier decision is confirmed.
    - Concurrency: under every interleaving in which no token is settled twice at once
      the refinement still holds; overlapping settlements can charge twice, and
      concurrent saves can lose an acknowledged price.  A supporting lemma ties the
      sections to the handlers: uninterrupted, they are the handler
      ([sections_compose]).
    - Crashes: while the state is [savable], the accounts stay exact through any
      sequence of messages, crashes and restarts, a restart succeeds, and what was
      acknowledged (and saved alone) is recovered; what a restart forgets or repeats.
    - Clients: a remote call has the result and the effect of the governor's own
      operation.  As examples, the proof runner passes under Windows, from the bytes
      of the first frame to the restart from the state file, and fails under POSIX.
    - Processes and programs: every handle has one owner and is closed once, except
      that failed connections leak theirs; the kernel launch computes saxpy for every
      order of the threads; a workload copies back what the kernel computed, measures
      the time around the launch and releases what it allocates; what the benchmark
      really times.
    - Where code and documentation disagree, a theorem states what the code does
      ([release_resurrects], [reserve_ignores_consumed], [energy_undercharged], ...).

    ** Parameters

    [IterOrder] is the enumeration order of [std::unordered_map] (any permutation;
    [map_order] is an instance), [Readings] the clock values one call sees,
    [IoFaults] the failures of the file system calls, [SignedOverflow] as above.
    The chunks that [recv] finds and the results of [send] are arguments too, so
    the theorems hold for every fragmentation.  So are the answers of the operating
    system to [socket], [connect], [bind] and [listen] ([Attempt], [Listen]), those of
    the CUDA runtime and what its fresh memory holds ([Cuda]), and whether the compiler contracts [alpha * a + b].
    Two definitions have fuel.  [run_session], the loop over a connection: every round
    takes at least a header of 16 bytes from the stream, so one round per 16 bytes and
    one for the end are enough ([session_terminates]).  [uninterrupted]: no message
    has more than eight sections ([sections_compose]).  The polling and connecting
    loops have the code's own bounds, 200 and 400; the rounds of a worker's [--stay]
    loop, which ends with the connection, are an argument.  Every other loop is
    structural on a list, and the loops of the decoders run on counts that the code
    bounds by 1,000,000 (snapshots) and 4096 (plans).

    ** Not modelled

    The system calls that only start, stop or delay a process (fork, exec, kill,
    sleep) and the choice of a free port.  Two writes
    to the temporary file do not interleave inside one [ofstream] write, and reads of
    [policy()], [price_schedule()] and [epoch()], which take no lock, are single
    steps: a torn read is undefined behaviour, which no model of the values gives.
    The interleavings of Concurrent.v are those of messages, not of the bytes of
    different connections, which no session shares; [coordinator_main] serves the
    connections one after the other.  Crashes ([life]) happen between messages and
    inside saves, not between two sections of concurrent messages.  The text that
    the GPU program and the runner print around their results is left out. *)

(** * Prelude: machine integers, ordering, shared lemmas and tactics *)

From stdpp Require Import prelude gmap strings list sorting.
From stdpp Require Import options.

Declare Scope cg_scope.
Delimit Scope cg_scope with cg.
Open Scope Z_scope.
Open Scope cg_scope.

(** ** Machine integers

    An [int64_t] is a [Z] in [[-2^63, 2^63)], a [uint64_t] one in [[0, 2^64)]. *)
Definition I64_MIN : Z := - 2 ^ 63.
Definition I64_MAX : Z := 2 ^ 63 - 1.
Definition U64_MAX : Z := 2 ^ 64 - 1.
Definition U32_MAX : Z := 2 ^ 32 - 1.

Definition in_i64 (z : Z) : Prop := I64_MIN ≤ z ≤ I64_MAX.
Definition in_u64 (z : Z) : Prop := 0 ≤ z ≤ U64_MAX.

#[global] Instance in_i64_dec z : Decision (in_i64 z).
Proof. unfold in_i64. apply _. Defined.
#[global] Instance in_u64_dec z : Decision (in_u64 z).
Proof. unfold in_u64. apply _. Defined.

(** Reduction of a mathematical integer to its 64-bit two's complement. *)
Definition wrap_u64 (z : Z) : Z := z `mod` 2 ^ 64.
Definition wrap_i64 (z : Z) : Z := (z + 2 ^ 63) `mod` 2 ^ 64 - 2 ^ 63.

(** [x++] and [Id(x.value() + 1)] on [uint64_t]. *)
Definition u64_succ (z : Z) : Z := wrap_u64 (z + 1).

Ltac widths := unfold in_i64, in_u64, wrap_i64, wrap_u64, I64_MIN, I64_MAX, U64_MAX, U32_MAX in *.

Lemma wrap_i64_id z : in_i64 z → wrap_i64 z = z.
Proof. widths. intros ?. rewrite Z.mod_small; lia. Qed.

Lemma wrap_i64_range z : in_i64 (wrap_i64 z).
Proof. widths. pose proof (Z.mod_pos_bound (z + 2 ^ 63) (2 ^ 64)). lia. Qed.

Lemma wrap_i64_cong z : ∃ k, wrap_i64 z = z - k * 2 ^ 64.
Proof.
  widths. exists ((z + 2 ^ 63) `div` 2 ^ 64).
  pose proof (Z.div_mod (z + 2 ^ 63) (2 ^ 64)). lia.
Qed.

Lemma wrap_i64_eq z w k : in_i64 w → z = w + k * 2 ^ 64 → wrap_i64 z = w.
Proof.
  intros Hw ->. widths.
  replace (w + k * 2 ^ 64 + 2 ^ 63) with ((w + 2 ^ 63) + k * 2 ^ 64) by lia.
  rewrite Z_mod_plus_full, Z.mod_small; lia.
Qed.

Lemma u64_succ_range z : in_u64 (u64_succ z).
Proof. unfold u64_succ. widths. pose proof (Z.mod_pos_bound (z + 1) (2 ^ 64)). lia. Qed.

Lemma u64_succ_ne z : in_u64 z → u64_succ z ≠ z.
Proof.
  unfold u64_succ. widths. intros ?.
  destruct (decide (z = 2 ^ 64 - 1)) as [->|]; [done|].
  rewrite Z.mod_small; lia.
Qed.

Lemma u64_succ_small z : 0 ≤ z < U64_MAX → u64_succ z = z + 1.
Proof. unfold u64_succ. widths. intros ?. rewrite Z.mod_small; lia. Qed.

(** ** Sorting

    [std::stable_sort(first, last, comp)].  For a comparator that is a strict
    weak order the stably sorted permutation is unique, so insertion from the
    right computes what the library function returns. *)
Section stable_sort.
Context {A : Type} (comp : A → A → bool).

Fixpoint insert_stable (x : A) (l : list A) : list A :=
  match l with
  | [] => [x]
  | y :: l' => if comp y x then y :: insert_stable x l' else x :: l
  end.

Fixpoint stable_sort (l : list A) : list A :=
  match l with
  | [] => []
  | x :: l' => insert_stable x (stable_sort l')
  end.

(** What the C++ standard requires of a comparator. *)
Class StrictWeakOrder : Prop := {
  swo_irrefl x : comp x x = false;
  swo_trans x y z : comp x y = true → comp y z = true → comp x z = true;
  swo_cotrans x y z : comp x z = true → comp x y = true ∨ comp y z = true;
}.

Lemma insert_stable_perm x l : insert_stable x l ≡ₚ x :: l.
Proof.
  induction l as [|y l IH]; simpl; [done|].
  destruct (comp y x); [|done]. rewrite IH. apply Permutation_swap.
Qed.

Lemma stable_sort_perm l : stable_sort l ≡ₚ l.
Proof. induction l as [|x l IH]; simpl; [done|]. by rewrite insert_stable_perm, IH. Qed.

(** The front of the sorted sequence is the first of the minimal elements. *)
Lemma stable_sort_front `{StrictWeakOrder} l x r :
  stable_sort l = x :: r →
  ∃ l1 l2, l = l1 ++ x :: l2 ∧
    (∀ y, y ∈ l1 → comp x y = true) ∧ (∀ y, y ∈ l2 → comp y x = false).
Proof using Type.
  revert x r. induction l as [|a l IH]; simpl; intros x r Hs; [done|].
  destruct (stable_sort l) as [|x' r'] eqn:Hl; simpl in Hs.
  - simplify_eq. apply (f_equal length) in Hl.
    rewrite (Permutation_length (stable_sort_perm l)) in Hl.
    apply nil_length_inv in Hl as ->. exists [], []. set_solver.
  - destruct (IH _ _ eq_refl) as (l1 & l2 & -> & H1 & H2).
    destruct (comp x' a) eqn:Hc; simplify_eq.
    + exists (a :: l1), l2. set_solver.
    + exists [], (l1 ++ x' :: l2). split_and!; [done|set_solver|].
      intros y Hy. destruct (comp y x) eqn:Hyx; [|done]. exfalso.
      destruct (swo_cotrans y x' x Hyx) as [Hyx'|]; [|congruence].
      apply elem_of_app in Hy as [Hy|[->|Hy]%elem_of_cons].
      * pose proof (swo_trans _ _ _ (H1 _ Hy) Hyx'). pose proof (swo_irrefl x'). congruence.
      * pose proof (swo_irrefl x'). congruence.
      * by rewrite H2 in Hyx'.
Qed.

Lemma stable_sort_nil l : stable_sort l = [] ↔ l = [].
Proof.
  split; [|by intros ->]. intros H. apply Permutation_nil.
  by rewrite <-H, stable_sort_perm.
Qed.
End stable_sort.

(** Lexicographic order on integer vectors. *)
Fixpoint lex_ltb (k1 k2 : list Z) : bool :=
  match k1, k2 with
  | [], [] => false
  | [], _ :: _ => true
  | _ :: _, [] => false
  | x :: k1', y :: k2' => if decide (x = y) then lex_ltb k1' k2' else bool_decide (x < y)
  end.

Lemma lex_ltb_irrefl k : lex_ltb k k = false.
Proof. induction k; simpl; [done|]. by rewrite decide_True. Qed.

Lemma lex_ltb_trans k1 k2 k3 : lex_ltb k1 k2 → lex_ltb k2 k3 → lex_ltb k1 k3.
Proof.
  revert k2 k3. induction k1 as [|x k1 IH]; intros [|y k2] [|z k3]; simpl; try done.
  repeat case_decide; subst; rewrite ?bool_decide_spec; intros; try lia; eauto.
Qed.

Lemma lex_ltb_total k1 k2 : k1 = k2 ∨ lex_ltb k1 k2 ∨ lex_ltb k2 k1.
Proof.
  revert k2. induction k1 as [|x k1 IH]; intros [|y k2]; simpl; auto.
  destruct (decide (x = y)) as [->|]; [|rewrite decide_False by done].
  - rewrite decide_True by done. destruct (IH k2) as [->|]; auto.
  - right. rewrite !bool_decide_spec. lia.
Qed.

#[global] Instance lex_swo {A} (key : A → list Z) :
  StrictWeakOrder (λ a b, lex_ltb (key a) (key b)).
Proof.
  split.
  - intros x. apply lex_ltb_irrefl.
  - intros x y z H1 H2. apply Is_true_true. eapply lex_ltb_trans; by apply Is_true_true.
  - intros x y z Hxz. rewrite <-!Is_true_true in *.
    destruct (lex_ltb_total (key x) (key y)) as [<-|[?|?]]; auto.
    right. by eapply lex_ltb_trans.
Qed.

(** ** Sums *)
Definition sumZ (l : list Z) : Z := foldr Z.add 0 l.
#[local] Arguments sumZ : simpl never.

Lemma sumZ_cons z l : sumZ (z :: l) = z + sumZ l.
Proof. done. Qed.

Lemma sumZ_app l1 l2 : sumZ (l1 ++ l2) = sumZ l1 + sumZ l2.
Proof. induction l1; simpl; unfold sumZ in *; simpl; lia. Qed.

Lemma sumZ_nonneg l : Forall (λ z, 0 ≤ z) l → 0 ≤ sumZ l.
Proof. induction 1; unfold sumZ in *; simpl; lia. Qed.

Lemma sumZ_insert {A} (f : A → Z) l k x y :
  l !! k = Some x → sumZ (f <$> <[k := y]> l) = sumZ (f <$> l) - f x + f y.
Proof.
  revert k. induction l as [|a l IH]; intros [|k] Hk; simplify_eq/=.
  - rewrite !sumZ_cons. lia.
  - rewrite !sumZ_cons, (IH k) by done. lia.
Qed.

Lemma sumZ_lookup_le {A} (f : A → Z) l k x :
  Forall (λ a, 0 ≤ f a) l → l !! k = Some x → f x ≤ sumZ (f <$> l).
Proof.
  intros Hl. revert k. induction Hl as [|a l Ha Hl IH]; intros [|k] Hk; simplify_eq/=;
    rewrite sumZ_cons.
  - assert (0 ≤ sumZ (f <$> l)); [|lia]. apply sumZ_nonneg, Forall_fmap. done.
  - specialize (IH k Hk). lia.
Qed.

#[global] Instance sumZ_perm : Proper ((≡ₚ) ==> (=)) sumZ.
Proof. induction 1; unfold sumZ in *; simpl; lia. Qed.

(** ** Tactics *)

(** Split the conditionals of an executable definition in hypothesis [H]. *)
Ltac split_cases H :=
  repeat first
    [ progress simplify_eq/=
    | match type of H with
      | context [decide ?P] => destruct (decide P)
      | context [match ?x with _ => _ end] => destruct x eqn:?
      end ].

(** Prove a closed decidable proposition by evaluating its decision. *)
Ltac by_compute := apply (bool_decide_unpack _); vm_compute; exact I.

(** ** Enumerations with an 8-bit underlying type

    [enum class E : std::uint8_t] holds any byte: [static_cast<E>(b)] of a byte
    that names no enumerator is a value of [E] too.  The enums that are read
    back from bytes have one more constructor for those values. *)
Class Enum8 (E : Type) := {
  to_u8 : E → Z;
  of_u8 : Z → E;
  to_of_u8 v : 0 ≤ v < 256 → to_u8 (of_u8 v) = v;
}.

(** [e] is the canonical representation of a byte. *)
Definition enum_ok `{Enum8 E} (e : E) : Prop := 0 ≤ to_u8 e < 256 ∧ of_u8 (to_u8 e) = e.
#[global] Instance enum_ok_dec `{Enum8 E, EqDecision E} (e : E) : Decision (enum_ok e).
Proof. unfold enum_ok. apply _. Defined.

Lemma of_u8_ok `{Enum8 E} v : 0 ≤ v < 256 → enum_ok (of_u8 v).
Proof. intros. unfold enum_ok. by rewrite to_of_u8. Qed.

(** Proves [to_of_u8] for an enum with at most 32 enumerators. *)
Ltac solve_enum8 :=
  let v := fresh "v" in
  intros [|v|v] _; [reflexivity| |reflexivity];
  do 6 (try reflexivity; destruct v as [v|v|]); reflexivity.
