(* ===== verification/Effects.v ===== *)
(** * Effects: outcome codes, exceptions, and the two effect monads

    Models include/costgovernor/status.hpp and the way C++ code returns or
    throws. *)

From stdpp Require Import prelude strings.
From S2P Require Import Prelude.
From stdpp Require Import options.

(** ** Status codes *)

Module Status.
Inductive Status :=
  | OK | INVALID_INPUT | INSUFFICIENT_EVIDENCE | STALE_EVIDENCE | STALE_AUTHORITY
  | MISSING_PRICE | CURRENCY_MISMATCH | BUDGET_EXCEEDED | BUDGET_EXPIRED
  | PLAN_INFEASIBLE | PLAN_SUPERSEDED | INTERVENTION_FAILED | OUTCOME_UNKNOWN
  | PERSISTENCE_CORRUPT | PROTOCOL_ERROR | RESOURCE_EXHAUSTED | CANCELLED
  | SHUTTING_DOWN | PERSISTENCE_UNSUPPORTED_VERSION.

#[global] Instance Status_eq_dec : EqDecision Status.
Proof. solve_decision. Defined.

Definition Status_to_u8 (e : Status) : Z :=
  match e with
  | OK => 0
  | INVALID_INPUT => 1
  | INSUFFICIENT_EVIDENCE => 2
  | STALE_EVIDENCE => 3
  | STALE_AUTHORITY => 4
  | MISSING_PRICE => 5
  | CURRENCY_MISMATCH => 6
  | BUDGET_EXCEEDED => 7
  | BUDGET_EXPIRED => 8
  | PLAN_INFEASIBLE => 9
  | PLAN_SUPERSEDED => 10
  | INTERVENTION_FAILED => 11
  | OUTCOME_UNKNOWN => 12
  | PERSISTENCE_CORRUPT => 13
  | PROTOCOL_ERROR => 14
  | RESOURCE_EXHAUSTED => 15
  | CANCELLED => 16
  | SHUTTING_DOWN => 17
  | PERSISTENCE_UNSUPPORTED_VERSION => 18
  end.

Definition status_name (e : Status) : string :=
  match e with
  | OK => "OK"
  | INVALID_INPUT => "INVALID_INPUT"
  | INSUFFICIENT_EVIDENCE => "INSUFFICIENT_EVIDENCE"
  | STALE_EVIDENCE => "STALE_EVIDENCE"
  | STALE_AUTHORITY => "STALE_AUTHORITY"
  | MISSING_PRICE => "MISSING_PRICE"
  | CURRENCY_MISMATCH => "CURRENCY_MISMATCH"
  | BUDGET_EXCEEDED => "BUDGET_EXCEEDED"
  | BUDGET_EXPIRED => "BUDGET_EXPIRED"
  | PLAN_INFEASIBLE => "PLAN_INFEASIBLE"
  | PLAN_SUPERSEDED => "PLAN_SUPERSEDED"
  | INTERVENTION_FAILED => "INTERVENTION_FAILED"
  | OUTCOME_UNKNOWN => "OUTCOME_UNKNOWN"
  | PERSISTENCE_CORRUPT => "PERSISTENCE_CORRUPT"
  | PROTOCOL_ERROR => "PROTOCOL_ERROR"
  | RESOURCE_EXHAUSTED => "RESOURCE_EXHAUSTED"
  | CANCELLED => "CANCELLED"
  | SHUTTING_DOWN => "SHUTTING_DOWN"
  | PERSISTENCE_UNSUPPORTED_VERSION => "PERSISTENCE_UNSUPPORTED_VERSION"
  end.
End Status.
Abbreviation Status := Status.Status.

(** ** Exceptions and results

    A C++ call either returns or throws.  [exn] lists the exception types the
    sources throw; [undefined_behaviour] marks an execution to which the C++
    standard gives no meaning (signed overflow under the strict reading).  The
    diagnostic text of an exception is not modelled. *)
Inductive exn :=
  | StatusError (s : Status)
  | overflow_error
  | domain_error
  | runtime_error
  | undefined_behaviour.

#[global] Instance exn_eq_dec : EqDecision exn.
Proof. solve_decision. Defined.

Inductive res (A : Type) :=
  | Ret (a : A)
  | Throw (e : exn).
Arguments Ret {A} a.
Arguments Throw {A} e.

#[global] Instance res_eq_dec {A} `{EqDecision A} : EqDecision (res A).
Proof. solve_decision. Defined.

Definition res_bind {A B} (m : res A) (k : A → res B) : res B :=
  match m with Ret a => k a | Throw e => Throw e end.

Definition throw_status {A} (s : Status) : res A := Throw (StatusError s).

(** State and exceptions together: an exception keeps the mutations made
    before it, as C++ does when nothing rolls them back. *)
Definition St (S A : Type) : Type := S → res A * S.

Definition st_ret {S A} (a : A) : St S A := λ s, (Ret a, s).
Definition st_bind {S A B} (m : St S A) (k : A → St S B) : St S B := λ s,
  match m s with
  | (Ret a, s') => k a s'
  | (Throw e, s') => (Throw e, s')
  end.
Definition st_get {S} : St S S := λ s, (Ret s, s).
Definition st_modify {S} (f : S → S) : St S unit := λ s, (Ret tt, f s).
Definition st_lift {S A} (m : res A) : St S A := λ s, (m, s).

Notation "'let!' x := m 'in' k" := (res_bind m (λ x, k))
  (at level 10, x pattern, m at level 100, k at level 200) : cg_scope.
Notation "'let*' x := m 'in' k" := (st_bind m (λ x, k))
  (at level 10, x pattern, m at level 100, k at level 200) : cg_scope.
Notation "m ';;;' k" := (st_bind m (λ _, k))
  (at level 100, right associativity) : cg_scope.

(** A loop [for (x : l) acc = f(acc, x)] whose body may throw. *)
Fixpoint foldM {A B} (f : B → A → res B) (l : list A) (b : B) : res B :=
  match l with
  | [] => Ret b
  | x :: l' => let! b' := f b x in foldM f l' b'
  end.

Definition is_Ret {A} (m : res A) : Prop := ∃ a, m = Ret a.

Lemma res_bind_Ret {A B} (m : res A) (k : A → res B) b :
  res_bind m k = Ret b ↔ ∃ a, m = Ret a ∧ k a = Ret b.
Proof. destruct m; simpl; naive_solver. Qed.

Lemma res_bind_Throw {A B} (m : res A) (k : A → res B) e :
  res_bind m k = Throw e ↔ m = Throw e ∨ ∃ a, m = Ret a ∧ k a = Throw e.
Proof. destruct m; simpl; naive_solver. Qed.

(** What a signed operation does whose mathematical result [z] does not fit:
    [wrapping] is two's complement (MSVC, and GCC or Clang with [-fwrapv]);
    [strict] is the C++ standard, under which the execution is undefined. *)
Class SignedOverflow := overflow_result : Z → res Z.
Definition wrapping : SignedOverflow := λ z, Ret (wrap_i64 z).
Definition strict : SignedOverflow := λ _, Throw undefined_behaviour.

Definition signed `{SignedOverflow} (z : Z) : res Z :=
  if decide (in_i64 z) then Ret z else overflow_result z.

Lemma signed_in `{SignedOverflow} z : in_i64 z → signed z = Ret z.
Proof. intros. unfold signed. by rewrite decide_True. Qed.

Lemma signed_wrapping z : @signed wrapping z = Ret (wrap_i64 z).
Proof.
  unfold signed, overflow_result, wrapping. case_decide; [|done].
  by rewrite wrap_i64_id.
Qed.
