(* ===== verification/Money.v ===== *)
(** * Money: MoneyMicros, checked 64-bit money arithmetic

    Models include/costgovernor/money.hpp.  A [MoneyMicros] is its [value_], a
    [Z] in the int64 range.  The operations are parametric in the meaning of
    signed overflow ([SignedOverflow]); the rest of the development uses them
    at [wrapping]. *)

From stdpp Require Import prelude strings pretty.
From S2P Require Import Prelude Effects.
From stdpp Require Import options.

Abbreviation MoneyMicros := Z (only parsing).

Definition kMicrosPerUnit : Z := 1000000.
Definition kDefaultCurrency : string := "USD".

Inductive Rounding := kTruncate | kCeil | kFloor.

#[global] Instance Rounding_eq_dec : EqDecision Rounding.
Proof. solve_decision. Defined.

Section arithmetic.
Context {SO : SignedOverflow}.

Definition from_micros (micros : Z) : MoneyMicros := micros.

(** [units * kMicrosPerUnit], with no check. *)
Definition from_units (units : Z) : res MoneyMicros := signed (units * kMicrosPerUnit).

Definition total_units (m : MoneyMicros) : Z := Z.quot m kMicrosPerUnit.
Definition negative (m : MoneyMicros) : bool := bool_decide (m < 0).
Definition is_zero (m : MoneyMicros) : bool := bool_decide (m = 0).

Definition checked_add (a b : Z) : res Z :=
  let! r := signed (a + b) in
  if decide ((a > 0 ∧ b > 0 ∧ r < 0) ∨ (a < 0 ∧ b < 0 ∧ r >= 0))
  then Throw overflow_error else Ret r.

Definition checked_sub (a b : Z) : res Z :=
  if decide (b = I64_MIN) then Throw overflow_error
  else let! nb := signed (- b) in checked_add a nb.

Definition checked_mul_i64 (a b : Z) : res Z :=
  if decide (a = 0 ∨ b = 0) then Ret 0
  else if decide ((a = I64_MIN ∧ b = -1) ∨ (b = I64_MIN ∧ a = -1))
  then Throw overflow_error
  else
    let! r := signed (a * b) in
    if decide (Z.quot r a ≠ b) then Throw overflow_error else Ret r.

Definition checked_mul (m : MoneyMicros) (factor : Z) : res MoneyMicros :=
  checked_mul_i64 m factor.

Definition checked_div (m : MoneyMicros) (divisor : Z) (r : Rounding) : res MoneyMicros :=
  if decide (divisor = 0) then Throw domain_error
  else if decide (m = I64_MIN ∧ divisor = -1) then Throw overflow_error
  else
    let q := Z.quot m divisor in
    let rem := Z.rem m divisor in
    if decide (rem = 0) then Ret q
    else if decide (r = kCeil ∧ bool_decide (rem > 0) = bool_decide (divisor > 0))
    then Ret (q + 1)
    else if decide (r = kFloor ∧ bool_decide (rem > 0) ≠ bool_decide (divisor > 0))
    then Ret (q - 1)
    else Ret q.
End arithmetic.

(** [MoneyMicros::operator+] and [operator-] on two's complement. *)
Notation "a +$ b" := (@checked_add wrapping a b) (at level 50, left associativity) : cg_scope.
Notation "a -$ b" := (@checked_sub wrapping a b) (at level 50, left associativity) : cg_scope.

(** ** Decimal serialization *)

(** [%06llu] *)
Definition pad6 (s : string) : string :=
  String.append (String.concat EmptyString (replicate (6 - String.length s) "0")) s.

Definition to_string (m : MoneyMicros) : string :=
  let neg := bool_decide (m < 0) in
  let mag := if neg then wrap_u64 ((U64_MAX - wrap_u64 m) + 1) else wrap_u64 m in
  let units := mag `div` kMicrosPerUnit in
  let frac := mag `mod` kMicrosPerUnit in
  String.append (if neg then "-" else EmptyString)
    (String.append (pretty (Z.to_N units)) (String.append "." (pad6 (pretty (Z.to_N frac))))).

(** ** Lemmas *)

Lemma checked_add_ret {SO : SignedOverflow} a b :
  in_i64 a → in_i64 b → in_i64 (a + b) → checked_add a b = Ret (a + b).
Proof.
  intros. unfold checked_add. rewrite signed_in by done. simpl.
  rewrite decide_False; [done|]. lia.
Qed.

Lemma checked_add_eq a b :
  in_i64 a → in_i64 b →
  a +$ b = if decide (in_i64 (a + b)) then Ret (a + b) else Throw overflow_error.
Proof.
  intros Ha Hb. case_decide as Hr; [by apply checked_add_ret|].
  unfold checked_add. rewrite signed_wrapping. simpl.
  rewrite decide_True; [done|].
  destruct (wrap_i64_cong (a + b)) as [k Hk]. pose proof (wrap_i64_range (a + b)).
  widths. destruct (decide (a + b > 0)); [left|right]; split_and!; try lia.
  all: assert (k = 1 ∨ k = -1) by lia; lia.
Qed.

Lemma checked_add_inv a b v :
  in_i64 a → in_i64 b → a +$ b = Ret v → v = a + b ∧ in_i64 v.
Proof. intros Ha Hb. rewrite checked_add_eq by done. case_decide; naive_solver. Qed.

Lemma checked_sub_eq a b :
  in_i64 a → in_i64 b →
  a -$ b = if decide (b ≠ I64_MIN ∧ in_i64 (a - b)) then Ret (a - b) else Throw overflow_error.
Proof.
  intros Ha Hb. unfold checked_sub. case_decide as Hm.
  - rewrite decide_False; [done|]. naive_solver.
  - assert (in_i64 (- b)) by (widths; lia).
    rewrite signed_in by done. simpl. rewrite checked_add_eq by done.
    replace (a + - b) with (a - b) by lia.
    destruct (decide (in_i64 (a - b))); [rewrite decide_True | rewrite decide_False]; naive_solver.
Qed.

Lemma checked_sub_inv a b v :
  in_i64 a → in_i64 b → a -$ b = Ret v → v = a - b ∧ in_i64 v.
Proof. intros Ha Hb. rewrite checked_sub_eq by done. case_decide; naive_solver. Qed.

Lemma quot_wrap_detects a b :
  in_i64 a → in_i64 b → a ≠ 0 → ¬ in_i64 (a * b) → Z.quot (wrap_i64 (a * b)) a ≠ b.
Proof.
  intros Ha Hb Hz Hno Hq. destruct (wrap_i64_cong (a * b)) as [k Hk].
  pose proof (wrap_i64_range (a * b)) as Hr.
  assert (k ≠ 0) by (intros ->; apply Hno; rewrite Z.mul_0_l, Z.sub_0_r in Hk; by rewrite <-Hk).
  pose proof (Z.quot_rem' (wrap_i64 (a * b)) a) as Hd.
  pose proof (Z.rem_bound_abs (wrap_i64 (a * b)) a Hz) as Hb'.
  rewrite Hq, Hk in Hd. rewrite Hk in Hb'. widths. lia.
Qed.

Lemma checked_mul_eq a b :
  in_i64 a → in_i64 b →
  @checked_mul_i64 wrapping a b =
    if decide (in_i64 (a * b)) then Ret (a * b) else Throw overflow_error.
Proof.
  intros Ha Hb. unfold checked_mul_i64.
  case_decide as Hz.
  { replace (a * b) with 0 by lia. by rewrite decide_True by (widths; lia). }
  case_decide as Hm.
  { rewrite decide_False; [done|]. widths. destruct Hm as [[-> ->]|[-> ->]]; lia. }
  rewrite signed_wrapping. simpl.
  destruct (decide (in_i64 (a * b))) as [Hin|Hout].
  - rewrite wrap_i64_id by done. rewrite decide_False; [done|].
    rewrite (Z.mul_comm a b), Z.quot_mul by tauto. tauto.
  - rewrite decide_True; [done|]. apply quot_wrap_detects; tauto.
Qed.

(** Quotient of an integer division rounded towards plus infinity. *)
Definition ceil_div (a d : Z) : Z := - ((- a) `div` d).

Lemma ceil_div_bounds a d : 0 < d → d * (ceil_div a d - 1) < a ≤ d * ceil_div a d.
Proof.
  intros. unfold ceil_div. pose proof (Z.div_mod (- a) d).
  pose proof (Z.mod_pos_bound (- a) d). nia.
Qed.

Lemma ceil_div_unique a d q : 0 < d → d * (q - 1) < a ≤ d * q → q = ceil_div a d.
Proof. intros Hd Hq. pose proof (ceil_div_bounds a d Hd). nia. Qed.

Lemma ceil_div_mono a b d : 0 < d → a ≤ b → ceil_div a d ≤ ceil_div b d.
Proof. intros ??. unfold ceil_div. assert ((- b) `div` d ≤ (- a) `div` d) by (apply Z.div_le_mono; lia). lia. Qed.

Lemma ceil_div_nonneg a d : 0 < d → 0 ≤ a → 0 ≤ ceil_div a d.
Proof. intros. pose proof (ceil_div_bounds a d). nia. Qed.

Lemma ceil_div_pos a d : 0 < d → 0 < a → 0 < ceil_div a d.
Proof. intros. pose proof (ceil_div_bounds a d). nia. Qed.

Lemma ceil_div_le a d : 0 < d → 0 ≤ a → ceil_div a d ≤ a.
Proof. intros. pose proof (ceil_div_bounds a d). nia. Qed.

Lemma checked_div_ceil_pos m d :
  0 < d → checked_div m d kCeil = Ret (ceil_div m d).
Proof.
  intros Hd. unfold checked_div. rewrite !decide_False by lia.
  pose proof (Z.quot_rem' m d). pose proof (Z.rem_bound_abs m d).
  assert (m < 0 → Z.rem m d ≤ 0) by (intros; apply Z.rem_nonpos; lia).
  assert (0 ≤ m → 0 ≤ Z.rem m d) by (intros; apply Z.rem_nonneg; lia).
  case_decide; [f_equal; apply ceil_div_unique; nia|].
  rewrite (bool_decide_eq_true_2 (d > 0)) by lia.
  case_bool_decide.
  - rewrite decide_True by done. f_equal. apply ceil_div_unique; nia.
  - rewrite decide_False by naive_solver. rewrite decide_False by naive_solver.
    f_equal. apply ceil_div_unique; nia.
Qed.

(** Quotients towards plus infinity, towards minus infinity and towards zero. *)
Definition rounded (r : Rounding) (m d q : Z) : Prop :=
  match r with
  | kTruncate => q = Z.quot m d
  | kFloor => q = m `div` d
  | kCeil => q = - ((- m) `div` d)
  end.

Lemma quot_floor_ceil m d : d ≠ 0 →
  (Z.rem m d = 0 → m `div` d = Z.quot m d ∧ - ((- m) `div` d) = Z.quot m d) ∧
  (Z.rem m d ≠ 0 → (0 < Z.rem m d ↔ 0 < d) →
     m `div` d = Z.quot m d ∧ - ((- m) `div` d) = Z.quot m d + 1) ∧
  (Z.rem m d ≠ 0 → ¬ (0 < Z.rem m d ↔ 0 < d) →
     m `div` d = Z.quot m d - 1 ∧ - ((- m) `div` d) = Z.quot m d).
Proof.
  intros Hd. pose proof (Z.quot_rem' m d) as Hq. pose proof (Z.rem_bound_abs m d Hd) as Hb.
  assert (∀ a q r, a = d * q + r → (0 ≤ r < d ∨ d < r ≤ 0) → a `div` d = q) as Hdiv.
  { intros a q r Ha Hr. symmetry. by apply (Z.div_unique a d q r). }
  split_and!; intros; split.
  - apply (Hdiv _ _ 0); lia.
  - rewrite (Hdiv _ (- Z.quot m d) 0); lia.
  - apply (Hdiv _ _ (Z.rem m d)); lia.
  - rewrite (Hdiv _ (- Z.quot m d - 1) (d - Z.rem m d)); lia.
  - apply (Hdiv _ _ (Z.rem m d + d)); lia.
  - rewrite (Hdiv _ (- Z.quot m d) (- Z.rem m d)); lia.
Qed.

Lemma quot_in_i64 m d : in_i64 m → 2 ≤ Z.abs d → I64_MIN < Z.quot m d < I64_MAX.
Proof.
  intros Hm Hd. pose proof (Z.quot_rem' m d). pose proof (Z.rem_bound_abs m d). widths. nia.
Qed.

(** ** Theorems *)

(** C36. Money arithmetic on two's complement is exact: addition, subtraction and
    multiplication of two int64 values return the mathematical result when it
    fits in int64 and throw [overflow_error] when it does not; subtraction also
    rejects the subtrahend -2^63, whatever the result. *)
Theorem money_arithmetic_exact a b :
  in_i64 a → in_i64 b →
  a +$ b = (if decide (in_i64 (a + b)) then Ret (a + b) else Throw overflow_error) ∧
  a -$ b = (if decide (b ≠ I64_MIN ∧ in_i64 (a - b)) then Ret (a - b) else Throw overflow_error) ∧
  @checked_mul wrapping a b =
    (if decide (in_i64 (a * b)) then Ret (a * b) else Throw overflow_error).
Proof.
  intros. split_and!; [by apply checked_add_eq|by apply checked_sub_eq|by apply checked_mul_eq].
Qed.

Lemma money_arithmetic_exact_witness :
  I64_MAX +$ 1 = Throw overflow_error ∧ I64_MAX -$ I64_MIN = Throw overflow_error ∧
  @checked_mul wrapping I64_MAX 1 = Ret I64_MAX.
Proof.
  destruct (money_arithmetic_exact I64_MAX 1) as (-> & _ & ->); [by vm_compute|by vm_compute|].
  destruct (money_arithmetic_exact I64_MAX I64_MIN) as (_ & -> & _); by vm_compute.
Defined.

(** Under the C++ standard's reading of signed overflow the guards of
    [checked_add] and [checked_mul_i64] never report anything that the guards
    before the operation did not: an execution that would reach
    [throw overflow_error] through the result test has already overflowed, so
    addition never throws [overflow_error] and its overflows are undefined. *)
Theorem strict_overflow_is_undefined a b :
  in_i64 a → in_i64 b →
  @checked_add strict a b =
    (if decide (in_i64 (a + b)) then Ret (a + b) else Throw undefined_behaviour).
Proof.
  intros Ha Hb. case_decide; [by apply checked_add_ret|].
  unfold checked_add, signed. by rewrite decide_False.
Qed.

Lemma strict_overflow_is_undefined_witness :
  @checked_add strict I64_MAX 1 = Throw undefined_behaviour.
Proof. rewrite (strict_overflow_is_undefined I64_MAX 1); by vm_compute. Defined.

(** [checked_div] divides exactly in the requested direction: for every
    divisor other than 0 (a domain error) and every quotient that fits, the
    result is the quotient rounded towards zero, minus infinity or plus infinity
    as the mode says, and it fits in int64. *)
Theorem checked_div_exact m d r :
  in_i64 m → in_i64 d →
  if decide (d = 0) then checked_div m d r = Throw domain_error
  else if decide (m = I64_MIN ∧ d = -1) then checked_div m d r = Throw overflow_error
  else ∃ q, checked_div m d r = Ret q ∧ rounded r m d q ∧ in_i64 q.
Proof.
  intros Hm Hd. unfold checked_div. case_decide as Hz; [done|]. case_decide as Ho; [done|].
  destruct (quot_floor_ceil m d Hz) as (H0 & Hs & Hn).
  assert (Z.rem m d ≠ 0 → 2 ≤ Z.abs d) as Hbig.
  { intros Hr. destruct (decide (d = 1)) as [->|]; [by rewrite Z.rem_1_r in Hr|].
    destruct (decide (d = -1)) as [->|]; [|lia].
    by change (-1) with (- (1)) in Hr; rewrite Z.rem_opp_r, Z.rem_1_r in Hr by lia. }
  case_decide as Hr.
  { eexists. split; [done|]. destruct (H0 Hr) as [Hf Hc]. split; [destruct r; simpl; lia|].
    pose proof (Z.quot_rem' m d). widths. nia. }
  pose proof (quot_in_i64 m d Hm (Hbig Hr)) as Hq.
  assert (bool_decide (Z.rem m d > 0) = bool_decide (d > 0) ↔ (0 < Z.rem m d ↔ 0 < d)) as Hb.
  { repeat case_bool_decide; split; intros; try done; lia. }
  destruct (decide (bool_decide (Z.rem m d > 0) = bool_decide (d > 0))) as [Heq|Hne].
  - destruct (Hs Hr) as [Hf Hc]; [by apply Hb|].
    destruct r; simpl; repeat case_decide; try tauto; eexists; (split; [done|]); widths; split; lia.
  - destruct (Hn Hr) as [Hf Hc]; [by rewrite <-Hb|].
    destruct r; simpl; repeat case_decide; try tauto; eexists; (split; [done|]); widths; split; lia.
Qed.

Lemma checked_div_exact_witness : ∃ q, checked_div (-7) 2 kFloor = Ret q ∧ q = (-7) `div` 2 ∧ in_i64 q.
Proof. apply (checked_div_exact (-7) 2 kFloor); by vm_compute. Defined.

(** [from_units] multiplies without a check: it returns the exact amount
    exactly when the product fits, and a silently wrapped one otherwise, so some
    positive number of units becomes a small amount of money. *)
Theorem from_units_wraps units :
  (@from_units wrapping units = Ret (units * kMicrosPerUnit) ↔ in_i64 (units * kMicrosPerUnit)) ∧
  @from_units wrapping 18446744073710 = Ret 448384.
Proof.
  split; [|by vm_compute]. unfold from_units. rewrite signed_wrapping.
  pose proof (wrap_i64_range (units * kMicrosPerUnit)) as Hr. split.
  - intros [= Heq]. by rewrite Heq in Hr.
  - intros. by rewrite wrap_i64_id.
Qed.
