(* ===== verification/Identity.v ===== *)
(** * Identity: strongly typed identities

    Models include/costgovernor/identity.hpp: [Id T] is a 64-bit unsigned value
    under a phantom tag, so identities of different domains are different
    types. *)

From stdpp Require Import prelude gmap strings.
From S2P Require Import Prelude.
From stdpp Require Import options.

Inductive IdTag :=
   | CoordinatorEpochTag | WorkerIdTag | WorkerBootIdTag | ServiceIdTag
   | ServiceGenerationTag | WorkloadIdTag | WorkloadGenerationTag | RequestIdTag
   | RequestGenerationTag | AttemptIdTag | AttemptGenerationTag | PlanIdTag
   | PlanGenerationTag | CostPolicyIdTag | CostPolicyGenerationTag | BudgetIdTag
   | BudgetGenerationTag | PriceScheduleIdTag | PriceScheduleGenerationTag
   | EvidenceIdTag | EvidenceGenerationTag | ResourceIdTag | ResourceGenerationTag
   | DeviceIdTag | DeviceGenerationTag | PlacementIdTag | PlacementGenerationTag
   | RecoveryGenerationTag | DispatchIdTag | InterventionIdTag
   | InterventionGenerationTag | ReservationIdTag.

Record Id (T : IdTag) := mkId { value : Z }.
Arguments mkId {T} value.
Arguments value {T} i.

#[global] Instance Id_eq_dec T : EqDecision (Id T).
Proof. solve_decision. Defined.
#[global] Instance Id_countable T : Countable (Id T).
Proof. refine (inj_countable' value mkId _). by intros []. Defined.

(** [Id()]: value 0, the invalid identity. *)
Definition no_id {T} : Id T := mkId 0.

Definition valid {T} (i : Id T) : bool := bool_decide (value i ≠ 0).
Definition id_ltb {T} (a b : Id T) : bool := bool_decide (value a < value b).

(** [Id(i.value() + 1)] *)
Definition id_succ {T} (i : Id T) : Id T := mkId (u64_succ (value i)).

Definition id_ok {T} (i : Id T) : Prop := in_u64 (value i).
#[global] Instance id_ok_dec {T} (i : Id T) : Decision (id_ok i).
Proof. unfold id_ok. apply _. Defined.

Abbreviation CoordinatorEpoch := (Id CoordinatorEpochTag).
Abbreviation WorkerId := (Id WorkerIdTag).
Abbreviation WorkerBootId := (Id WorkerBootIdTag).
Abbreviation ServiceId := (Id ServiceIdTag).
Abbreviation ServiceGeneration := (Id ServiceGenerationTag).
Abbreviation WorkloadId := (Id WorkloadIdTag).
Abbreviation WorkloadGeneration := (Id WorkloadGenerationTag).
Abbreviation RequestId := (Id RequestIdTag).
Abbreviation RequestGeneration := (Id RequestGenerationTag).
Abbreviation AttemptId := (Id AttemptIdTag).
Abbreviation AttemptGeneration := (Id AttemptGenerationTag).
Abbreviation PlanId := (Id PlanIdTag).
Abbreviation PlanGeneration := (Id PlanGenerationTag).
Abbreviation CostPolicyId := (Id CostPolicyIdTag).
Abbreviation CostPolicyGeneration := (Id CostPolicyGenerationTag).
Abbreviation BudgetId := (Id BudgetIdTag).
Abbreviation BudgetGeneration := (Id BudgetGenerationTag).
Abbreviation PriceScheduleId := (Id PriceScheduleIdTag).
Abbreviation PriceScheduleGeneration := (Id PriceScheduleGenerationTag).
Abbreviation EvidenceId := (Id EvidenceIdTag).
Abbreviation EvidenceGeneration := (Id EvidenceGenerationTag).
Abbreviation ResourceId := (Id ResourceIdTag).
Abbreviation ResourceGeneration := (Id ResourceGenerationTag).
Abbreviation DeviceId := (Id DeviceIdTag).
Abbreviation DeviceGeneration := (Id DeviceGenerationTag).
Abbreviation PlacementId := (Id PlacementIdTag).
Abbreviation PlacementGeneration := (Id PlacementGenerationTag).
Abbreviation RecoveryGeneration := (Id RecoveryGenerationTag).
Abbreviation DispatchId := (Id DispatchIdTag).
Abbreviation InterventionId := (Id InterventionIdTag).
Abbreviation InterventionGeneration := (Id InterventionGenerationTag).
Abbreviation ReservationId := (Id ReservationIdTag).

Lemma id_succ_ne {T} (i : Id T) : id_ok i → id_succ i ≠ i.
Proof.
  intros Hi Heq. apply (f_equal value) in Heq. by apply (u64_succ_ne (value i)).
Qed.

Lemma value_inj {T} (i j : Id T) : value i = value j → i = j.
Proof. destruct i, j; simpl; congruence. Qed.
