(* ===== verification/Units.v ===== *)
(** * Units: typed integer amounts and the scale constants

    Models include/costgovernor/units.hpp.  An [Amount] is its [value_]; the
    checked operations are those of the class template. *)

From stdpp Require Import prelude gmap strings.
From S2P Require Import Prelude Effects Money.
From stdpp Require Import options.

Inductive Unit :=
  | DurationNs | AccelNs | EnergyMicroJ | TransferB | MemoryByteNs | StorageB
  | TokenCount | RequestCount | OperationCount | RetryUnit.

(** [Tag::name()] *)
Definition unit_name (u : Unit) : string :=
  match u with
  | DurationNs => "duration_ns"
  | AccelNs => "accelerator_ns"
  | EnergyMicroJ => "energy_microj"
  | TransferB => "transfer_bytes"
  | MemoryByteNs => "memory_byte_ns"
  | StorageB => "bytes"
  | TokenCount => "tokens"
  | RequestCount => "requests"
  | OperationCount => "operations"
  | RetryUnit => "retries"
  end.

(** [Amount<Tag>] *)
Record Amount (u : Unit) := mkAmount { count : Z }.
Arguments mkAmount {u} count.
Arguments count {u} a.

#[global] Instance Amount_eq_dec u : EqDecision (Amount u).
Proof. solve_decision. Defined.

Abbreviation DurationNanoseconds := (Amount DurationNs).
Abbreviation AcceleratorNanoseconds := (Amount AccelNs).
Abbreviation EnergyMicroJoules := (Amount EnergyMicroJ).
Abbreviation TransferBytes := (Amount TransferB).
Abbreviation MemoryByteNanoseconds := (Amount MemoryByteNs).
Abbreviation Bytes := (Amount StorageB).

Section amount.
Context {SO : SignedOverflow} {u : Unit}.

Definition amount_add (a b : Amount u) : res (Amount u) :=
  let! r := checked_add (count a) (count b) in Ret (mkAmount r).
Definition amount_sub (a b : Amount u) : res (Amount u) :=
  let! r := checked_sub (count a) (count b) in Ret (mkAmount r).
Definition amount_checked_mul (a : Amount u) (factor : Z) : res (Amount u) :=
  let! r := checked_mul_i64 (count a) factor in Ret (mkAmount r).
Definition amount_checked_div (a : Amount u) (divisor : Z) : res (Amount u) :=
  if decide (divisor = 0) then Throw domain_error
  else if decide (count a = I64_MIN ∧ divisor = -1) then Throw overflow_error
  else Ret (mkAmount (Z.quot (count a) divisor)).
End amount.

(** [namespace money_scale] *)
Definition kNsPerSecond : Z := 1000000000.
Definition kBytesPerGB : Z := 1000000000.
Definition kMicroJoulesPerKWh : Z := 1000000000 * 3600000.
Definition kBytesPerGBs : Z := 1000000000.
