(* ===== verification/Price.v ===== *)
(** * Price: price kinds, provenance, observations and schedules

    Models include/costgovernor/price.hpp and the clock of
    include/costgovernor/clock.hpp. *)

From stdpp Require Import prelude gmap strings.
From S2P Require Import Prelude Effects Money Identity.
From stdpp Require Import options.

Module PriceKind.
Inductive PriceKind :=
  | ACCELERATOR_TIME | ENERGY | TRANSFER | MEMORY_HOLDING | STORAGE | RESIDENCY_HOLDING
  | REQUEST | TOKEN | OPERATION | CUSTOM_TYPED_COMPONENT | other (v : Z).

#[global] Instance PriceKind_eq_dec : EqDecision PriceKind.
Proof. solve_decision. Defined.

Definition PriceKind_to_u8 (e : PriceKind) : Z :=
  match e with
  | ACCELERATOR_TIME => 0
  | ENERGY => 1
  | TRANSFER => 2
  | MEMORY_HOLDING => 3
  | STORAGE => 4
  | RESIDENCY_HOLDING => 5
  | REQUEST => 6
  | TOKEN => 7
  | OPERATION => 8
  | CUSTOM_TYPED_COMPONENT => 9
  | other v => v
  end.

Definition PriceKind_of_u8 (v : Z) : PriceKind :=
  match v with
  | 0 => ACCELERATOR_TIME
  | 1 => ENERGY
  | 2 => TRANSFER
  | 3 => MEMORY_HOLDING
  | 4 => STORAGE
  | 5 => RESIDENCY_HOLDING
  | 6 => REQUEST
  | 7 => TOKEN
  | 8 => OPERATION
  | 9 => CUSTOM_TYPED_COMPONENT
  | _ => other v
  end.

#[global] Instance PriceKind_enum8 : Enum8 PriceKind.
Proof. refine {| to_u8 := PriceKind_to_u8; of_u8 := PriceKind_of_u8 |}. solve_enum8. Defined.

Definition price_kind_name (e : PriceKind) : string :=
  match e with
  | ACCELERATOR_TIME => "ACCELERATOR_TIME"
  | ENERGY => "ENERGY"
  | TRANSFER => "TRANSFER"
  | MEMORY_HOLDING => "MEMORY_HOLDING"
  | STORAGE => "STORAGE"
  | RESIDENCY_HOLDING => "RESIDENCY_HOLDING"
  | REQUEST => "REQUEST"
  | TOKEN => "TOKEN"
  | OPERATION => "OPERATION"
  | CUSTOM_TYPED_COMPONENT => "CUSTOM_TYPED_COMPONENT"
  | other _ => "UNKNOWN"
  end.
End PriceKind.
Abbreviation PriceKind := PriceKind.PriceKind.

Module Provenance.
Inductive Provenance :=
  | CONFIGURED_POLICY | MEASURED | REPORTED | DERIVED | SYNTHETIC | UNKNOWN
  | other (v : Z).

#[global] Instance Provenance_eq_dec : EqDecision Provenance.
Proof. solve_decision. Defined.

Definition Provenance_to_u8 (e : Provenance) : Z :=
  match e with
  | CONFIGURED_POLICY => 0
  | MEASURED => 1
  | REPORTED => 2
  | DERIVED => 3
  | SYNTHETIC => 4
  | UNKNOWN => 5
  | other v => v
  end.

Definition Provenance_of_u8 (v : Z) : Provenance :=
  match v with
  | 0 => CONFIGURED_POLICY
  | 1 => MEASURED
  | 2 => REPORTED
  | 3 => DERIVED
  | 4 => SYNTHETIC
  | 5 => UNKNOWN
  | _ => other v
  end.

#[global] Instance Provenance_enum8 : Enum8 Provenance.
Proof. refine {| to_u8 := Provenance_to_u8; of_u8 := Provenance_of_u8 |}. solve_enum8. Defined.

Definition provenance_name (e : Provenance) : string :=
  match e with
  | CONFIGURED_POLICY => "CONFIGURED_POLICY"
  | MEASURED => "MEASURED"
  | REPORTED => "REPORTED"
  | DERIVED => "DERIVED"
  | SYNTHETIC => "SYNTHETIC"
  | UNKNOWN => "UNKNOWN"
  | other _ => "UNKNOWN"
  end.
End Provenance.
Abbreviation Provenance := Provenance.Provenance.

Module DataLabel.
Inductive DataLabel :=
  | REAL | SYNTHETIC | POLICY | UNSUPPORTED | other (v : Z).

#[global] Instance DataLabel_eq_dec : EqDecision DataLabel.
Proof. solve_decision. Defined.

Definition DataLabel_to_u8 (e : DataLabel) : Z :=
  match e with
  | REAL => 0
  | SYNTHETIC => 1
  | POLICY => 2
  | UNSUPPORTED => 3
  | other v => v
  end.

Definition DataLabel_of_u8 (v : Z) : DataLabel :=
  match v with
  | 0 => REAL
  | 1 => SYNTHETIC
  | 2 => POLICY
  | 3 => UNSUPPORTED
  | _ => other v
  end.

#[global] Instance DataLabel_enum8 : Enum8 DataLabel.
Proof. refine {| to_u8 := DataLabel_to_u8; of_u8 := DataLabel_of_u8 |}. solve_enum8. Defined.

Definition data_label_name (e : DataLabel) : string :=
  match e with
  | REAL => "REAL"
  | SYNTHETIC => "SYNTHETIC"
  | POLICY => "POLICY"
  | UNSUPPORTED => "UNSUPPORTED"
  | other _ => "UNKNOWN"
  end.
End DataLabel.
Abbreviation DataLabel := DataLabel.DataLabel.

Record PriceObservation := mkPriceObservation {
  o_id : EvidenceId;
  o_kind : PriceKind;
  o_resource_scope : ResourceId;   (** [ResourceId()] = any resource *)
  o_device : DeviceId;             (** [DeviceId()] = any device *)
  o_amount : MoneyMicros;          (** price per the kind's unit *)
  o_currency : string;
  o_provenance : Provenance;
  o_label : DataLabel;
  o_valid_from_ms : Z;             (** inclusive *)
  o_valid_to_ms : Z;               (** exclusive; 0 = never expires *)
  o_observed_at_ms : Z;
  o_generation : EvidenceGeneration;
  o_epoch : CoordinatorEpoch;
  o_worker : WorkerId;
  o_boot : WorkerBootId;
}.

#[global] Instance PriceObservation_eq_dec : EqDecision PriceObservation.
Proof. solve_decision. Defined.

Definition valid_currency (o : PriceObservation) (policy_currency : string) : bool :=
  bool_decide (o_currency o = policy_currency).

Record PriceSchedule := mkPriceSchedule {
  s_id : PriceScheduleId;
  s_generation : PriceScheduleGeneration;
  s_observations : list PriceObservation;
  s_created_at_ms : Z;
}.

#[global] Instance PriceSchedule_eq_dec : EqDecision PriceSchedule.
Proof. solve_decision. Defined.

(** [PriceSchedule s;] *)
Definition empty_schedule : PriceSchedule := mkPriceSchedule no_id no_id [] 0.

(** ** Clock

    [Clock::now_ms()] is a virtual call: an operation that reads the clock
    several times may see different values.  [Readings] is the sequence of
    values one operation sees; [MockClock] always returns the same one. *)
Definition Readings : Type := nat → Z.

Record MockClock := mkMockClock { now_ : Z }.

Definition mock_set (c : MockClock) (now : Z) : MockClock := mkMockClock now.
(** [now_ += delta_ms] on int64. *)
Definition mock_advance (c : MockClock) (delta_ms : Z) : MockClock :=
  mkMockClock (wrap_i64 (now_ c + delta_ms)).
Definition mock_now_ms (c : MockClock) : Z := now_ c.
(** [SystemClock] counts the ticks of [std::chrono::system_clock] since the epoch, of
    which there are [ticks_per_ms] in a millisecond; [duration_cast] truncates. *)
Definition system_now_ms (ticks_per_ms : Z) (ticks : Z) : Z := Z.quot ticks ticks_per_ms.
Definition system_readings (ticks_per_ms : Z) (ticks : nat → Z) : Readings :=
  λ i, system_now_ms ticks_per_ms (ticks i).

Definition mock_readings (c : MockClock) : Readings := λ _, mock_now_ms c.

(** A [SystemClock] reads an int64 and never goes back while the operating system's
    clock does not. *)
Lemma system_readings_ok ticks_per_ms ticks :
  0 < ticks_per_ms → (∀ i, in_i64 (ticks i)) →
  (∀ i, in_i64 (system_readings ticks_per_ms ticks i)) ∧
  ∀ i j, ticks i ≤ ticks j →
    system_readings ticks_per_ms ticks i ≤ system_readings ticks_per_ms ticks j.
Proof.
  intros Hp Ht. unfold system_readings, system_now_ms. split; intros i.
  - specialize (Ht i). widths.
    pose proof (Z.quot_le_mono (ticks i) (2 ^ 63 - 1) ticks_per_ms Hp).
    pose proof (Z.quot_le_mono (-2 ^ 63) (ticks i) ticks_per_ms Hp).
    pose proof (Z.quot_le_upper_bound (2 ^ 63 - 1) ticks_per_ms (2 ^ 63 - 1) Hp).
    assert (-2 ^ 63 ≤ Z.quot (-2 ^ 63) ticks_per_ms).
    { rewrite Z.quot_opp_l by lia. pose proof (Z.quot_le_upper_bound (2 ^ 63) ticks_per_ms (2 ^ 63) Hp). nia. }
    nia.
  - intros j Hij. by apply Z.quot_le_mono.
Qed.
