(* ===== verification/Policy.v ===== *)
(** * Policy: the cost policy

    Models include/costgovernor/policy.hpp. *)

From stdpp Require Import prelude gmap strings.
From S2P Require Import Prelude Effects Money Identity Price.
From stdpp Require Import options.

Module RankingMode.
Inductive RankingMode := LEXICOGRAPHIC | WEIGHTED_SCORE | other (v : Z).

#[global] Instance RankingMode_eq_dec : EqDecision RankingMode.
Proof. solve_decision. Defined.

Definition RankingMode_to_u8 (e : RankingMode) : Z :=
  match e with LEXICOGRAPHIC => 0 | WEIGHTED_SCORE => 1 | other v => v end.

Definition RankingMode_of_u8 (v : Z) : RankingMode :=
  match v with 0 => LEXICOGRAPHIC | 1 => WEIGHTED_SCORE | _ => other v end.

#[global] Instance RankingMode_enum8 : Enum8 RankingMode.
Proof. refine {| to_u8 := RankingMode_to_u8; of_u8 := RankingMode_of_u8 |}. solve_enum8. Defined.

Definition ranking_mode_name (e : RankingMode) : string :=
  if decide (e = LEXICOGRAPHIC) then "LEXICOGRAPHIC" else "WEIGHTED_SCORE".
End RankingMode.
Abbreviation RankingMode := RankingMode.RankingMode.

Record CostPolicy := mkCostPolicy {
  pol_id : CostPolicyId;
  pol_generation : CostPolicyGeneration;
  pol_epoch : CoordinatorEpoch;
  pol_currency : string;
  pol_ranking : RankingMode;
  pol_min_evidence_freshness_ms : Z;
  pol_max_evidence_age_ms : Z;
  pol_price_schedule_max_age_ms : Z;
  pol_max_projection_uncertainty : Z;
  pol_hysteresis_ms : Z;
  pol_cooldown_ms : Z;
  pol_near_budget_percent : Z;
  pol_at_risk_percent : Z;
  pol_retry_budget : MoneyMicros;
  pol_recovery_budget : MoneyMicros;
  pol_recovery_cost_known : bool;
  pol_allow_synthetic : bool;
  pol_allow_policy : bool;
  pol_allow_measured : bool;
}.

#[global] Instance CostPolicy_eq_dec : EqDecision CostPolicy.
Proof. solve_decision. Defined.

(** The default member initializers of the struct. *)
Definition default_policy : CostPolicy := {|
  pol_id := no_id; pol_generation := no_id; pol_epoch := no_id;
  pol_currency := kDefaultCurrency; pol_ranking := RankingMode.LEXICOGRAPHIC;
  pol_min_evidence_freshness_ms := 0; pol_max_evidence_age_ms := 30000;
  pol_price_schedule_max_age_ms := 30000; pol_max_projection_uncertainty := 100;
  pol_hysteresis_ms := 0; pol_cooldown_ms := 0;
  pol_near_budget_percent := 80; pol_at_risk_percent := 90;
  pol_retry_budget := 0; pol_recovery_budget := 0; pol_recovery_cost_known := false;
  pol_allow_synthetic := false; pol_allow_policy := true; pol_allow_measured := true;
|}.

Definition is_generation_current (p : CostPolicy) (g : CostPolicyGeneration) : bool :=
  bool_decide (g = pol_generation p).

Definition accepts_label (p : CostPolicy) (l : DataLabel) : bool :=
  match l with
  | DataLabel.REAL => pol_allow_measured p
  | DataLabel.POLICY => pol_allow_policy p
  | DataLabel.SYNTHETIC => pol_allow_synthetic p
  | DataLabel.UNSUPPORTED | DataLabel.other _ => false
  end.
