(* ===== verification/Budget.v ===== *)
(** * Budget: budgets, their lifecycle, and reservations

    Models include/costgovernor/budget.hpp and [BudgetReservation] of
    include/costgovernor/governor.hpp. *)

From stdpp Require Import prelude gmap strings.
From S2P Require Import Prelude Effects Money Identity Price.
From stdpp Require Import options.

Module BudgetMode.
Inductive BudgetMode :=
  | HARD | SOFT | ADVISORY | other (v : Z).

#[global] Instance BudgetMode_eq_dec : EqDecision BudgetMode.
Proof. solve_decision. Defined.

Definition BudgetMode_to_u8 (e : BudgetMode) : Z :=
  match e with
  | HARD => 0
  | SOFT => 1
  | ADVISORY => 2
  | other v => v
  end.

Definition BudgetMode_of_u8 (v : Z) : BudgetMode :=
  match v with
  | 0 => HARD
  | 1 => SOFT
  | 2 => ADVISORY
  | _ => other v
  end.

#[global] Instance BudgetMode_enum8 : Enum8 BudgetMode.
Proof. refine {| to_u8 := BudgetMode_to_u8; of_u8 := BudgetMode_of_u8 |}. solve_enum8. Defined.

Definition budget_mode_name (e : BudgetMode) : string :=
  match e with
  | HARD => "HARD"
  | SOFT => "SOFT"
  | ADVISORY => "ADVISORY"
  | other _ => "UNKNOWN"
  end.
End BudgetMode.
Abbreviation BudgetMode := BudgetMode.BudgetMode.

Module BudgetObjective.
Inductive BudgetObjective :=
  | MAX_COST_PER_REQUEST | MAX_COST_PER_TOKEN | MAX_COST_PER_OPERATION
  | MAX_TOTAL_EXECUTION_COST | MAX_ACCELERATOR_TIME_COST | MAX_ENERGY_COST
  | MAX_TRANSFER_COST | MAX_RECOVERY_COST | MAX_RETRY_COST | other (v : Z).

#[global] Instance BudgetObjective_eq_dec : EqDecision BudgetObjective.
Proof. solve_decision. Defined.

Definition BudgetObjective_to_u8 (e : BudgetObjective) : Z :=
  match e with
  | MAX_COST_PER_REQUEST => 0
  | MAX_COST_PER_TOKEN => 1
  | MAX_COST_PER_OPERATION => 2
  | MAX_TOTAL_EXECUTION_COST => 3
  | MAX_ACCELERATOR_TIME_COST => 4
  | MAX_ENERGY_COST => 5
  | MAX_TRANSFER_COST => 6
  | MAX_RECOVERY_COST => 7
  | MAX_RETRY_COST => 8
  | other v => v
  end.

Definition BudgetObjective_of_u8 (v : Z) : BudgetObjective :=
  match v with
  | 0 => MAX_COST_PER_REQUEST
  | 1 => MAX_COST_PER_TOKEN
  | 2 => MAX_COST_PER_OPERATION
  | 3 => MAX_TOTAL_EXECUTION_COST
  | 4 => MAX_ACCELERATOR_TIME_COST
  | 5 => MAX_ENERGY_COST
  | 6 => MAX_TRANSFER_COST
  | 7 => MAX_RECOVERY_COST
  | 8 => MAX_RETRY_COST
  | _ => other v
  end.

#[global] Instance BudgetObjective_enum8 : Enum8 BudgetObjective.
Proof. refine {| to_u8 := BudgetObjective_to_u8; of_u8 := BudgetObjective_of_u8 |}. solve_enum8. Defined.

Definition budget_objective_name (e : BudgetObjective) : string :=
  match e with
  | MAX_COST_PER_REQUEST => "MAX_COST_PER_REQUEST"
  | MAX_COST_PER_TOKEN => "MAX_COST_PER_TOKEN"
  | MAX_COST_PER_OPERATION => "MAX_COST_PER_OPERATION"
  | MAX_TOTAL_EXECUTION_COST => "MAX_TOTAL_EXECUTION_COST"
  | MAX_ACCELERATOR_TIME_COST => "MAX_ACCELERATOR_TIME_COST"
  | MAX_ENERGY_COST => "MAX_ENERGY_COST"
  | MAX_TRANSFER_COST => "MAX_TRANSFER_COST"
  | MAX_RECOVERY_COST => "MAX_RECOVERY_COST"
  | MAX_RETRY_COST => "MAX_RETRY_COST"
  | other _ => "UNKNOWN"
  end.
End BudgetObjective.
Abbreviation BudgetObjective := BudgetObjective.BudgetObjective.

Module BudgetLifecycle.
Inductive BudgetLifecycle :=
  | CREATED | ACTIVE | RESERVED | PARTIALLY_CONSUMED | EXHAUSTED | EXPIRED | CANCELLED
  | SUPERSEDED | CLOSED | other (v : Z).

#[global] Instance BudgetLifecycle_eq_dec : EqDecision BudgetLifecycle.
Proof. solve_decision. Defined.

Definition BudgetLifecycle_to_u8 (e : BudgetLifecycle) : Z :=
  match e with
  | CREATED => 0
  | ACTIVE => 1
  | RESERVED => 2
  | PARTIALLY_CONSUMED => 3
  | EXHAUSTED => 4
  | EXPIRED => 5
  | CANCELLED => 6
  | SUPERSEDED => 7
  | CLOSED => 8
  | other v => v
  end.

Definition BudgetLifecycle_of_u8 (v : Z) : BudgetLifecycle :=
  match v with
  | 0 => CREATED
  | 1 => ACTIVE
  | 2 => RESERVED
  | 3 => PARTIALLY_CONSUMED
  | 4 => EXHAUSTED
  | 5 => EXPIRED
  | 6 => CANCELLED
  | 7 => SUPERSEDED
  | 8 => CLOSED
  | _ => other v
  end.

#[global] Instance BudgetLifecycle_enum8 : Enum8 BudgetLifecycle.
Proof. refine {| to_u8 := BudgetLifecycle_to_u8; of_u8 := BudgetLifecycle_of_u8 |}. solve_enum8. Defined.

Definition budget_lifecycle_name (e : BudgetLifecycle) : string :=
  match e with
  | CREATED => "CREATED"
  | ACTIVE => "ACTIVE"
  | RESERVED => "RESERVED"
  | PARTIALLY_CONSUMED => "PARTIALLY_CONSUMED"
  | EXHAUSTED => "EXHAUSTED"
  | EXPIRED => "EXPIRED"
  | CANCELLED => "CANCELLED"
  | SUPERSEDED => "SUPERSEDED"
  | CLOSED => "CLOSED"
  | other _ => "UNKNOWN"
  end.
End BudgetLifecycle.
Abbreviation BudgetLifecycle := BudgetLifecycle.BudgetLifecycle.

Record Budget := mkBudget {
  b_id : BudgetId;
  b_generation : BudgetGeneration;
  b_policy_generation : CostPolicyGeneration;
  b_epoch : CoordinatorEpoch;
  b_currency : string;
  b_mode : BudgetMode;
  b_objective : BudgetObjective;
  b_limit : MoneyMicros;
  b_lifecycle : BudgetLifecycle;
  b_reserved : MoneyMicros;
  b_consumed : MoneyMicros;
  b_released : MoneyMicros;
  b_created_at_ms : Z;
  b_expires_at_ms : Z;             (** 0 = never *)
  b_label : DataLabel;
}.

#[global] Instance Budget_eq_dec : EqDecision Budget.
Proof. solve_decision. Defined.

(** Field assignments. *)
Definition set_b_lifecycle (v : BudgetLifecycle) (b : Budget) : Budget := {|
  b_id := b_id b; b_generation := b_generation b; b_policy_generation :=
  b_policy_generation b; b_epoch := b_epoch b; b_currency := b_currency b; b_mode :=
  b_mode b; b_objective := b_objective b; b_limit := b_limit b; b_lifecycle := v;
  b_reserved := b_reserved b; b_consumed := b_consumed b; b_released := b_released b;
  b_created_at_ms := b_created_at_ms b; b_expires_at_ms := b_expires_at_ms b; b_label
  := b_label b |}.
Definition set_b_reserved (v : MoneyMicros) (b : Budget) : Budget := {|
  b_id := b_id b; b_generation := b_generation b; b_policy_generation :=
  b_policy_generation b; b_epoch := b_epoch b; b_currency := b_currency b; b_mode :=
  b_mode b; b_objective := b_objective b; b_limit := b_limit b; b_lifecycle :=
  b_lifecycle b; b_reserved := v; b_consumed := b_consumed b; b_released := b_released
  b; b_created_at_ms := b_created_at_ms b; b_expires_at_ms := b_expires_at_ms b;
  b_label := b_label b |}.
Definition set_b_consumed (v : MoneyMicros) (b : Budget) : Budget := {|
  b_id := b_id b; b_generation := b_generation b; b_policy_generation :=
  b_policy_generation b; b_epoch := b_epoch b; b_currency := b_currency b; b_mode :=
  b_mode b; b_objective := b_objective b; b_limit := b_limit b; b_lifecycle :=
  b_lifecycle b; b_reserved := b_reserved b; b_consumed := v; b_released := b_released
  b; b_created_at_ms := b_created_at_ms b; b_expires_at_ms := b_expires_at_ms b;
  b_label := b_label b |}.
Definition set_b_released (v : MoneyMicros) (b : Budget) : Budget := {|
  b_id := b_id b; b_generation := b_generation b; b_policy_generation :=
  b_policy_generation b; b_epoch := b_epoch b; b_currency := b_currency b; b_mode :=
  b_mode b; b_objective := b_objective b; b_limit := b_limit b; b_lifecycle :=
  b_lifecycle b; b_reserved := b_reserved b; b_consumed := b_consumed b; b_released :=
  v; b_created_at_ms := b_created_at_ms b; b_expires_at_ms := b_expires_at_ms b;
  b_label := b_label b |}.

Definition is_live (b : Budget) : bool :=
  bool_decide (b_lifecycle b = BudgetLifecycle.ACTIVE)
  || bool_decide (b_lifecycle b = BudgetLifecycle.RESERVED)
  || bool_decide (b_lifecycle b = BudgetLifecycle.PARTIALLY_CONSUMED).

Definition is_terminal (b : Budget) : bool :=
  bool_decide (b_lifecycle b = BudgetLifecycle.EXHAUSTED)
  || bool_decide (b_lifecycle b = BudgetLifecycle.EXPIRED)
  || bool_decide (b_lifecycle b = BudgetLifecycle.CANCELLED)
  || bool_decide (b_lifecycle b = BudgetLifecycle.SUPERSEDED)
  || bool_decide (b_lifecycle b = BudgetLifecycle.CLOSED).

(** [limit - consumed], checked. *)
Definition remaining (b : Budget) : res MoneyMicros := b_limit b -$ b_consumed b.

Definition over_hard (b : Budget) : bool := bool_decide (b_consumed b > b_limit b).

(** [noexcept]: the division by 2 never throws. *)
Definition near_budget (b : Budget) : res bool :=
  if is_zero (b_limit b) then Ret false
  else
    let! half := checked_div (b_limit b) 2 kCeil in
    Ret (bool_decide (b_consumed b >= half)).

(** ** Reservations *)
Module ReservationState.
Inductive State := ACTIVE | COMMITTED | RELEASED | EXPIRED.

#[global] Instance State_eq_dec : EqDecision State.
Proof. solve_decision. Defined.
End ReservationState.

Record BudgetReservation := mkBudgetReservation {
  r_id : ReservationId;
  r_budget : BudgetId;
  r_budget_generation : BudgetGeneration;
  r_epoch : CoordinatorEpoch;
  r_amount : MoneyMicros;
  r_created_at_ms : Z;
  r_expires_at_ms : Z;
  r_state : ReservationState.State;
}.

#[global] Instance BudgetReservation_eq_dec : EqDecision BudgetReservation.
Proof. solve_decision. Defined.

Definition set_r_state (v : ReservationState.State) (r : BudgetReservation) : BudgetReservation := {|
  r_id := r_id r; r_budget := r_budget r; r_budget_generation := r_budget_generation
  r; r_epoch := r_epoch r; r_amount := r_amount r; r_created_at_ms := r_created_at_ms
  r; r_expires_at_ms := r_expires_at_ms r; r_state := v |}.
