(* ===== verification/Cost.v ===== *)
(** * Cost: evidence, breakdowns and the cost calculator

    Models include/costgovernor/cost.hpp and src/cost.cpp. *)

From stdpp Require Import prelude gmap strings.
From S2P Require Import Prelude Effects Money Identity Units Price Policy.
From stdpp Require Import options.

Module CostComponent.
Inductive CostComponent :=
  | ACCELERATOR_TIME | ENERGY | TRANSFER | MEMORY | RESIDENCY | STORAGE | RETRY
  | RECOVERY | RECOMPUTATION | OTHER.

#[global] Instance CostComponent_eq_dec : EqDecision CostComponent.
Proof. solve_decision. Defined.

Definition CostComponent_to_u8 (e : CostComponent) : Z :=
  match e with
  | ACCELERATOR_TIME => 0
  | ENERGY => 1
  | TRANSFER => 2
  | MEMORY => 3
  | RESIDENCY => 4
  | STORAGE => 5
  | RETRY => 6
  | RECOVERY => 7
  | RECOMPUTATION => 8
  | OTHER => 9
  end.

Definition cost_component_name (e : CostComponent) : string :=
  match e with
  | ACCELERATOR_TIME => "accelerator_time"
  | ENERGY => "energy"
  | TRANSFER => "transfer"
  | MEMORY => "memory"
  | RESIDENCY => "residency"
  | STORAGE => "storage"
  | RETRY => "retry"
  | RECOVERY => "recovery"
  | RECOMPUTATION => "recomputation"
  | OTHER => "other"
  end.
End CostComponent.
Abbreviation CostComponent := CostComponent.CostComponent.

Record CostEvidence := mkCostEvidence {
  e_id : EvidenceId;
  e_request : RequestId;
  e_workload : WorkloadId;
  e_attempt : AttemptId;
  e_attempt_gen : AttemptGeneration;
  e_worker : WorkerId;
  e_boot : WorkerBootId;
  e_epoch : CoordinatorEpoch;
  e_generation : EvidenceGeneration;
  e_observed_at_ms : Z;
  e_label : DataLabel;
  e_completed_successfully : bool;
  e_is_completion : bool;
  e_device : DeviceId;
  e_resource : ResourceId;
  e_accelerator_time : AcceleratorNanoseconds;
  e_energy : EnergyMicroJoules;
  e_transfer : TransferBytes;
  e_memory_hold : MemoryByteNanoseconds;
  e_residency_hold : MemoryByteNanoseconds;
  e_storage_bytes : Bytes;
  e_requests : Z;
  e_tokens : Z;
  e_operations : Z;
  e_recovery_actions : Z;
  e_recompute_ns : Z;
}.

#[global] Instance CostEvidence_eq_dec : EqDecision CostEvidence.
Proof. solve_decision. Defined.

Record ComponentValue := mkComponentValue { cv_known : bool; cv_value : MoneyMicros }.

#[global] Instance ComponentValue_eq_dec : EqDecision ComponentValue.
Proof. solve_decision. Defined.

Definition no_component : ComponentValue := mkComponentValue false 0.
Definition added_for_total (c : ComponentValue) : bool := cv_known c.

Definition kCostComponentCount : nat := 10.

(** [components] is an array of [kCostComponentCount] entries. *)
Record CostBreakdown := mkCostBreakdown {
  cb_currency : string;
  cb_label : DataLabel;
  cb_components : list ComponentValue;
  cb_total : MoneyMicros;
  cb_any_unknown : bool;
}.

#[global] Instance CostBreakdown_eq_dec : EqDecision CostBreakdown.
Proof. solve_decision. Defined.

(** [CostBreakdown bd;] with [bd.currency = currency]. *)
Definition empty_breakdown (currency : string) : CostBreakdown :=
  mkCostBreakdown currency DataLabel.POLICY (replicate kCostComponentCount no_component) 0 false.

Definition slot (bd : CostBreakdown) (i : nat) : ComponentValue :=
  default no_component (cb_components bd !! i).

Definition get (bd : CostBreakdown) (c : CostComponent) : ComponentValue :=
  slot bd (Z.to_nat (CostComponent.CostComponent_to_u8 c)).

(** ** Prices of components *)

Definition kind_for (c : CostComponent) : res PriceKind :=
  match c with
  | CostComponent.ACCELERATOR_TIME => Ret PriceKind.ACCELERATOR_TIME
  | CostComponent.ENERGY => Ret PriceKind.ENERGY
  | CostComponent.TRANSFER => Ret PriceKind.TRANSFER
  | CostComponent.MEMORY => Ret PriceKind.MEMORY_HOLDING
  | CostComponent.RESIDENCY => Ret PriceKind.RESIDENCY_HOLDING
  | CostComponent.STORAGE => Ret PriceKind.STORAGE
  | _ => throw_status Status.INVALID_INPUT
  end.

Definition denominator_for (k : PriceKind) : res Z :=
  match k with
  | PriceKind.ACCELERATOR_TIME => Ret kNsPerSecond
  | PriceKind.ENERGY => Ret kMicroJoulesPerKWh
  | PriceKind.TRANSFER => Ret kBytesPerGB
  | PriceKind.MEMORY_HOLDING => Ret kBytesPerGBs
  | PriceKind.RESIDENCY_HOLDING => Ret kBytesPerGBs
  | PriceKind.STORAGE => Ret kBytesPerGB
  | _ => throw_status Status.INVALID_INPUT
  end.

Definition ceil_mul_div (a b d : Z) : res Z :=
  if decide (a < 0 ∨ b < 0 ∨ d ≤ 0) then throw_status Status.INVALID_INPUT
  else if decide (a = 0) then Ret 0
  else
    let ua := wrap_u64 a in
    let ub := wrap_u64 b in
    let ud := wrap_u64 d in
    if decide (ub > U64_MAX `div` ua) then throw_status Status.RESOURCE_EXHAUSTED
    else
      let prod := wrap_u64 (ua * ub) in
      let q := prod `div` ud in
      let r := prod `mod` ud in
      let! q' :=
        if decide (r ≠ 0) then
          if decide (q = U64_MAX) then throw_status Status.RESOURCE_EXHAUSTED
          else Ret (wrap_u64 (q + 1))
        else Ret q in
      if decide (q' > I64_MAX) then throw_status Status.RESOURCE_EXHAUSTED
      else Ret q'.

(** [pol] is the nullable [const CostPolicy*]. *)
Definition obs_applies (p : PriceObservation) (want : PriceKind) (currency : string)
    (now_ms : Z) (dev : DeviceId) (res : ResourceId) (pol : option CostPolicy) : bool :=
  if decide (o_kind p ≠ want) then false
  else if negb (valid_currency p currency) then false
  else if decide (now_ms < o_valid_from_ms p) then false
  else if decide (o_valid_to_ms p ≠ 0 ∧ now_ms >= o_valid_to_ms p) then false
  else if negative (o_amount p) then false
  else if (match pol with Some q => negb (accepts_label q (o_label p)) | None => false end)
  then false
  else if valid dev && valid (o_device p) && bool_decide (o_device p ≠ dev) then false
  else if valid res && valid (o_resource_scope p) && bool_decide (o_resource_scope p ≠ res)
  then false
  else true.

(** The test that replaces the best observation so far by [obs]. *)
Definition more_specific (obs : PriceObservation) (best : option PriceObservation) : bool :=
  match best with
  | None => true
  | Some b =>
      (valid (o_device obs) && negb (valid (o_device b)))
      || (valid (o_resource_scope obs) && negb (valid (o_resource_scope b)))
  end.

Definition find_price (s : PriceSchedule) (want : PriceKind) (currency : string) (now_ms : Z)
    (dev : DeviceId) (res : ResourceId) (pol : option CostPolicy) : option PriceObservation :=
  foldl (λ best obs,
      if negb (obs_applies obs want currency now_ms dev res pol) then best
      else if more_specific obs best then Some obs else best)
    None (s_observations s).

Definition project_component (schedule : PriceSchedule) (comp : CostComponent) (amount : Z)
    (currency : string) (now_ms : Z) (device : DeviceId) (resource : ResourceId)
    : res MoneyMicros :=
  let! want := kind_for comp in
  match find_price schedule want currency now_ms device resource None with
  | None => throw_status Status.MISSING_PRICE
  | Some p =>
      let! denom := denominator_for (o_kind p) in
      let! micros := ceil_mul_div amount (o_amount p) denom in
      Ret (from_micros micros)
  end.

(** ** CostCalculator::project *)

(** The six measurable amounts with their component, in the source's order. *)
Definition measurable (ev : CostEvidence) : list (CostComponent * Z) :=
  [ (CostComponent.ACCELERATOR_TIME, count (e_accelerator_time ev));
    (CostComponent.ENERGY, count (e_energy ev));
    (CostComponent.TRANSFER, count (e_transfer ev));
    (CostComponent.MEMORY, count (e_memory_hold ev));
    (CostComponent.RESIDENCY, count (e_residency_hold ev));
    (CostComponent.STORAGE, count (e_storage_bytes ev)) ].

(** The seven conditional blocks of the first loop: slot, priced component, amount. *)
Definition charges (ev : CostEvidence) : list (nat * CostComponent * Z) :=
  [ (0%nat, CostComponent.ACCELERATOR_TIME, count (e_accelerator_time ev));
    (1%nat, CostComponent.ENERGY, count (e_energy ev));
    (2%nat, CostComponent.TRANSFER, count (e_transfer ev));
    (3%nat, CostComponent.MEMORY, count (e_memory_hold ev));
    (4%nat, CostComponent.RESIDENCY, count (e_residency_hold ev));
    (5%nat, CostComponent.STORAGE, count (e_storage_bytes ev));
    (8%nat, CostComponent.ACCELERATOR_TIME, e_recompute_ns ev) ].

Section project.
Context (schedule : PriceSchedule) (currency : string) (now_ms : Z).

Definition priced (ev : CostEvidence) (kind : CostComponent) (amount : Z) : res MoneyMicros :=
  project_component schedule kind amount currency now_ms (e_device ev) (e_resource ev).

(** [bd.components[i].known = true; bd.components[i].value += m;] *)
Definition add_component (comps : list ComponentValue) (i : nat) (m : MoneyMicros)
    : res (list ComponentValue) :=
  let! v := cv_value (default no_component (comps !! i)) +$ m in
  Ret (<[i := mkComponentValue true v]> comps).

(** One pass of the first loop's body. *)
Definition charge_attempt (comps : list ComponentValue) (ev : CostEvidence)
    : res (list ComponentValue) :=
  foldM (λ comps '(i, kind, amount),
      if decide (amount ≠ 0) then
        let! m := priced ev kind amount in add_component comps i m
      else Ret comps)
    (charges ev) comps.

(** [failed] of the second loop. *)
Definition failed_cost (ev : CostEvidence) : res MoneyMicros :=
  foldM (λ failed '(kind, amount),
      if decide (amount ≠ 0) then let! m := priced ev kind amount in failed +$ m
      else Ret failed)
    (measurable ev) 0.

Fixpoint success_index_from (i acc : Z) (attempts : list CostEvidence) : Z :=
  match attempts with
  | [] => acc
  | ev :: rest =>
      success_index_from (i + 1)
        (if e_is_completion ev && e_completed_successfully ev then i else acc) rest
  end.

Definition final_success_index (attempts : list CostEvidence) : Z :=
  success_index_from 0 (-1) attempts.

(** The second loop, from position [i]; [success] is the index of [success]'s element. *)
Fixpoint charge_retries (success i : Z) (attempts : list CostEvidence)
    (comps : list ComponentValue) : res (list ComponentValue) :=
  match attempts with
  | [] => Ret comps
  | ev :: rest =>
      if decide (0 ≤ success ∧ i = success) then charge_retries success (i + 1) rest comps
      else if negb (e_is_completion ev && negb (e_completed_successfully ev))
      then charge_retries success (i + 1) rest comps
      else
        let! failed := failed_cost ev in
        let! comps' := add_component comps 6 failed in
        charge_retries success (i + 1) rest comps'
  end.

(** The third loop: the sum of the known additive components. *)
Definition sum_total (comps : list ComponentValue) : res MoneyMicros :=
  foldM (λ total i,
      let c := default no_component (comps !! i) in
      if (bool_decide (i ≠ 6%nat) && bool_decide (i ≠ 7%nat) && cv_known c)
      then total +$ cv_value c else Ret total)
    (seq 0 kCostComponentCount) 0.

Definition project (attempts : list CostEvidence) : res CostBreakdown :=
  let any_unknown := existsb (λ ev, bool_decide (e_label ev = DataLabel.UNSUPPORTED)) attempts in
  let success := final_success_index attempts in
  let! comps := foldM charge_attempt attempts (cb_components (empty_breakdown currency)) in
  let! comps := charge_retries success 0 attempts comps in
  let! total := sum_total comps in
  Ret (mkCostBreakdown currency DataLabel.POLICY comps total any_unknown).
End project.
