(* ===== verification/Plan.v ===== *)
(** * Plan: candidate plans and their economics

    Models include/costgovernor/plan.hpp. *)

From stdpp Require Import prelude gmap strings.
From S2P Require Import Prelude Effects Money Identity Units Price Cost.
From stdpp Require Import options.

Module RecoveryKind.
Inductive RecoveryKind :=
  | NONE | RESTORE | RESTART | MIGRATE | REHYDRATE | SHADOW_PROMOTE | FAILOVER
  | RECOMPUTE.

#[global] Instance RecoveryKind_eq_dec : EqDecision RecoveryKind.
Proof. solve_decision. Defined.

Definition recovery_kind_name (e : RecoveryKind) : string :=
  match e with
  | NONE => "NONE"
  | RESTORE => "RESTORE"
  | RESTART => "RESTART"
  | MIGRATE => "MIGRATE"
  | REHYDRATE => "REHYDRATE"
  | SHADOW_PROMOTE => "SHADOW_PROMOTE"
  | FAILOVER => "FAILOVER"
  | RECOMPUTE => "RECOMPUTE"
  end.
End RecoveryKind.
Abbreviation RecoveryKind := RecoveryKind.RecoveryKind.

Record ExecutionPlan := mkExecutionPlan {
  p_id : PlanId;
  p_generation : PlanGeneration;
  p_workload : WorkloadId;
  p_workload_generation : WorkloadGeneration;
  p_resource : ResourceId;
  p_resource_generation : ResourceGeneration;
  p_device : DeviceId;
  p_device_generation : DeviceGeneration;
  p_placement : PlacementId;
  p_placement_generation : PlacementGeneration;
  p_recovery_generation : RecoveryGeneration;
  p_worker : WorkerId;
  p_expected_accelerator_time : AcceleratorNanoseconds;
  p_expected_energy : EnergyMicroJoules;
  p_expected_transfer : TransferBytes;
  p_expected_memory_hold : MemoryByteNanoseconds;
  p_expected_residency_hold : MemoryByteNanoseconds;
  p_expected_storage : Bytes;
  p_expected_retries : Z;
  p_expected_requests : Z;
  p_expected_tokens : Z;
  p_expected_operations : Z;
  p_recovery : RecoveryKind;
  p_recovery_recompute_ns : Z;
  p_meets_hard_slo : bool;
  p_completion_probability_percent : Z;
  p_label : DataLabel;
}.

Module Feasibility.
Inductive Feasibility :=
  | FEASIBLE | INFEASIBLE | DEFER | REVALIDATION_REQUIRED | INSUFFICIENT_EVIDENCE
  | UNKNOWN.

#[global] Instance Feasibility_eq_dec : EqDecision Feasibility.
Proof. solve_decision. Defined.

Definition feasibility_name (e : Feasibility) : string :=
  match e with
  | FEASIBLE => "FEASIBLE"
  | INFEASIBLE => "INFEASIBLE"
  | DEFER => "DEFER"
  | REVALIDATION_REQUIRED => "REVALIDATION_REQUIRED"
  | INSUFFICIENT_EVIDENCE => "INSUFFICIENT_EVIDENCE"
  | UNKNOWN => "UNKNOWN"
  end.
End Feasibility.
Abbreviation Feasibility := Feasibility.Feasibility.

Module FeasibilityReason.
Inductive FeasibilityReason :=
  | NONE | MISSING_PRICE | STALE_PRICE | MISSING_RESOURCE_EVIDENCE
  | STALE_RESOURCE_EVIDENCE | HARD_BUDGET_EXCEEDED | SLO_CONFLICT | CAPACITY_UNAVAILABLE
  | PLACEMENT_INVALID | RECOVERY_TOO_EXPENSIVE | TRANSFER_TOO_EXPENSIVE
  | ENERGY_TOO_EXPENSIVE | UNKNOWN_COST_COMPONENT.

#[global] Instance FeasibilityReason_eq_dec : EqDecision FeasibilityReason.
Proof. solve_decision. Defined.

Definition feasibility_reason_name (e : FeasibilityReason) : string :=
  match e with
  | NONE => "NONE"
  | MISSING_PRICE => "MISSING_PRICE"
  | STALE_PRICE => "STALE_PRICE"
  | MISSING_RESOURCE_EVIDENCE => "MISSING_RESOURCE_EVIDENCE"
  | STALE_RESOURCE_EVIDENCE => "STALE_RESOURCE_EVIDENCE"
  | HARD_BUDGET_EXCEEDED => "HARD_BUDGET_EXCEEDED"
  | SLO_CONFLICT => "SLO_CONFLICT"
  | CAPACITY_UNAVAILABLE => "CAPACITY_UNAVAILABLE"
  | PLACEMENT_INVALID => "PLACEMENT_INVALID"
  | RECOVERY_TOO_EXPENSIVE => "RECOVERY_TOO_EXPENSIVE"
  | TRANSFER_TOO_EXPENSIVE => "TRANSFER_TOO_EXPENSIVE"
  | ENERGY_TOO_EXPENSIVE => "ENERGY_TOO_EXPENSIVE"
  | UNKNOWN_COST_COMPONENT => "UNKNOWN_COST_COMPONENT"
  end.
End FeasibilityReason.
Abbreviation FeasibilityReason := FeasibilityReason.FeasibilityReason.

Record PlanEconomics := mkPlanEconomics {
  pe_feasible : Feasibility;
  pe_reason : FeasibilityReason;
  pe_projected : CostBreakdown;
  pe_projected_per_request : MoneyMicros;
  pe_projected_per_token : MoneyMicros;
  pe_projected_per_operation : MoneyMicros;
  pe_per_token_valid : bool;
}.

#[global] Instance PlanEconomics_eq_dec : EqDecision PlanEconomics.
Proof. solve_decision. Defined.

(** [PlanEconomics e;] followed by assignments to [feasible] and [reason]. *)
Definition economics_verdict (f : Feasibility) (r : FeasibilityReason) : PlanEconomics :=
  mkPlanEconomics f r (empty_breakdown kDefaultCurrency) 0 0 0 false.
