(* ===== verification/Decision.v ===== *)
(** * Decision: authority contexts, decisions, explanations, interventions

    Models include/costgovernor/decision.hpp and the ledger entries and the
    snapshot of include/costgovernor/persistence.hpp. *)

From stdpp Require Import prelude gmap strings.
From S2P Require Import Prelude Effects Money Identity Units Price Policy Budget Cost.
From S2P Require Import Plan.
From stdpp Require Import options.

Record AuthorityContext := mkAuthorityContext {
  a_epoch : CoordinatorEpoch;
  a_policy_generation : CostPolicyGeneration;
  a_price_generation : PriceScheduleGeneration;
  a_evidence_generation : EvidenceGeneration;
  a_plan_generation : PlanGeneration;
  a_workload_generation : WorkloadGeneration;
  a_worker : WorkerId;
  a_boot : WorkerBootId;
  a_resource_generation : ResourceGeneration;
  a_placement_generation : PlacementGeneration;
  a_recovery_generation : RecoveryGeneration;
  a_budget_generation : BudgetGeneration;
  a_intervention_generation : InterventionGeneration;
}.

#[global] Instance AuthorityContext_eq_dec : EqDecision AuthorityContext.
Proof. solve_decision. Defined.

Definition no_authority : AuthorityContext :=
  mkAuthorityContext no_id no_id no_id no_id no_id no_id no_id no_id no_id no_id no_id no_id no_id.

(** Every field except [intervention_generation] takes part. *)
Definition jurisdiction_changed (x y : AuthorityContext) : bool :=
  negb (bool_decide (a_epoch x = a_epoch y)
    && bool_decide (a_policy_generation x = a_policy_generation y)
    && bool_decide (a_price_generation x = a_price_generation y)
    && bool_decide (a_evidence_generation x = a_evidence_generation y)
    && bool_decide (a_plan_generation x = a_plan_generation y)
    && bool_decide (a_workload_generation x = a_workload_generation y)
    && bool_decide (a_worker x = a_worker y)
    && bool_decide (a_boot x = a_boot y)
    && bool_decide (a_resource_generation x = a_resource_generation y)
    && bool_decide (a_placement_generation x = a_placement_generation y)
    && bool_decide (a_recovery_generation x = a_recovery_generation y)
    && bool_decide (a_budget_generation x = a_budget_generation y)).

Module CostState.
Inductive CostState :=
  | WITHIN_BUDGET | NEAR_BUDGET | AT_RISK | OVER_SOFT_BUDGET | OVER_HARD_BUDGET
  | REVALIDATION_REQUIRED | INSUFFICIENT_EVIDENCE | UNKNOWN.

#[global] Instance CostState_eq_dec : EqDecision CostState.
Proof. solve_decision. Defined.

Definition CostState_to_u8 (e : CostState) : Z :=
  match e with
  | WITHIN_BUDGET => 0
  | NEAR_BUDGET => 1
  | AT_RISK => 2
  | OVER_SOFT_BUDGET => 3
  | OVER_HARD_BUDGET => 4
  | REVALIDATION_REQUIRED => 5
  | INSUFFICIENT_EVIDENCE => 6
  | UNKNOWN => 7
  end.

Definition cost_state_name (e : CostState) : string :=
  match e with
  | WITHIN_BUDGET => "WITHIN_BUDGET"
  | NEAR_BUDGET => "NEAR_BUDGET"
  | AT_RISK => "AT_RISK"
  | OVER_SOFT_BUDGET => "OVER_SOFT_BUDGET"
  | OVER_HARD_BUDGET => "OVER_HARD_BUDGET"
  | REVALIDATION_REQUIRED => "REVALIDATION_REQUIRED"
  | INSUFFICIENT_EVIDENCE => "INSUFFICIENT_EVIDENCE"
  | UNKNOWN => "UNKNOWN"
  end.
End CostState.
Abbreviation CostState := CostState.CostState.

Module DecisionKind.
Inductive DecisionKind :=
  | AUTHORIZE | REJECT | DEFER | REVALIDATE | NO_FEASIBLE_PLAN.

#[global] Instance DecisionKind_eq_dec : EqDecision DecisionKind.
Proof. solve_decision. Defined.

Definition DecisionKind_to_u8 (e : DecisionKind) : Z :=
  match e with
  | AUTHORIZE => 0
  | REJECT => 1
  | DEFER => 2
  | REVALIDATE => 3
  | NO_FEASIBLE_PLAN => 4
  end.

Definition decision_kind_name (e : DecisionKind) : string :=
  match e with
  | AUTHORIZE => "AUTHORIZE"
  | REJECT => "REJECT"
  | DEFER => "DEFER"
  | REVALIDATE => "REVALIDATE"
  | NO_FEASIBLE_PLAN => "NO_FEASIBLE_PLAN"
  end.
End DecisionKind.
Abbreviation DecisionKind := DecisionKind.DecisionKind.

(** [WhatWouldChange::Alt] *)
Record Alt := mkAlt {
  alt_name : string;
  alt_applicable : bool;
  alt_feasible : Feasibility;
  alt_projected_cost : MoneyMicros;
  alt_delta : MoneyMicros;
}.

Record CostExplanation := mkCostExplanation {
  ex_objective : string;
  ex_currency : string;
  ex_projected : CostBreakdown;
  ex_realized : CostBreakdown;
  ex_prices_used : list PriceObservation;
  ex_evidence_age_ms : Z;
  ex_label : DataLabel;
  ex_candidate_set : list PlanId;
  ex_rejected : list PlanId;
  ex_binding_constraint : FeasibilityReason;
  ex_selected : PlanId;
  ex_tie_break_note : string;
  ex_uncertainty_percent : Z;
  ex_what_would_change : list Alt;
  ex_authority : AuthorityContext;
}.

Definition empty_explanation : CostExplanation := {|
  ex_objective := EmptyString; ex_currency := kDefaultCurrency;
  ex_projected := empty_breakdown kDefaultCurrency;
  ex_realized := empty_breakdown kDefaultCurrency;
  ex_prices_used := []; ex_evidence_age_ms := 0; ex_label := DataLabel.POLICY;
  ex_candidate_set := []; ex_rejected := [];
  ex_binding_constraint := FeasibilityReason.NONE; ex_selected := no_id;
  ex_tie_break_note := EmptyString; ex_uncertainty_percent := 0;
  ex_what_would_change := []; ex_authority := no_authority;
|}.

Record CostDecision := mkCostDecision {
  d_kind : DecisionKind;
  d_selected_plan : PlanId;
  d_plan_generation : PlanGeneration;
  d_rejected_plans : list PlanId;
  d_binding_constraint : FeasibilityReason;
  d_projected : CostBreakdown;
  d_realized : CostBreakdown;
  d_remaining_budget : MoneyMicros;
  d_state : CostState;
  d_authority : AuthorityContext;
  d_explanation : CostExplanation;
  d_status : Status;
  d_detail : string;
}.

(** [CostDecision d;] with [kind], [status], [binding_constraint] and [detail] assigned. *)
Definition refusal (k : DecisionKind) (st : Status) (r : FeasibilityReason) (detail : string)
    : CostDecision := {|
  d_kind := k; d_selected_plan := no_id; d_plan_generation := no_id; d_rejected_plans := [];
  d_binding_constraint := r; d_projected := empty_breakdown kDefaultCurrency;
  d_realized := empty_breakdown kDefaultCurrency; d_remaining_budget := 0;
  d_state := CostState.UNKNOWN; d_authority := no_authority;
  d_explanation := empty_explanation; d_status := st; d_detail := detail;
|}.

Module InterventionKind.
Inductive InterventionKind :=
  | NO_ACTION | SELECT_CHEAPER_PLAN | REPLAN | DEFER | REJECT | STOP_IF_SAFE
  | REDUCE_BATCH | CHANGE_PLACEMENT | CHANGE_ACCELERATOR_CLASS | PREFER_LOCAL_STATE
  | AVOID_TRANSFER | REUSE_WARM_STATE | EVICT_IDLE_STATE | RELEASE_RESERVATION
  | PREEMPT_LOWER_VALUE_WORK | REQUEST_CHEAPER_RECOVERY | SHED_LOW_VALUE_WORK
  | ESCALATE_BUDGET | MANUAL_INTERVENTION_REQUIRED | other (v : Z).

#[global] Instance InterventionKind_eq_dec : EqDecision InterventionKind.
Proof. solve_decision. Defined.

Definition InterventionKind_to_u8 (e : InterventionKind) : Z :=
  match e with
  | NO_ACTION => 0
  | SELECT_CHEAPER_PLAN => 1
  | REPLAN => 2
  | DEFER => 3
  | REJECT => 4
  | STOP_IF_SAFE => 5
  | REDUCE_BATCH => 6
  | CHANGE_PLACEMENT => 7
  | CHANGE_ACCELERATOR_CLASS => 8
  | PREFER_LOCAL_STATE => 9
  | AVOID_TRANSFER => 10
  | REUSE_WARM_STATE => 11
  | EVICT_IDLE_STATE => 12
  | RELEASE_RESERVATION => 13
  | PREEMPT_LOWER_VALUE_WORK => 14
  | REQUEST_CHEAPER_RECOVERY => 15
  | SHED_LOW_VALUE_WORK => 16
  | ESCALATE_BUDGET => 17
  | MANUAL_INTERVENTION_REQUIRED => 18
  | other v => v
  end.

Definition InterventionKind_of_u8 (v : Z) : InterventionKind :=
  match v with
  | 0 => NO_ACTION
  | 1 => SELECT_CHEAPER_PLAN
  | 2 => REPLAN
  | 3 => DEFER
  | 4 => REJECT
  | 5 => STOP_IF_SAFE
  | 6 => REDUCE_BATCH
  | 7 => CHANGE_PLACEMENT
  | 8 => CHANGE_ACCELERATOR_CLASS
  | 9 => PREFER_LOCAL_STATE
  | 10 => AVOID_TRANSFER
  | 11 => REUSE_WARM_STATE
  | 12 => EVICT_IDLE_STATE
  | 13 => RELEASE_RESERVATION
  | 14 => PREEMPT_LOWER_VALUE_WORK
  | 15 => REQUEST_CHEAPER_RECOVERY
  | 16 => SHED_LOW_VALUE_WORK
  | 17 => ESCALATE_BUDGET
  | 18 => MANUAL_INTERVENTION_REQUIRED
  | _ => other v
  end.

#[global] Instance InterventionKind_enum8 : Enum8 InterventionKind.
Proof. refine {| to_u8 := InterventionKind_to_u8; of_u8 := InterventionKind_of_u8 |}. solve_enum8. Defined.

Definition intervention_kind_name (e : InterventionKind) : string :=
  match e with
  | NO_ACTION => "NO_ACTION"
  | SELECT_CHEAPER_PLAN => "SELECT_CHEAPER_PLAN"
  | REPLAN => "REPLAN"
  | DEFER => "DEFER"
  | REJECT => "REJECT"
  | STOP_IF_SAFE => "STOP_IF_SAFE"
  | REDUCE_BATCH => "REDUCE_BATCH"
  | CHANGE_PLACEMENT => "CHANGE_PLACEMENT"
  | CHANGE_ACCELERATOR_CLASS => "CHANGE_ACCELERATOR_CLASS"
  | PREFER_LOCAL_STATE => "PREFER_LOCAL_STATE"
  | AVOID_TRANSFER => "AVOID_TRANSFER"
  | REUSE_WARM_STATE => "REUSE_WARM_STATE"
  | EVICT_IDLE_STATE => "EVICT_IDLE_STATE"
  | RELEASE_RESERVATION => "RELEASE_RESERVATION"
  | PREEMPT_LOWER_VALUE_WORK => "PREEMPT_LOWER_VALUE_WORK"
  | REQUEST_CHEAPER_RECOVERY => "REQUEST_CHEAPER_RECOVERY"
  | SHED_LOW_VALUE_WORK => "SHED_LOW_VALUE_WORK"
  | ESCALATE_BUDGET => "ESCALATE_BUDGET"
  | MANUAL_INTERVENTION_REQUIRED => "MANUAL_INTERVENTION_REQUIRED"
  | other _ => "UNKNOWN"
  end.
End InterventionKind.
Abbreviation InterventionKind := InterventionKind.InterventionKind.

Module InterventionLifecycle.
Inductive InterventionLifecycle :=
  | PROPOSED | AUTHORIZED | DISPATCHED | ACKNOWLEDGED | EFFECTIVE | INEFFECTIVE | FAILED
  | CANCELLED | SUPERSEDED | EXPIRED | OUTCOME_UNKNOWN | other (v : Z).

#[global] Instance InterventionLifecycle_eq_dec : EqDecision InterventionLifecycle.
Proof. solve_decision. Defined.

Definition InterventionLifecycle_to_u8 (e : InterventionLifecycle) : Z :=
  match e with
  | PROPOSED => 0
  | AUTHORIZED => 1
  | DISPATCHED => 2
  | ACKNOWLEDGED => 3
  | EFFECTIVE => 4
  | INEFFECTIVE => 5
  | FAILED => 6
  | CANCELLED => 7
  | SUPERSEDED => 8
  | EXPIRED => 9
  | OUTCOME_UNKNOWN => 10
  | other v => v
  end.

Definition InterventionLifecycle_of_u8 (v : Z) : InterventionLifecycle :=
  match v with
  | 0 => PROPOSED
  | 1 => AUTHORIZED
  | 2 => DISPATCHED
  | 3 => ACKNOWLEDGED
  | 4 => EFFECTIVE
  | 5 => INEFFECTIVE
  | 6 => FAILED
  | 7 => CANCELLED
  | 8 => SUPERSEDED
  | 9 => EXPIRED
  | 10 => OUTCOME_UNKNOWN
  | _ => other v
  end.

#[global] Instance InterventionLifecycle_enum8 : Enum8 InterventionLifecycle.
Proof. refine {| to_u8 := InterventionLifecycle_to_u8; of_u8 := InterventionLifecycle_of_u8 |}. solve_enum8. Defined.

Definition intervention_lifecycle_name (e : InterventionLifecycle) : string :=
  match e with
  | PROPOSED => "PROPOSED"
  | AUTHORIZED => "AUTHORIZED"
  | DISPATCHED => "DISPATCHED"
  | ACKNOWLEDGED => "ACKNOWLEDGED"
  | EFFECTIVE => "EFFECTIVE"
  | INEFFECTIVE => "INEFFECTIVE"
  | FAILED => "FAILED"
  | CANCELLED => "CANCELLED"
  | SUPERSEDED => "SUPERSEDED"
  | EXPIRED => "EXPIRED"
  | OUTCOME_UNKNOWN => "OUTCOME_UNKNOWN"
  | other _ => "UNKNOWN"
  end.
End InterventionLifecycle.
Abbreviation InterventionLifecycle := InterventionLifecycle.InterventionLifecycle.

Record CostIntervention := mkCostIntervention {
  i_id : InterventionId;
  i_generation : InterventionGeneration;
  i_kind : InterventionKind;
  i_lifecycle : InterventionLifecycle;
  i_authority : AuthorityContext;
  i_created_at_ms : Z;
  i_dispatched_at_ms : Z;
  i_acknowledged_at_ms : Z;
  i_verified_at_ms : Z;
  i_detail : string;
}.

#[global] Instance CostIntervention_eq_dec : EqDecision CostIntervention.
Proof. solve_decision. Defined.

Module VerificationOutcome.
Inductive VerificationOutcome :=
  | EFFECTIVE | PARTIALLY_EFFECTIVE | INEFFECTIVE | WORSE | CREATED_SECONDARY_VIOLATION
  | INSUFFICIENT_POST_ACTION_EVIDENCE | OUTCOME_UNKNOWN.

#[global] Instance VerificationOutcome_eq_dec : EqDecision VerificationOutcome.
Proof. solve_decision. Defined.

Definition verification_outcome_name (e : VerificationOutcome) : string :=
  match e with
  | EFFECTIVE => "EFFECTIVE"
  | PARTIALLY_EFFECTIVE => "PARTIALLY_EFFECTIVE"
  | INEFFECTIVE => "INEFFECTIVE"
  | WORSE => "WORSE"
  | CREATED_SECONDARY_VIOLATION => "CREATED_SECONDARY_VIOLATION"
  | INSUFFICIENT_POST_ACTION_EVIDENCE => "INSUFFICIENT_POST_ACTION_EVIDENCE"
  | OUTCOME_UNKNOWN => "OUTCOME_UNKNOWN"
  end.
End VerificationOutcome.
Abbreviation VerificationOutcome := VerificationOutcome.VerificationOutcome.

(** ** Durable records (include/costgovernor/persistence.hpp) *)

Record HistoryEntry := mkHistoryEntry {
  h_request : RequestId;
  h_workload : WorkloadId;
  h_completed_at_ms : Z;
  h_realized_cost : MoneyMicros;
  h_attempts : Z;
  h_tokens : Z;
}.

#[global] Instance HistoryEntry_eq_dec : EqDecision HistoryEntry.
Proof. solve_decision. Defined.

Record InterventionEntry := mkInterventionEntry {
  ie_id : InterventionId;
  ie_kind : InterventionKind;
  ie_lifecycle : InterventionLifecycle;
  ie_generation : InterventionGeneration;
  ie_created_at_ms : Z;
}.

#[global] Instance InterventionEntry_eq_dec : EqDecision InterventionEntry.
Proof. solve_decision. Defined.

Record DurableSnapshot := mkDurableSnapshot {
  ds_epoch : CoordinatorEpoch;
  ds_policy : CostPolicy;
  ds_price_schedule : PriceSchedule;
  ds_budgets : list Budget;
  ds_history : list HistoryEntry;
  ds_interventions : list InterventionEntry;
}.

#[global] Instance DurableSnapshot_eq_dec : EqDecision DurableSnapshot.
Proof. solve_decision. Defined.
