(* ===== verification/Samples.v ===== *)
(** * Samples: concrete inputs for the witnesses

    The builders of tests/test_helpers.hpp as Rocq values: a policy, prices,
    budgets, attempts and plans on which the theorems' hypotheses are evaluated. *)

From stdpp Require Import prelude gmap strings.
From S2P Require Import Prelude Effects Money Identity Units Price Policy Budget Cost.
From S2P Require Import Plan Decision.
From stdpp Require Import options.

(** [th::policy()] *)
Definition sample_policy : CostPolicy := {|
  pol_id := mkId 1; pol_generation := mkId 1; pol_epoch := mkId 1;
  pol_currency := kDefaultCurrency; pol_ranking := RankingMode.LEXICOGRAPHIC;
  pol_min_evidence_freshness_ms := 0; pol_max_evidence_age_ms := 30000;
  pol_price_schedule_max_age_ms := 30000; pol_max_projection_uncertainty := 100;
  pol_hysteresis_ms := 0; pol_cooldown_ms := 0;
  pol_near_budget_percent := 80; pol_at_risk_percent := 90;
  pol_retry_budget := 0; pol_recovery_budget := 0; pol_recovery_cost_known := false;
  pol_allow_synthetic := true; pol_allow_policy := true; pol_allow_measured := true;
|}.

(** [th::price(id, kind, per_unit, now)] with a device scope. *)
Definition sample_price (id : Z) (kind : PriceKind) (per_unit now : Z) (dev : Z)
    : PriceObservation := {|
  o_id := mkId id; o_kind := kind; o_resource_scope := no_id; o_device := mkId dev;
  o_amount := per_unit; o_currency := kDefaultCurrency;
  o_provenance := Provenance.CONFIGURED_POLICY; o_label := DataLabel.POLICY;
  o_valid_from_ms := 0; o_valid_to_ms := 0; o_observed_at_ms := now;
  o_generation := no_id; o_epoch := mkId 1; o_worker := mkId 1; o_boot := no_id |}.

Definition sample_schedule : PriceSchedule := {|
  s_id := mkId 1; s_generation := mkId 1;
  s_observations :=
    [ sample_price 1 PriceKind.ACCELERATOR_TIME 1000000 1000 0;
      sample_price 2 PriceKind.ENERGY 200000 1000 0;
      sample_price 3 PriceKind.TRANSFER 50000 1000 0;
      sample_price 4 PriceKind.ACCELERATOR_TIME 3000000 1000 7 ];
  s_created_at_ms := 1000 |}.

(** [th::budget(id, gen, pg, epoch, limit, mode)] *)
Definition sample_budget (id limit : Z) (mode : BudgetMode) : Budget := {|
  b_id := mkId id; b_generation := mkId 1; b_policy_generation := mkId 1; b_epoch := mkId 1;
  b_currency := kDefaultCurrency; b_mode := mode;
  b_objective := BudgetObjective.MAX_TOTAL_EXECUTION_COST; b_limit := limit;
  b_lifecycle := BudgetLifecycle.CREATED; b_reserved := 0; b_consumed := 0; b_released := 0;
  b_created_at_ms := 0; b_expires_at_ms := 0; b_label := DataLabel.POLICY |}.

(** [th::attempt(...)] with its usage and outcome. *)
Definition sample_attempt (att accel_ns energy : Z) (completion success : bool)
    : CostEvidence := {|
  e_id := mkId att; e_request := mkId 1; e_workload := mkId 1; e_attempt := mkId att;
  e_attempt_gen := mkId 1; e_worker := mkId 1; e_boot := mkId 5; e_epoch := mkId 1;
  e_generation := mkId 1; e_observed_at_ms := 1000; e_label := DataLabel.POLICY;
  e_completed_successfully := success; e_is_completion := completion;
  e_device := no_id; e_resource := no_id;
  e_accelerator_time := mkAmount accel_ns; e_energy := mkAmount energy;
  e_transfer := mkAmount 0; e_memory_hold := mkAmount 0; e_residency_hold := mkAmount 0;
  e_storage_bytes := mkAmount 0; e_requests := 1; e_tokens := 0; e_operations := 0;
  e_recovery_actions := 0; e_recompute_ns := 0 |}.

(** A failed attempt, then the successful one. *)
Definition sample_attempts : list CostEvidence :=
  [ sample_attempt 1 2500000000 0 true false; sample_attempt 2 1000000001 3600000000000 true true ].

(** [th::plan(id, gen, wl, wlGen)] with an accelerator time. *)
Definition sample_plan (id accel_ns : Z) : ExecutionPlan := {|
  p_id := mkId id; p_generation := mkId 1; p_workload := mkId 1; p_workload_generation := mkId 1;
  p_resource := no_id; p_resource_generation := no_id; p_device := no_id;
  p_device_generation := no_id; p_placement := no_id; p_placement_generation := no_id;
  p_recovery_generation := no_id; p_worker := mkId 1;
  p_expected_accelerator_time := mkAmount accel_ns; p_expected_energy := mkAmount 0;
  p_expected_transfer := mkAmount 0; p_expected_memory_hold := mkAmount 0;
  p_expected_residency_hold := mkAmount 0; p_expected_storage := mkAmount 0;
  p_expected_retries := 0; p_expected_requests := 1; p_expected_tokens := 0;
  p_expected_operations := 0; p_recovery := RecoveryKind.NONE; p_recovery_recompute_ns := 0;
  p_meets_hard_slo := true; p_completion_probability_percent := 100;
  p_label := DataLabel.POLICY |}.
