(* ===== verification/CostFacts.v ===== *)
(** * CostFacts: exactness of the cost calculator

    The reference definitions ([component_value], [attempt_cost],
    [failed_attempt_cost]) are sums of exact ceilings over unbounded integers;
    the theorems relate src/cost.cpp's 64-bit computation to them. *)

From stdpp Require Import prelude gmap strings.
From S2P Require Import Prelude Effects Money Identity Units Price Policy Cost Samples.
From stdpp Require Import options.

(** ** Reference definitions *)

(** The price kind and the denominator of a measurable component. *)
Definition scale (c : CostComponent) : option (PriceKind * Z) :=
  match c with
  | CostComponent.ACCELERATOR_TIME => Some (PriceKind.ACCELERATOR_TIME, kNsPerSecond)
  | CostComponent.ENERGY => Some (PriceKind.ENERGY, kMicroJoulesPerKWh)
  | CostComponent.TRANSFER => Some (PriceKind.TRANSFER, kBytesPerGB)
  | CostComponent.MEMORY => Some (PriceKind.MEMORY_HOLDING, kBytesPerGBs)
  | CostComponent.RESIDENCY => Some (PriceKind.RESIDENCY_HOLDING, kBytesPerGBs)
  | CostComponent.STORAGE => Some (PriceKind.STORAGE, kBytesPerGB)
  | _ => None
  end.

Definition schedule_ok (s : PriceSchedule) : Prop :=
  Forall (λ o, in_i64 (o_amount o)) (s_observations s).

#[global] Instance schedule_ok_dec s : Decision (schedule_ok s).
Proof. unfold schedule_ok. apply _. Defined.

Section reference.
Context (s : PriceSchedule) (cur : string) (now : Z).

(** The observation that prices component [c] of [ev] and its denominator. *)
Definition price_of (ev : CostEvidence) (c : CostComponent) : option (Z * Z) :=
  match scale c with
  | Some (k, d) =>
      match find_price s k cur now (e_device ev) (e_resource ev) None with
      | Some p => Some (o_amount p, d)
      | None => None
      end
  | None => None
  end.

(** Exact cost of [amount] units, rounded up to a micro; nothing for no usage. *)
Definition component_value (ev : CostEvidence) (c : CostComponent) (amount : Z) : Z :=
  if decide (amount = 0) then 0
  else match price_of ev c with
       | Some (p, d) => ceil_div (amount * p) d
       | None => 0
       end.

(** The product of amount and price fits the 64-bit intermediate. *)
Definition chargeable (ev : CostEvidence) (c : CostComponent) (amount : Z) : Prop :=
  amount ≠ 0 → ∃ p d, price_of ev c = Some (p, d) ∧
    0 ≤ amount ∧ amount * p ≤ U64_MAX ∧ ceil_div (amount * p) d ≤ I64_MAX.

Definition charge_value (ev : CostEvidence) (ch : nat * CostComponent * Z) : Z :=
  component_value ev ch.1.2 ch.2.

(** What one attempt adds to slot [j] of the breakdown. *)
Definition slot_cost (ev : CostEvidence) (j : nat) : Z :=
  sumZ (charge_value ev <$> filter (λ ch, ch.1.1 = j) (charges ev)).

Definition measurable_cost (ev : CostEvidence) : Z :=
  sumZ ((λ '(c, a), component_value ev c a) <$> measurable ev).

Definition attempt_cost (ev : CostEvidence) : Z :=
  measurable_cost ev + component_value ev CostComponent.ACCELERATOR_TIME (e_recompute_ns ev).

Definition is_failed (ev : CostEvidence) : bool :=
  e_is_completion ev && negb (e_completed_successfully ev).

Definition failed_attempt_cost (ev : CostEvidence) : Z :=
  if is_failed ev then measurable_cost ev else 0.

(** What one attempt costs under each component. *)
Definition component_share (ev : CostEvidence) (c : CostComponent) : Z :=
  match c with
  | CostComponent.ACCELERATOR_TIME => component_value ev c (count (e_accelerator_time ev))
  | CostComponent.ENERGY => component_value ev c (count (e_energy ev))
  | CostComponent.TRANSFER => component_value ev c (count (e_transfer ev))
  | CostComponent.MEMORY => component_value ev c (count (e_memory_hold ev))
  | CostComponent.RESIDENCY => component_value ev c (count (e_residency_hold ev))
  | CostComponent.STORAGE => component_value ev c (count (e_storage_bytes ev))
  | CostComponent.RETRY => failed_attempt_cost ev
  | CostComponent.RECOMPUTATION =>
      component_value ev CostComponent.ACCELERATOR_TIME (e_recompute_ns ev)
  | CostComponent.RECOVERY | CostComponent.OTHER => 0
  end.

Definition attempt_chargeable (ev : CostEvidence) : Prop :=
  Forall (λ ch : nat * CostComponent * Z, chargeable ev ch.1.2 ch.2) (charges ev).
End reference.

(** ** ceil_mul_div *)

Lemma ceil_mul_div_eq a b d :
  in_i64 a → in_i64 b → in_i64 d → 0 ≤ a → 0 ≤ b → 0 < d →
  ceil_mul_div a b d =
    if decide (a * b ≤ U64_MAX ∧ ceil_div (a * b) d ≤ I64_MAX)
    then Ret (ceil_div (a * b) d) else throw_status Status.RESOURCE_EXHAUSTED.
Proof.
  intros Ha Hb Hd ???. unfold ceil_mul_div. rewrite decide_False by lia.
  assert (I64_MAX ≤ U64_MAX) by (widths; lia).
  case_decide as Hz.
  { subst. rewrite Z.mul_0_l. rewrite decide_True; [done|].
    unfold ceil_div. rewrite Z.div_0_l by lia. widths. lia. }
  assert (∀ z, 0 ≤ z ≤ U64_MAX → wrap_u64 z = z) as Hw
    by (intros; widths; apply Z.mod_small; lia).
  rewrite (Hw a), (Hw b), (Hw d) by (widths; lia).
  assert (b > U64_MAX `div` a ↔ ¬ a * b ≤ U64_MAX) as Hov.
  { pose proof (Z.div_mod U64_MAX a). pose proof (Z.mod_pos_bound U64_MAX a). nia. }
  case_decide as Hbig; [rewrite decide_False by tauto; done|].
  rewrite Hw by nia.
  assert (0 ≤ a * b) as Hprod by nia.
  pose proof (Z.div_mod (a * b) d). pose proof (Z.mod_pos_bound (a * b) d).
  assert ((a * b) `div` d ≤ a * b) by (apply Z.div_le_upper_bound; nia).
  pose proof (Z.div_pos (a * b) d).
  case_decide as Hr; simpl.
  - replace (ceil_div (a * b) d) with ((a * b) `div` d + 1) by (apply ceil_div_unique; nia).
    case_decide as Hq; simpl.
    { rewrite decide_False by lia. done. }
    rewrite Hw by lia. repeat case_decide; try done; lia.
  - replace (ceil_div (a * b) d) with ((a * b) `div` d) by (apply ceil_div_unique; nia).
    repeat case_decide; try done; lia.
Qed.

(** ** find_price *)

Lemma find_price_fold P (f : PriceObservation → option PriceObservation → bool) l best p :
  foldl (λ best obs, if negb (P obs) then best else if f obs best then Some obs else best)
    best l = Some p →
  best = Some p ∨ (p ∈ l ∧ P p = true).
Proof.
  revert best. induction l as [|o l IH]; simpl; intros best H; [auto|].
  destruct (P o) eqn:HP; simpl in H.
  - destruct (f o best); apply IH in H as [?|[??]]; set_solver.
  - apply IH in H as [?|[??]]; set_solver.
Qed.

Lemma find_price_applies s want cur now dev rs pol p :
  find_price s want cur now dev rs pol = Some p →
  p ∈ s_observations s ∧ obs_applies p want cur now dev rs pol = true.
Proof. intros H. apply find_price_fold in H as [|]; naive_solver. Qed.

Lemma obs_applies_facts p want cur now dev rs pol :
  obs_applies p want cur now dev rs pol = true →
  o_kind p = want ∧ 0 ≤ o_amount p ∧ o_currency p = cur ∧
  o_valid_from_ms p ≤ now ∧ (o_valid_to_ms p = 0 ∨ now < o_valid_to_ms p).
Proof.
  unfold obs_applies, valid_currency, negative. intros H.
  destruct (decide (o_kind p ≠ want)); [done|].
  case_bool_decide; simpl in H; [|done].
  do 2 (case_decide; [done|]). case_bool_decide; [done|].
  split_and!; [by apply dec_stable|lia|done|lia|lia].
Qed.

Lemma priced_eq s cur now ev c amt :
  schedule_ok s → in_i64 amt → amt ≠ 0 →
  (chargeable s cur now ev c amt → priced s cur now ev c amt = Ret (component_value s cur now ev c amt)) ∧
  (∀ m, priced s cur now ev c amt = Ret m →
     chargeable s cur now ev c amt ∧ m = component_value s cur now ev c amt).
Proof.
  intros Hs Ha Hnz. unfold priced, project_component, chargeable, component_value, price_of.
  rewrite (decide_False (P := amt = 0)) by done.
  destruct (scale c) as [[k d]|] eqn:Hsc; last first.
  { assert (kind_for c = throw_status Status.INVALID_INPUT) as -> by by destruct c.
    split; [|done]. intros Hc. by destruct (Hc Hnz) as (?&?&?&_). }
  assert (kind_for c = Ret k ∧ denominator_for k = Ret d ∧ 0 < d ∧ in_i64 d) as (-> & Hd & ? & ?)
    by by destruct c; simplify_eq/=.
  simpl. destruct (find_price _ _ _ _ _ _ _) as [p|] eqn:Hf; last first.
  { split; [|done]. intros Hc. by destruct (Hc Hnz) as (?&?&?&_). }
  apply find_price_applies in Hf as [Hin Happ].
  apply obs_applies_facts in Happ as (-> & Hp & _).
  rewrite Hd. simpl. unfold schedule_ok in Hs. rewrite Forall_forall in Hs.
  specialize (Hs p Hin). unfold from_micros.
  destruct (decide (amt < 0)).
  { unfold ceil_mul_div at 1 2. rewrite decide_True by lia. simpl. split; [|done].
    intros Hc. destruct (Hc Hnz) as (?&?&?&?&_). lia. }
  rewrite ceil_mul_div_eq by (done || lia). case_decide as Hok; simpl.
  - split; [done|]. intros m [= <-]. split; [|done]. intros _. exists (o_amount p), d. split_and!; (done || lia || tauto).
  - split; [|done]. intros Hc. exfalso. apply Hok. destruct (Hc Hnz) as (?&?&[= <- <-]&?&?&?). done.
Qed.

(** ** The loops of [project] *)

Definition cval (comps : list ComponentValue) (j : nat) : Z :=
  cv_value (default no_component (comps !! j)).

Definition comps_ok (comps : list ComponentValue) : Prop :=
  length comps = kCostComponentCount ∧
  ∀ j, 0 ≤ cval comps j ≤ I64_MAX ∧
       (cv_known (default no_component (comps !! j)) = false → cval comps j = 0).

(** The amounts of an attempt are [int64_t]s. *)
Definition evidence_ok (ev : CostEvidence) : Prop :=
  Forall (λ ch : nat * CostComponent * Z, in_i64 ch.2) (charges ev).

#[global] Instance evidence_ok_dec ev : Decision (evidence_ok ev).
Proof. unfold evidence_ok. apply _. Defined.

Lemma add_component_inv comps i m comps' :
  comps_ok comps → (i < kCostComponentCount)%nat → 0 ≤ m ≤ I64_MAX →
  add_component comps i m = Ret comps' →
  comps_ok comps' ∧ ∀ j, cval comps' j = cval comps j + if decide (i = j) then m else 0.
Proof.
  intros [Hlen Hc] Hi Hm H. unfold add_component in H.
  apply res_bind_Ret in H as (v & Hv & [= <-]).
  apply checked_add_inv in Hv as [-> Hin]; [|pose proof (Hc i); unfold cval in *; widths; lia|widths; lia].
  assert (∀ j, default no_component (<[i:=mkComponentValue true (cval comps i + m)]> comps !! j) =
    if decide (i = j) then mkComponentValue true (cval comps i + m)
    else default no_component (comps !! j)) as Hlk.
  { intros j. case_decide as Hj; [subst|by rewrite list_lookup_insert_ne].
    by rewrite list_lookup_insert_eq by lia. }
  split; [split|].
  - by rewrite length_insert.
  - intros j. unfold cval in *. rewrite !Hlk. case_decide; [|apply Hc]. simpl.
    pose proof (Hc i). widths. split; [lia|done].
  - intros j. unfold cval in *. rewrite !Hlk. case_decide; simpl; subst; lia.
Qed.

Lemma add_component_ret comps i m :
  comps_ok comps → 0 ≤ m ≤ I64_MAX → cval comps i + m ≤ I64_MAX →
  is_Ret (add_component comps i m).
Proof.
  intros [Hlen Hc] Hm Hs. unfold add_component. destruct (Hc i) as [? _]. unfold cval in *.
  rewrite checked_add_ret by (widths; lia). simpl. eexists. done.
Qed.

Lemma measurable_range ev :
  evidence_ok ev → Forall (λ ca : CostComponent * Z, in_i64 ca.2) (measurable ev).
Proof.
  unfold evidence_ok, charges, measurable. rewrite !Forall_cons, !Forall_nil. simpl. tauto.
Qed.

Section loops.
Context (s : PriceSchedule) (cur : string) (now : Z) (Hs : schedule_ok s).

Lemma component_value_bounds ev c amt :
  chargeable s cur now ev c amt → 0 ≤ component_value s cur now ev c amt ≤ I64_MAX.
Proof using Hs.
  unfold chargeable, component_value. case_decide as Hz; [widths; lia|].
  intros H. destruct (H Hz) as (p & d & Hp & ? & ? & ?). rewrite Hp. split; [|done].
  unfold price_of in Hp. destruct (scale c) as [[k d']|] eqn:Hsc; [|done].
  destruct (find_price _ _ _ _ _ _ _) as [o|] eqn:Hf; [|done]. simplify_eq.
  apply find_price_applies in Hf as [_ Ha]. apply obs_applies_facts in Ha as (_&?&_).
  apply ceil_div_nonneg; [by destruct c; simplify_eq/=|nia].
Qed.

Let step ev (comps : list ComponentValue) (ch : nat * CostComponent * Z) :=
  let '(i, kind, amount) := ch in
  if decide (amount ≠ 0) then
    let! m := priced s cur now ev kind amount in add_component comps i m
  else Ret comps.

Lemma charge_step_inv ev comps i c amt comps' :
  comps_ok comps → (i < kCostComponentCount)%nat → in_i64 amt →
  step ev comps (i, c, amt) = Ret comps' →
  chargeable s cur now ev c amt ∧ comps_ok comps' ∧
  ∀ j, cval comps' j = cval comps j + if decide (i = j) then component_value s cur now ev c amt else 0.
Proof using Hs.
  unfold step. intros Hc Hi Ha H. case_decide as Hz.
  - apply res_bind_Ret in H as (m & Hm & H).
    destruct (priced_eq s cur now ev c amt Hs Ha Hz) as [_ Hp].
    destruct (Hp m Hm) as [Hch ->]. split; [done|].
    by apply add_component_inv in H; [|done|done|apply component_value_bounds].
  - simplify_eq. split; [by intros ?|].
    split; [done|]. intros j. unfold component_value. simpl. case_decide; lia.
Qed.

Lemma charge_step_ret ev comps i c amt :
  comps_ok comps → in_i64 amt → chargeable s cur now ev c amt →
  cval comps i + component_value s cur now ev c amt ≤ I64_MAX →
  is_Ret (step ev comps (i, c, amt)).
Proof using Hs.
  unfold step. intros Hc Ha Hch Hle. case_decide as Hz; [|by eexists].
  destruct (priced_eq s cur now ev c amt Hs Ha Hz) as [Hp _]. rewrite (Hp Hch). simpl.
  apply add_component_ret; [done|by apply component_value_bounds|done].
Qed.

Lemma charge_value_eq ev i c a :
  charge_value s cur now ev (i, c, a) = component_value s cur now ev c a.
Proof using Type. done. Qed.

Lemma charges_inv ev l comps comps' :
  Forall (λ ch : nat * CostComponent * Z, (ch.1.1 < kCostComponentCount)%nat ∧ in_i64 ch.2) l →
  comps_ok comps → foldM (step ev) l comps = Ret comps' →
  comps_ok comps' ∧
  Forall (λ ch : nat * CostComponent * Z, chargeable s cur now ev ch.1.2 ch.2) l ∧
  ∀ j, cval comps' j =
    cval comps j + sumZ (charge_value s cur now ev <$> filter (λ ch, ch.1.1 = j) l).
Proof using Hs.
  intros Hl. revert comps. induction Hl as [|[[i c] a] l [Hi Ha] _ IH]; intros comps Hc H.
  { simplify_eq/=. split_and!; [done|constructor|]. intros j. unfold sumZ. simpl. lia. }
  cbn [foldM] in H. apply res_bind_Ret in H as (c1 & H1 & H).
  apply charge_step_inv in H1 as (Hch & Hc1 & Hv1); [|done..].
  apply IH in H as (Hc' & Hall & Hv); [|done].
  split_and!; [done|by constructor|]. intros j. rewrite Hv, Hv1, filter_cons. simpl.
  repeat case_decide; simplify_eq; rewrite ?fmap_cons, ?sumZ_cons, ?charge_value_eq; lia.
Qed.

Lemma charges_ret ev l comps :
  Forall (λ ch : nat * CostComponent * Z, (ch.1.1 < kCostComponentCount)%nat ∧ in_i64 ch.2) l →
  Forall (λ ch : nat * CostComponent * Z, chargeable s cur now ev ch.1.2 ch.2) l →
  comps_ok comps →
  (∀ j, cval comps j + sumZ (charge_value s cur now ev <$> filter (λ ch, ch.1.1 = j) l) ≤ I64_MAX) →
  is_Ret (foldM (step ev) l comps).
Proof using Hs.
  intros Hl. revert comps. induction Hl as [|[[i c] a] l [Hi Ha] _ IH]; intros comps Hch Hc Hle.
  { by eexists. }
  apply Forall_cons in Hch as [Hch1 Hch]. simpl in *.
  assert (∀ j, 0 ≤ sumZ (charge_value s cur now ev <$> filter (λ ch, ch.1.1 = j) l)) as Hnn.
  { intros j. apply sumZ_nonneg, Forall_fmap, Forall_forall. intros ch [_ Hin]%list_elem_of_filter.
    rewrite Forall_forall in Hch. apply component_value_bounds. by apply Hch. }
  destruct (charge_step_ret ev comps i c a) as [c1 H1]; [done|done|done| |].
  { specialize (Hle i). specialize (Hnn i). rewrite filter_cons in Hle. simpl in Hle.
    rewrite decide_True, fmap_cons, sumZ_cons, charge_value_eq in Hle by done. lia. }
  change (is_Ret (res_bind (step ev comps (i, c, a)) (λ b', foldM (step ev) l b'))).
  rewrite H1. simpl. apply charge_step_inv in H1 as (_ & Hc1 & Hv1); [|done..].
  apply IH; [done|done|]. intros j. rewrite Hv1. specialize (Hle j).
  rewrite filter_cons in Hle. simpl in Hle.
  repeat case_decide; simplify_eq; rewrite ?fmap_cons, ?sumZ_cons, ?charge_value_eq in Hle; lia.
Qed.

Lemma charges_range ev :
  evidence_ok ev →
  Forall (λ ch : nat * CostComponent * Z, (ch.1.1 < kCostComponentCount)%nat ∧ in_i64 ch.2) (charges ev).
Proof using Type.
  unfold evidence_ok, charges, kCostComponentCount. rewrite !Forall_cons. simpl. intros H.
  split_and!; try lia; try apply H. constructor.
Qed.

Lemma slot_cost_nonneg ev j : attempt_chargeable s cur now ev → 0 ≤ slot_cost s cur now ev j.
Proof using Hs.
  intros Hch. apply sumZ_nonneg, Forall_fmap, Forall_forall. intros ch [_ Hin]%list_elem_of_filter.
  unfold attempt_chargeable in Hch. rewrite Forall_forall in Hch.
  by apply component_value_bounds, Hch.
Qed.

Lemma charge_attempts_inv attempts comps comps' :
  Forall evidence_ok attempts → comps_ok comps →
  foldM (charge_attempt s cur now) attempts comps = Ret comps' →
  comps_ok comps' ∧ Forall (attempt_chargeable s cur now) attempts ∧
  ∀ j, cval comps' j = cval comps j + sumZ ((λ ev, slot_cost s cur now ev j) <$> attempts).
Proof using Hs.
  intros Hl. revert comps. induction Hl as [|ev l Hev _ IH]; intros comps Hc H.
  { simplify_eq/=. split_and!; [done|constructor|]. intros j. unfold sumZ. simpl. lia. }
  cbn [foldM] in H. apply res_bind_Ret in H as (c1 & H1 & H).
  apply charges_inv in H1 as (Hc1 & Hch & Hv1); [|by apply charges_range|done].
  apply IH in H as (Hc' & Hall & Hv); [|done].
  split_and!; [done|by constructor|]. intros j. rewrite Hv, Hv1.
  rewrite fmap_cons, sumZ_cons. unfold slot_cost at 2. lia.
Qed.

Lemma charge_attempts_ret attempts comps :
  Forall evidence_ok attempts → Forall (attempt_chargeable s cur now) attempts →
  comps_ok comps →
  (∀ j, cval comps j + sumZ ((λ ev, slot_cost s cur now ev j) <$> attempts) ≤ I64_MAX) →
  is_Ret (foldM (charge_attempt s cur now) attempts comps).
Proof using Hs.
  intros Hl. revert comps. induction Hl as [|ev l Hev _ IH]; intros comps Hch Hc Hle.
  { by eexists. }
  apply Forall_cons in Hch as [Hch1 Hch].
  assert (∀ j, 0 ≤ sumZ ((λ ev, slot_cost s cur now ev j) <$> l)) as Hnn.
  { intros j. apply sumZ_nonneg, Forall_fmap. eapply Forall_impl; [exact Hch|].
    intros ev' Hev'. by apply slot_cost_nonneg. }
  destruct (charges_ret ev (charges ev) comps) as [c1 H1];
    [by apply charges_range|done|done| |].
  { intros j. specialize (Hle j). specialize (Hnn j). rewrite fmap_cons, sumZ_cons in Hle.
    unfold slot_cost at 1 in Hle. lia. }
  cbn [foldM]. change (charge_attempt s cur now comps ev) with (foldM (step ev) (charges ev) comps).
  rewrite H1. simpl.
  apply charges_inv in H1 as (Hc1 & _ & Hv1); [|by apply charges_range|done].
  apply IH; [done|done|]. intros j. rewrite Hv1. specialize (Hle j).
  rewrite fmap_cons, sumZ_cons in Hle. unfold slot_cost at 1 in Hle. lia.
Qed.

(** *** The retry loop *)

Lemma measurable_chargeable ev :
  attempt_chargeable s cur now ev →
  Forall (λ ca : CostComponent * Z, chargeable s cur now ev ca.1 ca.2) (measurable ev).
Proof using Type.
  unfold attempt_chargeable, charges, measurable. rewrite !Forall_cons, !Forall_nil. simpl. tauto.
Qed.

Let pair_value ev (ca : CostComponent * Z) := component_value s cur now ev ca.1 ca.2.

Lemma measurable_cost_eq ev :
  measurable_cost s cur now ev = sumZ (pair_value ev <$> measurable ev).
Proof using Type. done. Qed.

Lemma failed_fold ev l acc :
  Forall (λ ca : CostComponent * Z, in_i64 ca.2) l →
  Forall (λ ca : CostComponent * Z, chargeable s cur now ev ca.1 ca.2) l →
  0 ≤ acc ≤ I64_MAX →
  foldM (λ failed '(kind, amount),
      if decide (amount ≠ 0) then let! m := priced s cur now ev kind amount in failed +$ m
      else Ret failed) l acc =
  if decide (acc + sumZ (pair_value ev <$> l) ≤ I64_MAX)
  then Ret (acc + sumZ (pair_value ev <$> l)) else Throw overflow_error.
Proof using Hs.
  intros Hr. revert acc. induction Hr as [|[c a] l Ha _ IH]; intros acc Hch Hacc.
  { cbn. rewrite decide_True by lia. f_equal; lia. }
  apply Forall_cons in Hch as [Hch1 Hch]. simpl in Hch1, Ha.
  assert (0 ≤ sumZ (pair_value ev <$> l)) as Hnn.
  { apply sumZ_nonneg, Forall_fmap. eapply Forall_impl; [exact Hch|].
    intros ca. apply component_value_bounds. }
  pose proof (component_value_bounds ev c a Hch1) as Hb.
  rewrite fmap_cons, sumZ_cons.
  change (pair_value ev (c, a)) with (component_value s cur now ev c a). cbn [foldM].
  destruct (decide (a = 0)) as [->|Hz].
  - rewrite decide_False by tauto. cbn [res_bind]. rewrite IH by done.
    by replace (component_value s cur now ev c 0 + sumZ (pair_value ev <$> l))
      with (sumZ (pair_value ev <$> l)) by by change (component_value s cur now ev c 0) with 0.
  - rewrite decide_True by done.
    destruct (priced_eq s cur now ev c a Hs Ha Hz) as [Hp _]. rewrite (Hp Hch1). cbn [res_bind].
    rewrite checked_add_eq by (widths; lia).
    destruct (decide (in_i64 (acc + component_value s cur now ev c a))) as [Hin|Hin]; cbn [res_bind].
    + rewrite IH by (done || widths; lia).
      by replace (acc + (component_value s cur now ev c a + sumZ (pair_value ev <$> l)))
        with (acc + component_value s cur now ev c a + sumZ (pair_value ev <$> l)) by lia.
    + rewrite decide_False; [done|]. widths. lia.
Qed.

Lemma failed_cost_eq ev :
  evidence_ok ev → attempt_chargeable s cur now ev →
  failed_cost s cur now ev =
    if decide (measurable_cost s cur now ev ≤ I64_MAX)
    then Ret (measurable_cost s cur now ev) else Throw overflow_error.
Proof using Hs.
  intros Hev Hch. unfold failed_cost. rewrite failed_fold.
  - by rewrite Z.add_0_l, measurable_cost_eq.
  - by apply measurable_range.
  - by apply measurable_chargeable.
  - widths. lia.
Qed.

Lemma measurable_cost_nonneg ev :
  attempt_chargeable s cur now ev → 0 ≤ measurable_cost s cur now ev.
Proof using Hs.
  intros Hch. rewrite measurable_cost_eq. apply sumZ_nonneg, Forall_fmap.
  eapply Forall_impl; [by apply measurable_chargeable|]. intros ca. apply component_value_bounds.
Qed.

Lemma success_index_spec i acc l r :
  success_index_from i acc l = r →
  r = acc ∨ ∃ k ev, l !! k = Some ev ∧ r = i + Z.of_nat k ∧ is_failed ev = false.
Proof using Type.
  revert i acc. induction l as [|ev l IH]; simpl; intros i acc H; [auto|].
  apply IH in H as [H|(k & ev' & Hk & -> & Hf)].
  - destruct (e_is_completion ev && e_completed_successfully ev) eqn:He; [|auto].
    right. exists 0%nat, ev. unfold is_failed. split_and!; [done|lia|].
    destruct (e_is_completion ev), (e_completed_successfully ev); done.
  - right. exists (S k), ev'. split_and!; [done|lia|done].
Qed.

(** The element at the success index is never a failed attempt, so the pointer
    comparison of the retry loop skips nothing that would be charged. *)
Definition success_not_failed (success i : Z) (l : list CostEvidence) : Prop :=
  ∀ k ev, l !! k = Some ev → 0 ≤ success → i + Z.of_nat k = success → is_failed ev = false.

Lemma final_success_not_failed l : success_not_failed (final_success_index l) 0 l.
Proof using Type.
  intros k ev Hk Hpos Heq.
  destruct (success_index_spec 0 (-1) l _ eq_refl) as [H|(k' & ev' & Hk' & Hr & Hf)];
    fold (final_success_index l) in *; [lia|].
  assert (k = k') as -> by lia. congruence.
Qed.

Lemma charge_retries_cons success i ev l comps :
  success_not_failed success i (ev :: l) →
  charge_retries s cur now success i (ev :: l) comps =
    if is_failed ev then
      let! failed := failed_cost s cur now ev in
      let! comps' := add_component comps 6 failed in
      charge_retries s cur now success (i + 1) l comps'
    else charge_retries s cur now success (i + 1) l comps.
Proof using Type.
  intros Hsf. cbn [charge_retries]. case_decide as Hd.
  - rewrite (Hsf 0%nat ev); [done|done|lia|lia].
  - fold (is_failed ev). by destruct (is_failed ev).
Qed.

Lemma success_not_failed_tail success i ev l :
  success_not_failed success i (ev :: l) → success_not_failed success (i + 1) l.
Proof using Type. intros H k ev' Hk Hp Heq. apply (H (S k) ev'); [done|done|lia]. Qed.

Lemma charge_retries_inv success i l comps comps' :
  Forall evidence_ok l → Forall (attempt_chargeable s cur now) l →
  success_not_failed success i l → comps_ok comps →
  charge_retries s cur now success i l comps = Ret comps' →
  comps_ok comps' ∧ ∀ j, cval comps' j = cval comps j +
    if decide (6%nat = j) then sumZ (failed_attempt_cost s cur now <$> l) else 0.
Proof using Hs.
  intros Hl Hch. revert i comps. induction Hl as [|ev l Hev _ IH]; intros i comps Hsf Hc H.
  { simplify_eq/=. split; [done|]. intros j. case_decide; cbn; lia. }
  apply Forall_cons in Hch as [Hch1 Hch]. pose proof (success_not_failed_tail _ _ _ _ Hsf).
  rewrite charge_retries_cons in H by done.
  assert (sumZ (failed_attempt_cost s cur now <$> ev :: l) =
    (if is_failed ev then measurable_cost s cur now ev else 0)
    + sumZ (failed_attempt_cost s cur now <$> l)) as -> by done.
  destruct (is_failed ev).
  - apply res_bind_Ret in H as (m & Hm & H). apply res_bind_Ret in H as (c1 & H1 & H).
    rewrite failed_cost_eq in Hm by done. case_decide; simplify_eq.
    apply add_component_inv in H1 as [Hc1 Hv1];
      [|done|unfold kCostComponentCount; lia|split; [by apply measurable_cost_nonneg|done]].
    apply IH in H as [Hc' Hv]; [|done..]. split; [done|]. intros j. rewrite Hv, Hv1.
    case_decide; lia.
  - apply IH in H as [Hc' Hv]; [|done..]. split; [done|]. intros j. rewrite Hv.
    case_decide; lia.
Qed.

Lemma failed_attempt_nonneg l :
  Forall (attempt_chargeable s cur now) l → 0 ≤ sumZ (failed_attempt_cost s cur now <$> l).
Proof using Hs.
  intros H. apply sumZ_nonneg, Forall_fmap. eapply Forall_impl; [exact H|].
  intros ev Hev. unfold failed_attempt_cost. simpl. destruct (is_failed ev); [|done].
  by apply measurable_cost_nonneg.
Qed.

Lemma charge_retries_ret success i l comps :
  Forall evidence_ok l → Forall (attempt_chargeable s cur now) l →
  success_not_failed success i l → comps_ok comps →
  cval comps 6 + sumZ (failed_attempt_cost s cur now <$> l) ≤ I64_MAX →
  is_Ret (charge_retries s cur now success i l comps).
Proof using Hs.
  intros Hl Hch. revert i comps. induction Hl as [|ev l Hev _ IH]; intros i comps Hsf Hc Hle.
  { by eexists. }
  apply Forall_cons in Hch as [Hch1 Hch]. pose proof (success_not_failed_tail _ _ _ _ Hsf).
  rewrite charge_retries_cons by done. rewrite fmap_cons, sumZ_cons in Hle.
  unfold failed_attempt_cost at 1 in Hle.
  pose proof (failed_attempt_nonneg l Hch). destruct Hc as [Hlen Hcc]. pose proof (Hcc 6%nat).
  destruct (is_failed ev); [|apply IH; [done|done|done|lia]].
  pose proof (measurable_cost_nonneg ev Hch1).
  rewrite failed_cost_eq, decide_True by (done || lia). cbn [res_bind].
  destruct (add_component_ret comps 6 (measurable_cost s cur now ev)) as [c1 Hadd]; [done|lia|lia|].
  rewrite Hadd. cbn [res_bind].
  apply add_component_inv in Hadd as [Hc1 Hv1]; [|done|unfold kCostComponentCount; lia|lia].
  apply IH; [done|done|done|]. rewrite Hv1. rewrite decide_True by done. lia.
Qed.
End loops.

(** ** The total *)

Definition additive (comps : list ComponentValue) : Z :=
  sumZ (cval comps <$> [0; 1; 2; 3; 4; 5; 8; 9]%nat).

Lemma sum_total_fold comps l acc :
  comps_ok comps → 0 ≤ acc ≤ I64_MAX →
  let summed := filter (λ i, i ≠ 6%nat ∧ i ≠ 7%nat) l in
  foldM (λ total i,
      let c := default no_component (comps !! i) in
      if (bool_decide (i ≠ 6%nat) && bool_decide (i ≠ 7%nat) && cv_known c)
      then total +$ cv_value c else Ret total) l acc =
  if decide (acc + sumZ (cval comps <$> summed) ≤ I64_MAX)
  then Ret (acc + sumZ (cval comps <$> summed)) else Throw overflow_error.
Proof.
  intros [Hlen Hc]. revert acc. induction l as [|i l IH]; intros acc Hacc.
  { cbn. rewrite decide_True by lia. f_equal; lia. }
  assert (∀ l', 0 ≤ sumZ (cval comps <$> l')) as Hnn.
  { intros l'. apply sumZ_nonneg, Forall_fmap, Forall_forall. intros j _. apply Hc. }
  cbn [foldM]. rewrite filter_cons. destruct (Hc i) as [Hi Hk].
  destruct (decide (i ≠ 6%nat ∧ i ≠ 7%nat)) as [H67|H67].
  - rewrite (bool_decide_eq_true_2 (i ≠ 6%nat)), (bool_decide_eq_true_2 (i ≠ 7%nat)) by tauto.
    rewrite fmap_cons, sumZ_cons. simpl andb.
    change (cv_value (default no_component (comps !! i))) with (cval comps i).
    destruct (cv_known _) eqn:Hkn.
    + rewrite checked_add_eq by (widths; lia).
      specialize (Hnn (filter (λ i, i ≠ 6%nat ∧ i ≠ 7%nat) l)).
      destruct (decide (in_i64 (acc + cval comps i))); cbn [res_bind].
      * cbn zeta in IH. rewrite IH by (widths; lia).
        by replace (acc + (cval comps i + sumZ (cval comps <$> filter (λ i, i ≠ 6%nat ∧ i ≠ 7%nat) l)))
          with (acc + cval comps i + sumZ (cval comps <$> filter (λ i, i ≠ 6%nat ∧ i ≠ 7%nat) l)) by lia.
      * rewrite decide_False; [done|]. widths. lia.
    + rewrite Hk by done. cbn [res_bind]. cbn zeta in IH. by rewrite IH.
  - replace (bool_decide (i ≠ 6%nat) && bool_decide (i ≠ 7%nat)) with false; [by apply IH|].
    repeat case_bool_decide; simpl; tauto.
Qed.

Lemma sum_total_eq comps :
  comps_ok comps →
  sum_total comps =
    if decide (additive comps ≤ I64_MAX) then Ret (additive comps) else Throw overflow_error.
Proof. intros Hc. unfold sum_total. rewrite sum_total_fold; [done|done|widths; lia]. Qed.

Lemma empty_comps_ok cur : comps_ok (cb_components (empty_breakdown cur)).
Proof.
  split; [done|]. intros j. unfold cval, empty_breakdown, kCostComponentCount. simpl.
  do 10 (destruct j as [|j]; [simpl; widths; lia|]). simpl. widths. lia.
Qed.

Lemma empty_cval cur j : cval (cb_components (empty_breakdown cur)) j = 0.
Proof. by do 10 (destruct j as [|j]; [done|]). Qed.

Lemma slot_costs_sum s cur now ev :
  sumZ (slot_cost s cur now ev <$> [0; 1; 2; 3; 4; 5; 8; 9]%nat) = attempt_cost s cur now ev.
Proof.
  unfold attempt_cost, measurable_cost, slot_cost, charges, measurable, charge_value, sumZ.
  simpl. lia.
Qed.

Lemma sumZ_exchange {A B} (f : A → B → Z) (l : list A) (js : list B) :
  sumZ ((λ j, sumZ ((λ a, f a j) <$> l)) <$> js) = sumZ ((λ a, sumZ (f a <$> js)) <$> l).
Proof.
  induction js as [|j js IH].
  - induction l as [|a l IH]; [done|]. by rewrite fmap_cons, sumZ_cons, <-IH.
  - change (sumZ ((λ a, f a j) <$> l) + sumZ ((λ j, sumZ ((λ a, f a j) <$> l)) <$> js) =
      sumZ ((λ a, f a j + sumZ (f a <$> js)) <$> l)).
    rewrite IH. clear IH. induction l as [|a l IH]; [done|].
    rewrite !fmap_cons, !sumZ_cons. lia.
Qed.

(** The slots of the breakdown hold the components' shares. *)
Lemma component_shares s cur now c (attempts : list CostEvidence) :
  let j := Z.to_nat (CostComponent.CostComponent_to_u8 c) in
  sumZ ((λ ev, slot_cost s cur now ev j) <$> attempts) +
    (if decide (6%nat = j) then sumZ (failed_attempt_cost s cur now <$> attempts) else 0) =
  sumZ ((λ ev, component_share s cur now ev c) <$> attempts).
Proof.
  intros j. induction attempts as [|ev l IH]; [by destruct c|].
  rewrite !fmap_cons, !sumZ_cons.
  assert (slot_cost s cur now ev j + (if decide (6%nat = j) then failed_attempt_cost s cur now ev else 0)
    = component_share s cur now ev c); [|subst j; case_decide; lia].
  subst j. destruct c; unfold slot_cost, charges, sumZ; simpl; unfold charge_value; simpl; lia.
Qed.

Lemma shares_sum s cur now ev :
  sumZ (component_share s cur now ev <$>
    [CostComponent.ACCELERATOR_TIME; CostComponent.ENERGY; CostComponent.TRANSFER;
     CostComponent.MEMORY; CostComponent.RESIDENCY; CostComponent.STORAGE;
     CostComponent.RECOVERY; CostComponent.RECOMPUTATION; CostComponent.OTHER]) =
  attempt_cost s cur now ev.
Proof. unfold attempt_cost, measurable_cost, measurable, sumZ. simpl. lia. Qed.

(** Everything [project] computes, when it returns. *)
Lemma project_inv s cur now attempts bd :
  schedule_ok s → Forall evidence_ok attempts →
  project s cur now attempts = Ret bd →
  Forall (attempt_chargeable s cur now) attempts ∧
  cb_total bd = sumZ (attempt_cost s cur now <$> attempts) ∧ cb_total bd ≤ I64_MAX ∧
  (∀ j, cv_value (slot bd j) = sumZ ((λ ev, slot_cost s cur now ev j) <$> attempts) +
     if decide (6%nat = j) then sumZ (failed_attempt_cost s cur now <$> attempts) else 0) ∧
  cb_any_unknown bd = existsb (λ ev, bool_decide (e_label ev = DataLabel.UNSUPPORTED)) attempts.
Proof.
  intros Hs Hev H. unfold project in H.
  apply res_bind_Ret in H as (c1 & H1 & H). apply res_bind_Ret in H as (c2 & H2 & H).
  apply res_bind_Ret in H as (t & Ht & [= <-]).
  apply charge_attempts_inv in H1 as (Hc1 & Hch & Hv1); [|done|done|apply empty_comps_ok].
  apply charge_retries_inv in H2 as (Hc2 & Hv2); [|done..|apply final_success_not_failed|done].
  rewrite sum_total_eq in Ht by done. case_decide; simplify_eq.
  assert (additive c2 = sumZ (attempt_cost s cur now <$> attempts)) as Htot.
  { unfold additive.
    replace (cval c2 <$> [0; 1; 2; 3; 4; 5; 8; 9]%nat) with
      ((λ j, sumZ ((λ ev, slot_cost s cur now ev j) <$> attempts)) <$> [0; 1; 2; 3; 4; 5; 8; 9]%nat)
      by (simpl; rewrite !Hv2, !Hv1, !empty_cval; simpl; by rewrite !Z.add_0_r).
    rewrite sumZ_exchange. f_equal. apply list_fmap_ext. intros i ev _. apply slot_costs_sum. }
  split_and!; [done|done|done| |done].
  intros j. change (cv_value (slot _ j)) with (cval c2 j). by rewrite Hv2, Hv1, empty_cval.
Qed.

Lemma attempt_cost_bounds s cur now ev :
  schedule_ok s → attempt_chargeable s cur now ev →
  0 ≤ failed_attempt_cost s cur now ev ≤ attempt_cost s cur now ev.
Proof.
  intros Hs Hch. pose proof (measurable_cost_nonneg s cur now Hs ev Hch).
  assert (0 ≤ component_value s cur now ev CostComponent.ACCELERATOR_TIME (e_recompute_ns ev)).
  { apply component_value_bounds; [done|]. unfold attempt_chargeable, charges in Hch.
    rewrite !Forall_cons in Hch. apply Hch. }
  unfold attempt_cost, failed_attempt_cost. destruct (is_failed ev); lia.
Qed.

Lemma sumZ_fmap_le {A} (f g : A → Z) l :
  Forall (λ a, f a ≤ g a) l → sumZ (f <$> l) ≤ sumZ (g <$> l).
Proof. induction 1; [done|]. rewrite !fmap_cons, !sumZ_cons. lia. Qed.

Lemma sumZ_elem_le {A} (f : A → Z) js j :
  (∀ k, 0 ≤ f k) → j ∈ js → f j ≤ sumZ (f <$> js).
Proof.
  intros Hf. induction js as [|k js IH]; [set_solver|]. rewrite fmap_cons, sumZ_cons.
  assert (0 ≤ sumZ (f <$> js)) by (apply sumZ_nonneg, Forall_fmap, Forall_forall; auto).
  pose proof (Hf k). rewrite elem_of_cons. intros [->|Hj]; [lia|]. specialize (IH Hj). lia.
Qed.

Lemma slot_cost_le_sum s cur now ev j :
  (∀ k, 0 ≤ slot_cost s cur now ev k) →
  slot_cost s cur now ev j ≤ sumZ (slot_cost s cur now ev <$> [0; 1; 2; 3; 4; 5; 8; 9]%nat).
Proof.
  intros Hnn. destruct (decide (j ∈ [0; 1; 2; 3; 4; 5; 8; 9]%nat)) as [Hj|Hj].
  - by apply sumZ_elem_le.
  - replace (slot_cost s cur now ev j) with 0.
    + apply sumZ_nonneg, Forall_fmap, Forall_forall. auto.
    + symmetry. do 10 (destruct j as [|j]; [done || (exfalso; apply Hj; set_solver)|]). done.
Qed.

Lemma project_ret s cur now attempts :
  schedule_ok s → Forall evidence_ok attempts →
  Forall (attempt_chargeable s cur now) attempts →
  sumZ (attempt_cost s cur now <$> attempts) ≤ I64_MAX →
  is_Ret (project s cur now attempts).
Proof.
  intros Hs Hev Hch Hle. unfold project.
  assert (∀ j, sumZ ((λ ev, slot_cost s cur now ev j) <$> attempts) ≤ I64_MAX) as Hslots.
  { intros j. etrans; [|exact Hle]. apply sumZ_fmap_le. eapply Forall_impl; [exact Hch|].
    intros ev Hcev. simpl. rewrite <-slot_costs_sum.
    apply slot_cost_le_sum. intros k. by apply slot_cost_nonneg. }
  destruct (charge_attempts_ret s cur now Hs attempts (cb_components (empty_breakdown cur)))
    as [c1 H1]; [done|done|apply empty_comps_ok| |].
  { intros j. rewrite empty_cval. apply Hslots. }
  rewrite H1. cbn [res_bind].
  apply charge_attempts_inv in H1 as (Hc1 & _ & Hv1); [|done|done|apply empty_comps_ok].
  assert (sumZ (failed_attempt_cost s cur now <$> attempts) ≤ I64_MAX).
  { etrans; [|exact Hle]. apply sumZ_fmap_le. eapply Forall_impl; [exact Hch|].
    intros ev Hcev. by apply attempt_cost_bounds. }
  assert (∀ j, (j = 6 ∨ j = 7)%nat → sumZ ((λ ev, slot_cost s cur now ev j) <$> attempts) = 0) as H67.
  { intros j Hj. clear -Hj. induction attempts as [|ev l IH]; [done|].
    rewrite fmap_cons, sumZ_cons, IH. by destruct Hj as [->| ->]. }
  destruct (charge_retries_ret s cur now Hs (final_success_index attempts) 0 attempts c1)
    as [c2 H2]; [done|done|apply final_success_not_failed|done| |].
  { rewrite Hv1, empty_cval, H67 by auto. lia. }
  rewrite H2. cbn [res_bind].
  apply charge_retries_inv in H2 as (Hc2 & Hv2); [|done..|apply final_success_not_failed|done].
  rewrite sum_total_eq by done.
  rewrite decide_True; [by eexists|].
  unfold additive. etrans; [|exact Hle]. apply Z.eq_le_incl.
  replace (cval c2 <$> [0; 1; 2; 3; 4; 5; 8; 9]%nat) with
    ((λ j, sumZ ((λ ev, slot_cost s cur now ev j) <$> attempts)) <$> [0; 1; 2; 3; 4; 5; 8; 9]%nat)
    by (simpl; rewrite !Hv2, !Hv1, !empty_cval; simpl; by rewrite !Z.add_0_r).
  rewrite sumZ_exchange. f_equal. apply list_fmap_ext. intros i ev _. apply slot_costs_sum.
Qed.

(** ** Price selection *)

(** A price scoped to a device or to a resource. *)
Definition specific (o : PriceObservation) : bool :=
  valid (o_device o) || valid (o_resource_scope o).

Lemma find_price_fold_specific P l best :
  (∀ b, best = Some b → P b = true) →
  match foldl (λ best obs, if negb (P obs) then best
          else if more_specific obs best then Some obs else best) best l with
  | None => best = None ∧ ∀ o, o ∈ l → P o = false
  | Some p => P p = true ∧
      (specific p = false →
        (∀ b, best = Some b → specific b = false) ∧ ∀ o, o ∈ l → P o = true → specific o = false)
  end.
Proof.
  revert best. induction l as [|o l IH]; intros best Hbest; simpl.
  { destruct best; [|set_solver]. split; [auto|]. intros. split; [|set_solver]. congruence. }
  destruct (P o) eqn:HP; simpl.
  - destruct (more_specific o best) eqn:Hm.
    + specialize (IH (Some o)). destruct (foldl _ _ l) as [p|].
      2:{ destruct IH as [? _]; [congruence|done]. }
      destruct IH as [Hp IH]; [congruence|]. split; [done|]. intros Hsp.
      destruct (IH Hsp) as [Ho Hl]. specialize (Ho o eq_refl). split.
      * intros b ->. simpl in Hm. unfold specific in Ho.
        apply orb_false_iff in Ho as [Ho1 Ho2]. by rewrite Ho1, Ho2 in Hm.
      * intros o' [->|Ho']%elem_of_cons; auto.
    + specialize (IH best Hbest). destruct (foldl _ _ l) as [p|].
      * destruct IH as [Hp IH]. split; [done|]. intros Hsp. destruct (IH Hsp) as [Hb Hl].
        split; [done|]. intros o' [->|Ho']%elem_of_cons; [|auto]. intros _.
        destruct best as [b|]; [|done]. simpl in Hm. specialize (Hb b eq_refl).
        unfold specific in *. apply orb_false_iff in Hb as [Hb1 Hb2].
        rewrite Hb1, Hb2, !andb_true_r in Hm. done.
      * destruct IH as [-> _]. done.
  - specialize (IH best Hbest). destruct (foldl _ _ l) as [p|].
    + destruct IH as [Hp IH]. split; [done|]. intros Hsp. destruct (IH Hsp) as [Hb Hl].
      split; [done|]. intros o' [->|Ho']%elem_of_cons; [congruence|auto].
    + destruct IH as [-> Hl]. split; [done|]. intros o' [->|]%elem_of_cons; auto.
Qed.

(** Two enumerations of the same prices select different ones. *)
Definition device_price : PriceObservation :=
  sample_price 1 PriceKind.ACCELERATOR_TIME 1000000 1000 7.
Definition scope_price : PriceObservation := {|
  o_id := mkId 2; o_kind := PriceKind.ACCELERATOR_TIME; o_resource_scope := mkId 3;
  o_device := no_id; o_amount := 5000000; o_currency := kDefaultCurrency;
  o_provenance := Provenance.CONFIGURED_POLICY; o_label := DataLabel.POLICY;
  o_valid_from_ms := 0; o_valid_to_ms := 0; o_observed_at_ms := 1000;
  o_generation := no_id; o_epoch := mkId 1; o_worker := mkId 1; o_boot := no_id |}.

Lemma priced_missing s cur now ev c amt :
  is_Some (scale c) → price_of s cur now ev c = None →
  priced s cur now ev c amt = throw_status Status.MISSING_PRICE.
Proof.
  unfold price_of, priced, project_component. intros [[k d] Hsc] Hp. rewrite Hsc in Hp.
  destruct c; simplify_eq/=; by destruct (find_price _ _ _ _ _ _ _).
Qed.

Lemma charges_scale ev ch : ch ∈ charges ev → is_Some (scale ch.1.2).
Proof.
  unfold charges. rewrite !elem_of_cons, elem_of_nil. intros H.
  repeat (destruct H as [->|H]; [by eexists|]). done.
Qed.

(** A kilowatt-hour in microjoules: 1000 watts for 3600 seconds, 10^6 microjoules
    to the joule. *)
Definition physical_kWh : Z := 1000 * 3600 * 10 ^ 6.

Lemma ceil_div_scale a d k : 0 < d → 0 < k → ceil_div (a * k) (d * k) = ceil_div a d.
Proof. intros. unfold ceil_div. by rewrite <-Z.mul_opp_l, Z.div_mul_cancel_r by lia. Qed.

(** ** Theorems *)

(** C9. Cost projection is exact: [CostCalculator::project] returns exactly when
    every nonzero amount of every attempt has an applicable price, a 64-bit
    product and a result within int64, and the attempts' costs sum within int64;
    the total is then the sum, over all attempts, of the exact rounded-up costs
    of its amounts (recomputation included), with no attempt counted twice. *)
Theorem project_exact s cur now attempts :
  schedule_ok s → Forall evidence_ok attempts →
  (is_Ret (project s cur now attempts) ↔
     Forall (attempt_chargeable s cur now) attempts ∧
     sumZ (attempt_cost s cur now <$> attempts) ≤ I64_MAX) ∧
  (∀ bd, project s cur now attempts = Ret bd →
     cb_total bd = sumZ (attempt_cost s cur now <$> attempts)).
Proof.
  intros Hs Hev. split; [split|].
  - intros [bd H]. by apply project_inv in H as (? & <- & ? & _).
  - intros [??]. by apply project_ret.
  - intros bd H. by apply project_inv in H as (_ & ? & _).
Qed.

Lemma project_exact_witness :
  ∃ bd, project sample_schedule kDefaultCurrency 1000 sample_attempts = Ret bd ∧
    cb_total bd = sumZ (attempt_cost sample_schedule kDefaultCurrency 1000 <$> sample_attempts).
Proof.
  destruct (project_exact sample_schedule kDefaultCurrency 1000 sample_attempts) as [_ H];
    [by_compute|by_compute|].
  eexists. split; [by vm_compute|]. apply H. by vm_compute.
Defined.

(** C28. The breakdown adds up and the retry component is a sub-total: when projection
    returns, the value of every component is the sum, over the attempts, of what that
    attempt's own amount of it costs (ACCELERATOR_TIME from the accelerator time,
    ENERGY from the energy and so on, RECOMPUTATION from the recomputed time at the
    accelerator price, nothing under RECOVERY and OTHER); RETRY is the sum of the
    measurable costs of the failed completed attempts, lies between 0 and the total,
    and is not part of the total, which is the sum of the other components. *)
Theorem retry_is_subtotal s cur now attempts bd :
  schedule_ok s → Forall evidence_ok attempts →
  project s cur now attempts = Ret bd →
  (∀ c, cv_value (get bd c) = sumZ ((λ ev, component_share s cur now ev c) <$> attempts)) ∧
  0 ≤ cv_value (get bd CostComponent.RETRY) ≤ cb_total bd ∧
  cb_total bd = sumZ ((λ c, cv_value (get bd c)) <$>
    [CostComponent.ACCELERATOR_TIME; CostComponent.ENERGY; CostComponent.TRANSFER;
     CostComponent.MEMORY; CostComponent.RESIDENCY; CostComponent.STORAGE;
     CostComponent.RECOVERY; CostComponent.RECOMPUTATION; CostComponent.OTHER]).
Proof.
  intros Hs Hev H. apply project_inv in H as (Hch & Ht & _ & Hv & _); [|done..].
  assert (∀ c, cv_value (get bd c) = sumZ ((λ ev, component_share s cur now ev c) <$> attempts)) as Hc.
  { intros c. unfold get. rewrite Hv. by apply component_shares. }
  split_and!; [done| | |].
  - rewrite Hc. apply sumZ_nonneg, Forall_fmap. eapply Forall_impl; [exact Hch|].
    intros ev ?. by apply attempt_cost_bounds.
  - rewrite Hc, Ht. apply sumZ_fmap_le. eapply Forall_impl; [exact Hch|].
    intros ev ?. by apply attempt_cost_bounds.
  - rewrite Ht. rewrite (list_fmap_ext (λ c, cv_value (get bd c)) _ _ (λ i c _, Hc c)).
    rewrite sumZ_exchange. f_equal. apply list_fmap_ext. intros i ev _. symmetry. apply shares_sum.
Qed.

Lemma retry_is_subtotal_witness :
  ∃ bd, project sample_schedule kDefaultCurrency 1000 sample_attempts = Ret bd ∧
    cv_value (get bd CostComponent.RETRY) = 7500000 ∧ cb_total bd = 10500201.
Proof.
  eexists. split; [by vm_compute|].
  edestruct (retry_is_subtotal sample_schedule kDefaultCurrency 1000 sample_attempts) as (Hc & _);
    [by_compute|by_compute|by vm_compute|]. rewrite Hc. by vm_compute.
Defined.

(** Projection does not depend on the order in which attempts are listed:
    permuting them changes neither whether it returns nor the total nor the
    value of any component. *)
Theorem project_order_independent s cur now l1 l2 bd1 :
  schedule_ok s → Forall evidence_ok l1 → l1 ≡ₚ l2 →
  project s cur now l1 = Ret bd1 →
  ∃ bd2, project s cur now l2 = Ret bd2 ∧ cb_total bd2 = cb_total bd1 ∧
    (∀ c, cv_value (get bd2 c) = cv_value (get bd1 c)).
Proof.
  intros Hs Hev Hp H. apply project_inv in H as (Hch & Ht & Hmax & Hv & _); [|done..].
  assert (Forall evidence_ok l2) by (by rewrite <-Hp).
  destruct (project_ret s cur now l2) as [bd2 H2]; [done|done|by rewrite <-Hp|by rewrite <-Hp, <-Ht|].
  exists bd2. split; [done|]. apply project_inv in H2 as (_ & Ht2 & _ & Hv2 & _); [|done..].
  split; [by rewrite Ht2, Ht, Hp|]. intros c. unfold get. rewrite Hv, Hv2.
  assert (∀ f : CostEvidence → Z, sumZ (f <$> l1) = sumZ (f <$> l2)) as Hsum
    by (intros f; by rewrite Hp). by rewrite !Hsum.
Qed.

Lemma project_order_independent_witness :
  ∃ bd2, project sample_schedule kDefaultCurrency 1000 (reverse sample_attempts) = Ret bd2 ∧
    cb_total bd2 = 10500201.
Proof.
  edestruct (project_order_independent sample_schedule kDefaultCurrency 1000 sample_attempts
    (reverse sample_attempts)) as (bd2 & H2 & Ht & _);
    [by_compute|by_compute
    |symmetry; apply reverse_Permutation|by vm_compute|].
  exists bd2. split; [exact H2|]. by rewrite Ht.
Defined.

(** C29. An unknown price never becomes zero: an attempt with a nonzero amount of
    a component that no observation prices makes the component's projection
    throw [MISSING_PRICE] and keeps the whole projection from returning. *)
Theorem missing_price_never_zero s cur now attempts ev i c amount :
  schedule_ok s → Forall evidence_ok attempts →
  ev ∈ attempts → (i, c, amount) ∈ charges ev → amount ≠ 0 →
  price_of s cur now ev c = None →
  project_component s c amount cur now (e_device ev) (e_resource ev)
    = throw_status Status.MISSING_PRICE ∧
  ¬ is_Ret (project s cur now attempts).
Proof.
  intros Hs Hev Hin Hc Hz Hp. split.
  - eapply (priced_missing s cur now ev c amount); [|done]. by apply (charges_scale ev) in Hc.
  - intros [bd H]. apply project_inv in H as (Hch & _); [|done..].
    rewrite Forall_forall in Hch. specialize (Hch ev Hin). unfold attempt_chargeable in Hch.
    rewrite Forall_forall in Hch. destruct (Hch _ Hc Hz) as (p & d & Hpd & _).
    simpl in Hpd. congruence.
Qed.

Lemma missing_price_never_zero_witness :
  ¬ is_Ret (project empty_schedule kDefaultCurrency 1000 sample_attempts).
Proof.
  eapply (missing_price_never_zero empty_schedule kDefaultCurrency 1000 sample_attempts
    (sample_attempt 1 2500000000 0 true false) 0 CostComponent.ACCELERATOR_TIME 2500000000).
  - by_compute.
  - by_compute.
  - apply list_elem_of_here.
  - apply list_elem_of_here.
  - done.
  - by vm_compute.
Defined.

(** C35. [ceil_mul_div] on int64 arguments: negative arguments and a divisor that
    is not positive are [INVALID_INPUT]; otherwise it returns the exact ceiling
    of [a * b / d] when the product fits in 64 bits and the quotient in int64,
    and throws [RESOURCE_EXHAUSTED] else, also for a product beyond 64 bits
    whose quotient would fit. *)
Theorem ceil_mul_div_exact a b d :
  in_i64 a → in_i64 b → in_i64 d →
  ceil_mul_div a b d =
    (if decide (a < 0 ∨ b < 0 ∨ d ≤ 0) then throw_status Status.INVALID_INPUT
     else if decide (a * b ≤ U64_MAX ∧ ceil_div (a * b) d ≤ I64_MAX)
     then Ret (ceil_div (a * b) d) else throw_status Status.RESOURCE_EXHAUSTED).
Proof.
  intros Ha Hb Hd. case_decide as Hn.
  - unfold ceil_mul_div. by rewrite decide_True.
  - apply ceil_mul_div_eq; try done; lia.
Qed.

Lemma ceil_mul_div_exact_witness :
  ceil_mul_div (2 ^ 33) (2 ^ 33) kNsPerSecond = throw_status Status.RESOURCE_EXHAUSTED ∧
  ceil_div (2 ^ 33 * 2 ^ 33) kNsPerSecond ≤ I64_MAX ∧
  ceil_mul_div 1500000001 1000000 kNsPerSecond = Ret 1500001.
Proof.
  rewrite (ceil_mul_div_exact (2 ^ 33) (2 ^ 33) kNsPerSecond) by (by vm_compute).
  rewrite (ceil_mul_div_exact 1500000001 1000000 kNsPerSecond) by (by vm_compute).
  by vm_compute.
Defined.

(** Price selection: [find_price] finds a price exactly when some observation
    applies, the price it returns applies (kind, currency, validity interval,
    sign, label, scopes), and it is a general one, without device and resource
    scope, only when every applicable observation is. *)
Theorem find_price_prefers_specific s want cur now dev rs pol :
  match find_price s want cur now dev rs pol with
  | None => ∀ o, o ∈ s_observations s → obs_applies o want cur now dev rs pol = false
  | Some p =>
      p ∈ s_observations s ∧ obs_applies p want cur now dev rs pol = true ∧
      (specific p = false →
        ∀ o, o ∈ s_observations s → obs_applies o want cur now dev rs pol = true →
             specific o = false)
  end.
Proof.
  pose proof (find_price_fold_specific (λ o, obs_applies o want cur now dev rs pol)
    (s_observations s) None) as H.
  pose proof (find_price_applies s want cur now dev rs pol) as Ha.
  unfold find_price in *. destruct (foldl _ _ _) as [p|]; [|by apply H].
  destruct (Ha p eq_refl). split_and!; [done|done|]. intros Hsp. by apply H.
Qed.

(** Between a device-scoped and a resource-scoped price the choice depends on
    the order of the observations: the same two observations in the two orders
    price the same second of accelerator time differently. *)
Theorem find_price_order_dependent :
  let at_order l := project_component (mkPriceSchedule no_id no_id l 0)
    CostComponent.ACCELERATOR_TIME kNsPerSecond kDefaultCurrency 1000 (mkId 7) (mkId 3) in
  at_order [device_price; scope_price] = Ret 5000000 ∧
  at_order [scope_price; device_price] = Ret 1000000.
Proof. by vm_compute. Qed.

(** Energy is charged a thousandth of its price: [kMicroJoulesPerKWh] is a
    thousand times the microjoules of a kilowatt-hour, so [k] kilowatt-hours at
    [p] micro-units each cost [k * p / 1000], rounded up. *)
Theorem energy_undercharged s cur now dev rs k obs :
  find_price s PriceKind.ENERGY cur now dev rs None = Some obs →
  0 ≤ k → in_i64 (k * physical_kWh) → in_i64 (o_amount obs) →
  k * physical_kWh * o_amount obs ≤ U64_MAX →
  project_component s CostComponent.ENERGY (k * physical_kWh) cur now dev rs
    = Ret (ceil_div (k * o_amount obs) 1000).
Proof.
  intros Hf Hk Hki Hpi Hm.
  destruct (obs_applies_facts obs PriceKind.ENERGY cur now dev rs None) as (Hkind & Hp & _);
    [by apply (find_price_applies s)|].
  assert (ceil_div (k * physical_kWh * o_amount obs) kMicroJoulesPerKWh
          = ceil_div (k * o_amount obs) 1000) as Hc.
  { rewrite <-(ceil_div_scale (k * o_amount obs) 1000 physical_kWh) by done.
    unfold kMicroJoulesPerKWh, physical_kWh. f_equal; lia. }
  assert (0 ≤ k * physical_kWh) by (unfold physical_kWh; lia).
  assert (ceil_div (k * o_amount obs) 1000 ≤ I64_MAX).
  { pose proof (ceil_div_bounds (k * o_amount obs) 1000). unfold physical_kWh in Hm. widths. lia. }
  unfold project_component. cbn [kind_for res_bind]. rewrite Hf, Hkind. cbn [denominator_for res_bind].
  rewrite ceil_mul_div_eq, Hc, decide_True by (done || by_compute). done.
Qed.

Lemma energy_undercharged_witness :
  project_component sample_schedule CostComponent.ENERGY (1 * physical_kWh) kDefaultCurrency 1000
    no_id no_id = Ret 200.
Proof.
  apply (energy_undercharged sample_schedule kDefaultCurrency 1000 no_id no_id 1
    (sample_price 2 PriceKind.ENERGY 200000 1000 0)).
  1: by vm_compute.
  all: by_compute.
Defined.
