(* ===== verification/Governor.v ===== *)
(** * Governor: the state of the cost governor and its operations

    Models src/governor.cpp (all but plan evaluation and persistence, which are
    in Evaluate.v and Recovery.v).  Every public method takes the governor's
    one mutex for its whole body, so an operation is one atomic state
    transformer [St Impl A]; an exception keeps the mutations made before it.
    [now] is the sequence of values the clock returns during the call. *)

From stdpp Require Import prelude gmap strings.
From S2P Require Import Prelude Effects Money Identity Units Price Policy Budget Cost.
From S2P Require Import Plan Decision.
From stdpp Require Import options.

(** ** State: [CostGovernor::Impl]

    The mutex is the atomicity of the operations, the clock is the [Readings]
    argument, and [store] is the path given to [set_state_path]. *)
Record Impl := mkImpl {
  g_policy : CostPolicy;
  g_schedule : PriceSchedule;
  g_epoch : CoordinatorEpoch;
  g_worker_boots : gmap WorkerId WorkerBootId;
  g_revalidation_needed : bool;
  g_budgets : gmap BudgetId Budget;
  g_attempts : gmap RequestId (gmap AttemptId CostEvidence);
  g_reservations : gmap BudgetId (list BudgetReservation);
  g_history : list HistoryEntry;
  g_interventions : gmap InterventionId CostIntervention;
  g_next_reservation : Z;
  g_next_intervention : Z;
  g_store : option string;
}.

Definition set_g_policy (v : CostPolicy) (g : Impl) : Impl := {|
  g_policy := v; g_schedule := g_schedule g; g_epoch := g_epoch g; g_worker_boots :=
  g_worker_boots g; g_revalidation_needed := g_revalidation_needed g; g_budgets :=
  g_budgets g; g_attempts := g_attempts g; g_reservations := g_reservations g;
  g_history := g_history g; g_interventions := g_interventions g; g_next_reservation
  := g_next_reservation g; g_next_intervention := g_next_intervention g; g_store :=
  g_store g |}.
Definition set_g_schedule (v : PriceSchedule) (g : Impl) : Impl := {|
  g_policy := g_policy g; g_schedule := v; g_epoch := g_epoch g; g_worker_boots :=
  g_worker_boots g; g_revalidation_needed := g_revalidation_needed g; g_budgets :=
  g_budgets g; g_attempts := g_attempts g; g_reservations := g_reservations g;
  g_history := g_history g; g_interventions := g_interventions g; g_next_reservation
  := g_next_reservation g; g_next_intervention := g_next_intervention g; g_store :=
  g_store g |}.
Definition set_g_epoch (v : CoordinatorEpoch) (g : Impl) : Impl := {|
  g_policy := g_policy g; g_schedule := g_schedule g; g_epoch := v; g_worker_boots :=
  g_worker_boots g; g_revalidation_needed := g_revalidation_needed g; g_budgets :=
  g_budgets g; g_attempts := g_attempts g; g_reservations := g_reservations g;
  g_history := g_history g; g_interventions := g_interventions g; g_next_reservation
  := g_next_reservation g; g_next_intervention := g_next_intervention g; g_store :=
  g_store g |}.
Definition set_g_worker_boots (v : gmap WorkerId WorkerBootId) (g : Impl) : Impl := {|
  g_policy := g_policy g; g_schedule := g_schedule g; g_epoch := g_epoch g;
  g_worker_boots := v; g_revalidation_needed := g_revalidation_needed g; g_budgets :=
  g_budgets g; g_attempts := g_attempts g; g_reservations := g_reservations g;
  g_history := g_history g; g_interventions := g_interventions g; g_next_reservation
  := g_next_reservation g; g_next_intervention := g_next_intervention g; g_store :=
  g_store g |}.
Definition set_g_revalidation_needed (v : bool) (g : Impl) : Impl := {|
  g_policy := g_policy g; g_schedule := g_schedule g; g_epoch := g_epoch g;
  g_worker_boots := g_worker_boots g; g_revalidation_needed := v; g_budgets :=
  g_budgets g; g_attempts := g_attempts g; g_reservations := g_reservations g;
  g_history := g_history g; g_interventions := g_interventions g; g_next_reservation
  := g_next_reservation g; g_next_intervention := g_next_intervention g; g_store :=
  g_store g |}.
Definition set_g_budgets (v : gmap BudgetId Budget) (g : Impl) : Impl := {|
  g_policy := g_policy g; g_schedule := g_schedule g; g_epoch := g_epoch g;
  g_worker_boots := g_worker_boots g; g_revalidation_needed := g_revalidation_needed
  g; g_budgets := v; g_attempts := g_attempts g; g_reservations := g_reservations g;
  g_history := g_history g; g_interventions := g_interventions g; g_next_reservation
  := g_next_reservation g; g_next_intervention := g_next_intervention g; g_store :=
  g_store g |}.
Definition set_g_attempts (v : gmap RequestId (gmap AttemptId CostEvidence)) (g : Impl) : Impl := {|
  g_policy := g_policy g; g_schedule := g_schedule g; g_epoch := g_epoch g;
  g_worker_boots := g_worker_boots g; g_revalidation_needed := g_revalidation_needed
  g; g_budgets := g_budgets g; g_attempts := v; g_reservations := g_reservations g;
  g_history := g_history g; g_interventions := g_interventions g; g_next_reservation
  := g_next_reservation g; g_next_intervention := g_next_intervention g; g_store :=
  g_store g |}.
Definition set_g_reservations (v : gmap BudgetId (list BudgetReservation)) (g : Impl) : Impl := {|
  g_policy := g_policy g; g_schedule := g_schedule g; g_epoch := g_epoch g;
  g_worker_boots := g_worker_boots g; g_revalidation_needed := g_revalidation_needed
  g; g_budgets := g_budgets g; g_attempts := g_attempts g; g_reservations := v;
  g_history := g_history g; g_interventions := g_interventions g; g_next_reservation
  := g_next_reservation g; g_next_intervention := g_next_intervention g; g_store :=
  g_store g |}.
Definition set_g_history (v : list HistoryEntry) (g : Impl) : Impl := {|
  g_policy := g_policy g; g_schedule := g_schedule g; g_epoch := g_epoch g;
  g_worker_boots := g_worker_boots g; g_revalidation_needed := g_revalidation_needed
  g; g_budgets := g_budgets g; g_attempts := g_attempts g; g_reservations :=
  g_reservations g; g_history := v; g_interventions := g_interventions g;
  g_next_reservation := g_next_reservation g; g_next_intervention :=
  g_next_intervention g; g_store := g_store g |}.
Definition set_g_interventions (v : gmap InterventionId CostIntervention) (g : Impl) : Impl := {|
  g_policy := g_policy g; g_schedule := g_schedule g; g_epoch := g_epoch g;
  g_worker_boots := g_worker_boots g; g_revalidation_needed := g_revalidation_needed
  g; g_budgets := g_budgets g; g_attempts := g_attempts g; g_reservations :=
  g_reservations g; g_history := g_history g; g_interventions := v; g_next_reservation
  := g_next_reservation g; g_next_intervention := g_next_intervention g; g_store :=
  g_store g |}.
Definition set_g_next_reservation (v : Z) (g : Impl) : Impl := {|
  g_policy := g_policy g; g_schedule := g_schedule g; g_epoch := g_epoch g;
  g_worker_boots := g_worker_boots g; g_revalidation_needed := g_revalidation_needed
  g; g_budgets := g_budgets g; g_attempts := g_attempts g; g_reservations :=
  g_reservations g; g_history := g_history g; g_interventions := g_interventions g;
  g_next_reservation := v; g_next_intervention := g_next_intervention g; g_store :=
  g_store g |}.
Definition set_g_next_intervention (v : Z) (g : Impl) : Impl := {|
  g_policy := g_policy g; g_schedule := g_schedule g; g_epoch := g_epoch g;
  g_worker_boots := g_worker_boots g; g_revalidation_needed := g_revalidation_needed
  g; g_budgets := g_budgets g; g_attempts := g_attempts g; g_reservations :=
  g_reservations g; g_history := g_history g; g_interventions := g_interventions g;
  g_next_reservation := g_next_reservation g; g_next_intervention := v; g_store :=
  g_store g |}.
Definition set_g_store (v : option string) (g : Impl) : Impl := {|
  g_policy := g_policy g; g_schedule := g_schedule g; g_epoch := g_epoch g;
  g_worker_boots := g_worker_boots g; g_revalidation_needed := g_revalidation_needed
  g; g_budgets := g_budgets g; g_attempts := g_attempts g; g_reservations :=
  g_reservations g; g_history := g_history g; g_interventions := g_interventions g;
  g_next_reservation := g_next_reservation g; g_next_intervention :=
  g_next_intervention g; g_store := v |}.

(** [Impl(std::shared_ptr<Clock>)] *)
Definition initial : Impl := {|
  g_policy := {|
    pol_id := mkId 1; pol_generation := mkId 1; pol_epoch := mkId 1;
    pol_currency := pol_currency default_policy; pol_ranking := pol_ranking default_policy;
    pol_min_evidence_freshness_ms := pol_min_evidence_freshness_ms default_policy;
    pol_max_evidence_age_ms := pol_max_evidence_age_ms default_policy;
    pol_price_schedule_max_age_ms := pol_price_schedule_max_age_ms default_policy;
    pol_max_projection_uncertainty := pol_max_projection_uncertainty default_policy;
    pol_hysteresis_ms := pol_hysteresis_ms default_policy;
    pol_cooldown_ms := pol_cooldown_ms default_policy;
    pol_near_budget_percent := pol_near_budget_percent default_policy;
    pol_at_risk_percent := pol_at_risk_percent default_policy;
    pol_retry_budget := pol_retry_budget default_policy;
    pol_recovery_budget := pol_recovery_budget default_policy;
    pol_recovery_cost_known := pol_recovery_cost_known default_policy;
    pol_allow_synthetic := pol_allow_synthetic default_policy;
    pol_allow_policy := pol_allow_policy default_policy;
    pol_allow_measured := pol_allow_measured default_policy |};
  g_schedule := empty_schedule; g_epoch := mkId 1; g_worker_boots := ∅;
  g_revalidation_needed := false; g_budgets := ∅; g_attempts := ∅; g_reservations := ∅;
  g_history := []; g_interventions := ∅; g_next_reservation := 1; g_next_intervention := 1;
  g_store := None |}.

(** ** Container iteration

    [std::map] iterates in key order.  [std::unordered_map] iterates in an order
    the standard leaves open: [umap_list] is any enumeration of the entries, a
    parameter of the operations that loop over one. *)
Definition smap_values {T V} (m : gmap (Id T) V) : list V :=
  snd <$> stable_sort (λ a b, id_ltb a.1 b.1) (map_to_list m).

Class IterOrder := {
  umap_list {K V} `{Countable K} : gmap K V → list (K * V);
  umap_list_perm {K V} `{Countable K} (m : gmap K V) : umap_list m ≡ₚ map_to_list m;
}.

Definition umap_values `{IterOrder} {K V} `{Countable K} (m : gmap K V) : list V :=
  snd <$> umap_list m.

(** The enumeration the witnesses compute with. *)
Definition map_order : IterOrder := {|
  umap_list K V _ _ m := map_to_list m;
  umap_list_perm K V _ _ m := Permutation_refl (map_to_list m) |}.

(** ** Configuration and authority *)

Definition set_state_path (path : string) : St Impl unit := st_modify (set_g_store (Some path)).

Definition set_policy (p : CostPolicy) : St Impl unit :=
  st_modify (λ g, set_g_revalidation_needed true (set_g_epoch (pol_epoch p) (set_g_policy p g))).

Definition set_price_schedule (s : PriceSchedule) : St Impl unit :=
  st_modify (λ g, set_g_revalidation_needed false (set_g_schedule s g)).

Definition create_budget (budget : Budget) : St Impl Status :=
  let* g := st_get in
  if negative (b_limit budget) then st_ret Status.INVALID_INPUT
  else if decide (b_currency budget ≠ pol_currency (g_policy g))
  then st_ret Status.CURRENCY_MISMATCH
  else if decide (b_epoch budget ≠ g_epoch g) then st_ret Status.STALE_AUTHORITY
  else if decide (b_policy_generation budget ≠ pol_generation (g_policy g))
  then st_ret Status.STALE_AUTHORITY
  else if decide (is_Some (g_budgets g !! b_id budget)) then st_ret Status.INVALID_INPUT
  else
    let b := set_b_lifecycle BudgetLifecycle.ACTIVE budget in
    st_modify (λ g, set_g_budgets (<[b_id b := b]> (g_budgets g)) g) ;;;
    st_ret Status.OK.

Definition advance_epoch : St Impl unit :=
  st_modify (λ g, set_g_revalidation_needed true (set_g_epoch (id_succ (g_epoch g)) g)).

Definition set_worker_boot (worker : WorkerId) (boot : WorkerBootId) : St Impl unit :=
  st_modify (λ g, set_g_worker_boots (<[worker := boot]> (g_worker_boots g)) g).

(** [worker_boot] and [current_boot_for] *)
Definition current_boot_for (g : Impl) (worker : WorkerId) : WorkerBootId :=
  default no_id (g_worker_boots g !! worker).

(** ** Price evidence *)

(** The update loop: replaces the first observation with the same id. *)
Fixpoint replace_obs (obs : PriceObservation) (l : list PriceObservation)
    : option (list PriceObservation) :=
  match l with
  | [] => None
  | o :: l' =>
      if decide (o_id o = o_id obs) then Some (obs :: l')
      else (cons o) <$> replace_obs obs l'
  end.

(** New observations under the next schedule generation. *)
Definition bump_schedule (obs : list PriceObservation) (s : PriceSchedule) : PriceSchedule :=
  mkPriceSchedule (s_id s) (id_succ (s_generation s)) obs (s_created_at_ms s).

Definition publish_price (obs : PriceObservation) : St Impl Status :=
  let* g := st_get in
  if decide (o_epoch obs ≠ g_epoch g) then st_ret Status.STALE_AUTHORITY
  else if valid (o_boot obs) && bool_decide (o_boot obs ≠ current_boot_for g (o_worker obs))
  then st_ret Status.STALE_AUTHORITY
  else if negb (valid_currency obs (pol_currency (g_policy g)))
  then st_ret Status.CURRENCY_MISMATCH
  else if negative (o_amount obs) then st_ret Status.INVALID_INPUT
  else
    let l := s_observations (g_schedule g) in
    let l' := match replace_obs obs l with Some l' => l' | None => l ++ [obs] end in
    st_modify (λ g, set_g_revalidation_needed false
      (set_g_schedule (bump_schedule l' (g_schedule g)) g)) ;;;
    st_ret Status.OK.

(** ** Realized cost evidence *)

Definition record_attempt (evidence : CostEvidence) : St Impl Status :=
  let* g := st_get in
  if decide (e_epoch evidence ≠ g_epoch g) then st_ret Status.STALE_AUTHORITY
  else if decide (e_boot evidence ≠ current_boot_for g (e_worker evidence))
  then st_ret Status.STALE_AUTHORITY
  else if decide (e_label evidence = DataLabel.UNSUPPORTED) then st_ret Status.INVALID_INPUT
  else if decide (count (e_accelerator_time evidence) < 0 ∨ count (e_energy evidence) < 0 ∨
      count (e_transfer evidence) < 0 ∨ count (e_memory_hold evidence) < 0 ∨
      count (e_residency_hold evidence) < 0 ∨ count (e_storage_bytes evidence) < 0 ∨
      e_recompute_ns evidence < 0 ∨ e_tokens evidence < 0 ∨ e_operations evidence < 0)
  then st_ret Status.INVALID_INPUT
  else
    let req := default ∅ (g_attempts g !! e_request evidence) in
    let store := st_modify (λ g, set_g_attempts
      (<[e_request evidence := <[e_attempt evidence := evidence]> req]> (g_attempts g)) g) in
    match req !! e_attempt evidence with
    | Some old =>
        if decide (e_attempt_gen old = e_attempt_gen evidence)
        then st_ret Status.INVALID_INPUT
        else store ;;; st_ret Status.OK
    | None => store ;;; st_ret Status.OK
    end.

(** ** Budget accounting *)

(** An assignment through the reference [Budget& b]. *)
Definition upd_budget (id : BudgetId) (f : Budget → Budget) (g : Impl) : Impl :=
  set_g_budgets (alter f id (g_budgets g)) g.

(** [out] is the reservation written to the out-parameter. *)
Definition reserve (now : Readings) (budget : BudgetId) (gen : BudgetGeneration)
    (epoch : CoordinatorEpoch) (amount : MoneyMicros)
    : St Impl (Status * option BudgetReservation) :=
  let* g := st_get in
  match g_budgets g !! budget with
  | None => st_ret (Status.INVALID_INPUT, None)
  | Some b =>
      if decide (b_generation b ≠ gen ∨ b_epoch b ≠ epoch)
      then st_ret (Status.STALE_AUTHORITY, None)
      else if decide (b_epoch b ≠ g_epoch g) then st_ret (Status.STALE_AUTHORITY, None)
      else if negb (is_live b) then st_ret (Status.BUDGET_EXPIRED, None)
      else if decide (b_expires_at_ms b ≠ 0 ∧ now 0%nat > b_expires_at_ms b) then
        st_modify (upd_budget budget (set_b_lifecycle BudgetLifecycle.EXPIRED)) ;;;
        st_ret (Status.BUDGET_EXPIRED, None)
      else if negative amount then st_ret (Status.INVALID_INPUT, None)
      else
        let* reserved_after := st_lift (b_reserved b +$ amount) in
        if decide (reserved_after > b_limit b) then st_ret (Status.BUDGET_EXCEEDED, None)
        else
          let r := {| r_id := mkId (g_next_reservation g); r_budget := budget;
                      r_budget_generation := gen; r_epoch := epoch; r_amount := amount;
                      r_created_at_ms := now 1%nat; r_expires_at_ms := b_expires_at_ms b;
                      r_state := ReservationState.ACTIVE |} in
          st_modify (upd_budget budget (set_b_reserved reserved_after)) ;;;
          st_modify (upd_budget budget (set_b_lifecycle BudgetLifecycle.RESERVED)) ;;;
          st_modify (λ g, set_g_next_reservation (u64_succ (g_next_reservation g)) g) ;;;
          st_modify (λ g, set_g_reservations
            (<[budget := default [] (g_reservations g !! budget) ++ [r]]> (g_reservations g)) g) ;;;
          st_ret (Status.OK, Some r)
  end.

(** [commit], [release] and [consume] on the lifecycle after [consumed] changed. *)
Definition consumed_lifecycle (consumed limit : MoneyMicros) : BudgetLifecycle :=
  if decide (consumed < limit) then BudgetLifecycle.PARTIALLY_CONSUMED
  else BudgetLifecycle.EXHAUSTED.

(** [b.reserved -= amount] and [b.released += amount] as statements. *)
Definition sub_reserved (id : BudgetId) (b : Budget) (amount : MoneyMicros) : St Impl unit :=
  let* v := st_lift (b_reserved b -$ amount) in st_modify (upd_budget id (set_b_reserved v)).
Definition add_released (id : BudgetId) (b : Budget) (amount : MoneyMicros) : St Impl unit :=
  let* v := st_lift (b_released b +$ amount) in st_modify (upd_budget id (set_b_released v)).

(** The caller's reservation is an in-out argument: the state of these
    operations is the governor together with it. *)
Definition on_impl {A} (m : St Impl A) : St (Impl * BudgetReservation) A := λ '(g, r),
  let '(a, g') := m g in (a, (g', r)).
Definition set_state (s : ReservationState.State) : St (Impl * BudgetReservation) unit :=
  st_modify (λ '(g, r), (g, set_r_state s r)).

Definition commit (now : Readings) : St (Impl * BudgetReservation) Status :=
  let* (g, r) := st_get in
  match g_budgets g !! r_budget r with
  | None => st_ret Status.INVALID_INPUT
  | Some b =>
      if decide (b_generation b ≠ r_budget_generation r) then st_ret Status.STALE_AUTHORITY
      else if decide (r_epoch r ≠ g_epoch g) then st_ret Status.STALE_AUTHORITY
      else if decide (b_epoch b ≠ g_epoch g) then st_ret Status.STALE_AUTHORITY
      else if decide (r_state r ≠ ReservationState.ACTIVE) then st_ret Status.OK
      else if negb (is_live b) then st_ret Status.BUDGET_EXPIRED
      else if decide (r_expires_at_ms r ≠ 0 ∧ now 0%nat > r_expires_at_ms r) then
        set_state ReservationState.EXPIRED ;;;
        on_impl (sub_reserved (r_budget r) b (r_amount r)) ;;;
        on_impl (add_released (r_budget r) b (r_amount r)) ;;;
        st_ret Status.BUDGET_EXPIRED
      else
        let* consumed_after := st_lift (b_consumed b +$ r_amount r) in
        if decide (b_mode b = BudgetMode.HARD ∧ consumed_after > b_limit b)
        then st_ret Status.BUDGET_EXCEEDED
        else
          on_impl (sub_reserved (r_budget r) b (r_amount r)) ;;;
          on_impl (st_modify (upd_budget (r_budget r) (set_b_consumed consumed_after))) ;;;
          set_state ReservationState.COMMITTED ;;;
          on_impl (st_modify (upd_budget (r_budget r)
            (set_b_lifecycle (consumed_lifecycle consumed_after (b_limit b))))) ;;;
          st_ret Status.OK
  end.

Definition release : St (Impl * BudgetReservation) Status :=
  let* (g, r) := st_get in
  match g_budgets g !! r_budget r with
  | None => st_ret Status.INVALID_INPUT
  | Some b =>
      if decide (b_generation b ≠ r_budget_generation r) then st_ret Status.STALE_AUTHORITY
      else if decide (r_epoch r ≠ g_epoch g) then st_ret Status.STALE_AUTHORITY
      else if decide (r_state r ≠ ReservationState.ACTIVE) then st_ret Status.OK
      else
        on_impl (sub_reserved (r_budget r) b (r_amount r)) ;;;
        on_impl (add_released (r_budget r) b (r_amount r)) ;;;
        set_state ReservationState.RELEASED ;;;
        let stored := default [] (g_reservations g !! r_budget r) in
        on_impl (st_modify (λ g, set_g_reservations
          (<[r_budget r := stored]> (g_reservations g)) g)) ;;;
        let any_active := existsb (λ x, bool_decide (r_state x = ReservationState.ACTIVE)) stored in
        on_impl (st_modify (upd_budget (r_budget r) (set_b_lifecycle
          (if any_active then BudgetLifecycle.RESERVED
           else if is_zero (b_consumed b) then BudgetLifecycle.ACTIVE
           else BudgetLifecycle.PARTIALLY_CONSUMED)))) ;;;
        st_ret Status.OK
  end.

Definition consume (now : Readings) (budget : BudgetId) (gen : BudgetGeneration)
    (epoch : CoordinatorEpoch) (amount : MoneyMicros) : St Impl Status :=
  let* g := st_get in
  match g_budgets g !! budget with
  | None => st_ret Status.INVALID_INPUT
  | Some b =>
      if decide (b_generation b ≠ gen ∨ b_epoch b ≠ epoch) then st_ret Status.STALE_AUTHORITY
      else if negb (is_live b) then st_ret Status.BUDGET_EXPIRED
      else if negative amount then st_ret Status.INVALID_INPUT
      else if decide (b_expires_at_ms b ≠ 0 ∧ now 0%nat > b_expires_at_ms b) then
        st_modify (upd_budget budget (set_b_lifecycle BudgetLifecycle.EXPIRED)) ;;;
        st_ret Status.BUDGET_EXPIRED
      else
        let* consumed_after := st_lift (b_consumed b +$ amount) in
        if decide (b_mode b = BudgetMode.HARD ∧ consumed_after > b_limit b)
        then st_ret Status.BUDGET_EXCEEDED
        else
          st_modify (upd_budget budget (set_b_consumed consumed_after)) ;;;
          st_modify (upd_budget budget
            (set_b_lifecycle (consumed_lifecycle consumed_after (b_limit b)))) ;;;
          st_ret Status.OK
  end.

(** ** Interventions *)

Definition set_i (l : InterventionLifecycle) (ack ver : Z) (i : CostIntervention) : CostIntervention :=
  {| i_id := i_id i; i_generation := i_generation i; i_kind := i_kind i; i_lifecycle := l;
     i_authority := i_authority i; i_created_at_ms := i_created_at_ms i;
     i_dispatched_at_ms := i_dispatched_at_ms i; i_acknowledged_at_ms := ack;
     i_verified_at_ms := ver; i_detail := i_detail i |}.

(** Returns the in-out argument as the caller sees it.  [emplace] does not
    overwrite an existing entry. *)
Definition propose_intervention (now : Readings) (x : CostIntervention)
    : St Impl (Status * CostIntervention) :=
  let* g := st_get in
  let x' := {| i_id := mkId (g_next_intervention g); i_generation := mkId 1; i_kind := i_kind x;
               i_lifecycle := InterventionLifecycle.PROPOSED; i_authority := i_authority x;
               i_created_at_ms := now 0%nat; i_dispatched_at_ms := i_dispatched_at_ms x;
               i_acknowledged_at_ms := i_acknowledged_at_ms x;
               i_verified_at_ms := i_verified_at_ms x; i_detail := i_detail x |} in
  st_modify (λ g, set_g_next_intervention (u64_succ (g_next_intervention g)) g) ;;;
  st_modify (λ g, set_g_interventions
    (match g_interventions g !! i_id x' with
     | Some _ => g_interventions g
     | None => <[i_id x' := x']> (g_interventions g)
     end) g) ;;;
  st_ret (Status.OK, x').

Definition upd_intervention (id : InterventionId) (f : CostIntervention → CostIntervention) (g : Impl)
    : Impl := set_g_interventions (alter f id (g_interventions g)) g.

Definition authorize_intervention (id : InterventionId) (gen : InterventionGeneration)
    : St Impl Status :=
  let* g := st_get in
  match g_interventions g !! id with
  | None => st_ret Status.INVALID_INPUT
  | Some i =>
      if decide (i_generation i ≠ gen) then st_ret Status.STALE_AUTHORITY
      else if decide (i_lifecycle i ≠ InterventionLifecycle.PROPOSED)
      then st_ret Status.INTERVENTION_FAILED
      else
        st_modify (upd_intervention id (λ i, set_i InterventionLifecycle.AUTHORIZED
          (i_acknowledged_at_ms i) (i_verified_at_ms i) i)) ;;;
        st_ret Status.OK
  end.

Definition acknowledge_intervention (now : Readings) (id : InterventionId)
    (gen : InterventionGeneration) : St Impl Status :=
  let* g := st_get in
  match g_interventions g !! id with
  | None => st_ret Status.INVALID_INPUT
  | Some i =>
      if decide (i_generation i ≠ gen) then st_ret Status.STALE_AUTHORITY
      else if decide (i_lifecycle i ≠ InterventionLifecycle.AUTHORIZED ∧
                      i_lifecycle i ≠ InterventionLifecycle.DISPATCHED)
      then st_ret Status.INTERVENTION_FAILED
      else
        st_modify (upd_intervention id (λ i, set_i InterventionLifecycle.ACKNOWLEDGED
          (now 0%nat) (i_verified_at_ms i) i)) ;;;
        st_ret Status.OK
  end.

Definition verify_intervention (now : Readings) (id : InterventionId)
    (gen : InterventionGeneration) (post_evidence : list CostEvidence)
    : St Impl VerificationOutcome :=
  let* g := st_get in
  match g_interventions g !! id with
  | None => st_ret VerificationOutcome.OUTCOME_UNKNOWN
  | Some i =>
      if decide (i_generation i ≠ gen) then st_ret VerificationOutcome.OUTCOME_UNKNOWN
      else if decide (post_evidence = [])
      then st_ret VerificationOutcome.INSUFFICIENT_POST_ACTION_EVIDENCE
      else if decide (i_lifecycle i ≠ InterventionLifecycle.ACKNOWLEDGED ∧
                      i_lifecycle i ≠ InterventionLifecycle.DISPATCHED)
      then st_ret VerificationOutcome.OUTCOME_UNKNOWN
      else
        st_modify (upd_intervention id (λ i, set_i InterventionLifecycle.EFFECTIVE
          (i_acknowledged_at_ms i) (now 0%nat) i)) ;;;
        st_ret VerificationOutcome.EFFECTIVE
  end.

(** ** Queries and finalization *)

Definition find_budget (g : Impl) (id : BudgetId) : option Budget := g_budgets g !! id.

Definition budgets_of `{IterOrder} (g : Impl) : list Budget := umap_values (g_budgets g).

Definition interventions_of `{IterOrder} (g : Impl) : list CostIntervention :=
  umap_values (g_interventions g).

(** [CostGovernor::attempts] *)
Definition attempts_of (g : Impl) (request : RequestId) : list CostEvidence :=
  match g_attempts g !! request with
  | None => []
  | Some m => smap_values m
  end.

Definition realized_request_cost (now : Readings) (g : Impl) (request : RequestId)
    : res MoneyMicros :=
  match g_attempts g !! request with
  | None => Ret 0
  | Some m =>
      let! bd := project (g_schedule g) (pol_currency (g_policy g)) (now 0%nat) (smap_values m) in
      Ret (cb_total bd)
  end.

Definition finalize_request (now : Readings) (request : RequestId) (workload : WorkloadId)
    : St Impl Status :=
  let* g := st_get in
  if existsb (λ h, bool_decide (h_request h = request)) (g_history g) then st_ret Status.OK
  else
    match g_attempts g !! request with
    | None => st_ret Status.INVALID_INPUT
    | Some m =>
        let evs := smap_values m in
        let* bd := st_lift (project (g_schedule g) (pol_currency (g_policy g)) (now 0%nat) evs) in
        let h := {| h_request := request; h_workload := workload; h_completed_at_ms := now 1%nat;
                    h_realized_cost := cb_total bd; h_attempts := wrap_i64 (Z.of_nat (length evs));
                    h_tokens := 0 |} in
        st_modify (λ g, set_g_history (g_history g ++ [h]) g) ;;;
        st_ret Status.OK
    end.
