(* ===== verification/Evaluate.v ===== *)
(** * Evaluate: plan feasibility, ranking, decisions and dispatch validation

    Models the evaluation half of src/governor.cpp: [check_price],
    [evaluate_plan_locked], [state_from_breakdown], [authority_snapshot_from],
    [build_explanation], [evaluate] and [validate_for_dispatch].  None of them
    changes the governor; an exception that is not caught is the result.  The
    order in which [std::unordered_map] enumerates the budgets is [IterOrder]. *)

From stdpp Require Import prelude gmap strings.
From S2P Require Import Prelude Effects Money Identity Units Price Policy Budget Cost.
From S2P Require Import Plan Decision Governor.
From stdpp Require Import options.

(** ** Price checks *)

Definition kind_for_check (c : CostComponent) : PriceKind :=
  match c with
  | CostComponent.ACCELERATOR_TIME => PriceKind.ACCELERATOR_TIME
  | CostComponent.ENERGY => PriceKind.ENERGY
  | CostComponent.TRANSFER => PriceKind.TRANSFER
  | CostComponent.MEMORY => PriceKind.MEMORY_HOLDING
  | CostComponent.RESIDENCY => PriceKind.RESIDENCY_HOLDING
  | CostComponent.STORAGE => PriceKind.STORAGE
  | _ => PriceKind.CUSTOM_TYPED_COMPONENT
  end.

Record PriceCheck := mkPriceCheck {
  pc_present : bool;
  pc_stale : bool;
  pc_obs : option PriceObservation;
}.

Definition in_interval (o : PriceObservation) (now_ms : Z) : bool :=
  if decide (now_ms < o_valid_from_ms o) then false
  else if decide (o_valid_to_ms o ≠ 0 ∧ now_ms >= o_valid_to_ms o) then false
  else true.

(** [a - b > max_age] on two's-complement int64, when an age limit is set. *)
Definition older_than (max_age now_ms t : Z) : bool :=
  bool_decide (max_age > 0) && bool_decide (wrap_i64 (now_ms - t) > max_age).

Definition check_price (s : PriceSchedule) (want : PriceKind) (currency : string) (now_ms : Z)
    (pol : CostPolicy) (dev : DeviceId) (res : ResourceId) : PriceCheck :=
  let schedule_stale := older_than (pol_price_schedule_max_age_ms pol) now_ms (s_created_at_ms s) in
  let best := foldl (λ best obs,
      if decide (o_kind obs ≠ want) then best
      else if negb (valid_currency obs currency) then best
      else if negb (in_interval obs now_ms) then best
      else if negb (accepts_label pol (o_label obs)) then best
      else if negative (o_amount obs) then best
      else if valid dev && valid (o_device obs) && bool_decide (o_device obs ≠ dev) then best
      else if valid res && valid (o_resource_scope obs) && bool_decide (o_resource_scope obs ≠ res)
      then best
      else if more_specific obs best then Some obs else best) None (s_observations s) in
  match best with
  | None => mkPriceCheck false false None
  | Some b =>
      let obs_stale := older_than (pol_max_evidence_age_ms pol) now_ms (o_observed_at_ms b) in
      mkPriceCheck true (schedule_stale || obs_stale) (Some b)
  end.

Definition amount_present (p : ExecutionPlan) (c : CostComponent) : bool :=
  match c with
  | CostComponent.ACCELERATOR_TIME => bool_decide (count (p_expected_accelerator_time p) ≠ 0)
  | CostComponent.ENERGY => bool_decide (count (p_expected_energy p) ≠ 0)
  | CostComponent.TRANSFER => bool_decide (count (p_expected_transfer p) ≠ 0)
  | CostComponent.MEMORY => bool_decide (count (p_expected_memory_hold p) ≠ 0)
  | CostComponent.RESIDENCY => bool_decide (count (p_expected_residency_hold p) ≠ 0)
  | CostComponent.STORAGE => bool_decide (count (p_expected_storage p) ≠ 0)
  | _ => false
  end.

Definition plan_to_evidence (p : ExecutionPlan) : CostEvidence := {|
  e_id := no_id; e_request := no_id; e_workload := no_id; e_attempt := no_id;
  e_attempt_gen := no_id; e_worker := no_id; e_boot := no_id; e_epoch := no_id;
  e_generation := no_id; e_observed_at_ms := 0; e_label := p_label p;
  e_completed_successfully := false; e_is_completion := false;
  e_device := p_device p; e_resource := p_resource p;
  e_accelerator_time := p_expected_accelerator_time p; e_energy := p_expected_energy p;
  e_transfer := p_expected_transfer p; e_memory_hold := p_expected_memory_hold p;
  e_residency_hold := p_expected_residency_hold p; e_storage_bytes := p_expected_storage p;
  e_requests := p_expected_requests p; e_tokens := p_expected_tokens p;
  e_operations := p_expected_operations p; e_recovery_actions := 0;
  e_recompute_ns := p_recovery_recompute_ns p |}.

(** ** evaluate_plan_locked *)

(** The six priced components of the check loop. *)
Definition checked_components : list CostComponent :=
  [ CostComponent.ACCELERATOR_TIME; CostComponent.ENERGY; CostComponent.TRANSFER;
    CostComponent.MEMORY; CostComponent.RESIDENCY; CostComponent.STORAGE ].

(** The loop over the components: the verdict of the first failing check. *)
Fixpoint check_components (g : Impl) (now : Z) (plan : ExecutionPlan) (cs : list CostComponent)
    : option (Feasibility * FeasibilityReason) :=
  match cs with
  | [] => None
  | c :: cs' =>
      if negb (amount_present plan c) then check_components g now plan cs'
      else
        let pc := check_price (g_schedule g) (kind_for_check c) (pol_currency (g_policy g)) now
                    (g_policy g) (p_device plan) (p_resource plan) in
        if negb (pc_present pc)
        then Some (Feasibility.INSUFFICIENT_EVIDENCE, FeasibilityReason.MISSING_PRICE)
        else if pc_stale pc
        then Some (Feasibility.REVALIDATION_REQUIRED, FeasibilityReason.STALE_PRICE)
        else check_components g now plan cs'
  end.

Definition over_budget_reason (b : Budget) : FeasibilityReason :=
  if decide (b_objective b = BudgetObjective.MAX_ENERGY_COST)
  then FeasibilityReason.ENERGY_TOO_EXPENSIVE
  else if decide (b_objective b = BudgetObjective.MAX_TRANSFER_COST)
  then FeasibilityReason.TRANSFER_TOO_EXPENSIVE
  else FeasibilityReason.HARD_BUDGET_EXCEEDED.

(** The loop over the budgets: the reason of the first hard budget exceeded. *)
Fixpoint check_budgets (total : MoneyMicros) (bs : list Budget) : res (option FeasibilityReason) :=
  match bs with
  | [] => Ret None
  | b :: bs' =>
      if decide (b_mode b = BudgetMode.HARD) then
        let! rem := remaining b in
        if decide (total > rem) then Ret (Some (over_budget_reason b))
        else check_budgets total bs'
      else check_budgets total bs'
  end.

Section evaluation.
Context `{IterOrder}.

(** [now] is what the clock returns, if it is read. *)
Definition evaluate_plan_locked (g : Impl) (now : Z) (plan : ExecutionPlan) : res PlanEconomics :=
  if decide (p_label plan = DataLabel.UNSUPPORTED) then
    Ret (economics_verdict Feasibility.UNKNOWN FeasibilityReason.UNKNOWN_COST_COMPONENT)
  else if negb (p_meets_hard_slo plan) then
    Ret (economics_verdict Feasibility.INFEASIBLE FeasibilityReason.SLO_CONFLICT)
  else if g_revalidation_needed g then
    Ret (economics_verdict Feasibility.REVALIDATION_REQUIRED FeasibilityReason.STALE_PRICE)
  else match check_components g now plan checked_components with
  | Some (f, r) => Ret (economics_verdict f r)
  | None =>
      match project (g_schedule g) (pol_currency (g_policy g)) now [plan_to_evidence plan] with
      | Throw e =>
          if decide (e = StatusError Status.MISSING_PRICE) then
            Ret (economics_verdict Feasibility.INSUFFICIENT_EVIDENCE FeasibilityReason.MISSING_PRICE)
          else Throw e
      | Ret bd =>
          if cb_any_unknown bd then
            Ret (economics_verdict Feasibility.UNKNOWN FeasibilityReason.UNKNOWN_COST_COMPONENT)
          else
            let! per_request :=
              if decide (p_expected_requests plan > 0)
              then checked_div (cb_total bd) (p_expected_requests plan) kCeil else Ret 0 in
            let! per_token :=
              if decide (p_expected_tokens plan > 0)
              then checked_div (cb_total bd) (p_expected_tokens plan) kCeil else Ret 0 in
            let per_token_valid := bool_decide (p_expected_tokens plan > 0) in
            let! over := check_budgets (cb_total bd) (budgets_of g) in
            let '(f, r) := match over with
                           | Some r => (Feasibility.INFEASIBLE, r)
                           | None => (Feasibility.FEASIBLE, FeasibilityReason.NONE)
                           end in
            Ret (mkPlanEconomics f r bd per_request per_token 0 per_token_valid)
      end
  end.

(** [CostGovernor::evaluate_plan] *)
Definition evaluate_plan (now : Readings) (g : Impl) (plan : ExecutionPlan) : res PlanEconomics :=
  evaluate_plan_locked g (now 0%nat) plan.

(** ** State, authority and explanation of a decision *)

(** One threshold: [limit.checked_mul(percent).checked_div(100, kCeil)]. *)
Definition threshold (limit : MoneyMicros) (percent : Z) : res MoneyMicros :=
  let! m := @checked_mul wrapping limit percent in checked_div m 100 kCeil.

Fixpoint state_loop (pol : CostPolicy) (total : MoneyMicros) (st : CostState) (bs : list Budget)
    : res CostState :=
  match bs with
  | [] => Ret st
  | b :: bs' =>
      if decide (b_mode b ≠ BudgetMode.HARD ∨ is_zero (b_limit b) = true)
      then state_loop pol total st bs'
      else
        let! rem := remaining b in
        if decide (total > rem) then Ret CostState.OVER_HARD_BUDGET
        else
          let! near := threshold (b_limit b) (pol_near_budget_percent pol) in
          let! atrisk := threshold (b_limit b) (pol_at_risk_percent pol) in
          state_loop pol total
            (if decide (total >= atrisk) then CostState.AT_RISK
             else if decide (total >= near) then CostState.NEAR_BUDGET else st) bs'
  end.

Definition state_from_breakdown (g : Impl) (bd : CostBreakdown) : res CostState :=
  state_loop (g_policy g) (cb_total bd) CostState.WITHIN_BUDGET (budgets_of g).

Definition authority_snapshot_from (g : Impl) (plan : ExecutionPlan)
    (workload_gen : WorkloadGeneration) : AuthorityContext := {|
  a_epoch := g_epoch g; a_policy_generation := pol_generation (g_policy g);
  a_price_generation := s_generation (g_schedule g); a_evidence_generation := no_id;
  a_plan_generation := p_generation plan; a_workload_generation := workload_gen;
  a_worker := p_worker plan; a_boot := current_boot_for g (p_worker plan);
  a_resource_generation := no_id; a_placement_generation := no_id;
  a_recovery_generation := no_id; a_budget_generation := mkId 0;
  a_intervention_generation := no_id |}.

(** The first hard budget of the enumeration: both [break] loops. *)
Definition first_hard (bs : list Budget) : option Budget :=
  list_find (λ b, b_mode b = BudgetMode.HARD) bs ≫= λ '(_, b), Some b.

Definition budget_increases (g : Impl) (total : MoneyMicros) : res Alt :=
  match first_hard (budgets_of g) with
  | None => Ret (mkAlt "BUDGET_INCREASES" false Feasibility.UNKNOWN 0 0)
  | Some b =>
      let! rem := remaining b in
      let! delta := rem -$ total in
      Ret (mkAlt "BUDGET_INCREASES" (bool_decide (total > rem)) Feasibility.FEASIBLE total delta)
  end.

(** The alternative [drop] is computed and then dropped: only [bud] is pushed. *)
Definition build_explanation (g : Impl) (best : ExecutionPlan) (econ : PlanEconomics)
    (workload_gen : WorkloadGeneration) (plans : list ExecutionPlan) : res CostExplanation :=
  let others := p_id <$> filter (λ p, p_id p ≠ p_id best) plans in
  let! bud := budget_increases g (cb_total (pe_projected econ)) in
  Ret {|
    ex_objective := "COST_GOVERNED_PLAN"; ex_currency := pol_currency (g_policy g);
    ex_projected := pe_projected econ; ex_realized := ex_realized empty_explanation;
    ex_prices_used := []; ex_evidence_age_ms := 0; ex_label := p_label best;
    ex_candidate_set := others ++ [p_id best]; ex_rejected := others;
    ex_binding_constraint := FeasibilityReason.NONE; ex_selected := p_id best;
    ex_tie_break_note := EmptyString; ex_uncertainty_percent := 0;
    ex_what_would_change := [bud]; ex_authority := authority_snapshot_from g best workload_gen |}.

(** ** evaluate *)

Record Candidate := mkCandidate { c_plan : ExecutionPlan; c_econ : PlanEconomics }.

(** A known component's value, else 0. *)
Definition known_value (bd : CostBreakdown) (c : CostComponent) : MoneyMicros :=
  if cv_known (get bd c) then cv_value (get bd c) else 0.

Definition better (a b : Candidate) : bool :=
  let ea := c_econ a in let eb := c_econ b in
  let pa := pe_projected ea in let pb := pe_projected eb in
  if decide (cb_total pa ≠ cb_total pb) then bool_decide (cb_total pa < cb_total pb)
  else if decide (pe_projected_per_request ea ≠ pe_projected_per_request eb)
  then bool_decide (pe_projected_per_request ea < pe_projected_per_request eb)
  else if decide (pe_projected_per_token ea ≠ pe_projected_per_token eb)
  then bool_decide (pe_projected_per_token ea < pe_projected_per_token eb)
  else if decide (known_value pa CostComponent.ENERGY ≠ known_value pb CostComponent.ENERGY)
  then bool_decide (known_value pa CostComponent.ENERGY < known_value pb CostComponent.ENERGY)
  else if decide (known_value pa CostComponent.TRANSFER ≠ known_value pb CostComponent.TRANSFER)
  then bool_decide (known_value pa CostComponent.TRANSFER < known_value pb CostComponent.TRANSFER)
  else if decide (known_value pa CostComponent.ACCELERATOR_TIME ≠
                  known_value pb CostComponent.ACCELERATOR_TIME)
  then bool_decide (known_value pa CostComponent.ACCELERATOR_TIME <
                    known_value pb CostComponent.ACCELERATOR_TIME)
  else if decide (p_completion_probability_percent (c_plan a) ≠
                  p_completion_probability_percent (c_plan b))
  then bool_decide (p_completion_probability_percent (c_plan a) >
                    p_completion_probability_percent (c_plan b))
  else bool_decide (value (p_id (c_plan a)) < value (p_id (c_plan b))).

(** Plan [i] of the list is evaluated at the clock's value [now i]. *)
Fixpoint evaluate_candidates (g : Impl) (now : Readings) (i : nat) (plans : list ExecutionPlan)
    : res (list Candidate) :=
  match plans with
  | [] => Ret []
  | plan :: plans' =>
      let! e := evaluate_plan_locked g (now i) plan in
      let! cs := evaluate_candidates g now (S i) plans' in
      Ret (mkCandidate plan e :: cs)
  end.

Definition is_feasible (c : Candidate) : bool :=
  bool_decide (pe_feasible (c_econ c) = Feasibility.FEASIBLE).

(** [worst]: the reason of the last infeasible candidate that has one. *)
Definition worst_reason (cs : list Candidate) : FeasibilityReason :=
  foldl (λ worst c,
      if negb (is_feasible c) && bool_decide (pe_reason (c_econ c) ≠ FeasibilityReason.NONE)
      then pe_reason (c_econ c) else worst)
    FeasibilityReason.NONE cs.

Definition evaluate (now : Readings) (g : Impl) (workload_gen : WorkloadGeneration)
    (plans : list ExecutionPlan) : res CostDecision :=
  if g_revalidation_needed g then
    Ret (refusal DecisionKind.REVALIDATE Status.STALE_EVIDENCE FeasibilityReason.NONE
           "recovered dynamic evidence requires revalidation")
  else if decide (length plans = 0%nat) then
    Ret (refusal DecisionKind.NO_FEASIBLE_PLAN Status.PLAN_INFEASIBLE FeasibilityReason.NONE EmptyString)
  else
    let! candidates := evaluate_candidates g now 0 plans in
    match stable_sort better (filter (λ c, is_feasible c = true) candidates) with
    | [] =>
        Ret (refusal DecisionKind.NO_FEASIBLE_PLAN Status.PLAN_INFEASIBLE (worst_reason candidates)
               "no feasible candidate under current economics")
    | best :: _ =>
        let plan := c_plan best in
        let projected := pe_projected (c_econ best) in
        let! rem := match first_hard (budgets_of g) with
                    | Some b => remaining b
                    | None => Ret 0
                    end in
        let! st := state_from_breakdown g projected in
        let! ex := build_explanation g plan (c_econ best) workload_gen plans in
        Ret {|
          d_kind := DecisionKind.AUTHORIZE; d_selected_plan := p_id plan;
          d_plan_generation := p_generation plan;
          d_rejected_plans := p_id <$> filter (λ p, p_id p ≠ p_id plan) (c_plan <$> candidates);
          d_binding_constraint := FeasibilityReason.NONE; d_projected := projected;
          d_realized := empty_breakdown kDefaultCurrency; d_remaining_budget := rem;
          d_state := st; d_authority := authority_snapshot_from g plan workload_gen;
          d_explanation := ex; d_status := Status.OK; d_detail := EmptyString |}
    end.

(** ** validate_for_dispatch *)

(** The loop over the candidate plans. *)
Fixpoint find_selected (selected : PlanId) (plans : list ExecutionPlan) : option ExecutionPlan :=
  match plans with
  | [] => None
  | p :: plans' => if decide (p_id p = selected) then Some p else find_selected selected plans'
  end.

Definition validate_for_dispatch (now : Readings) (g : Impl) (prior : CostDecision)
    (candidate_plans : list ExecutionPlan) : res Status :=
  if decide (d_kind prior ≠ DecisionKind.AUTHORIZE) then Ret Status.OK
  else
    let a := d_authority prior in
    if decide (a_epoch a ≠ g_epoch g) then Ret Status.STALE_AUTHORITY
    else if decide (a_policy_generation a ≠ pol_generation (g_policy g)) then Ret Status.STALE_AUTHORITY
    else if decide (a_price_generation a ≠ s_generation (g_schedule g)) then Ret Status.STALE_AUTHORITY
    else if decide (a_boot a ≠ current_boot_for g (a_worker a)) then Ret Status.STALE_AUTHORITY
    else if g_revalidation_needed g then Ret Status.STALE_EVIDENCE
    else match find_selected (d_selected_plan prior) candidate_plans with
    | None => Ret Status.PLAN_SUPERSEDED
    | Some plan =>
        if negb (p_meets_hard_slo plan) then Ret Status.PLAN_INFEASIBLE
        else
          let! e := evaluate_plan_locked g (now 0%nat) plan in
          if decide (pe_feasible e ≠ Feasibility.FEASIBLE) then Ret Status.PLAN_INFEASIBLE
          else
            let! over := check_budgets (cb_total (pe_projected e)) (budgets_of g) in
            Ret (match over with Some _ => Status.BUDGET_EXCEEDED | None => Status.OK end)
    end.
End evaluation.
