(* ===== verification/Codec.v ===== *)
(** * Codec: byte-level writers, readers and checksum

    Models the classes [Writer] and [Reader] and [SnapshotCodec::crc32] of
    src/persistence.cpp, and their twins of distributed/chan.hpp.  A byte is a
    [Z] in [[0, 256)].  A writer's buffer only grows at its end, so a write is
    the bytes it appends; a reader is the bytes it has not consumed yet.  What
    the two readers do differently is the class [Format]. *)

From stdpp Require Import prelude gmap strings.
From S2P Require Import Prelude Effects Identity.
From stdpp Require Import options.

(** Lemmas that read back, or bound, what one writer wrote. *)
Create HintDb codec.

Definition byte_ok (b : Z) : Prop := 0 ≤ b < 256.
#[global] Instance byte_ok_dec b : Decision (byte_ok b).
Proof. unfold byte_ok. apply _. Defined.

(** ** Strings as bytes *)
Definition byte_of_ascii (a : Ascii.ascii) : Z := Z.of_N (Ascii.N_of_ascii a).
Definition ascii_of_byte (b : Z) : Ascii.ascii := Ascii.ascii_of_N (Z.to_N b).

Fixpoint string_bytes (s : string) : list Z :=
  match s with
  | EmptyString => []
  | String a s' => byte_of_ascii a :: string_bytes s'
  end.

Fixpoint bytes_string (l : list Z) : string :=
  match l with
  | [] => EmptyString
  | b :: l' => String (ascii_of_byte b) (bytes_string l')
  end.

(** ** Writer *)

(** The [n] low bytes of [v], least significant first. *)
Fixpoint le_bytes (n : nat) (v : Z) : list Z :=
  match n with
  | O => []
  | S n' => Z.land v 255 :: le_bytes n' (Z.shiftr v 8)
  end.

Definition w_u8 (v : Z) : res (list Z) := Ret [v].
Definition w_u16 (v : Z) : res (list Z) := Ret (le_bytes 2 v).
Definition w_u32 (v : Z) : res (list Z) := Ret (le_bytes 4 v).
Definition w_u64 (v : Z) : res (list Z) := Ret (le_bytes 8 v).
Definition w_i64 (v : Z) : res (list Z) := w_u64 (wrap_u64 v).
Definition w_str (s : string) : res (list Z) :=
  let bytes := string_bytes s in
  let size := Z.of_nat (length bytes) in
  if decide (size > U32_MAX) then throw_status Status.RESOURCE_EXHAUSTED
  else let! n := w_u32 size in Ret (n ++ bytes).
Definition w_bool (b : bool) : res (list Z) := w_u8 (if b then 1 else 0).
Definition w_enum `{Enum8 E} (e : E) : res (list Z) := w_u8 (to_u8 e).
Definition write_id {T} (i : Id T) : res (list Z) := w_u64 (value i).

(** A sequence of writes. *)
Fixpoint writes (l : list (res (list Z))) : res (list Z) :=
  match l with
  | [] => Ret []
  | m :: l' => let! x := m in let! y := writes l' in Ret (x ++ y)
  end.

(** ** Reader *)
Abbreviation R A := (St (list Z) A) (only parsing).

(** A format: the exception its reader throws and its bounds on the lengths it
    reads, which a [uint32_t] holds. *)
Class Format := {
  fmt_error : exn;
  fmt_max_string : Z;
  fmt_max_count : Z;
  fmt_string_fits : fmt_max_string ≤ U32_MAX;
  fmt_count_fits : fmt_max_count ≤ U32_MAX;
}.

Section reader.
Context `{F : Format}.

Definition corrupt {A} : R A := st_lift (Throw fmt_error).

(** [need(k)] and the [k] bytes it checked for. *)
Definition r_take (k : nat) : R (list Z) := λ bs,
  if decide (length bs < k)%nat then (Throw fmt_error, bs)
  else (Ret (take k bs), drop k bs).

(** [v |= b << (8 * i)] over the bytes, in Horner form. *)
Fixpoint of_le (bs : list Z) : Z :=
  match bs with
  | [] => 0
  | b :: bs' => Z.lor b (Z.shiftl (of_le bs') 8)
  end.

Definition r_u8 : R Z := let* bs := r_take 1 in st_ret (of_le bs).
Definition r_u16 : R Z := let* bs := r_take 2 in st_ret (of_le bs).
Definition r_u32 : R Z := let* bs := r_take 4 in st_ret (of_le bs).
Definition r_u64 : R Z := let* bs := r_take 8 in st_ret (of_le bs).
Definition r_i64 : R Z := let* v := r_u64 in st_ret (wrap_i64 v).
Definition r_str : R string :=
  let* len := r_u32 in
  if decide (len > fmt_max_string) then corrupt
  else let* bs := r_take (Z.to_nat len) in st_ret (bytes_string bs).
Definition r_bool : R bool := let* v := r_u8 in st_ret (bool_decide (v ≠ 0)).
Definition r_enum `{Enum8 E} : R E := let* v := r_u8 in st_ret (of_u8 v).
Definition read_id {T} : R (Id T) := let* v := r_u64 in st_ret (mkId v).

(** [for (i = 0; i < n; ++i) out.push_back(item(r))] *)
Fixpoint r_repeat {A} (n : nat) (item : R A) : R (list A) :=
  match n with
  | O => st_ret []
  | S n' => let* x := item in let* l := r_repeat n' item in st_ret (x :: l)
  end.

(** A count, its bound, and that many items. *)
Definition r_list {A} (item : R A) : R (list A) :=
  let* n := r_u32 in
  if decide (n > fmt_max_count) then corrupt else r_repeat (Z.to_nat n) item.

(** The end of the input is reached. *)
Definition expect_end : R unit := λ bs,
  if decide (length bs = 0%nat) then (Ret tt, bs) else (Throw fmt_error, bs).
End reader.

Definition w_list {A} (item : A → res (list Z)) (l : list A) : res (list Z) :=
  writes (w_u32 (Z.of_nat (length l) `mod` 2 ^ 32) :: (item <$> l)).

(** ** CRC-32 *)

(** [crc = (crc >> 1) ^ (0xEDB88320u & (~((crc & 1) - 1u)))] *)
Definition crc_bit (crc : Z) : Z :=
  Z.lxor (Z.shiftr crc 1)
    (Z.land 0xEDB88320 (U32_MAX - (Z.land crc 1 - 1) `mod` 2 ^ 32)).

Definition crc_byte (crc byte : Z) : Z := Nat.iter 8 crc_bit (Z.lxor crc byte).

Definition crc32 (data : list Z) : Z := U32_MAX - foldl crc_byte 0xFFFFFFFF data.

(** ** Round trips

    [reads m w a]: reading [w] with [m] gives [a] and consumes exactly [w]. *)
Definition reads {A} (m : R A) (w : list Z) (a : A) : Prop := ∀ rest, m (w ++ rest) = (Ret a, rest).

Lemma reads_bind {A B} (m : R A) (k : A → R B) w1 w2 a b :
  reads m w1 a → reads (k a) w2 b → reads (st_bind m k) (w1 ++ w2) b.
Proof. intros H1 H2 rest. unfold st_bind. rewrite <-app_assoc, H1. apply H2. Qed.

Lemma reads_ret {A} (a : A) : reads (st_ret a) [] a.
Proof. by intros rest. Qed.

Lemma reads_map {A B} (m : R A) (f : A → B) w a :
  reads m w a → reads (let* x := m in st_ret (f x)) w (f a).
Proof. intros H rest. unfold st_bind. by rewrite H. Qed.

Lemma length_le_bytes n v : length (le_bytes n v) = n.
Proof. revert v. induction n as [|n IH]; intros v; simpl; [done|]. by rewrite IH. Qed.

Lemma le_bytes_ok n v : Forall byte_ok (le_bytes n v).
Proof.
  revert v. induction n as [|n IH]; intros v; simpl; constructor; [|done].
  unfold byte_ok. change 255 with (Z.ones 8). rewrite Z.land_ones by lia.
  apply Z.mod_pos_bound. lia.
Qed.

Lemma of_le_le_bytes n v : 0 ≤ v < 2 ^ (8 * Z.of_nat n) → of_le (le_bytes n v) = v.
Proof.
  revert v. induction n as [|n IH]; intros v Hv.
  { simpl in *. lia. }
  cbn [le_bytes of_le]. rewrite IH.
  - apply Z.bits_inj'. intros i Hi. change 255 with (Z.ones 8). rewrite Z.lor_spec, Z.land_spec.
    rewrite Z.shiftl_spec by done. destruct (decide (i < 8)).
    + rewrite Z.ones_spec_low, andb_true_r by lia. rewrite (Z.testbit_neg_r _ (i - 8)) by lia.
      by rewrite orb_false_r.
    + rewrite Z.ones_spec_high, andb_false_r by lia. rewrite Z.shiftr_spec by lia.
      simpl. f_equal. lia.
  - rewrite Z.shiftr_div_pow2 by lia. split; [apply Z.div_pos; lia|].
    apply Z.div_lt_upper_bound; [lia|]. rewrite <-Z.pow_add_r by lia.
    replace (8 + 8 * Z.of_nat n) with (8 * Z.of_nat (S n)) by lia. apply Hv.
Qed.

Section round_trips.
Context `{F : Format}.

Lemma reads_take k w : length w = k → reads (r_take k) w w.
Proof.
  intros <- rest. unfold r_take. rewrite decide_False by (rewrite length_app; lia).
  by rewrite take_app_length, drop_app_length.
Qed.

Lemma reads_u8 v : byte_ok v → reads r_u8 [v] v.
Proof.
  intros Hv rest. unfold r_u8, st_bind. rewrite (reads_take 1 [v]) by done.
  simpl. unfold st_ret. rewrite Z.shiftl_0_l, Z.lor_0_r. done.
Qed.

Lemma reads_u16 v : 0 ≤ v < 2 ^ 16 → reads r_u16 (le_bytes 2 v) v.
Proof.
  intros Hv rest. unfold r_u16, st_bind. rewrite (reads_take 2) by apply length_le_bytes.
  unfold st_ret. rewrite of_le_le_bytes; [done|]. lia.
Qed.

Lemma reads_u32 v : 0 ≤ v ≤ U32_MAX → reads r_u32 (le_bytes 4 v) v.
Proof.
  intros Hv rest. unfold r_u32, st_bind. rewrite (reads_take 4) by apply length_le_bytes.
  unfold st_ret. rewrite of_le_le_bytes; [done|]. widths. lia.
Qed.

Lemma reads_u64 v : in_u64 v → reads r_u64 (le_bytes 8 v) v.
Proof.
  intros Hv rest. unfold r_u64, st_bind. rewrite (reads_take 8) by apply length_le_bytes.
  unfold st_ret. rewrite of_le_le_bytes; [done|]. widths. lia.
Qed.

Lemma wrap_u64_range v : in_u64 (wrap_u64 v).
Proof. widths. pose proof (Z.mod_pos_bound v (2 ^ 64)). lia. Qed.

Lemma wrap_i64_u64 v : in_i64 v → wrap_i64 (wrap_u64 v) = v.
Proof.
  intros Hv. apply (wrap_i64_eq _ _ (- (v `div` 2 ^ 64))); [done|].
  unfold wrap_u64. pose proof (Z.div_mod v (2 ^ 64)). lia.
Qed.

Lemma reads_i64 v : in_i64 v → reads r_i64 (le_bytes 8 (wrap_u64 v)) v.
Proof.
  intros Hv rest. unfold r_i64, st_bind. rewrite reads_u64 by apply wrap_u64_range.
  unfold st_ret. by rewrite wrap_i64_u64.
Qed.

Lemma reads_id {T} (i : Id T) : id_ok i → reads read_id (le_bytes 8 (value i)) i.
Proof.
  intros Hi rest. unfold read_id, st_bind. rewrite reads_u64 by done. unfold st_ret. by destruct i.
Qed.

Lemma reads_bool b : reads r_bool [if b : bool then 1 else 0] b.
Proof. intros rest. unfold r_bool, st_bind. rewrite reads_u8 by (by destruct b). by destruct b. Qed.

Lemma reads_enum `{Enum8 E} (e : E) : enum_ok e → reads r_enum [to_u8 e] e.
Proof.
  intros [Hr He] rest. unfold r_enum, st_bind. rewrite reads_u8 by done. unfold st_ret. by rewrite He.
Qed.

Lemma ascii_byte_inv a : ascii_of_byte (byte_of_ascii a) = a.
Proof. unfold ascii_of_byte, byte_of_ascii. by rewrite N2Z.id, Ascii.ascii_N_embedding. Qed.

Lemma bytes_string_inv s : bytes_string (string_bytes s) = s.
Proof. induction s as [|a s IH]; simpl; [done|]. by rewrite IH, ascii_byte_inv. Qed.

Lemma byte_of_ascii_ok a : byte_ok (byte_of_ascii a).
Proof.
  unfold byte_ok, byte_of_ascii. pose proof (Ascii.N_ascii_bounded a). lia.
Qed.

Lemma string_bytes_ok s : Forall byte_ok (string_bytes s).
Proof. induction s; simpl; constructor; [apply byte_of_ascii_ok|done]. Qed.

(** The bound of [Reader::str]. *)
Definition string_ok (s : string) : Prop :=
  Z.of_nat (length (string_bytes s)) ≤ fmt_max_string.
#[global] Instance string_ok_dec s : Decision (string_ok s).
Proof. unfold string_ok. apply _. Defined.

Lemma reads_str s w : string_ok s → w_str s = Ret w → reads r_str w s.
Proof.
  unfold string_ok, w_str. intros Hs Hw. pose proof fmt_string_fits.
  case_decide; [done|]. simpl in Hw. injection Hw as <-.
  unfold r_str. eapply (reads_bind _ _ (le_bytes 4 _)); [apply reads_u32; widths; lia|].
  rewrite decide_False by lia.
  pose proof (reads_map (r_take (Z.to_nat (Z.of_nat (length (string_bytes s))))) bytes_string
    (string_bytes s) (string_bytes s)) as Hm.
  rewrite bytes_string_inv in Hm. apply Hm, reads_take. lia.
Qed.

(** ** Sequences of writes *)

Lemma writes_cons m l w :
  writes (m :: l) = Ret w → ∃ x y, m = Ret x ∧ writes l = Ret y ∧ w = x ++ y.
Proof.
  cbn [writes]. intros H. apply res_bind_Ret in H as (x & Hx & H).
  apply res_bind_Ret in H as (y & Hy & [= <-]). by exists x, y.
Qed.

Lemma writes_ret l : Forall is_Ret l → is_Ret (writes l).
Proof.
  induction 1 as [|m l [x ->] _ [y Hy]]; [by eexists|]. cbn. rewrite Hy. by eexists.
Qed.

Lemma reads_repeat {A B} (item : R B) (put : A → res (list Z)) (f : A → B) (P : A → Prop) l w :
  (∀ a x, P a → put a = Ret x → reads item x (f a)) →
  Forall P l → writes (put <$> l) = Ret w → reads (r_repeat (length l) item) w (f <$> l).
Proof.
  intros Hitem Hl. revert w. induction Hl as [|a l Ha Hl IH]; intros w Hw.
  { injection Hw as <-. apply reads_ret. }
  rewrite fmap_cons in Hw. apply writes_cons in Hw as (x & y & Hx & Hy & ->).
  cbn [length r_repeat]. rewrite fmap_cons. eapply reads_bind; [by eapply Hitem|].
  by apply (reads_map _ (cons (f a))), IH.
Qed.

Definition count_ok {A} (l : list A) : Prop := Z.of_nat (length l) ≤ fmt_max_count.

(** A list whose items are read back as their images under [f]. *)
Lemma reads_list_map {A B} (item : R B) (put : A → res (list Z)) (f : A → B) (P : A → Prop) l w :
  (∀ a x, P a → put a = Ret x → reads item x (f a)) →
  Forall P l → count_ok l → w_list put l = Ret w → reads (r_list item) w (f <$> l).
Proof.
  unfold count_ok. intros Hitem Hl Hn Hw. pose proof fmt_count_fits.
  apply writes_cons in Hw as (x & y & [= <-] & Hy & ->).
  rewrite Z.mod_small in * by (widths; lia). unfold r_list.
  eapply (reads_bind _ _ (le_bytes 4 _)); [apply reads_u32; widths; lia|].
  rewrite decide_False by lia. rewrite Nat2Z.id. by eapply reads_repeat.
Qed.

Lemma reads_list {A} (item : R A) (put : A → res (list Z)) (P : A → Prop) l w :
  (∀ a x, P a → put a = Ret x → reads item x a) →
  Forall P l → count_ok l → w_list put l = Ret w → reads (r_list item) w l.
Proof. intros. rewrite <-(list_fmap_id l). by eapply reads_list_map. Qed.

(** A list that is too long is written but not read back. *)
Lemma list_too_long {A} (item : R A) (put : A → res (list Z)) l w rest :
  fmt_max_count < Z.of_nat (length l) ≤ U32_MAX → w_list put l = Ret w →
  ∃ bs, r_list item (w ++ rest) = (Throw fmt_error, bs).
Proof.
  intros Hn Hw. apply writes_cons in Hw as (x & y & Hx & Hy & ->).
  rewrite Z.mod_small in Hx by (widths; lia).
  assert (x = le_bytes 4 (Z.of_nat (length l))) as -> by (unfold w_u32 in Hx; congruence).
  unfold r_list, st_bind.
  rewrite <-app_assoc, reads_u32 by (widths; lia). rewrite decide_True by lia. by eexists.
Qed.

End round_trips.

(** ** CRC-32 detects every single-byte error *)

Definition in_u32 (c : Z) : Prop := 0 ≤ c < 2 ^ 32.

Lemma testbit_u32 c i : in_u32 c → 32 ≤ i → Z.testbit c i = false.
Proof.
  intros Hc Hi. destruct (decide (c = 0)) as [->|]; [apply Z.bits_0|].
  apply Z.bits_above_log2; [by destruct Hc|]. apply Z.log2_lt_pow2; [by destruct Hc; lia|].
  destruct Hc. eapply Z.lt_le_trans; [done|]. by apply Z.pow_le_mono_r.
Qed.

Lemma u32_of_testbit c : 0 ≤ c → (∀ i, 32 ≤ i → Z.testbit c i = false) → in_u32 c.
Proof.
  intros Hc Hb. split; [done|]. destruct (decide (c = 0)) as [->|]; [done|].
  apply Z.log2_lt_pow2; [lia|]. destruct (decide (Z.log2 c < 32)); [done|].
  pose proof (Z.bit_log2 c ltac:(lia)) as Hl. rewrite Hb in Hl by lia. done.
Qed.

(** The bit step without its branch-free mask. *)
Lemma crc_bit_eq c :
  crc_bit c = Z.lxor (Z.shiftr c 1) (if Z.testbit c 0 then 0xEDB88320 else 0).
Proof.
  unfold crc_bit. f_equal. change 1 with (Z.ones 1) at 1. rewrite Z.land_ones by lia.
  rewrite <-Z.bit0_mod. by destruct (Z.testbit c 0).
Qed.

Lemma crc_bit_range c : in_u32 c → in_u32 (crc_bit c).
Proof.
  intros Hc. rewrite crc_bit_eq. apply u32_of_testbit.
  - apply Z.lxor_nonneg. split; intros _; [by destruct (Z.testbit c 0)|].
    apply Z.shiftr_nonneg. by destruct Hc.
  - intros i Hi. rewrite Z.lxor_spec, Z.shiftr_spec, testbit_u32 by (done || lia).
    destruct (Z.testbit c 0); [|by rewrite Z.bits_0]. by apply (testbit_u32 0xEDB88320).
Qed.

(** The top bit of the result is the low bit of the argument. *)
Lemma crc_bit_top c : in_u32 c → Z.testbit (crc_bit c) 31 = Z.testbit c 0.
Proof.
  intros Hc. rewrite crc_bit_eq, Z.lxor_spec, Z.shiftr_spec, testbit_u32 by (done || lia).
  by destruct (Z.testbit c 0).
Qed.

Lemma crc_bit_inj c c' : in_u32 c → in_u32 c' → crc_bit c = crc_bit c' → c = c'.
Proof.
  intros Hc Hc' Heq. assert (Z.testbit c 0 = Z.testbit c' 0) as H0
    by (rewrite <-!crc_bit_top by done; by rewrite Heq).
  apply Z.bits_inj'. intros i Hi. destruct (decide (i = 0)) as [->|]; [done|].
  apply (f_equal (λ z, Z.testbit z (i - 1))) in Heq. rewrite !crc_bit_eq, H0 in Heq.
  rewrite !Z.lxor_spec, !Z.shiftr_spec in Heq by lia.
  replace (i - 1 + 1) with i in Heq by lia.
  by destruct (Z.testbit c i), (Z.testbit c' i), (Z.testbit (if Z.testbit c' 0 then _ else _) (i - 1)).
Qed.

Lemma crc_iter n c c' :
  in_u32 c → in_u32 c' →
  in_u32 (Nat.iter n crc_bit c) ∧ (Nat.iter n crc_bit c = Nat.iter n crc_bit c' → c = c').
Proof.
  intros Hc Hc'. assert (∀ n c, in_u32 c → in_u32 (Nat.iter n crc_bit c)) as Hr.
  { intros m d Hd. induction m; simpl; [done|]. by apply crc_bit_range. }
  split; [by apply Hr|]. induction n as [|n IH]; simpl; [done|].
  intros Heq. apply IH. apply crc_bit_inj; by try apply Hr.
Qed.

Lemma lxor_u32 c b : in_u32 c → byte_ok b → in_u32 (Z.lxor c b).
Proof.
  intros Hc Hb. assert (in_u32 b) by (unfold byte_ok, in_u32 in *; lia). apply u32_of_testbit.
  - apply Z.lxor_nonneg. unfold in_u32, byte_ok in *. lia.
  - intros i Hi. by rewrite Z.lxor_spec, !testbit_u32.
Qed.

Lemma crc_byte_range c b : in_u32 c → byte_ok b → in_u32 (crc_byte c b).
Proof. intros. unfold crc_byte. by apply crc_iter with (c' := 0); [apply lxor_u32|]. Qed.

Lemma lxor_inj_r c b b' : Z.lxor c b = Z.lxor c b' → b = b'.
Proof.
  intros H. apply (f_equal (Z.lxor c)) in H. by rewrite <-!Z.lxor_assoc, Z.lxor_nilpotent, !Z.lxor_0_l in H.
Qed.

Lemma crc_byte_inj c c' b b' :
  in_u32 c → in_u32 c' → byte_ok b → byte_ok b' → crc_byte c b = crc_byte c' b' →
  Z.lxor c b = Z.lxor c' b'.
Proof. intros Hc Hc' Hb Hb'. apply crc_iter; by apply lxor_u32. Qed.

Lemma crc_fold_inj data c c' :
  in_u32 c → in_u32 c' → Forall byte_ok data →
  foldl crc_byte c data = foldl crc_byte c' data → c = c'.
Proof.
  intros Hc Hc' Hd. revert c c' Hc Hc'. induction Hd as [|b data Hb Hd IH]; intros c c' Hc Hc' H; [done|].
  simpl in H. apply IH in H; [|by apply crc_byte_range..].
  apply crc_byte_inj in H; [|done..]. rewrite !(Z.lxor_comm _ b) in H. by apply lxor_inj_r in H.
Qed.

Lemma crc_fold_range data c : in_u32 c → Forall byte_ok data → in_u32 (foldl crc_byte c data).
Proof.
  intros Hc Hd. revert c Hc. induction Hd as [|b data Hb Hd IH]; intros c Hc; [done|].
  simpl. apply IH. by apply crc_byte_range.
Qed.

Lemma crc32_single_byte data i b b' :
  Forall byte_ok data → byte_ok b' → data !! i = Some b → b' ≠ b →
  crc32 (<[i := b']> data) ≠ crc32 data.
Proof.
  intros Hd Hb' Hi Hne Heq. unfold crc32 in Heq.
  assert (foldl crc_byte 0xFFFFFFFF (<[i:=b']> data) = foldl crc_byte 0xFFFFFFFF data) as Hf by lia.
  clear Heq. pose proof (list_elem_of_split_length data i b Hi) as (l1 & l2 & -> & ->).
  rewrite insert_app_r_alt, Nat.sub_diag in Hf by lia. simpl in Hf.
  apply Forall_app in Hd as [H1 H2]. apply Forall_cons in H2 as [Hb H2].
  rewrite !foldl_app in Hf. simpl in Hf.
  assert (in_u32 (foldl crc_byte 0xFFFFFFFF l1)) as Hc by (by apply crc_fold_range).
  apply crc_fold_inj in Hf; [|by apply crc_byte_range..|done].
  apply crc_byte_inj in Hf; [|done..]. by apply lxor_inj_r in Hf.
Qed.

Lemma crc32_range data : Forall byte_ok data → 0 ≤ crc32 data ≤ U32_MAX.
Proof.
  intros Hd. pose proof (crc_fold_range data 0xFFFFFFFF) as Hr.
  unfold crc32. destruct Hr as [??]; [done|done|]. widths. lia.
Qed.

(** What each writer wrote, its reader reads back. *)
Section written.
Context `{F : Format}.
Lemma reads_write_id {T} (i : Id T) x : write_id i = Ret x → id_ok i → reads read_id x i.
Proof. intros H ?. assert (x = le_bytes 8 (value i)) as -> by (unfold write_id, w_u64 in H; congruence).
  by apply reads_id. Qed.

Lemma reads_w_i64 v x : w_i64 v = Ret x → in_i64 v → reads r_i64 x v.
Proof. intros H ?. assert (x = le_bytes 8 (wrap_u64 v)) as -> by (unfold w_i64, w_u64 in H; congruence).
  by apply reads_i64. Qed.

Lemma reads_w_enum `{Enum8 E} (e : E) x : w_enum e = Ret x → enum_ok e → reads r_enum x e.
Proof. intros [= <-] ?. by apply reads_enum. Qed.

Lemma reads_w_bool b x : w_bool b = Ret x → reads r_bool x b.
Proof. intros [= <-]. apply reads_bool. Qed.

Lemma reads_w_str s x : w_str s = Ret x → string_ok s → reads r_str x s.
Proof. intros ??. by apply reads_str. Qed.

Lemma reads_w_list {A} (item : R A) (put : A → res (list Z)) (P : A → Prop) l w :
  w_list put l = Ret w → (∀ a x, put a = Ret x → P a → reads item x a) →
  Forall P l → count_ok l → reads (r_list item) w l.
Proof. intros ? Hi ??. eapply reads_list; eauto. Qed.

Lemma w_str_ret s : string_ok s → is_Ret (w_str s).
Proof.
  unfold string_ok, w_str. intros. pose proof fmt_string_fits. rewrite decide_False by (widths; lia). by eexists.
Qed.

Lemma w_list_ret {A} (put : A → res (list Z)) l : Forall (λ a, is_Ret (put a)) l → is_Ret (w_list put l).
Proof.
  intros Hl. apply writes_ret. constructor; [by eexists|]. by apply Forall_fmap.
Qed.
End written.

#[export] Hint Resolve reads_write_id reads_w_i64 reads_w_enum reads_w_bool reads_w_str : codec.

(** Every byte the writers append is a byte. *)
Lemma writes_bytes l w :
  writes l = Ret w → Forall (λ m, ∀ x, m = Ret x → Forall byte_ok x) l → Forall byte_ok w.
Proof.
  revert w. induction l as [|m l IH]; intros w Hw Hl; [injection Hw as <-; constructor|].
  apply writes_cons in Hw as (x & y & Hx & Hy & ->). apply Forall_cons in Hl as [Hm Hl].
  apply Forall_app. eauto.
Qed.

Lemma write_id_bytes {T} (i : Id T) x : write_id i = Ret x → Forall byte_ok x.
Proof. intros H. assert (x = le_bytes 8 (value i)) as -> by (unfold write_id, w_u64 in H; congruence).
  apply le_bytes_ok. Qed.

Lemma w_i64_bytes v x : w_i64 v = Ret x → Forall byte_ok x.
Proof. intros H. assert (x = le_bytes 8 (wrap_u64 v)) as -> by (unfold w_i64, w_u64 in H; congruence).
  apply le_bytes_ok. Qed.

Lemma w_enum_bytes `{Enum8 E} (e : E) x : w_enum e = Ret x → enum_ok e → Forall byte_ok x.
Proof. intros [= <-] [? _]. by apply Forall_singleton. Qed.

Lemma w_bool_bytes b x : w_bool b = Ret x → Forall byte_ok x.
Proof. intros [= <-]. apply Forall_singleton. by destruct b. Qed.

Lemma w_str_bytes s x : w_str s = Ret x → Forall byte_ok x.
Proof.
  unfold w_str. case_decide; [done|]. unfold w_u32. cbn [res_bind]. intros Hx.
  assert (x = le_bytes 4 (Z.of_nat (length (string_bytes s))) ++ string_bytes s) as -> by congruence.
  apply Forall_app. split; [apply le_bytes_ok|apply string_bytes_ok].
Qed.

Lemma w_list_bytes {A} (put : A → res (list Z)) (P : A → Prop) l w :
  (∀ a x, P a → put a = Ret x → Forall byte_ok x) → Forall P l → w_list put l = Ret w →
  Forall byte_ok w.
Proof.
  intros Hput Hl Hw. eapply writes_bytes; [exact Hw|]. constructor.
  - intros x Hx. assert (x = le_bytes 4 (Z.of_nat (length l) `mod` 2 ^ 32)) as ->
      by (unfold w_u32 in Hx; congruence). apply le_bytes_ok.
  - apply Forall_fmap. eapply Forall_impl; [exact Hl|]. intros a Ha x. by apply Hput.
Qed.

#[export] Hint Resolve write_id_bytes w_i64_bytes w_bool_bytes w_str_bytes : codec.

(** ** Sizes *)

(** What is written has at most [n] bytes. *)
Definition at_most (n : Z) (m : res (list Z)) : Prop :=
  ∀ w, m = Ret w → Z.of_nat (length w) ≤ n.

Lemma at_most_weaken n n' m : n ≤ n' → at_most n m → at_most n' m.
Proof. intros Hn Hm w Hw. specialize (Hm w Hw). lia. Qed.

Lemma at_most_writes n ms : Forall (at_most n) ms → at_most (n * Z.of_nat (length ms)) (writes ms).
Proof.
  induction 1 as [|m ms Hm _ IH]; intros w Hw; [injection Hw as <-; cbn; lia|].
  apply writes_cons in Hw as (x & y & Hx%Hm & Hy%IH & ->). rewrite length_app. cbn [length]. lia.
Qed.

(** A field: a number, a flag, or a string that the reader accepts. *)
Definition field_size `{Format} : Z := 8 + (4 + fmt_max_string).

Section fields.
Context `{Format} (Hpos : 0 ≤ fmt_max_string).

Lemma at_most_u64 v : at_most field_size (w_u64 v).
Proof using Hpos.
  intros w Hw. assert (w = le_bytes 8 v) as -> by (unfold w_u64 in Hw; congruence).
  rewrite length_le_bytes. unfold field_size. lia.
Qed.
Lemma at_most_u8 v : at_most field_size (w_u8 v).
Proof using Hpos. intros w [= <-]. cbn. unfold field_size. lia. Qed.
Lemma at_most_str s : string_ok s → at_most field_size (w_str s).
Proof using Hpos.
  intros Hs w. unfold w_str. case_decide; [done|]. unfold w_u32. cbn [res_bind]. intros Hw.
  assert (w = le_bytes 4 (Z.of_nat (length (string_bytes s))) ++ string_bytes s) as -> by congruence.
  rewrite length_app, length_le_bytes. unfold field_size, string_ok in *. lia.
Qed.

Lemma at_most_list {A} (P : A → Prop) n (put : A → res (list Z)) l :
  4 ≤ n → (∀ a, P a → at_most n (put a)) → Forall P l → count_ok l →
  at_most (n * (1 + fmt_max_count)) (w_list put l).
Proof using Type.
  intros Hn Hput Hl Hc. eapply at_most_weaken; [|apply (at_most_writes n)].
  - cbn [length]. rewrite length_fmap. unfold count_ok in Hc. nia.
  - constructor.
    { intros w Hw. assert (w = le_bytes 4 (Z.of_nat (length l) `mod` 2 ^ 32)) as ->
        by (unfold w_u32 in Hw; congruence). rewrite length_le_bytes. lia. }
    apply Forall_fmap. eapply Forall_impl; [exact Hl|exact Hput].
Qed.
End fields.

(** ** Little-endian values determine their bytes *)

Lemma of_le_cons_inj b b' x x' :
  byte_ok b → byte_ok b' → Z.lor b (Z.shiftl x 8) = Z.lor b' (Z.shiftl x' 8) → b = b' ∧ x = x'.
Proof.
  assert (∀ b x, byte_ok b → Z.shiftr (Z.lor b (Z.shiftl x 8)) 8 = x ∧
    Z.land (Z.lor b (Z.shiftl x 8)) (Z.ones 8) = b) as Hdec.
  { intros c y [Hc1 Hc2]. split.
    - rewrite Z.shiftr_lor, Z.shiftr_shiftl_l, Z.sub_diag, Z.shiftl_0_r by lia.
      rewrite Z.shiftr_div_pow2, Z.div_small, Z.lor_0_l by lia. done.
    - rewrite Z.land_lor_distr_l, (Z.land_ones c), Z.mod_small by lia.
      rewrite Z.land_ones, Z.shiftl_mul_pow2, Z.mod_mul, Z.lor_0_r by lia. done. }
  intros Hb Hb' Heq. destruct (Hdec b x Hb) as [H1 H2], (Hdec b' x' Hb') as [H3 H4].
  rewrite Heq in H1, H2. split; congruence.
Qed.

Lemma of_le_inj bs bs' :
  length bs = length bs' → Forall byte_ok bs → Forall byte_ok bs' → of_le bs = of_le bs' → bs = bs'.
Proof.
  intros Hlen Hb. revert bs' Hlen. induction Hb as [|b bs Hb Hbs IH]; intros [|b' bs'] Hlen Hb' Heq;
    simplify_eq/=; [done|].
  apply Forall_cons in Hb' as [Hb1 Hb2].
  apply of_le_cons_inj in Heq as [-> Heq]; [|done..]. f_equal. by apply IH.
Qed.

Lemma of_le_changed bs i b b' :
  Forall byte_ok bs → byte_ok b' → bs !! i = Some b → b' ≠ b → of_le (<[i := b']> bs) ≠ of_le bs.
Proof.
  intros Hbs Hb' Hi Hne Heq. apply of_le_inj in Heq;
    [|by rewrite length_insert|by apply Forall_insert|done].
  apply (f_equal (lookup i)) in Heq.
  rewrite list_lookup_insert_eq in Heq by (by eapply lookup_lt_Some). congruence.
Qed.

Lemma run_bind {A B} (m : R A) (k : A → R B) w a rest :
  reads m w a → st_bind m k (w ++ rest) = k a rest.
Proof. intros H. unfold st_bind. by rewrite H. Qed.

Lemma writes_nil w : writes [] = Ret w → w = [].
Proof. by intros [= <-]. Qed.

(** Split a sequence of writes and read its fields back one by one. *)
Ltac read_fields H :=
  repeat (let x := fresh "x" in let Hx := fresh "Hx" in
          apply writes_cons in H as (x & ? & Hx & H & ->));
  injection H as <-;
  repeat (eapply reads_bind; [by eauto with codec|]);
  match goal with |- reads _ _ ?r => destruct r; apply reads_ret end.
