(* ===== verification/Ledger.v ===== *)
(** * Ledger: what each operation of the governor does, case by case

    For every operation of Governor.v that changes state, the outcomes it can
    have and the governor each outcome leaves: the shared case analysis behind
    the invariants of Accounts.v and Fencing.v. *)

From stdpp Require Import prelude gmap strings.
From S2P Require Import Prelude Effects Money Identity Units Price Policy Budget Cost.
From S2P Require Import Plan Decision Samples Governor.
From stdpp Require Import options.

(** Evaluate the monadic structure of an operation. *)
Ltac st_simpl H :=
  unfold st_bind, st_get, st_ret, st_modify, st_lift, on_impl, set_state in H; cbn in H.

#[global] Arguments sub_reserved : simpl never.
#[global] Arguments add_released : simpl never.
#[global] Arguments upd_budget : simpl never.

(** ** What each budget operation does *)

Lemma upd_budget_compose id f h g :
  upd_budget id f (upd_budget id h g) = upd_budget id (f ∘ h) g.
Proof. unfold upd_budget. destruct g; cbn. by rewrite alter_alter_eq. Qed.

(** The budget after a successful reservation, commit, expiry, release, charge. *)
Definition reserved_budget (amount : Z) (b : Budget) : Budget :=
  set_b_lifecycle BudgetLifecycle.RESERVED (set_b_reserved (b_reserved b + amount) b).
Definition committed_budget (amount : Z) (b : Budget) : Budget :=
  set_b_lifecycle (consumed_lifecycle (b_consumed b + amount) (b_limit b))
    (set_b_consumed (b_consumed b + amount) (set_b_reserved (b_reserved b - amount) b)).
Definition expired_budget (amount : Z) (b : Budget) : Budget :=
  set_b_released (b_released b + amount) (set_b_reserved (b_reserved b - amount) b).
Definition released_budget (l : BudgetLifecycle) (amount : Z) (b : Budget) : Budget :=
  set_b_lifecycle l (expired_budget amount b).
Definition charged_budget (amount : Z) (b : Budget) : Budget :=
  set_b_lifecycle (consumed_lifecycle (b_consumed b + amount) (b_limit b))
    (set_b_consumed (b_consumed b + amount) b).

(** The accounting fields and amounts are int64 values. *)
Definition budget_ok (b : Budget) : Prop :=
  in_i64 (b_limit b) ∧ in_i64 (b_reserved b) ∧ in_i64 (b_consumed b) ∧ in_i64 (b_released b).

Definition granted (now : Readings) (id : BudgetId) (gen : BudgetGeneration)
    (epoch : CoordinatorEpoch) (amount : Z) (b : Budget) (g : Impl) : BudgetReservation := {|
  r_id := mkId (g_next_reservation g); r_budget := id; r_budget_generation := gen;
  r_epoch := epoch; r_amount := amount; r_created_at_ms := now 1%nat;
  r_expires_at_ms := b_expires_at_ms b; r_state := ReservationState.ACTIVE |}.

(** [with_budget g id f]: the governor whose budget [id] was changed by [f] and
    nothing else. *)
Definition with_budget (id : BudgetId) (b : Budget) (g : Impl) : Impl :=
  set_g_budgets (<[id := b]> (g_budgets g)) g.

Lemma upd_budget_eq id f g b :
  g_budgets g !! id = Some b → upd_budget id f g = with_budget id (f b) g.
Proof.
  intros Hb. unfold upd_budget, with_budget. f_equal. apply map_eq. intros i.
  destruct (decide (id = i)) as [->|].
  - by rewrite lookup_alter_eq, lookup_insert_eq, Hb.
  - by rewrite lookup_alter_ne, lookup_insert_ne.
Qed.

Lemma reserve_cases now id gen ep amt g r g' :
  reserve now id gen ep amt g = (r, g') →
  (∀ b, g_budgets g !! id = Some b → budget_ok b) → in_i64 amt →
  (g' = g ∧ (∀ tok, r ≠ Ret (Status.OK, tok))) ∨
  (∃ b, g_budgets g !! id = Some b ∧ r = Ret (Status.BUDGET_EXPIRED, None) ∧
        g' = with_budget id (set_b_lifecycle BudgetLifecycle.EXPIRED b) g) ∨
  (∃ b, g_budgets g !! id = Some b ∧ b_generation b = gen ∧ b_epoch b = ep ∧
        ep = g_epoch g ∧ is_live b = true ∧ 0 ≤ amt ∧ b_reserved b + amt ≤ b_limit b ∧
        r = Ret (Status.OK, Some (granted now id gen ep amt b g)) ∧
        g' = set_g_reservations
               (<[id := default [] (g_reservations g !! id) ++ [granted now id gen ep amt b g]]>
                  (g_reservations g))
               (set_g_next_reservation (u64_succ (g_next_reservation g))
                 (with_budget id (reserved_budget amt b) g))).
Proof.
  intros H Hok Hamt. unfold reserve in H. st_simpl H.
  destruct (g_budgets g !! id) as [b|] eqn:Hb; [|left; by simplify_eq].
  destruct (Hok b eq_refl) as (?&?&?&?).
  case_decide as Hgen; [left; by simplify_eq|].
  case_decide as Hep; [left; by simplify_eq|].
  destruct (is_live b) eqn:Hlive; cbn in H; [|left; by simplify_eq].
  case_decide.
  { right; left. exists b. simplify_eq. by rewrite (upd_budget_eq _ _ _ b). }
  destruct (negative amt) eqn:Hneg; [left; by simplify_eq|].
  rewrite checked_add_eq in H by done. case_decide; cbn in H; [|left; by simplify_eq].
  case_decide; [left; by simplify_eq|].
  right; right. exists b. apply bool_decide_eq_false in Hneg.
  assert (b_generation b = gen) by (apply dec_stable; tauto).
  assert (b_epoch b = ep) by (apply dec_stable; tauto).
  split_and!; try done; try lia; [congruence| |]; simplify_eq; [done|].
  rewrite upd_budget_compose, (upd_budget_eq _ _ _ b) by done. done.
Qed.

Lemma sub_reserved_ok id b amt g :
  g_budgets g !! id = Some b → budget_ok b → 0 ≤ amt ≤ b_reserved b →
  sub_reserved id b amt g =
    (Ret tt, with_budget id (set_b_reserved (b_reserved b - amt) b) g).
Proof.
  intros Hb (?&?&?&?) Hamt. unfold sub_reserved, st_bind, st_lift, st_modify.
  rewrite checked_sub_eq; [|done|widths; lia].
  rewrite decide_True by (widths; lia). by rewrite (upd_budget_eq _ _ _ b).
Qed.

Lemma with_budget_upd id f b g : upd_budget id f (with_budget id b g) = with_budget id (f b) g.
Proof.
  rewrite (upd_budget_eq _ _ _ b); [|by apply lookup_insert_eq].
  unfold with_budget. destruct g; cbn. by rewrite insert_insert_eq.
Qed.

(** [commit], for a reservation the budget really holds. *)
Lemma commit_cases now g r x g' r' :
  commit now (g, r) = (x, (g', r')) →
  (∀ b, g_budgets g !! r_budget r = Some b → budget_ok b) →
  (∀ b, g_budgets g !! r_budget r = Some b → r_state r = ReservationState.ACTIVE →
     0 ≤ r_amount r ≤ b_reserved b) →
  (g' = g ∧ r' = r ∧ (x = Ret Status.OK → r_state r ≠ ReservationState.ACTIVE)) ∨
  (∃ b, g_budgets g !! r_budget r = Some b ∧ r_state r = ReservationState.ACTIVE ∧
     is_live b = true ∧ r_epoch r = g_epoch g ∧ b_generation b = r_budget_generation r ∧
     ((* expired, and [released] overflowed *)
      (x = Throw overflow_error ∧ ¬ in_i64 (b_released b + r_amount r) ∧
       r' = set_r_state ReservationState.EXPIRED r ∧
       g' = with_budget (r_budget r) (set_b_reserved (b_reserved b - r_amount r) b) g) ∨
      (x = Ret Status.BUDGET_EXPIRED ∧ in_i64 (b_released b + r_amount r) ∧
       r' = set_r_state ReservationState.EXPIRED r ∧
       g' = with_budget (r_budget r) (expired_budget (r_amount r) b) g) ∨
      (x = Ret Status.OK ∧ in_i64 (b_consumed b + r_amount r) ∧
       (b_mode b = BudgetMode.HARD → b_consumed b + r_amount r ≤ b_limit b) ∧
       r' = set_r_state ReservationState.COMMITTED r ∧
       g' = with_budget (r_budget r) (committed_budget (r_amount r) b) g))).
Proof.
  intros H Hok Hres. unfold commit in H. st_simpl H.
  destruct (g_budgets g !! r_budget r) as [b|] eqn:Hb; [|left; by simplify_eq].
  specialize (Hok b eq_refl). specialize (Hres b eq_refl).
  case_decide as Hg; [left; by simplify_eq|]. case_decide as He1; [left; by simplify_eq|].
  case_decide as He2; [left; by simplify_eq|].
  destruct (decide (r_state r ≠ ReservationState.ACTIVE)) as [|Hact]; [left; by simplify_eq|].
  destruct (is_live b) eqn:Hlive; cbn [negb] in H; [|left; by simplify_eq].
  apply dec_stable in Hact. specialize (Hres Hact).
  pose proof Hok as (?&?&?&?).
  case_decide.
  - right. exists b. split_and!; try done.
    rewrite (sub_reserved_ok _ b) in H by done. cbn in H.
    unfold add_released in H. st_simpl H. rewrite checked_add_eq in H; [|done|widths; lia].
    case_decide as Hov; cbn in H; simplify_eq; [right; left|left; done].
    split_and!; try done. by rewrite with_budget_upd.
  - rewrite checked_add_eq in H; [|done|widths; lia].
    case_decide as Hov; cbn in H; [|left; by simplify_eq].
    case_decide as Hhard; [left; by simplify_eq|].
    right. exists b. split_and!; try done. right; right.
    rewrite (sub_reserved_ok _ b) in H by done. cbn in H. rewrite !with_budget_upd in H.
    simplify_eq. split_and!; try done.
    intros. destruct (decide (b_consumed b + r_amount r ≤ b_limit b)); [done|]. exfalso; apply Hhard; split; [done|lia].
Qed.

Lemma set_reservations_with_budget v id b g :
  set_g_reservations v (with_budget id b g) = with_budget id b (set_g_reservations v g).
Proof. done. Qed.

(** The lifecycle [release] assigns, from the governor's own copies. *)
Definition stored_reservations (g : Impl) (id : BudgetId) : list BudgetReservation :=
  default [] (g_reservations g !! id).
Definition released_lifecycle (g : Impl) (b : Budget) (id : BudgetId) : BudgetLifecycle :=
  if existsb (λ x, bool_decide (r_state x = ReservationState.ACTIVE)) (stored_reservations g id)
  then BudgetLifecycle.RESERVED
  else if is_zero (b_consumed b) then BudgetLifecycle.ACTIVE
  else BudgetLifecycle.PARTIALLY_CONSUMED.

Lemma release_cases g r x g' r' :
  release (g, r) = (x, (g', r')) →
  (∀ b, g_budgets g !! r_budget r = Some b → budget_ok b) →
  (∀ b, g_budgets g !! r_budget r = Some b → r_state r = ReservationState.ACTIVE →
     0 ≤ r_amount r ≤ b_reserved b) →
  (g' = g ∧ r' = r ∧ is_Ret x ∧ (x = Ret Status.OK → r_state r ≠ ReservationState.ACTIVE)) ∨
  (∃ b, g_budgets g !! r_budget r = Some b ∧ r_state r = ReservationState.ACTIVE ∧
     r_epoch r = g_epoch g ∧ b_generation b = r_budget_generation r ∧
     ((x = Throw overflow_error ∧ ¬ in_i64 (b_released b + r_amount r) ∧ r' = r ∧
       g' = with_budget (r_budget r) (set_b_reserved (b_reserved b - r_amount r) b) g) ∨
      (x = Ret Status.OK ∧ in_i64 (b_released b + r_amount r) ∧
       r' = set_r_state ReservationState.RELEASED r ∧
       g' = with_budget (r_budget r)
              (released_budget (released_lifecycle g b (r_budget r)) (r_amount r) b)
              (set_g_reservations (<[r_budget r := stored_reservations g (r_budget r)]>
                 (g_reservations g)) g)))).
Proof.
  intros H Hok Hres. unfold release in H. st_simpl H.
  destruct (g_budgets g !! r_budget r) as [b|] eqn:Hb; [|left; simplify_eq; by repeat eexists].
  specialize (Hok b eq_refl). specialize (Hres b eq_refl).
  case_decide as Hg; [left; simplify_eq; by repeat eexists|].
  case_decide as He1; [left; simplify_eq; by repeat eexists|].
  destruct (decide (r_state r ≠ ReservationState.ACTIVE)) as [|Hact];
    [left; simplify_eq; by repeat eexists|].
  apply dec_stable in Hact. specialize (Hres Hact). pose proof Hok as (?&?&?&?).
  right. exists b. split_and!; try done.
  rewrite (sub_reserved_ok _ b) in H by done. cbn in H.
  unfold add_released in H. st_simpl H. rewrite checked_add_eq in H; [|done|widths; lia].
  case_decide as Hov; cbn in H; [right|left; by simplify_eq].
  rewrite with_budget_upd in H. simplify_eq. split_and!; try done.
  rewrite set_reservations_with_budget, with_budget_upd. done.
Qed.

Lemma consume_cases now id gen ep amt g r g' :
  consume now id gen ep amt g = (r, g') →
  (∀ b, g_budgets g !! id = Some b → budget_ok b) → in_i64 amt →
  (g' = g ∧ r ≠ Ret Status.OK) ∨
  (∃ b, g_budgets g !! id = Some b ∧ r = Ret Status.BUDGET_EXPIRED ∧
        g' = with_budget id (set_b_lifecycle BudgetLifecycle.EXPIRED b) g) ∨
  (∃ b, g_budgets g !! id = Some b ∧ b_generation b = gen ∧ b_epoch b = ep ∧
        is_live b = true ∧ 0 ≤ amt ∧ in_i64 (b_consumed b + amt) ∧
        (b_mode b = BudgetMode.HARD → b_consumed b + amt ≤ b_limit b) ∧
        r = Ret Status.OK ∧ g' = with_budget id (charged_budget amt b) g).
Proof.
  intros H Hok Hamt. unfold consume in H. st_simpl H.
  destruct (g_budgets g !! id) as [b|] eqn:Hb; [|left; by simplify_eq].
  destruct (Hok b eq_refl) as (?&?&?&?).
  case_decide as Hgen; [left; by simplify_eq|].
  destruct (is_live b) eqn:Hlive; cbn in H; [|left; by simplify_eq].
  destruct (negative amt) eqn:Hneg; [left; by simplify_eq|].
  case_decide.
  { right; left. exists b. simplify_eq. by rewrite (upd_budget_eq _ _ _ b). }
  rewrite checked_add_eq in H by done. case_decide; cbn in H; [|left; by simplify_eq].
  case_decide as Hhard; [left; by simplify_eq|].
  right; right. exists b. apply bool_decide_eq_false in Hneg.
  assert (b_generation b = gen) by (apply dec_stable; tauto).
  assert (b_epoch b = ep) by (apply dec_stable; tauto).
  split_and!; try done; try lia; simplify_eq; [|done|].
  - intros. destruct (decide (b_consumed b + amt ≤ b_limit b)); [done|].
    exfalso; apply Hhard; split; [done|lia].
  - by rewrite upd_budget_compose, (upd_budget_eq _ _ _ b).
Qed.
