(* ===== verification/System.v ===== *)
(** * System: clients and the governor as a transition system

    Every public method of [CostGovernor] runs under its one mutex, so a
    concurrent execution is a sequence of whole calls in some order.  A system
    state is the governor, the reservations its clients hold, each of them once, and
    the log of the direct charges that succeeded; a step is one call, by any client,
    of a state-changing method other than [load], that returned. *)

From stdpp Require Import prelude gmap strings.
From S2P Require Import Prelude Effects Money Identity Units Price Policy Budget Cost.
From S2P Require Import Plan Decision Samples Governor Ledger.
From stdpp Require Import options.

(** ** Calls *)
Inductive Op :=
  | op_set_state_path (path : string)
  | op_set_policy (p : CostPolicy)
  | op_set_price_schedule (s : PriceSchedule)
  | op_create_budget (b : Budget)
  | op_advance_epoch
  | op_set_worker_boot (w : WorkerId) (b : WorkerBootId)
  | op_publish_price (o : PriceObservation)
  | op_record_attempt (ev : CostEvidence)
  | op_reserve (now : Readings) (id : BudgetId) (gen : BudgetGeneration)
      (ep : CoordinatorEpoch) (amount : Z)
  | op_commit (now : Readings) (k : nat)   (** on the [k]-th granted reservation *)
  | op_release (k : nat)
  | op_consume (now : Readings) (id : BudgetId) (gen : BudgetGeneration)
      (ep : CoordinatorEpoch) (amount : Z)
  | op_propose (now : Readings) (x : CostIntervention)
  | op_authorize (id : InterventionId) (gen : InterventionGeneration)
  | op_acknowledge (now : Readings) (id : InterventionId) (gen : InterventionGeneration)
  | op_verify (now : Readings) (id : InterventionId) (gen : InterventionGeneration)
      (post : list CostEvidence)
  | op_finalize (now : Readings) (req : RequestId) (wl : WorkloadId).

Record Sys := mkSys {
  sys_g : Impl;
  sys_tokens : list BudgetReservation;
  sys_charges : list (BudgetId * Z);
}.

Definition void {A} (x : res A) : res unit := let! _ := x in Ret tt.

(** A call that changes nothing but the governor. *)
Definition call {A} (m : St Impl A) (s : Sys) : res unit * Sys :=
  let '(x, g') := m (sys_g s) in (void x, mkSys g' (sys_tokens s) (sys_charges s)).

(** A call on the reservation a client holds. *)
Definition call_on (m : St (Impl * BudgetReservation) Status) (k : nat) (s : Sys)
    : res unit * Sys :=
  match sys_tokens s !! k with
  | None => (Ret tt, s)
  | Some r =>
      let '(x, (g', r')) := m (sys_g s, r) in
      (void x, mkSys g' (<[k := r']> (sys_tokens s)) (sys_charges s))
  end.

Definition exec (op : Op) (s : Sys) : res unit * Sys :=
  match op with
  | op_set_state_path path => call (set_state_path path) s
  | op_set_policy p => call (set_policy p) s
  | op_set_price_schedule p => call (set_price_schedule p) s
  | op_create_budget b => call (create_budget b) s
  | op_advance_epoch => call advance_epoch s
  | op_set_worker_boot w b => call (set_worker_boot w b) s
  | op_publish_price o => call (publish_price o) s
  | op_record_attempt ev => call (record_attempt ev) s
  | op_reserve now id gen ep amount =>
      let '(x, g') := reserve now id gen ep amount (sys_g s) in
      (void x, mkSys g' (match x with
                         | Ret (Status.OK, Some r) => sys_tokens s ++ [r]
                         | _ => sys_tokens s
                         end) (sys_charges s))
  | op_commit now k => call_on (commit now) k s
  | op_release k => call_on release k s
  | op_consume now id gen ep amount =>
      let '(x, g') := consume now id gen ep amount (sys_g s) in
      (void x, mkSys g' (sys_tokens s) (match x with
                                        | Ret Status.OK => sys_charges s ++ [(id, amount)]
                                        | _ => sys_charges s
                                        end))
  | op_propose now x => call (propose_intervention now x) s
  | op_authorize id gen => call (authorize_intervention id gen) s
  | op_acknowledge now id gen => call (acknowledge_intervention now id gen) s
  | op_verify now id gen post => call (verify_intervention now id gen post) s
  | op_finalize now req wl => call (finalize_request now req wl) s
  end.

(** Arguments are int64 values and a budget is created with clean accounts, as
    its default member initializers make it.  [create_budget] itself does not check
    that, and no theorem over [reachable] holds without it; nor does [Op] have [load],
    which drops what is reserved under the feet of the holders of reservations
    (Recovery.v, Lifecycle.v). *)
Definition op_ok (op : Op) : Prop :=
  match op with
  | op_create_budget b =>
      in_i64 (b_limit b) ∧ b_reserved b = 0 ∧ b_consumed b = 0 ∧ b_released b = 0
  | op_reserve _ _ _ _ amount | op_consume _ _ _ _ amount => in_i64 amount
  | _ => True
  end.

#[global] Instance op_ok_dec op : Decision (op_ok op).
Proof. destruct op; simpl; apply _. Defined.

Definition initial_sys : Sys := mkSys initial [] [].

Inductive step : Sys → Sys → Prop :=
  | step_call op s s' : op_ok op → exec op s = (Ret tt, s') → step s s'.

Definition reachable (s : Sys) : Prop := rtc step initial_sys s.

Lemma reachable_invariant (P : Sys → Prop) s :
  P initial_sys → (∀ s s', reachable s → P s → step s s' → P s') → reachable s → P s.
Proof.
  intros H0 Hs Hr. unfold reachable in Hr. revert Hr. revert s.
  apply rtc_ind_r; [done|]. intros y z Hy Hz HP. by apply (Hs y z).
Qed.

(** Runs of calls, for the witnesses. *)
Fixpoint run (ops : list Op) (s : Sys) : option Sys :=
  match ops with
  | [] => Some s
  | op :: ops' =>
      if decide (op_ok op) then
        match exec op s with
        | (Ret tt, s') => run ops' s'
        | _ => None
        end
      else None
  end.

Lemma run_steps ops s s' : run ops s = Some s' → rtc step s s'.
Proof.
  revert s. induction ops as [|op ops IH]; simpl; intros s H; [simplify_eq; constructor|].
  case_decide; [|done]. destruct (exec op s) as [[[]|] s1] eqn:He; [|done].
  eapply rtc_l; [by eapply step_call|auto].
Qed.

(** ** Frames: what a call leaves alone *)

Ltac frame_cases H :=
  st_simpl H;
  repeat first [ progress simplify_eq/= | case_decide | case_match ].

Lemma create_budget_cases b g x g' :
  create_budget b g = (x, g') →
  (g' = g ∧ x ≠ Ret Status.OK) ∨
  (x = Ret Status.OK ∧ 0 ≤ b_limit b ∧ g_budgets g !! b_id b = None ∧
   b_epoch b = g_epoch g ∧ b_currency b = pol_currency (g_policy g) ∧
   b_policy_generation b = pol_generation (g_policy g) ∧
   g' = with_budget (b_id b) (set_b_lifecycle BudgetLifecycle.ACTIVE b) g).
Proof.
  intros H. unfold create_budget in H. st_simpl H.
  destruct (negative (b_limit b)) eqn:Hn; [left; by simplify_eq|].
  do 4 (case_decide; [left; by simplify_eq|]).
  right. simplify_eq. apply bool_decide_eq_false in Hn.
  split_and!; try done; [lia|by apply eq_None_not_Some].
Qed.

(** A replacement puts the new observation into the schedule. *)
Lemma replace_obs_has o l l' : replace_obs o l = Some l' → o ∈ l'.
Proof.
  revert l'. induction l as [|o' l IH]; intros l' Hr; cbn in Hr; [done|]. case_match; [simplify_eq; left|].
  apply fmap_Some in Hr as (l1 & Hl & ->). right. by apply IH.
Qed.

Lemma publish_price_cases o g x g' :
  publish_price o g = (x, g') →
  (g' = g ∧ x ≠ Ret Status.OK) ∨
  (x = Ret Status.OK ∧ o_epoch o = g_epoch g ∧
   (valid (o_boot o) = true → o_boot o = current_boot_for g (o_worker o)) ∧
   o_currency o = pol_currency (g_policy g) ∧ 0 ≤ o_amount o ∧
   g' = set_g_revalidation_needed false (set_g_schedule (bump_schedule
          (match replace_obs o (s_observations (g_schedule g)) with
           | Some l => l | None => s_observations (g_schedule g) ++ [o] end)
          (g_schedule g)) g)).
Proof.
  intros H. unfold publish_price in H. st_simpl H.
  case_decide; [left; by simplify_eq|].
  destruct (valid (o_boot o) && _) eqn:Hb; [left; by simplify_eq|].
  destruct (valid_currency _ _) eqn:Hc; cbn in H; [|left; by simplify_eq].
  destruct (negative _) eqn:Hn; [left; by simplify_eq|].
  right. apply bool_decide_eq_true in Hc. apply bool_decide_eq_false in Hn.
  simplify_eq. split_and!; try done; [|lia].
  intros Hv. rewrite Hv in Hb. cbn in Hb. apply bool_decide_eq_false in Hb. by apply dec_stable.
Qed.

Lemma record_attempt_cases ev g x g' :
  record_attempt ev g = (x, g') →
  (g' = g ∧ x ≠ Ret Status.OK) ∨
  (x = Ret Status.OK ∧ e_epoch ev = g_epoch g ∧
   e_boot ev = current_boot_for g (e_worker ev) ∧ e_label ev ≠ DataLabel.UNSUPPORTED ∧
   (∀ old m, g_attempts g !! e_request ev = Some m → m !! e_attempt ev = Some old →
      e_attempt_gen old ≠ e_attempt_gen ev) ∧
   g' = set_g_attempts (<[e_request ev :=
          <[e_attempt ev := ev]> (default ∅ (g_attempts g !! e_request ev))]> (g_attempts g)) g).
Proof.
  intros H. unfold record_attempt in H. st_simpl H.
  do 4 (case_decide; [left; by simplify_eq|]).
  destruct (default ∅ (g_attempts g !! e_request ev) !! e_attempt ev) as [old|] eqn:Hold.
  - case_decide; [left; by simplify_eq|]. right. simplify_eq. split_and!; try done.
    intros old' m Hm Hl. rewrite Hm in Hold. cbn in Hold. congruence.
  - right. simplify_eq. split_and!; try done.
    intros old' m Hm Hl. rewrite Hm in Hold. cbn in Hold. congruence.
Qed.

Lemma finalize_cases now req wl g x g' :
  finalize_request now req wl g = (x, g') →
  g' = g ∨
  (∃ h, x = Ret Status.OK ∧ h_request h = req ∧ Forall (λ e, h_request e ≠ req) (g_history g) ∧
    realized_request_cost now g req = Ret (h_realized_cost h) ∧
    g' = set_g_history (g_history g ++ [h]) g).
Proof.
  intros H. unfold finalize_request in H. st_simpl H.
  destruct (existsb _ _) eqn:Hex; [left; by simplify_eq|].
  destruct (g_attempts g !! req) as [m|] eqn:Hm; [|left; by simplify_eq].
  destruct (project _ _ _ _) as [bd|e] eqn:Hp; cbn in H; [|left; by simplify_eq].
  right. simplify_eq.
  eexists (mkHistoryEntry req wl (now 1%nat) (cb_total bd) _ 0). split_and!; [done|done| | |done].
  - apply Forall_forall. intros e He Heq.
    assert (existsb (λ h, bool_decide (h_request h = req)) (g_history g) = true); [|congruence].
    apply existsb_exists. exists e. split; [by apply list_elem_of_In|by apply bool_decide_eq_true].
  - unfold realized_request_cost. by rewrite Hm, Hp.
Qed.

(** The calls that do not touch budgets, reservations or charges. *)
Lemma intervention_frames g :
  (∀ now x r g', propose_intervention now x g = (r, g') → ∃ m n,
     g' = set_g_interventions m (set_g_next_intervention n g)) ∧
  (∀ id gen r g', authorize_intervention id gen g = (r, g') → ∃ m, g' = set_g_interventions m g) ∧
  (∀ now id gen r g', acknowledge_intervention now id gen g = (r, g') →
     ∃ m, g' = set_g_interventions m g) ∧
  (∀ now id gen post r g', verify_intervention now id gen post g = (r, g') →
     ∃ m, g' = set_g_interventions m g).
Proof.
  assert (g = set_g_interventions (g_interventions g) g) as Hid by (by destruct g).
  split_and!.
  - intros now x r g' H. unfold propose_intervention in H. st_simpl H. simplify_eq.
    eexists _, _. reflexivity.
  - intros id gen r g' H. unfold authorize_intervention in H. st_simpl H.
    repeat first [case_match | case_decide]; simplify_eq; eauto; by eexists.
  - intros now id gen r g' H. unfold acknowledge_intervention in H. st_simpl H.
    repeat first [case_match | case_decide]; simplify_eq; eauto; by eexists.
  - intros now id gen post r g' H. unfold verify_intervention in H. st_simpl H.
    repeat first [case_match | case_decide]; simplify_eq; eauto; by eexists.
Qed.
