(* ===== verification/Accounts.v ===== *)
(** * Accounts: exact budget accounting in every reachable state

    The abstract view of a budget is the list of reservations granted on it,
    with their outcomes, and the list of direct charges; [account_ok] says that
    the concrete [reserved], [consumed] and [released] of the governor are the
    sums over that view and stay within the limit. *)

From stdpp Require Import prelude gmap strings.
From S2P Require Import Prelude Effects Money Identity Units Price Policy Budget Cost.
From S2P Require Import Plan Decision Samples Governor Ledger System.
From stdpp Require Import options.

(** ** The abstract account *)

Definition in_state (st : ReservationState.State) (id : BudgetId) (r : BudgetReservation) : Z :=
  if decide (r_budget r = id ∧ r_state r = st) then r_amount r else 0.

(** Total amount of the reservations of budget [id] in state [st]. *)
Definition held (st : ReservationState.State) (id : BudgetId) (toks : list BudgetReservation) : Z :=
  sumZ (in_state st id <$> toks).

Definition charge_of (id : BudgetId) (c : BudgetId * Z) : Z := if decide (c.1 = id) then c.2 else 0.
Definition charged (id : BudgetId) (cs : list (BudgetId * Z)) : Z := sumZ (charge_of id <$> cs).

Record account_ok (toks : list BudgetReservation) (cs : list (BudgetId * Z))
    (id : BudgetId) (b : Budget) : Prop := mk_account_ok {
  acc_id : b_id b = id;
  acc_limit : 0 ≤ b_limit b ≤ I64_MAX;
  acc_reserved : b_reserved b = held ReservationState.ACTIVE id toks;
  acc_reserved_limit : b_reserved b ≤ b_limit b;
  acc_consumed : b_consumed b = held ReservationState.COMMITTED id toks + charged id cs;
  acc_consumed_max : b_consumed b ≤ I64_MAX;
  acc_consumed_limit : b_mode b = BudgetMode.HARD → b_consumed b ≤ b_limit b;
  acc_released : b_released b = held ReservationState.RELEASED id toks
                              + held ReservationState.EXPIRED id toks;
  acc_released_max : b_released b ≤ I64_MAX;
}.

Definition token_ok (g : Impl) (r : BudgetReservation) : Prop :=
  0 ≤ r_amount r ∧ is_Some (g_budgets g !! r_budget r).
Definition charge_ok (g : Impl) (c : BudgetId * Z) : Prop :=
  0 ≤ c.2 ∧ is_Some (g_budgets g !! c.1).

Record sys_ok (s : Sys) : Prop := mk_sys_ok {
  ok_accounts : ∀ id b, g_budgets (sys_g s) !! id = Some b →
                        account_ok (sys_tokens s) (sys_charges s) id b;
  ok_tokens : Forall (token_ok (sys_g s)) (sys_tokens s);
  ok_charges : Forall (charge_ok (sys_g s)) (sys_charges s);
}.

(** ** Sums *)

Lemma held_app st id l1 l2 : held st id (l1 ++ l2) = held st id l1 + held st id l2.
Proof. unfold held. by rewrite fmap_app, sumZ_app. Qed.

Lemma held_one st id r : held st id [r] = in_state st id r.
Proof. unfold held, sumZ. simpl. lia. Qed.

Lemma held_update st id toks k r st' :
  toks !! k = Some r →
  held st id (<[k := set_r_state st' r]> toks) =
    held st id toks - in_state st id r + in_state st id (set_r_state st' r).
Proof. intros Hk. by apply sumZ_insert. Qed.

Lemma held_nonneg g st id toks : Forall (token_ok g) toks → 0 ≤ held st id toks.
Proof.
  intros H. apply sumZ_nonneg, Forall_fmap. eapply Forall_impl; [exact H|].
  intros r [? _]. simpl. unfold in_state. case_decide; lia.
Qed.

Lemma held_ge g st id toks k r :
  Forall (token_ok g) toks → toks !! k = Some r → in_state st id r ≤ held st id toks.
Proof.
  intros H Hk. unfold held. eapply sumZ_lookup_le; [|done]. eapply Forall_impl; [exact H|].
  intros r' [? _]. unfold in_state. case_decide; lia.
Qed.

Lemma held_no_budget g st id toks :
  Forall (token_ok g) toks → g_budgets g !! id = None → held st id toks = 0.
Proof.
  intros H Hno. induction H as [|r l [_ Hr] Hl IH]; [done|].
  unfold held in *. rewrite fmap_cons, sumZ_cons, IH. unfold in_state.
  case_decide as Hd; [|done]. destruct Hd as [Hd _]. rewrite Hd, Hno in Hr. by destruct Hr.
Qed.

Lemma charged_app id l1 l2 : charged id (l1 ++ l2) = charged id l1 + charged id l2.
Proof. unfold charged. by rewrite fmap_app, sumZ_app. Qed.

Lemma charged_nonneg g id cs : Forall (charge_ok g) cs → 0 ≤ charged id cs.
Proof.
  intros H. apply sumZ_nonneg, Forall_fmap. eapply Forall_impl; [exact H|].
  intros r [? _]. simpl. unfold charge_of. case_decide; lia.
Qed.

Lemma charged_no_budget g id cs :
  Forall (charge_ok g) cs → g_budgets g !! id = None → charged id cs = 0.
Proof.
  intros H Hno. induction H as [|r l [_ Hr] Hl IH]; [done|].
  unfold charged in *. rewrite fmap_cons, sumZ_cons, IH. unfold charge_of.
  case_decide as Hd; [|done]. rewrite Hd, Hno in Hr. by destruct Hr.
Qed.

Lemma account_budget_ok g toks cs id b :
  Forall (token_ok g) toks → Forall (charge_ok g) cs → account_ok toks cs id b → budget_ok b.
Proof.
  intros Ht Hc [????????]. unfold budget_ok.
  pose proof (held_nonneg g ReservationState.ACTIVE id toks Ht).
  pose proof (held_nonneg g ReservationState.COMMITTED id toks Ht).
  pose proof (held_nonneg g ReservationState.RELEASED id toks Ht).
  pose proof (held_nonneg g ReservationState.EXPIRED id toks Ht).
  pose proof (charged_nonneg g id cs Hc). widths. lia.
Qed.

Lemma sys_budget_ok s id b : sys_ok s → g_budgets (sys_g s) !! id = Some b → budget_ok b.
Proof. intros [Ha Ht Hc] Hb. eapply account_budget_ok; eauto. Qed.

(** A held reservation is covered by the budget's [reserved]. *)
Lemma sys_covered s k r b :
  sys_ok s → sys_tokens s !! k = Some r → g_budgets (sys_g s) !! r_budget r = Some b →
  r_state r = ReservationState.ACTIVE → 0 ≤ r_amount r ≤ b_reserved b.
Proof.
  intros [Ha Ht Hc] Hk Hb Hst. destruct (Ha _ _ Hb) as [_ _ -> _ _ _ _ _ _].
  pose proof (held_ge _ ReservationState.ACTIVE (r_budget r) _ _ _ Ht Hk) as Hge.
  unfold in_state in Hge. rewrite decide_True in Hge by done.
  rewrite Forall_lookup in Ht. destruct (Ht _ _ Hk). lia.
Qed.

(** ** Preservation *)

Lemma with_budget_is_some id b g id' :
  is_Some (g_budgets g !! id') → is_Some (g_budgets (with_budget id b g) !! id').
Proof.
  intros H. cbn. destruct (decide (id = id')) as [->|].
  - rewrite lookup_insert_eq. by eexists.
  - by rewrite lookup_insert_ne.
Qed.

(** A call that leaves every budget alone. *)
Lemma sys_ok_frame s g' :
  sys_ok s → g_budgets g' = g_budgets (sys_g s) → sys_ok (mkSys g' (sys_tokens s) (sys_charges s)).
Proof.
  intros [Ha Ht Hc] Hg. split; cbn; rewrite ?Hg; [done| |].
  - eapply Forall_impl; [exact Ht|]. intros r. unfold token_ok. by rewrite Hg.
  - eapply Forall_impl; [exact Hc|]. intros r. unfold charge_ok. by rewrite Hg.
Qed.

(** A call that changes one budget, its reservations and its charges. *)
Lemma sys_ok_update s g' id b' toks' cs' :
  sys_ok s → g_budgets g' = <[id := b']> (g_budgets (sys_g s)) →
  account_ok toks' cs' id b' →
  (∀ st id', id' ≠ id → held st id' toks' = held st id' (sys_tokens s)) →
  (∀ id', id' ≠ id → charged id' cs' = charged id' (sys_charges s)) →
  Forall (token_ok g') toks' → Forall (charge_ok g') cs' →
  sys_ok (mkSys g' toks' cs').
Proof.
  intros [Ha Ht Hc] Hg Hb Hh Hch Ht' Hc'. split; [|done|done]. cbn. rewrite Hg.
  intros id' b. destruct (decide (id = id')) as [->|Hne].
  - rewrite lookup_insert_eq. by intros [= <-].
  - rewrite lookup_insert_ne by done. intros Hb'. destruct (Ha _ _ Hb') as [].
    split; rewrite ?Hh, ?Hch by done; done.
Qed.

Lemma tokens_mono s id b g' :
  Forall (token_ok (sys_g s)) (sys_tokens s) →
  g_budgets g' = <[id := b]> (g_budgets (sys_g s)) → Forall (token_ok g') (sys_tokens s).
Proof.
  intros Ht Hg. eapply Forall_impl; [exact Ht|]. intros r [? Hr]. split; [done|].
  rewrite Hg. by apply (with_budget_is_some id b) in Hr.
Qed.

Lemma charges_mono s id b g' :
  Forall (charge_ok (sys_g s)) (sys_charges s) →
  g_budgets g' = <[id := b]> (g_budgets (sys_g s)) → Forall (charge_ok g') (sys_charges s).
Proof.
  intros Ht Hg. eapply Forall_impl; [exact Ht|]. intros r [? Hr]. split; [done|].
  rewrite Hg. by apply (with_budget_is_some id b) in Hr.
Qed.

Lemma in_state_ne st id r : r_budget r ≠ id → in_state st id r = 0.
Proof. intros. unfold in_state. rewrite decide_False; [done|]. tauto. Qed.

(** The outcome of an active reservation moves its amount from one sum to another. *)
Lemma held_move st toks k r st' :
  toks !! k = Some r → r_state r = ReservationState.ACTIVE → st' ≠ ReservationState.ACTIVE →
  held st (r_budget r) (<[k := set_r_state st' r]> toks) =
    held st (r_budget r) toks
    + (if decide (st = st') then r_amount r else 0)
    - (if decide (st = ReservationState.ACTIVE) then r_amount r else 0).
Proof.
  intros Hk Hst Hne. rewrite (held_update _ _ _ _ r) by done. unfold in_state. cbn.
  rewrite Hst. repeat case_decide; naive_solver lia.
Qed.

Lemma held_move_ne st id toks k r st' :
  toks !! k = Some r → id ≠ r_budget r →
  held st id (<[k := set_r_state st' r]> toks) = held st id toks.
Proof.
  intros Hk Hne. rewrite (held_update _ _ _ _ r) by done. rewrite !in_state_ne by (cbn; congruence). lia.
Qed.

Lemma tokens_move g k r st' toks :
  Forall (token_ok g) toks → toks !! k = Some r → Forall (token_ok g) (<[k := set_r_state st' r]> toks).
Proof.
  intros Ht Hk. apply Forall_insert; [done|]. rewrite Forall_lookup in Ht. by apply (Ht k r).
Qed.

Lemma create_preserves b s x s' :
  sys_ok s → op_ok (op_create_budget b) → exec (op_create_budget b) s = (x, s') → sys_ok s'.
Proof.
  intros Hok (Hlim & Hr & Hc & Hrel) H. cbn in H. unfold call in H.
  destruct (create_budget b (sys_g s)) as [y g'] eqn:Hcb. simplify_eq.
  apply create_budget_cases in Hcb as [[-> _]|(_ & ? & Hno & _ & _ & _ & ->)].
  { by apply sys_ok_frame. }
  pose proof Hok as [Ha Ht Hch].
  eapply sys_ok_update; [done|done| |done|done| |].
  - split; cbn; rewrite ?Hr, ?Hc, ?Hrel, ?(held_no_budget _ _ _ _ Ht Hno),
      ?(charged_no_budget _ _ _ Hch Hno); widths; lia || done.
  - by eapply tokens_mono.
  - by eapply charges_mono.
Qed.

(** Setting the lifecycle leaves the account alone. *)
Lemma account_lifecycle toks cs id b l :
  account_ok toks cs id b → account_ok toks cs id (set_b_lifecycle l b).
Proof. by intros []; split. Qed.

Lemma expire_preserves s id b :
  sys_ok s → g_budgets (sys_g s) !! id = Some b →
  sys_ok (mkSys (with_budget id (set_b_lifecycle BudgetLifecycle.EXPIRED b) (sys_g s))
            (sys_tokens s) (sys_charges s)).
Proof.
  intros Hok Hb. pose proof Hok as [Ha Ht Hc].
  eapply sys_ok_update; [done|done|by apply account_lifecycle, Ha|done|done| |].
  - by eapply tokens_mono.
  - by eapply charges_mono.
Qed.

Lemma reserve_preserves now id gen ep amt s x s' :
  sys_ok s → in_i64 amt → exec (op_reserve now id gen ep amt) s = (x, s') → sys_ok s'.
Proof.
  intros Hok Hamt H. cbn [exec] in H. destruct (reserve _ _ _ _ _ _) as [y g'] eqn:Hr. simplify_eq.
  apply reserve_cases in Hr as [[-> Hn]|[(b & Hb & -> & ->)|(b & Hb & Hr)]];
    [| |destruct Hr as (_ & _ & _ & _ & Hpos & Hle & -> & ->)|by intros; eapply sys_budget_ok|done].
  - destruct y as [[[] []]|]; try (by apply sys_ok_frame). by destruct (Hn (Some b)).
  - by apply expire_preserves.
  - pose proof Hok as [Ha Ht Hc]. set (tok := granted now id gen ep amt b (sys_g s)).
    assert (∀ st, in_state st id tok = if decide (st = ReservationState.ACTIVE) then amt else 0) as Hin.
    { intros st. unfold in_state. cbn. repeat case_decide; naive_solver. }
    eapply (sys_ok_update s _ id (reserved_budget amt b)); [done|done| | |done| |].
    + destruct (Ha _ _ Hb) as []. split; cbn; rewrite ?held_app, ?held_one, ?Hin; repeat case_decide; done || lia.
    + intros st id' Hne. rewrite held_app, held_one, in_state_ne by (cbn; congruence). lia.
    + apply Forall_app. split; [by eapply tokens_mono|]. apply Forall_singleton. split; [done|].
      cbn. rewrite lookup_insert_eq. by eexists.
    + by eapply charges_mono.
Qed.

Lemma consume_preserves now id gen ep amt s x s' :
  sys_ok s → in_i64 amt → exec (op_consume now id gen ep amt) s = (x, s') → sys_ok s'.
Proof.
  intros Hok Hamt H. cbn [exec] in H. destruct (consume _ _ _ _ _ _) as [y g'] eqn:Hr. simplify_eq.
  apply consume_cases in Hr as [[-> Hn]|[(b & Hb & -> & ->)|(b & Hb & Hr)]];
    [| |destruct Hr as (_ & _ & _ & Hpos & Hin & Hhard & -> & ->)|by intros; eapply sys_budget_ok|done].
  - destruct y as [[]|]; try (by apply sys_ok_frame). done.
  - by apply expire_preserves.
  - pose proof Hok as [Ha Ht Hc].
    eapply (sys_ok_update s _ id (charged_budget amt b)); [done|done| |done| | |].
    + destruct (Ha _ _ Hb) as []. split; cbn; try done; [|widths; lia].
      rewrite charged_app. unfold charged at 2, charge_of. cbn. rewrite decide_True by done.
      unfold sumZ. cbn. lia.
    + intros id' Hne. rewrite charged_app. unfold charged at 2, charge_of. cbn.
      rewrite decide_False by congruence. unfold sumZ. cbn. lia.
    + by eapply tokens_mono.
    + apply Forall_app. split; [by eapply charges_mono|]. apply Forall_singleton. split; [done|].
      cbn. rewrite lookup_insert_eq. by eexists.
Qed.

(** An active reservation of budget [b] reached the outcome [st]. *)
Lemma outcome_preserves s k r b b' g' st :
  sys_ok s → sys_tokens s !! k = Some r → r_state r = ReservationState.ACTIVE →
  st ≠ ReservationState.ACTIVE → g_budgets (sys_g s) !! r_budget r = Some b →
  g_budgets g' = <[r_budget r := b']> (g_budgets (sys_g s)) →
  account_ok (<[k := set_r_state st r]> (sys_tokens s)) (sys_charges s) (r_budget r) b' →
  sys_ok (mkSys g' (<[k := set_r_state st r]> (sys_tokens s)) (sys_charges s)).
Proof.
  intros Hok Hk Hact Hst Hb Hg Hacc. pose proof Hok as [Ha Ht Hc].
  eapply sys_ok_update; [done|done|done| |done| |].
  - intros st' id' Hne. by apply held_move_ne.
  - apply tokens_move; [|done]. by eapply tokens_mono.
  - by eapply charges_mono.
Qed.

Ltac account_move Hk Hact :=
  split; cbn; rewrite ?(held_move _ _ _ _ _ Hk Hact) by done; repeat case_decide; done || lia || auto.

Lemma sys_token_same s k r g' :
  sys_tokens s !! k = Some r → sys_ok (mkSys g' (sys_tokens s) (sys_charges s)) →
  sys_ok (mkSys g' (<[k := r]> (sys_tokens s)) (sys_charges s)).
Proof. intros Hk. by rewrite list_insert_id. Qed.

Lemma commit_preserves now k s s' :
  sys_ok s → exec (op_commit now k) s = (Ret tt, s') → sys_ok s'.
Proof.
  intros Hok H. cbn [exec] in H. unfold call_on in H.
  destruct (sys_tokens s !! k) as [r|] eqn:Hk; [|by simplify_eq].
  destruct (commit now (sys_g s, r)) as [x [g' r']] eqn:Hc. injection H as Hx <-.
  apply commit_cases in Hc as [(-> & -> & _)|(b & Hb & Hact & _ & _ & _ & Hc)];
    [by apply sys_token_same, sys_ok_frame| |by intros; eapply sys_budget_ok
    |by intros; eapply sys_covered].
  destruct (ok_accounts s Hok _ _ Hb) as [].
  pose proof (sys_covered s k r b Hok Hk Hb Hact).
  destruct Hc as [(-> & _)|[(_ & Hin & -> & ->)|(_ & Hin & Hhard & -> & ->)]]; [done| |];
    (eapply outcome_preserves; [done|done|done|done|done|done|]).
  - account_move Hk Hact; widths; lia.
  - account_move Hk Hact; widths; lia.
Qed.

Lemma release_preserves k s s' :
  sys_ok s → exec (op_release k) s = (Ret tt, s') → sys_ok s'.
Proof.
  intros Hok H. cbn [exec] in H. unfold call_on in H.
  destruct (sys_tokens s !! k) as [r|] eqn:Hk; [|by simplify_eq].
  destruct (release (sys_g s, r)) as [x [g' r']] eqn:Hc. injection H as Hx <-.
  apply release_cases in Hc as [(-> & -> & _)|(b & Hb & Hact & _ & _ & Hc)];
    [by apply sys_token_same, sys_ok_frame| |by intros; eapply sys_budget_ok
    |by intros; eapply sys_covered].
  destruct (ok_accounts s Hok _ _ Hb) as [].
  pose proof (sys_covered s k r b Hok Hk Hb Hact).
  destruct Hc as [(-> & _)|(_ & Hin & -> & ->)]; [done|].
  eapply outcome_preserves; [done|done|done|done|done|done|].
  account_move Hk Hact; widths; lia.
Qed.

(** The budgets a call that is not about budgets leaves behind. *)
Lemma other_calls_frame {A} (m : St Impl A) s x s' :
  sys_ok s → (∀ y g', m (sys_g s) = (y, g') → g_budgets g' = g_budgets (sys_g s)) →
  call m s = (x, s') → sys_ok s'.
Proof.
  intros Hok Hm H. unfold call in H. destruct (m (sys_g s)) as [y g'] eqn:Hy. simplify_eq.
  apply sys_ok_frame; [done|]. by eapply Hm.
Qed.

Lemma step_preserves s s' : sys_ok s → step s s' → sys_ok s'.
Proof.
  intros Hok Hstep. destruct Hstep as [op s0 s1 Hop H].
  destruct (intervention_frames (sys_g s0)) as (Fp & Fa & Fk & Fv).
  destruct op;
    try first
      [ exact (create_preserves _ _ _ _ Hok Hop H)
      | exact (reserve_preserves _ _ _ _ _ _ _ _ Hok Hop H)
      | exact (consume_preserves _ _ _ _ _ _ _ _ Hok Hop H)
      | exact (commit_preserves _ _ _ _ Hok H) | exact (release_preserves _ _ _ Hok H) ];
    cbn [exec] in H; eapply other_calls_frame in H; try done.
  - intros y g' Hy. by injection Hy as _ <-.
  - intros y g' Hy. by injection Hy as _ <-.
  - intros y g' Hy. by injection Hy as _ <-.
  - intros y g' Hy. by injection Hy as _ <-.
  - intros y g' Hy. by injection Hy as _ <-.
  - intros y g' [[-> _]|(_ & _ & _ & _ & _ & ->)]%publish_price_cases; done.
  - intros y g' [[-> _]|(_ & _ & _ & _ & _ & ->)]%record_attempt_cases; done.
  - intros y g' (m & n & ->)%Fp. done.
  - intros y g' (m & ->)%Fa. done.
  - intros y g' (m & ->)%Fk. done.
  - intros y g' (m & ->)%Fv. done.
  - intros y g' [->|(h & _ & _ & _ & _ & ->)]%finalize_cases; done.
Qed.

Lemma reachable_ok s : reachable s → sys_ok s.
Proof.
  apply reachable_invariant; [|by intros; eapply step_preserves].
  split; [|constructor|constructor]. cbn. intros id b. by rewrite lookup_empty.
Qed.

(** A run of calls on a hard budget of 100: two reservations, one committed, one
    released, and a direct charge. *)
Definition clock0 : Readings := λ _, 1000.
Definition sample_run : list Op :=
  [ op_create_budget (sample_budget 1 100 BudgetMode.HARD);
    op_reserve clock0 (mkId 1) (mkId 1) (mkId 1) 60;
    op_reserve clock0 (mkId 1) (mkId 1) (mkId 1) 40;
    op_commit clock0 0;
    op_release 1;
    op_consume clock0 (mkId 1) (mkId 1) (mkId 1) 25 ].

Definition sample_state : Sys := default initial_sys (run sample_run initial_sys).

Lemma sample_reachable : reachable sample_state.
Proof. apply (run_steps sample_run). by vm_compute. Qed.

(** ** Totality of release *)

(** Everything ever granted on budget [id]. *)
Definition amount_on (id : BudgetId) (r : BudgetReservation) : Z :=
  if decide (r_budget r = id) then r_amount r else 0.
Definition granted_total (id : BudgetId) (toks : list BudgetReservation) : Z :=
  sumZ (amount_on id <$> toks).

Lemma granted_total_split id toks :
  granted_total id toks =
    held ReservationState.ACTIVE id toks + held ReservationState.COMMITTED id toks
    + held ReservationState.RELEASED id toks + held ReservationState.EXPIRED id toks.
Proof.
  unfold granted_total, held. induction toks as [|r l IH]; [done|].
  rewrite !fmap_cons, !sumZ_cons, IH. unfold amount_on, in_state.
  destruct (r_state r); repeat case_decide; naive_solver lia.
Qed.

Lemma release_active s k r b :
  sys_ok s → sys_tokens s !! k = Some r → r_state r = ReservationState.ACTIVE →
  g_budgets (sys_g s) !! r_budget r = Some b → b_generation b = r_budget_generation r →
  r_epoch r = g_epoch (sys_g s) → in_i64 (b_released b + r_amount r) →
  release (sys_g s, r) =
    (Ret Status.OK,
     (with_budget (r_budget r)
        (released_budget (released_lifecycle (sys_g s) b (r_budget r)) (r_amount r) b)
        (set_g_reservations (<[r_budget r := stored_reservations (sys_g s) (r_budget r)]>
           (g_reservations (sys_g s))) (sys_g s)),
      set_r_state ReservationState.RELEASED r)).
Proof.
  intros Hok Hk Hact Hb Hgen Hep Hin.
  destruct (release (sys_g s, r)) as [x [g' r']] eqn:H. pose proof H as Hc.
  apply release_cases in Hc as [(-> & -> & _ & _)|(b' & Hb' & _ & _ & _ & Hc)];
    [| |by intros; eapply sys_budget_ok|by intros; eapply sys_covered].
  - exfalso. unfold release in H. st_simpl H. rewrite Hb in H.
    rewrite !decide_False in H by (by rewrite ?Hact; intros Hn; apply Hn).
    pose proof (sys_covered s k r b Hok Hk Hb Hact).
    rewrite (sub_reserved_ok _ b) in H; [|done|by eapply sys_budget_ok|done]. cbn in H.
    unfold add_released in H. st_simpl H.
    pose proof (sys_budget_ok s _ b Hok Hb) as (?&?&?&?).
    rewrite checked_add_eq, decide_True in H; [|done|done|widths; lia]. cbn in H.
    injection H as _ _ Hr. apply (f_equal r_state) in Hr. rewrite Hact in Hr. done.
  - rewrite Hb in Hb'. injection Hb' as <-.
    by destruct Hc as [(_ & Hn & _)|(-> & _ & -> & ->)].
Qed.

(** ** The governor's copies of reservations never change state *)

Definition stored_ok (s : Sys) : Prop :=
  (∀ id x, x ∈ stored_reservations (sys_g s) id → r_state x = ReservationState.ACTIVE) ∧
  (∀ r, r ∈ sys_tokens s → stored_reservations (sys_g s) (r_budget r) ≠ []).

Lemma stored_ok_frame g g' toks cs cs' :
  stored_ok (mkSys g toks cs) →
  (∀ id, stored_reservations g' id = stored_reservations g id) →
  stored_ok (mkSys g' toks cs').
Proof. intros [H1 H2] Hg. split; cbn in *; intros *; rewrite Hg; eauto. Qed.

Lemma stored_ok_tokens s k r r' :
  stored_ok s → sys_tokens s !! k = Some r → r_budget r' = r_budget r →
  ∀ x, x ∈ <[k := r']> (sys_tokens s) → stored_reservations (sys_g s) (r_budget x) ≠ [].
Proof.
  intros [_ H2] Hk Hr x Hx. apply list_elem_of_lookup in Hx as [i Hi].
  destruct (decide (i = k)) as [->|Hne].
  - rewrite list_lookup_insert_eq in Hi by (by eapply lookup_lt_Some). simplify_eq.
    rewrite Hr. by apply H2, list_elem_of_lookup_2 with k.
  - rewrite list_lookup_insert_ne in Hi by done. by apply H2, list_elem_of_lookup_2 with i.
Qed.

Lemma stored_insert_same g id id' :
  stored_reservations (set_g_reservations (<[id := stored_reservations g id]> (g_reservations g)) g) id'
  = stored_reservations g id'.
Proof.
  unfold stored_reservations. cbn. destruct (decide (id = id')) as [->|].
  - by rewrite lookup_insert_eq.
  - by rewrite lookup_insert_ne.
Qed.

(** A call on a held reservation keeps its budget and the governor's copies. *)
Lemma stored_ok_call_on s k r g' r' :
  stored_ok s → sys_tokens s !! k = Some r → r_budget r' = r_budget r →
  (∀ id, stored_reservations g' id = stored_reservations (sys_g s) id) →
  stored_ok (mkSys g' (<[k := r']> (sys_tokens s)) (sys_charges s)).
Proof.
  intros Hst Hk Hr Hg. pose proof (stored_ok_tokens _ _ _ _ Hst Hk Hr) as Ht.
  destruct Hst as [H1 H2]. split; cbn; intros *; rewrite Hg; eauto.
Qed.

Lemma stored_ok_reserve s now id gen ep amt x s' :
  sys_ok s → in_i64 amt → stored_ok s → exec (op_reserve now id gen ep amt) s = (x, s') → stored_ok s'.
Proof.
  intros Hok Hamt Hst H. cbn [exec] in H. destruct (reserve _ _ _ _ _ _) as [y g'] eqn:Hr. simplify_eq.
  apply reserve_cases in Hr as [[-> Hn]|[(b & Hb & -> & ->)|(b & Hb & Hr)]];
    [| |destruct Hr as (_ & _ & _ & _ & _ & _ & -> & ->)|by intros; eapply sys_budget_ok|done].
  - destruct y as [[[] [b|]]|]; try (by destruct s). by destruct (Hn (Some b)).
  - destruct s. by eapply stored_ok_frame.
  - destruct Hst as [H1 H2]. set (tok := granted now id gen ep amt b (sys_g s)).
    split; unfold stored_reservations in *; cbn.
    + intros id' z. destruct (decide (id = id')) as [->|].
      * rewrite lookup_insert_eq. cbn. intros [Hz| ->%list_elem_of_singleton]%elem_of_app; eauto.
      * rewrite lookup_insert_ne by done. apply H1.
    + intros z Hz. destruct (decide (id = r_budget z)) as [Heq|].
      * rewrite <-Heq, lookup_insert_eq. cbn. by destruct (default _ _).
      * rewrite lookup_insert_ne by done.
        apply elem_of_app in Hz as [Hz| ->%list_elem_of_singleton]; [by apply H2|done].
Qed.

Lemma stored_ok_call {A} (m : St Impl A) s x s' :
  stored_ok s → (∀ y g', m (sys_g s) = (y, g') → g_reservations g' = g_reservations (sys_g s)) →
  call m s = (x, s') → stored_ok s'.
Proof.
  intros Hok Hm H. unfold call in H. destruct (m (sys_g s)) as [y g'] eqn:Hy. simplify_eq.
  destruct s as [g toks cs]. eapply stored_ok_frame; [done|]. intros id.
  unfold stored_reservations. by erewrite Hm.
Qed.

Lemma stored_ok_commit s now k s' :
  sys_ok s → stored_ok s → exec (op_commit now k) s = (Ret tt, s') → stored_ok s'.
Proof.
  intros Hok Hst H. cbn [exec] in H. unfold call_on in H.
  destruct (sys_tokens s !! k) as [r|] eqn:Hk; [|by simplify_eq].
  destruct (commit now (sys_g s, r)) as [x [g' r']] eqn:Hc. injection H as _ <-.
  apply commit_cases in Hc as [(-> & -> & _)|(b & Hb & Hact & _ & _ & _ & Hc)];
    [by eapply stored_ok_call_on| |by intros; eapply sys_budget_ok|by intros; eapply sys_covered].
  destruct Hc as [(_ & _ & -> & ->)|[(_ & _ & -> & ->)|(_ & _ & _ & -> & ->)]];
    by eapply stored_ok_call_on.
Qed.

Lemma stored_ok_release s k s' :
  sys_ok s → stored_ok s → exec (op_release k) s = (Ret tt, s') → stored_ok s'.
Proof.
  intros Hok Hst H. cbn [exec] in H. unfold call_on in H.
  destruct (sys_tokens s !! k) as [r|] eqn:Hk; [|by simplify_eq].
  destruct (release (sys_g s, r)) as [x [g' r']] eqn:Hc. injection H as _ <-.
  apply release_cases in Hc as [(-> & -> & _)|(b & Hb & Hact & _ & _ & Hc)];
    [by eapply stored_ok_call_on| |by intros; eapply sys_budget_ok|by intros; eapply sys_covered].
  destruct Hc as [(_ & _ & -> & ->)|(_ & _ & -> & ->)];
    [by eapply stored_ok_call_on|eapply stored_ok_call_on; [done..|]].
  intros id. apply (stored_insert_same (sys_g s)).
Qed.

Lemma stored_ok_consume s now id gen ep amt x s' :
  sys_ok s → in_i64 amt → stored_ok s → exec (op_consume now id gen ep amt) s = (x, s') → stored_ok s'.
Proof.
  intros Hok Hamt Hst H. cbn [exec] in H. destruct (consume _ _ _ _ _ _) as [y g'] eqn:Hr. simplify_eq.
  apply consume_cases in Hr as [[-> Hn]|[(b & Hb & -> & ->)|(b & Hb & Hr)]];
    [| |destruct Hr as (_ & _ & _ & _ & _ & _ & -> & ->)|by intros; eapply sys_budget_ok|done];
    destruct s; by eapply stored_ok_frame.
Qed.

Lemma stored_ok_step s s' : sys_ok s → stored_ok s → step s s' → stored_ok s'.
Proof.
  intros Hok Hst Hstep. destruct Hstep as [op s0 s1 Hop H].
  destruct (intervention_frames (sys_g s0)) as (Fp & Fa & Fk & Fv).
  destruct op;
    try first [ exact (stored_ok_reserve _ _ _ _ _ _ _ _ Hok Hop Hst H)
              | exact (stored_ok_consume _ _ _ _ _ _ _ _ Hok Hop Hst H)
              | exact (stored_ok_commit _ _ _ _ Hok Hst H)
              | exact (stored_ok_release _ _ _ Hok Hst H) ];
    cbn [exec] in H; eapply stored_ok_call in H; try done.
  - intros y g' Hy. by injection Hy as _ <-.
  - intros y g' Hy. by injection Hy as _ <-.
  - intros y g' Hy. by injection Hy as _ <-.
  - intros y g' [[-> _]|(_ & _ & _ & _ & _ & _ & ->)]%create_budget_cases; done.
  - intros y g' Hy. by injection Hy as _ <-.
  - intros y g' Hy. by injection Hy as _ <-.
  - intros y g' [[-> _]|(_ & _ & _ & _ & _ & ->)]%publish_price_cases; done.
  - intros y g' [[-> _]|(_ & _ & _ & _ & _ & ->)]%record_attempt_cases; done.
  - intros y g' (m & n & ->)%Fp. done.
  - intros y g' (m & ->)%Fa. done.
  - intros y g' (m & ->)%Fk. done.
  - intros y g' (m & ->)%Fv. done.
  - intros y g' [->|(h & _ & _ & _ & _ & ->)]%finalize_cases; done.
Qed.

Lemma reachable_stored s : reachable s → stored_ok s.
Proof.
  apply reachable_invariant.
  - split; cbn; [|set_solver]. intros id x. unfold stored_reservations. cbn.
    rewrite lookup_empty. set_solver.
  - intros s1 s2 Hr Hst. apply stored_ok_step; [by apply reachable_ok|done].
Qed.

(** The lifecycle after a release is RESERVED whatever it was before. *)
Lemma released_lifecycle_reserved s r b :
  stored_ok s → r ∈ sys_tokens s →
  released_lifecycle (sys_g s) b (r_budget r) = BudgetLifecycle.RESERVED.
Proof.
  intros [H1 H2] Hr. unfold released_lifecycle.
  destruct (stored_reservations (sys_g s) (r_budget r)) as [|x l] eqn:Hst; [by destruct (H2 r Hr)|].
  cbn. rewrite bool_decide_eq_true_2; [done|]. apply (H1 (r_budget r)). rewrite Hst.
  apply list_elem_of_here.
Qed.

(** Budgets that were exhausted with a reservation still held. *)
Definition exhausted_run : list Op :=
  [ op_create_budget (sample_budget 1 100 BudgetMode.HARD);
    op_reserve clock0 (mkId 1) (mkId 1) (mkId 1) 60;
    op_consume clock0 (mkId 1) (mkId 1) (mkId 1) 100 ].
Definition exhausted_state : Sys := default initial_sys (run exhausted_run initial_sys).

Lemma exhausted_reachable : reachable exhausted_state.
Proof. apply (run_steps exhausted_run). by vm_compute. Qed.

(** The same budget before it was exhausted. *)
Definition granted_state : Sys := default initial_sys (run (take 2 exhausted_run) initial_sys).

(** The reservation that was granted in [exhausted_run]. *)
Definition exhausted_token : BudgetReservation :=
  granted clock0 (mkId 1) (mkId 1) (mkId 1) 60 (sample_budget 1 100 BudgetMode.HARD) initial.

(** Two reservations of the whole int64 range, the first one released. *)
Definition overflow_run : list Op :=
  [ op_create_budget (sample_budget 1 I64_MAX BudgetMode.HARD);
    op_reserve clock0 (mkId 1) (mkId 1) (mkId 1) I64_MAX;
    op_release 0;
    op_reserve clock0 (mkId 1) (mkId 1) (mkId 1) I64_MAX ].
Definition overflow_state : Sys := default initial_sys (run overflow_run initial_sys).

Lemma overflow_reachable : reachable overflow_state.
Proof. apply (run_steps overflow_run). by vm_compute. Qed.

(** ** Theorems *)

(** C1. Exact budget accounting under every interleaving of calls: from an empty
    governor, after any sequence of calls that return, of any state-changing method
    but [load], in which budgets are created with nothing reserved, consumed or
    released and every granted reservation is one object that its holder commits or
    releases (no copies), a budget's [reserved] is the sum of the reservations still
    active on it, [consumed] the sum of the committed ones plus the direct charges,
    [released] the sum of the released and expired ones; [reserved] is between 0 and
    the limit, and a hard budget's [consumed] never exceeds its limit. *)
Theorem accounts_exact s id b :
  reachable s → g_budgets (sys_g s) !! id = Some b →
  b_reserved b = held ReservationState.ACTIVE id (sys_tokens s) ∧
  b_consumed b = held ReservationState.COMMITTED id (sys_tokens s) + charged id (sys_charges s) ∧
  b_released b = held ReservationState.RELEASED id (sys_tokens s)
               + held ReservationState.EXPIRED id (sys_tokens s) ∧
  0 ≤ b_reserved b ≤ b_limit b ∧ 0 ≤ b_consumed b ≤ I64_MAX ∧ 0 ≤ b_released b ≤ I64_MAX ∧
  (b_mode b = BudgetMode.HARD → b_consumed b ≤ b_limit b).
Proof.
  intros Hr Hb. pose proof (reachable_ok s Hr) as [Ha Ht Hc]. destruct (Ha _ _ Hb) as [].
  pose proof (held_nonneg _ ReservationState.ACTIVE id _ Ht).
  pose proof (held_nonneg _ ReservationState.COMMITTED id _ Ht).
  pose proof (held_nonneg _ ReservationState.RELEASED id _ Ht).
  pose proof (held_nonneg _ ReservationState.EXPIRED id _ Ht).
  pose proof (charged_nonneg _ id _ Hc). split_and!; done || lia.
Qed.

Lemma accounts_exact_witness :
  ∃ b, g_budgets (sys_g sample_state) !! mkId 1 = Some b ∧
    b_consumed b = held ReservationState.COMMITTED (mkId 1) (sys_tokens sample_state)
                 + charged (mkId 1) (sys_charges sample_state) ∧ b_consumed b = 85.
Proof.
  eexists. split; [by vm_compute|].
  edestruct (accounts_exact sample_state (mkId 1)) as (_ & -> & _);
    [apply sample_reachable|by vm_compute|]. split; [done|by vm_compute].
Defined.

(** Release is total: in every reachable state, releasing an active
    reservation under its own budget generation and the current epoch returns OK,
    gives exactly its amount back and marks it RELEASED, as long as all
    reservations ever granted on the budget sum within int64. *)
Theorem release_returns s k r b :
  reachable s → sys_tokens s !! k = Some r → r_state r = ReservationState.ACTIVE →
  g_budgets (sys_g s) !! r_budget r = Some b → b_generation b = r_budget_generation r →
  r_epoch r = g_epoch (sys_g s) → granted_total (r_budget r) (sys_tokens s) ≤ I64_MAX →
  ∃ g', release (sys_g s, r) = (Ret Status.OK, (g', set_r_state ReservationState.RELEASED r)) ∧
    ∃ b', g_budgets g' !! r_budget r = Some b' ∧ b_reserved b' = b_reserved b - r_amount r ∧
      b_released b' = b_released b + r_amount r ∧ b_consumed b' = b_consumed b.
Proof.
  intros Hr Hk Hact Hb Hgen Hep Htot. pose proof (reachable_ok s Hr) as Hok.
  pose proof Hok as [Ha Ht Hc]. destruct (Ha _ _ Hb) as [_ _ HR _ _ _ _ HL _].
  rewrite granted_total_split in Htot.
  pose proof (held_nonneg _ ReservationState.COMMITTED (r_budget r) _ Ht).
  pose proof (held_nonneg _ ReservationState.RELEASED (r_budget r) _ Ht).
  pose proof (held_nonneg _ ReservationState.EXPIRED (r_budget r) _ Ht).
  pose proof (sys_covered s k r b Hok Hk Hb Hact).
  rewrite (release_active s k r b); [|done..|widths; lia].
  eexists. split; [done|]. eexists. split; [by apply lookup_insert_eq|done].
Qed.

Lemma release_returns_witness :
  ∃ g', release (sys_g exhausted_state, exhausted_token)
    = (Ret Status.OK, (g', set_r_state ReservationState.RELEASED exhausted_token)).
Proof.
  edestruct (release_returns exhausted_state 0 exhausted_token) as (g' & H & _);
    [apply exhausted_reachable|by vm_compute|by vm_compute|by vm_compute|by vm_compute
    |by vm_compute|by vm_compute|].
  exists g'. exact H.
Defined.

(** A release always leaves its budget RESERVED: the scan for active
    reservations reads the governor's own copies, whose state no operation ever
    changes, so in every reachable state the release of an active reservation
    makes the budget RESERVED (and live) even when no reservation is left on it
    and even when it was EXHAUSTED or EXPIRED before. *)
Theorem release_resurrects s k r g' r' :
  reachable s → sys_tokens s !! k = Some r → r_state r = ReservationState.ACTIVE →
  release (sys_g s, r) = (Ret Status.OK, (g', r')) →
  ∃ b', g_budgets g' !! r_budget r = Some b' ∧ b_lifecycle b' = BudgetLifecycle.RESERVED ∧
        is_live b' = true.
Proof.
  intros Hr Hk Hact H. pose proof (reachable_ok s Hr) as Hok.
  apply release_cases in H as [(_ & _ & _ & Hn)|(b & Hb & _ & _ & _ & Hc)];
    [by destruct (Hn eq_refl)| |by intros; eapply sys_budget_ok|by intros; eapply sys_covered].
  destruct Hc as [(? & _)|(_ & _ & _ & ->)]; [done|].
  eexists. split; [by apply lookup_insert_eq|].
  assert (released_lifecycle (sys_g s) b (r_budget r) = BudgetLifecycle.RESERVED) as Hl.
  { eapply released_lifecycle_reserved; [by apply reachable_stored|].
    by eapply list_elem_of_lookup_2. }
  unfold is_live. cbn. by rewrite Hl.
Qed.

Lemma release_resurrects_witness :
  (b_lifecycle <$> g_budgets (sys_g exhausted_state) !! mkId 1) = Some BudgetLifecycle.EXHAUSTED ∧
  ∃ g' r' b', release (sys_g exhausted_state, exhausted_token) = (Ret Status.OK, (g', r')) ∧
    g_budgets g' !! mkId 1 = Some b' ∧ b_lifecycle b' = BudgetLifecycle.RESERVED.
Proof.
  split; [by vm_compute|].
  destruct (release (sys_g exhausted_state, exhausted_token)) as [x [g' r']] eqn:H.
  assert (x = Ret Status.OK) as -> by (by vm_compute in H; simplify_eq).
  destruct (release_resurrects exhausted_state 0 exhausted_token g' r') as (b' & Hb & Hl & _);
    [apply exhausted_reachable|by vm_compute|by vm_compute|exact H|].
  exists g', r', b'. split; [done|]. split; [exact Hb|exact Hl].
Defined.

(** Committing twice is a no-op: once [commit] returned OK, committing the
    same reservation again, at any later time, returns OK and changes neither
    the governor nor the reservation. *)
Theorem commit_idempotent now now' g r g' r' :
  commit now (g, r) = (Ret Status.OK, (g', r')) →
  commit now' (g', r') = (Ret Status.OK, (g', r')).
Proof.
  intros H. pose proof H as Hc. unfold commit in Hc. st_simpl Hc.
  destruct (g_budgets g !! r_budget r) as [b|] eqn:Hb; [|done].
  case_decide as Hg; [done|]. case_decide as He1; [done|]. case_decide as He2; [done|].
  destruct (decide (r_state r ≠ ReservationState.ACTIVE)) as [Hst|Hact].
  { injection Hc as <- <-. unfold commit. unfold st_bind at 1, st_get. rewrite Hb.
    by rewrite !decide_False, decide_True by tauto. }
  destruct (is_live b); cbn in Hc; [|done].
  case_decide.
  { unfold sub_reserved, add_released in Hc. st_simpl Hc.
    destruct (b_reserved b -$ r_amount r); cbn in Hc; [|done].
    by destruct (b_released b +$ r_amount r). }
  destruct (b_consumed b +$ r_amount r) as [c|]; cbn in Hc; [|done]. case_decide; [done|].
  unfold sub_reserved in Hc. st_simpl Hc.
  destruct (b_reserved b -$ r_amount r); cbn in Hc; [|done].
  injection Hc as <- <-. unfold commit. unfold st_bind at 1, st_get. cbn [fst snd].
  change (r_budget (set_r_state ReservationState.COMMITTED r)) with (r_budget r).
  rewrite (upd_budget_eq _ _ g b), !with_budget_upd by done.
  unfold with_budget at 1. cbn. rewrite lookup_insert_eq.
  by rewrite !decide_False by (cbn; tauto).
Qed.

Lemma commit_idempotent_witness :
  ∃ g' r', commit clock0 (sys_g granted_state, exhausted_token) = (Ret Status.OK, (g', r')) ∧
    r_state r' = ReservationState.COMMITTED ∧ commit clock0 (g', r') = (Ret Status.OK, (g', r')).
Proof.
  destruct (commit clock0 (sys_g granted_state, exhausted_token)) as [x [g' r']] eqn:H.
  assert (x = Ret Status.OK) as -> by (by vm_compute in H; simplify_eq).
  exists g', r'. split; [done|]. split; [by vm_compute in H; simplify_eq|]. exact (commit_idempotent clock0 clock0 _ _ g' r' H).
Defined.

(** Exceptions do not roll back: in a reachable state, releasing an active
    reservation whose amount overflows [released] throws after [reserved] was
    decreased; the reservation stays ACTIVE, and releasing it again drives
    [reserved] below zero. *)
Theorem release_overflow_negative_reserved :
  reachable overflow_state ∧
  ∃ r g1 g2 r2, sys_tokens overflow_state !! 1%nat = Some r ∧
    release (sys_g overflow_state, r) = (Throw overflow_error, (g1, r)) ∧
    (b_reserved <$> g_budgets g1 !! mkId 1) = Some 0 ∧
    release (g1, r) = (Throw overflow_error, (g2, r2)) ∧
    (b_reserved <$> g_budgets g2 !! mkId 1) = Some (- I64_MAX).
Proof.
  split; [apply overflow_reachable|].
  eexists _, _, _, _. split; [by vm_compute|]. split; [by vm_compute|].
  split; [by vm_compute|]. split; by vm_compute.
Qed.

(** A granted reservation can be uncommittable: [reserve] compares the
    reserved total with the limit and ignores what was already consumed, so a
    reachable state has a hard budget whose reserved and consumed amounts exceed
    its limit together, with an active reservation that [commit] refuses. *)
Theorem reserve_ignores_consumed :
  ∃ s r b g', reachable s ∧ sys_tokens s !! 0%nat = Some r ∧
    r_state r = ReservationState.ACTIVE ∧ g_budgets (sys_g s) !! r_budget r = Some b ∧
    b_mode b = BudgetMode.HARD ∧ b_limit b < b_reserved b + b_consumed b ∧
    commit clock0 (sys_g s, r) = (Ret Status.BUDGET_EXCEEDED, (g', r)).
Proof.
  set (ops := [ op_create_budget (sample_budget 1 100 BudgetMode.HARD);
                op_consume clock0 (mkId 1) (mkId 1) (mkId 1) 90;
                op_reserve clock0 (mkId 1) (mkId 1) (mkId 1) 100 ]).
  exists (default initial_sys (run ops initial_sys)). eexists _, _, _.
  split; [apply (run_steps ops); by vm_compute|].
  split; [by vm_compute|]. split; [by vm_compute|]. split; [by vm_compute|].
  split; [by vm_compute|]. split; by vm_compute.
Qed.

(** [create_budget] accepts used accounts: a hard budget over its limit, with a negative
    reserved amount, is created and live. *)
Example create_accepts_used_accounts :
  let b := set_b_reserved (-5) (set_b_consumed 50 (sample_budget 1 10 BudgetMode.HARD)) in
  let out := create_budget b (set_policy sample_policy initial).2 in
  out.1 = Ret Status.OK ∧
  g_budgets out.2 !! mkId 1 = Some (set_b_lifecycle BudgetLifecycle.ACTIVE b).
Proof. by vm_compute. Qed.

(** A copied reservation is charged twice: the state that makes [commit] idempotent is
    the caller's copy. *)
Example copied_reservation_charged_twice :
  let g := (create_budget (sample_budget 1 100 BudgetMode.HARD) (set_policy sample_policy initial).2).2 in
  match reserve (λ _, 0) (mkId 1) (mkId 1) (mkId 1) 40 g with
  | (Ret (Status.OK, Some r), g1) =>
      let first := commit (λ _, 0) (g1, r) in
      let second := commit (λ _, 0) (first.2.1, r) in
      first.1 = Ret Status.OK ∧ second.1 = Ret Status.OK ∧
      ((λ b, (b_consumed b, b_reserved b)) <$> g_budgets second.2.1 !! mkId 1) = Some (80, -40)
  | _ => False
  end.
Proof. by vm_compute. Qed.
