(* ===== verification/Fencing.v ===== *)
(** * Fencing: authority checks, attempts, request history, interventions

    What the epoch, the worker boots and the generations keep out, and the
    per-request and per-intervention invariants of the governor. *)

From stdpp Require Import prelude gmap strings.
From S2P Require Import Prelude Effects Money Identity Units Price Policy Budget Cost.
From S2P Require Import Plan Decision Samples Governor Ledger System.
From stdpp Require Import options.

(** Case analysis of a call whose outcome is known. *)
Ltac call_cases H :=
  st_simpl H;
  repeat match type of H with
    | context [match ?m with _ => _ end] =>
        lazymatch m with
        | context [match _ with _ => _ end] => fail
        | _ => destruct m eqn:?; cbn in H
        end
    end; simplify_eq; try done.

(** ** Frame of a rejected call *)

(** The budget's deadline has passed, and its expiry is all that was recorded. *)
Definition expiry_recorded (at_ms : Z) (id : BudgetId) (g g' : Impl) : Prop :=
  ∃ b, g_budgets g !! id = Some b ∧ is_live b = true ∧ b_expires_at_ms b ≠ 0 ∧
    at_ms > b_expires_at_ms b ∧ g' = with_budget id (set_b_lifecycle BudgetLifecycle.EXPIRED b) g.

(** The reservation's deadline has passed, and its amount went back from reserved to
    released, nothing else. *)
Definition hold_expired (at_ms : Z) (g : Impl) (r : BudgetReservation) (g' : Impl)
    (r' : BudgetReservation) : Prop :=
  ∃ b reserved released, g_budgets g !! r_budget r = Some b ∧ is_live b = true ∧
    r_state r = ReservationState.ACTIVE ∧ r_expires_at_ms r ≠ 0 ∧ at_ms > r_expires_at_ms r ∧
    b_reserved b -$ r_amount r = Ret reserved ∧ b_released b +$ r_amount r = Ret released ∧
    g' = with_budget (r_budget r) (set_b_released released (set_b_reserved reserved b)) g ∧
    r' = set_r_state ReservationState.EXPIRED r.

Lemma reserve_rejected now id gen ep amt g st out g' :
  reserve now id gen ep amt g = (Ret (st, out), g') → st ≠ Status.OK →
  out = None ∧ (g' = g ∨ st = Status.BUDGET_EXPIRED ∧ expiry_recorded (now 0%nat) id g g').
Proof.
  intros H ?. unfold reserve in H. call_cases H; (split; [done|]); try (by left).
  right. split; [done|]. exists b. split_and!;
    [done|by apply negb_false_iff|apply a|apply a|by apply upd_budget_eq].
Qed.

Lemma consume_rejected now id gen ep amt g st g' :
  consume now id gen ep amt g = (Ret st, g') → st ≠ Status.OK →
  g' = g ∨ st = Status.BUDGET_EXPIRED ∧ expiry_recorded (now 0%nat) id g g'.
Proof.
  intros H ?. unfold consume in H. call_cases H; try (by left).
  right. split; [done|]. exists b. split_and!;
    [done|by apply negb_false_iff|apply a|apply a|by apply upd_budget_eq].
Qed.

Lemma commit_rejected now g r st g' r' :
  commit now (g, r) = (Ret st, (g', r')) → st ≠ Status.OK →
  (g' = g ∧ r' = r) ∨ st = Status.BUDGET_EXPIRED ∧ hold_expired (now 0%nat) g r g' r'.
Proof.
  intros H ?. unfold commit, sub_reserved, add_released in H. call_cases H; try (by left).
  right. split; [done|]. exists b. eexists _, _.
  split_and!; [done|by apply negb_false_iff|by apply dec_stable|apply a|apply a|done|done| |done].
  rewrite upd_budget_compose. by rewrite (upd_budget_eq _ _ _ b).
Qed.

Lemma release_rejected g r st g' r' :
  release (g, r) = (Ret st, (g', r')) → st ≠ Status.OK → g' = g ∧ r' = r.
Proof. intros H ?. unfold release, sub_reserved, add_released in H. by call_cases H. Qed.

Lemma authorize_rejected id gen g st g' :
  authorize_intervention id gen g = (Ret st, g') → st ≠ Status.OK → g' = g.
Proof. intros H ?. unfold authorize_intervention in H. by call_cases H. Qed.

Lemma acknowledge_rejected now id gen g st g' :
  acknowledge_intervention now id gen g = (Ret st, g') → st ≠ Status.OK → g' = g.
Proof. intros H ?. unfold acknowledge_intervention in H. by call_cases H. Qed.

Lemma verify_rejected now id gen post g out g' :
  verify_intervention now id gen post g = (Ret out, g') → out ≠ VerificationOutcome.EFFECTIVE → g' = g.
Proof. intros H ?. unfold verify_intervention in H. by call_cases H. Qed.

Lemma finalize_rejected now req wl g st g' :
  finalize_request now req wl g = (Ret st, g') → st ≠ Status.OK → g' = g.
Proof. intros H ?. unfold finalize_request in H. by call_cases H. Qed.

(** ** Stale authority *)

Lemma stale_create b g x g' :
  b_epoch b ≠ g_epoch g → create_budget b g = (x, g') → x ≠ Ret Status.OK ∧ g' = g.
Proof. intros Hep [[-> ?]|(_ & _ & _ & ? & _)]%create_budget_cases; done. Qed.

Lemma stale_publish o g :
  o_epoch o ≠ g_epoch g → publish_price o g = (Ret Status.STALE_AUTHORITY, g).
Proof. intros. unfold publish_price, st_bind, st_get. by rewrite decide_True. Qed.

Lemma stale_record ev g :
  e_epoch ev ≠ g_epoch g → record_attempt ev g = (Ret Status.STALE_AUTHORITY, g).
Proof. intros. unfold record_attempt, st_bind, st_get. by rewrite decide_True. Qed.

Lemma stale_reserve now id gen ep amt g x g' :
  ep ≠ g_epoch g → reserve now id gen ep amt g = (x, g') →
  (∀ out, x ≠ Ret (Status.OK, out)) ∧ g' = g.
Proof.
  intros Hep H. unfold reserve in H. st_simpl H.
  destruct (g_budgets g !! id) as [b|]; [|by simplify_eq].
  case_decide as Hg; [by simplify_eq|].
  rewrite decide_True in H; [by simplify_eq|].
  intros Heq. apply Hep. rewrite <-Heq. symmetry. apply dec_stable. tauto.
Qed.

Lemma stale_commit now g r x g' r' :
  r_epoch r ≠ g_epoch g → commit now (g, r) = (x, (g', r')) → x ≠ Ret Status.OK ∧ g' = g ∧ r' = r.
Proof.
  intros Hep H. unfold commit in H. st_simpl H.
  destruct (g_budgets g !! r_budget r) as [b|]; [|by simplify_eq].
  case_decide as Hg; [by simplify_eq|]. rewrite decide_True in H by done. by simplify_eq.
Qed.

Lemma stale_release g r x g' r' :
  r_epoch r ≠ g_epoch g → release (g, r) = (x, (g', r')) → x ≠ Ret Status.OK ∧ g' = g ∧ r' = r.
Proof.
  intros Hep H. unfold release in H. st_simpl H.
  destruct (g_budgets g !! r_budget r) as [b|]; [|by simplify_eq].
  case_decide as Hg; [by simplify_eq|]. rewrite decide_True in H by done. by simplify_eq.
Qed.

(** [set_worker_boot] commutes with a call of another worker. *)
Lemma boot_other g w b w' :
  w' ≠ w → current_boot_for (set_worker_boot w b g).2 w' = current_boot_for g w'.
Proof. intros. unfold current_boot_for. cbn. by rewrite lookup_insert_ne. Qed.

Lemma boot_same g w b : current_boot_for (set_worker_boot w b g).2 w = b.
Proof. unfold current_boot_for. cbn. by rewrite lookup_insert_eq. Qed.

Lemma record_boot_commutes ev g w b :
  e_worker ev ≠ w →
  record_attempt ev (set_worker_boot w b g).2 =
    ((record_attempt ev g).1, (set_worker_boot w b (record_attempt ev g).2).2).
Proof.
  intros Hw. unfold record_attempt, st_bind at 1, st_get. rewrite boot_other by done.
  unfold st_bind at 1. cbn.
  repeat (case_decide; [done|]). case_match; [|done]. by case_decide.
Qed.

(** A price of another worker, or of no boot at all. *)
Lemma publish_boot_commutes o g w b :
  o_worker o ≠ w ∨ valid (o_boot o) = false →
  publish_price o (set_worker_boot w b g).2 =
    ((publish_price o g).1, (set_worker_boot w b (publish_price o g).2).2).
Proof.
  intros Hw. unfold publish_price, st_bind at 1, st_get.
  assert (valid (o_boot o) && bool_decide (o_boot o ≠ current_boot_for (set_worker_boot w b g).2 (o_worker o))
    = valid (o_boot o) && bool_decide (o_boot o ≠ current_boot_for g (o_worker o))) as ->
    by (destruct Hw as [Hw| ->]; [by rewrite boot_other|done]).
  unfold st_bind at 1. cbn. case_decide; [done|].
  destruct (valid _ && _); [done|]. destruct (negb _); [done|]. by destruct (negative _).
Qed.

(** ** Interventions *)

(** The moves of an intervention's lifecycle. *)
Inductive lifecycle_edge : InterventionLifecycle → InterventionLifecycle → Prop :=
  | edge_authorize : lifecycle_edge InterventionLifecycle.PROPOSED InterventionLifecycle.AUTHORIZED
  | edge_acknowledge l :
      l = InterventionLifecycle.AUTHORIZED ∨ l = InterventionLifecycle.DISPATCHED →
      lifecycle_edge l InterventionLifecycle.ACKNOWLEDGED
  | edge_verify l :
      l = InterventionLifecycle.ACKNOWLEDGED ∨ l = InterventionLifecycle.DISPATCHED →
      lifecycle_edge l InterventionLifecycle.EFFECTIVE.

(** A call keeps every intervention and moves each along at most one edge; what
    it adds is PROPOSED. *)
Definition interventions_move (m m' : gmap InterventionId CostIntervention) : Prop :=
  (∀ id i, m !! id = Some i → ∃ i', m' !! id = Some i' ∧ i_id i' = i_id i ∧
     i_generation i' = i_generation i ∧
     (i_lifecycle i' = i_lifecycle i ∨ lifecycle_edge (i_lifecycle i) (i_lifecycle i'))) ∧
  (∀ id i', m !! id = None → m' !! id = Some i' →
     i_id i' = id ∧ i_lifecycle i' = InterventionLifecycle.PROPOSED).

Lemma interventions_move_refl m : interventions_move m m.
Proof. split; [eauto 10|]. intros. congruence. Qed.

Lemma interventions_move_alter m id i f :
  m !! id = Some i → i_id (f i) = i_id i → i_generation (f i) = i_generation i →
  lifecycle_edge (i_lifecycle i) (i_lifecycle (f i)) → interventions_move m (alter f id m).
Proof.
  intros Hi Hid Hg He. split; intros id' i'; (destruct (decide (id = id')) as [<-|Hne];
    [rewrite lookup_alter_eq|rewrite lookup_alter_ne by done]).
  - rewrite Hi. intros [= <-]. cbn. eauto 10.
  - intros ->. eauto 10.
  - by rewrite Hi.
  - congruence.
Qed.

Lemma propose_move now x g r g' :
  propose_intervention now x g = (r, g') →
  interventions_move (g_interventions g) (g_interventions g').
Proof.
  intros H. unfold propose_intervention in H. st_simpl H. simplify_eq. cbn.
  destruct (g_interventions g !! mkId (g_next_intervention g)) eqn:Hi;
    [apply interventions_move_refl|].
  split; intros id i'.
  - intros Hid. exists i'. rewrite lookup_insert_ne by congruence. auto.
  - intros Hno. destruct (decide (mkId (g_next_intervention g) = id)) as [<-|].
    + rewrite lookup_insert_eq. by intros [= <-].
    + rewrite lookup_insert_ne by done. congruence.
Qed.

Lemma authorize_move id gen g r g' :
  authorize_intervention id gen g = (r, g') →
  interventions_move (g_interventions g) (g_interventions g').
Proof.
  intros H. unfold authorize_intervention in H. st_simpl H.
  destruct (g_interventions g !! id) as [i|] eqn:Hi; [|simplify_eq; apply interventions_move_refl].
  case_decide; [simplify_eq; apply interventions_move_refl|].
  case_decide as Hl; [simplify_eq; apply interventions_move_refl|]. simplify_eq. cbn.
  apply (interventions_move_alter _ _ i); [done|done|done|]. rewrite Hl. constructor.
Qed.

Lemma acknowledge_move now id gen g r g' :
  acknowledge_intervention now id gen g = (r, g') →
  interventions_move (g_interventions g) (g_interventions g').
Proof.
  intros H. unfold acknowledge_intervention in H. st_simpl H.
  destruct (g_interventions g !! id) as [i|] eqn:Hi; [|simplify_eq; apply interventions_move_refl].
  case_decide; [simplify_eq; apply interventions_move_refl|].
  case_decide as Hl; [simplify_eq; apply interventions_move_refl|]. simplify_eq. cbn.
  apply (interventions_move_alter _ _ i); [done|done|done|]. constructor.
  destruct (decide (i_lifecycle i = InterventionLifecycle.AUTHORIZED)); [auto|].
  right. apply dec_stable. tauto.
Qed.

Lemma verify_move now id gen post g r g' :
  verify_intervention now id gen post g = (r, g') →
  interventions_move (g_interventions g) (g_interventions g').
Proof.
  intros H. unfold verify_intervention in H. st_simpl H.
  destruct (g_interventions g !! id) as [i|] eqn:Hi; [|simplify_eq; apply interventions_move_refl].
  case_decide; [simplify_eq; apply interventions_move_refl|].
  case_decide; [simplify_eq; apply interventions_move_refl|].
  case_decide as Hl; [simplify_eq; apply interventions_move_refl|]. simplify_eq. cbn.
  apply (interventions_move_alter _ _ i); [done|done|done|]. constructor.
  destruct (decide (i_lifecycle i = InterventionLifecycle.ACKNOWLEDGED)); [auto|].
  right. apply dec_stable. tauto.
Qed.

(** ** Books: history and interventions across every call *)

Definition same_books (g g' : Impl) : Prop :=
  g_interventions g' = g_interventions g ∧ g_history g' = g_history g.

Lemma reserve_books now id gen ep amt g x g' :
  reserve now id gen ep amt g = (x, g') → same_books g g'.
Proof. intros H. unfold reserve in H. call_cases H; by split. Qed.

Lemma consume_books now id gen ep amt g x g' :
  consume now id gen ep amt g = (x, g') → same_books g g'.
Proof. intros H. unfold consume in H. call_cases H; by split. Qed.

Lemma commit_books now g r x g' r' : commit now (g, r) = (x, (g', r')) → same_books g g'.
Proof. intros H. unfold commit, sub_reserved, add_released in H. call_cases H; by split. Qed.

Lemma release_books g r x g' r' : release (g, r) = (x, (g', r')) → same_books g g'.
Proof. intros H. unfold release, sub_reserved, add_released in H. call_cases H; by split. Qed.

Definition history_grows (g g' : Impl) : Prop :=
  g_history g' = g_history g ∨
  ∃ h, Forall (λ e, h_request e ≠ h_request h) (g_history g) ∧ g_history g' = g_history g ++ [h].

(** What any call does to the interventions and the history. *)
Definition books_step (g g' : Impl) : Prop :=
  interventions_move (g_interventions g) (g_interventions g') ∧ history_grows g g'.

Lemma books_step_same g g' : same_books g g' → books_step g g'.
Proof.
  intros [Hi Hh]. split; [rewrite Hi; apply interventions_move_refl|by left].
Qed.

Lemma call_books {A} (m : St Impl A) s x s' :
  (∀ y g', m (sys_g s) = (y, g') → books_step (sys_g s) g') →
  call m s = (x, s') → books_step (sys_g s) (sys_g s').
Proof.
  intros Hm H. unfold call in H. destruct (m (sys_g s)) as [y g'] eqn:Hy. simplify_eq. by eapply Hm.
Qed.

Lemma call_on_books m k s x s' :
  (∀ r y g' r', m (sys_g s, r) = (y, (g', r')) → same_books (sys_g s) g') →
  call_on m k s = (x, s') → books_step (sys_g s) (sys_g s').
Proof.
  intros Hm H. unfold call_on in H. apply books_step_same.
  destruct (sys_tokens s !! k) as [r|]; [|by simplify_eq].
  destruct (m (sys_g s, r)) as [y [g' r']] eqn:Hy. simplify_eq. by eapply Hm.
Qed.

Lemma exec_books op s x s' : exec op s = (x, s') → books_step (sys_g s) (sys_g s').
Proof.
  intros H. destruct (intervention_frames (sys_g s)) as (Fp & Fa & Fk & Fv).
  destruct op; cbn [exec] in H;
    try (eapply call_books; [|exact H]); try (eapply call_on_books; [|exact H]).
  - intros y g' Hy. injection Hy as _ <-. by apply books_step_same.
  - intros y g' Hy. injection Hy as _ <-. by apply books_step_same.
  - intros y g' Hy. injection Hy as _ <-. by apply books_step_same.
  - intros y g' [[-> _]|(_ & _ & _ & _ & _ & _ & ->)]%create_budget_cases; by apply books_step_same.
  - intros y g' Hy. injection Hy as _ <-. by apply books_step_same.
  - intros y g' Hy. injection Hy as _ <-. by apply books_step_same.
  - intros y g' [[-> _]|(_ & _ & _ & _ & _ & ->)]%publish_price_cases; by apply books_step_same.
  - intros y g' [[-> _]|(_ & _ & _ & _ & _ & ->)]%record_attempt_cases; by apply books_step_same.
  - destruct (reserve _ _ _ _ _ _) eqn:Hr. simplify_eq. by eapply books_step_same, reserve_books.
  - intros *. apply commit_books.
  - intros *. apply release_books.
  - destruct (consume _ _ _ _ _ _) eqn:Hr. simplify_eq. by eapply books_step_same, consume_books.
  - intros y g' Hy. split; [by eapply propose_move|]. apply Fp in Hy as (m & n & ->). by left.
  - intros y g' Hy. split; [by eapply authorize_move|]. apply Fa in Hy as (m & ->). by left.
  - intros y g' Hy. split; [by eapply acknowledge_move|]. apply Fk in Hy as (m & ->). by left.
  - intros y g' Hy. split; [by eapply verify_move|]. apply Fv in Hy as (m & ->). by left.
  - intros y g' [->|(h & _ & <- & Hf & _ & ->)]%finalize_cases; [by apply books_step_same|].
    split; [apply interventions_move_refl|]. right. by exists h.
Qed.

(** The lifecycles that the governor's own calls produce. *)
Definition books_ok (s : Sys) : Prop :=
  NoDup (h_request <$> g_history (sys_g s)) ∧
  (∀ id i, g_interventions (sys_g s) !! id = Some i →
     i_lifecycle i ∈ [InterventionLifecycle.PROPOSED; InterventionLifecycle.AUTHORIZED;
                      InterventionLifecycle.ACKNOWLEDGED; InterventionLifecycle.EFFECTIVE] ∧
     i_id i = id).

Lemma books_ok_step s s' : books_ok s → step s s' → books_ok s'.
Proof.
  intros [Hh Hi] Hstep. destruct Hstep as [op s0 s1 _ H]. apply exec_books in H as [[Hm1 Hm2] Hgr].
  split.
  - destruct Hgr as [->|(h & Hf & ->)]; [done|]. rewrite fmap_app. apply NoDup_app.
    split_and!; [done| |apply NoDup_singleton].
    intros r Hr. apply list_elem_of_fmap in Hr as (e & -> & He). rewrite Forall_forall in Hf.
    intros Hin%list_elem_of_singleton. by apply (Hf e).
  - intros id i' Hi'. destruct (g_interventions (sys_g s0) !! id) as [i|] eqn:Hid.
    + destruct (Hm1 _ _ Hid) as (i2 & Hi2 & Hk & _ & Hl). rewrite Hi' in Hi2. injection Hi2 as <-.
      destruct (Hi _ _ Hid) as [Hli Hki]. split; [|congruence].
      destruct Hl as [->|Hl]; [done|]. destruct Hl; set_solver.
    + destruct (Hm2 _ _ Hid Hi') as [-> ->]. split; [set_solver|done].
Qed.

Lemma reachable_books s : reachable s → books_ok s.
Proof.
  apply reachable_invariant.
  - split; [constructor|]. intros id i. cbn. by rewrite lookup_empty.
  - intros s1 s2 _. apply books_ok_step.
Qed.

(** ** Theorems *)

(** C27. Rejected calls change nothing: whenever an operation that reports a status
    returns anything but OK (for [verify_intervention]: anything but EFFECTIVE), the
    governor and the caller's reservation are exactly what they were and nothing is
    granted, with two exceptions, both reported as BUDGET_EXPIRED: past a live
    budget's deadline [reserve] and [consume] may set that budget's lifecycle to
    EXPIRED and nothing else, and past an active reservation's deadline [commit] may
    mark it EXPIRED and move its amount from the budget's reserved to its released
    and nothing else.  (Calls that throw are not covered.) *)
Theorem rejections_do_not_mutate g :
  (∀ b st g', create_budget b g = (Ret st, g') → st ≠ Status.OK → g' = g) ∧
  (∀ o st g', publish_price o g = (Ret st, g') → st ≠ Status.OK → g' = g) ∧
  (∀ ev st g', record_attempt ev g = (Ret st, g') → st ≠ Status.OK → g' = g) ∧
  (∀ now id gen ep amt st out g', reserve now id gen ep amt g = (Ret (st, out), g') →
     st ≠ Status.OK →
     out = None ∧ (g' = g ∨ st = Status.BUDGET_EXPIRED ∧ expiry_recorded (now 0%nat) id g g')) ∧
  (∀ now r st g' r', commit now (g, r) = (Ret st, (g', r')) → st ≠ Status.OK →
     (g' = g ∧ r' = r) ∨ st = Status.BUDGET_EXPIRED ∧ hold_expired (now 0%nat) g r g' r') ∧
  (∀ r st g' r', release (g, r) = (Ret st, (g', r')) → st ≠ Status.OK → g' = g ∧ r' = r) ∧
  (∀ now id gen ep amt st g', consume now id gen ep amt g = (Ret st, g') → st ≠ Status.OK →
     g' = g ∨ st = Status.BUDGET_EXPIRED ∧ expiry_recorded (now 0%nat) id g g') ∧
  (∀ id gen st g', authorize_intervention id gen g = (Ret st, g') → st ≠ Status.OK → g' = g) ∧
  (∀ now id gen st g', acknowledge_intervention now id gen g = (Ret st, g') →
     st ≠ Status.OK → g' = g) ∧
  (∀ now id gen post out g', verify_intervention now id gen post g = (Ret out, g') →
     out ≠ VerificationOutcome.EFFECTIVE → g' = g) ∧
  (∀ now req wl st g', finalize_request now req wl g = (Ret st, g') → st ≠ Status.OK → g' = g).
Proof.
  split_and!; intros *;
    eauto using reserve_rejected, commit_rejected, release_rejected, consume_rejected,
      authorize_rejected, acknowledge_rejected, verify_rejected, finalize_rejected.
  - intros [[-> _]|(? & _)]%create_budget_cases; congruence.
  - intros [[-> _]|(? & _)]%publish_price_cases; congruence.
  - intros [[-> _]|(? & _)]%record_attempt_cases; congruence.
Qed.

(** A hard budget of 100 that expires at time 50, and 60 of it reserved. *)
Definition expiring_run : Status * option BudgetReservation * Impl :=
  let g := (create_budget (let b := sample_budget 1 100 BudgetMode.HARD in
              mkBudget (b_id b) (b_generation b) (b_policy_generation b) (b_epoch b) (b_currency b)
                (b_mode b) (b_objective b) (b_limit b) (b_lifecycle b) (b_reserved b) (b_consumed b)
                (b_released b) (b_created_at_ms b) 50 (b_label b)) (set_policy sample_policy initial).2).2 in
  match reserve (λ _, 10) (mkId 1) (mkId 1) (mkId 1) 60 g with
  | (Ret (st, out), g') => (st, out, g') | (_, g') => (Status.INVALID_INPUT, None, g')
  end.

Lemma rejections_do_not_mutate_witness :
  ∃ r, expiring_run.1 = (Status.OK, Some r) ∧
    (reserve (λ _, 10) (mkId 1) (mkId 1) (mkId 1) 41 expiring_run.2).2 = expiring_run.2 ∧
    hold_expired 51 expiring_run.2 r (commit (λ _, 51) (expiring_run.2, r)).2.1
      (commit (λ _, 51) (expiring_run.2, r)).2.2.
Proof.
  eexists. split; [by vm_compute|].
  destruct (rejections_do_not_mutate expiring_run.2) as (_ & _ & _ & Hr & Hc & _). split.
  - destruct (Hr (λ _, 10) (mkId 1) (mkId 1) (mkId 1) 41 Status.BUDGET_EXCEEDED None
      (reserve (λ _, 10) (mkId 1) (mkId 1) (mkId 1) 41 expiring_run.2).2) as [_ [H|[H _]]];
      [by vm_compute|done|exact H|discriminate H].
  - match goal with |- hold_expired _ _ ?r _ _ =>
      destruct (Hc (λ _, 51) r Status.BUDGET_EXPIRED (commit (λ _, 51) (expiring_run.2, r)).2.1
        (commit (λ _, 51) (expiring_run.2, r)).2.2) as [[H _]|[_ H]] end;
      [by vm_compute|done|by vm_compute in H|exact H].
Defined.

(** C33. Epoch fencing: a call that carries an epoch other than the governor's
    never succeeds and changes nothing, be it a budget, a price, an attempt, a
    reservation request, a commit or a release. *)
Theorem epoch_fencing g ep :
  ep ≠ g_epoch g →
  (∀ b x g', b_epoch b = ep → create_budget b g = (x, g') → x ≠ Ret Status.OK ∧ g' = g) ∧
  (∀ o, o_epoch o = ep → publish_price o g = (Ret Status.STALE_AUTHORITY, g)) ∧
  (∀ ev, e_epoch ev = ep → record_attempt ev g = (Ret Status.STALE_AUTHORITY, g)) ∧
  (∀ now id gen amt x g', reserve now id gen ep amt g = (x, g') →
     (∀ out, x ≠ Ret (Status.OK, out)) ∧ g' = g) ∧
  (∀ now r x g' r', r_epoch r = ep → commit now (g, r) = (x, (g', r')) →
     x ≠ Ret Status.OK ∧ g' = g ∧ r' = r) ∧
  (∀ r x g' r', r_epoch r = ep → release (g, r) = (x, (g', r')) →
     x ≠ Ret Status.OK ∧ g' = g ∧ r' = r).
Proof.
  intros Hep. split_and!; intros *.
  - intros <-. by apply stale_create.
  - intros <-. by apply stale_publish.
  - intros <-. by apply stale_record.
  - by apply stale_reserve.
  - intros <-. by apply stale_commit.
  - intros <-. by apply stale_release.
Qed.

Lemma epoch_fencing_witness :
  record_attempt (sample_attempt 1 100 0 true true) (advance_epoch initial).2
    = (Ret Status.STALE_AUTHORITY, (advance_epoch initial).2).
Proof.
  destruct (epoch_fencing (advance_epoch initial).2 (mkId 1)) as (_ & _ & H & _); [by vm_compute|].
  apply H. by vm_compute.
Defined.

(** [consume] is not fenced by the epoch: it compares the caller's epoch with
    the budget's own and never with the governor's, so after any number of epoch
    advances it behaves exactly as before. *)
Theorem consume_ignores_governor_epoch now id gen ep amt g e :
  consume now id gen ep amt (set_g_epoch e g) =
    ((consume now id gen ep amt g).1, set_g_epoch e (consume now id gen ep amt g).2).
Proof.
  unfold consume, st_bind at 1, st_get. cbn. unfold st_bind at 1.
  destruct (g_budgets g !! id) as [b|]; [|done].
  case_decide; [done|]. destruct (negb _); [done|]. destruct (negative _); [done|].
  case_decide; [done|]. unfold st_bind, st_lift. destruct (b_consumed b +$ amt); [|done].
  by case_decide.
Qed.

(** C14. Worker boots are isolated: giving worker [w] a new boot fences that worker's
    evidence, and its prices that name a boot, of any other boot: they are refused as
    stale without a mutation.  It leaves what every other worker's attempts and
    prices do unchanged, and what prices without a boot do, which are not fenced. *)
Theorem worker_boot_isolation g w b :
  let g' := (set_worker_boot w b g).2 in
  (∀ ev, e_worker ev ≠ w →
     record_attempt ev g' = ((record_attempt ev g).1, (set_worker_boot w b (record_attempt ev g).2).2)) ∧
  (∀ o, o_worker o ≠ w ∨ valid (o_boot o) = false →
     publish_price o g' = ((publish_price o g).1, (set_worker_boot w b (publish_price o g).2).2)) ∧
  (∀ ev, e_worker ev = w → e_boot ev ≠ b → record_attempt ev g' = (Ret Status.STALE_AUTHORITY, g')) ∧
  (∀ o, o_worker o = w → valid (o_boot o) = true → o_boot o ≠ b →
     publish_price o g' = (Ret Status.STALE_AUTHORITY, g')).
Proof.
  intros g'. split_and!.
  - intros ev. apply record_boot_commutes.
  - intros o. apply publish_boot_commutes.
  - intros ev <- Hb. unfold record_attempt, st_bind, st_get. unfold g'. rewrite boot_same.
    case_decide; [done|]. by rewrite decide_True.
  - intros o <- Hv Hb. unfold publish_price, st_bind, st_get. unfold g'. rewrite boot_same, Hv.
    case_decide; [done|]. by rewrite bool_decide_eq_true_2.
Qed.

Definition boot_state : Impl := (set_worker_boot (mkId 1) (mkId 5) initial).2.

Lemma worker_boot_isolation_witness :
  let ev := sample_attempt 1 100 0 true true in
  (record_attempt ev (set_worker_boot (mkId 2) (mkId 6) boot_state).2).1 = Ret Status.OK ∧
  record_attempt ev (set_worker_boot (mkId 1) (mkId 6) boot_state).2
    = (Ret Status.STALE_AUTHORITY, (set_worker_boot (mkId 1) (mkId 6) boot_state).2).
Proof.
  intros ev. split.
  - destruct (worker_boot_isolation boot_state (mkId 2) (mkId 6)) as (H1 & _).
    rewrite (H1 ev); [by vm_compute|done].
  - destruct (worker_boot_isolation boot_state (mkId 1) (mkId 6)) as (_ & _ & H1 & _).
    apply H1; [done|done].
Defined.

(** No attempt is charged twice: once [record_attempt] accepted evidence, any
    evidence for the same request, attempt and attempt generation is refused
    until that attempt is recorded under another generation, and refusing it
    leaves the governor, hence the request's realized cost, unchanged. *)
Theorem duplicate_attempt_refused ev ev' g g' :
  record_attempt ev g = (Ret Status.OK, g') →
  e_request ev' = e_request ev → e_attempt ev' = e_attempt ev →
  e_attempt_gen ev' = e_attempt_gen ev →
  ∃ st, record_attempt ev' g' = (Ret st, g') ∧ st ≠ Status.OK.
Proof.
  intros H Hr Ha Hg. apply record_attempt_cases in H as [[_ ?]|(_ & _ & _ & _ & _ & ->)]; [done|].
  set (g1 := set_g_attempts _ g).
  destruct (record_attempt ev' g1) as [x g2] eqn:H2. pose proof H2 as H3.
  apply record_attempt_cases in H2 as [[-> Hn]|(_ & _ & _ & _ & Hold & _)].
  - destruct x as [st|e].
    + exists st. split; [done|congruence].
    + unfold record_attempt in H3. by call_cases H3.
  - exfalso. eapply (Hold ev); [cbn; rewrite Hr; apply lookup_insert_eq| |by rewrite Hg].
    rewrite Ha. apply lookup_insert_eq.
Qed.

Definition recorded_state : Impl := (record_attempt (sample_attempt 1 100 0 true true) boot_state).2.

Lemma duplicate_attempt_refused_witness :
  ∃ st, record_attempt (sample_attempt 1 999 0 true true) recorded_state = (Ret st, recorded_state) ∧
        st ≠ Status.OK.
Proof.
  apply (duplicate_attempt_refused (sample_attempt 1 100 0 true true) _ boot_state);
    [by vm_compute|done|done|done].
Defined.

(** The attempt of [sample_attempt] under another attempt generation. *)
Definition attempt_of_generation (gen accel_ns : Z) : CostEvidence :=
  let ev := sample_attempt 1 accel_ns 0 true true in {|
  e_id := e_id ev; e_request := e_request ev; e_workload := e_workload ev;
  e_attempt := e_attempt ev; e_attempt_gen := mkId gen; e_worker := e_worker ev;
  e_boot := e_boot ev; e_epoch := e_epoch ev; e_generation := e_generation ev;
  e_observed_at_ms := e_observed_at_ms ev; e_label := e_label ev;
  e_completed_successfully := true; e_is_completion := true; e_device := no_id;
  e_resource := no_id; e_accelerator_time := e_accelerator_time ev; e_energy := e_energy ev;
  e_transfer := e_transfer ev; e_memory_hold := e_memory_hold ev;
  e_residency_hold := e_residency_hold ev; e_storage_bytes := e_storage_bytes ev;
  e_requests := 1; e_tokens := 0; e_operations := 0; e_recovery_actions := 0;
  e_recompute_ns := 0 |}.

(** Attempt generations are not ordered: evidence of an older generation of an
    attempt is accepted after a newer one and replaces it. *)
Theorem older_generation_overwrites :
  ∃ g1 g2, record_attempt (attempt_of_generation 2 100) boot_state = (Ret Status.OK, g1) ∧
    record_attempt (attempt_of_generation 1 999) g1 = (Ret Status.OK, g2) ∧
    attempts_of g2 (mkId 1) = [attempt_of_generation 1 999].
Proof. eexists _, _. split; [by vm_compute|]. split; by vm_compute. Qed.

(** Requests are finalized at most once: in every reachable state no two
    history entries are for the same request, and every entry that
    [finalize_request] adds carries the realized cost of the request's recorded
    attempts at that moment. *)
Theorem history_unique s now req wl x g' :
  reachable s → finalize_request now req wl (sys_g s) = (x, g') →
  NoDup (h_request <$> g_history g') ∧
  (g' = sys_g s ∨ ∃ h, g_history g' = g_history (sys_g s) ++ [h] ∧ h_request h = req ∧
     realized_request_cost now (sys_g s) req = Ret (h_realized_cost h)).
Proof.
  intros Hr H. destruct (reachable_books s Hr) as [Hnd _].
  apply finalize_cases in H as [->|(h & _ & Hh & Hf & Hc & ->)]; [by auto|].
  split; [|right; by exists h]. cbn. rewrite fmap_app. apply NoDup_app.
  split_and!; [done| |apply NoDup_singleton].
  intros r Hin. apply list_elem_of_fmap in Hin as (e & -> & He). rewrite Forall_forall in Hf.
  intros Heq%list_elem_of_singleton. apply (Hf e He). congruence.
Qed.

(** A request with two attempts under the sample prices. *)
Definition request_run : list Op :=
  [ op_set_policy sample_policy; op_set_price_schedule sample_schedule;
    op_set_worker_boot (mkId 1) (mkId 5);
    op_record_attempt (sample_attempt 1 2500000000 0 true false);
    op_record_attempt (sample_attempt 2 1000000001 3600000000000 true true) ].
Definition request_state : Sys := default initial_sys (run request_run initial_sys).

Lemma request_reachable : reachable request_state.
Proof. apply (run_steps request_run). by vm_compute. Qed.

Lemma history_unique_witness :
  ∃ g', finalize_request (λ _, 1000) (mkId 1) (mkId 1) (sys_g request_state) = (Ret Status.OK, g') ∧
    NoDup (h_request <$> g_history g') ∧ (h_realized_cost <$> g_history g') = [10500201].
Proof.
  destruct (finalize_request (λ _, 1000) (mkId 1) (mkId 1) (sys_g request_state)) as [x g'] eqn:H.
  destruct (history_unique request_state _ _ _ x g' request_reachable H) as [Hnd _].
  exists g'. vm_compute in H. injection H as <- Hg. rewrite <-Hg.
  split; [done|]. split; [by rewrite Hg|done].
Defined.

(** C32. The intervention state machine: every state-changing call of the governor but
    [load] (which replaces all interventions by those of the file) keeps every
    intervention, its identity and its generation, and moves it along at most one of
    the edges PROPOSED to AUTHORIZED, AUTHORIZED or DISPATCHED to ACKNOWLEDGED, and
    ACKNOWLEDGED or DISPATCHED to EFFECTIVE; new interventions are PROPOSED.  In a
    state reached from an empty governor by such calls every intervention is PROPOSED,
    AUTHORIZED, ACKNOWLEDGED or EFFECTIVE, so that the edges from DISPATCHED are
    never taken. *)
Theorem intervention_lifecycle op s x s' :
  exec op s = (x, s') →
  interventions_move (g_interventions (sys_g s)) (g_interventions (sys_g s')) ∧
  (reachable s → ∀ id i, g_interventions (sys_g s) !! id = Some i →
     i_lifecycle i ∈ [InterventionLifecycle.PROPOSED; InterventionLifecycle.AUTHORIZED;
                      InterventionLifecycle.ACKNOWLEDGED; InterventionLifecycle.EFFECTIVE]).
Proof.
  intros H. split; [by apply exec_books in H as [? _]|].
  intros Hr id i Hi. by apply (proj2 (reachable_books s Hr) id i).
Qed.

Definition sample_intervention : CostIntervention :=
  mkCostIntervention no_id no_id InterventionKind.REPLAN InterventionLifecycle.PROPOSED
    no_authority 0 0 0 0 EmptyString.
Definition authorized_state : Sys :=
  default initial_sys (run [op_propose (λ _, 7) sample_intervention; op_authorize (mkId 1) (mkId 1)]
    initial_sys).

Lemma intervention_lifecycle_witness :
  interventions_move (g_interventions (sys_g authorized_state))
    (g_interventions (sys_g (exec (op_acknowledge (λ _, 9) (mkId 1) (mkId 1)) authorized_state).2)).
Proof.
  eapply (intervention_lifecycle (op_acknowledge (λ _, 9) (mkId 1) (mkId 1)) authorized_state).
  apply surjective_pairing.
Defined.

(** Post-action verification does not look at the evidence: any two nonempty
    lists of post-action evidence give the same outcome and the same state, and
    on an acknowledged intervention that outcome is EFFECTIVE. *)
Theorem verification_ignores_evidence now id gen ev l ev' l' g :
  verify_intervention now id gen (ev :: l) g = verify_intervention now id gen (ev' :: l') g ∧
  (∀ i, g_interventions g !! id = Some i → i_generation i = gen →
     i_lifecycle i = InterventionLifecycle.ACKNOWLEDGED →
     (verify_intervention now id gen (ev :: l) g).1 = Ret VerificationOutcome.EFFECTIVE).
Proof.
  split; unfold verify_intervention, st_bind, st_get.
  - destruct (g_interventions g !! id); [|done]. by case_decide.
  - intros i -> <- Hl. rewrite decide_False by tauto.
    rewrite decide_False by done. by rewrite decide_False by tauto.
Qed.
