(* ===== verification/EvaluateFacts.v ===== *)
(** * EvaluateFacts: correctness of plan evaluation and dispatch validation

    The ranking is a lexicographic order on [rank_key]; [evaluate] authorizes a
    feasible plan that is minimal in it, and [validate_for_dispatch] accepts it
    exactly under the authority and the economics it was decided under. *)

From stdpp Require Import prelude gmap strings.
From S2P Require Import Prelude Effects Money Identity Units Price Policy Budget Cost.
From S2P Require Import Plan Decision Samples CostFacts Governor Evaluate Ledger System Accounts.
From stdpp Require Import options.

(** ** The price check and the price search agree *)

Lemma foldl_ext {A B} (f h : B → A → B) l b :
  (∀ b a, f b a = h b a) → foldl f b l = foldl h b l.
Proof. intros Hfh. revert b. induction l as [|a l IH]; intros b; simpl; [done|]. by rewrite Hfh. Qed.

Lemma check_price_search s want cur now pol dev rs :
  check_price s want cur now pol dev rs =
    match find_price s want cur now dev rs (Some pol) with
    | None => mkPriceCheck false false None
    | Some b => mkPriceCheck true
        (older_than (pol_price_schedule_max_age_ms pol) now (s_created_at_ms s)
         || older_than (pol_max_evidence_age_ms pol) now (o_observed_at_ms b)) (Some b)
    end.
Proof.
  unfold check_price, find_price. erewrite foldl_ext; [done|]. intros best o. simpl.
  unfold obs_applies, in_interval.
  destruct (decide (o_kind o ≠ want)); [done|]. destruct (valid_currency o cur); [|done].
  destruct (decide (now < o_valid_from_ms o)); [done|].
  destruct (decide (o_valid_to_ms o ≠ 0 ∧ now >= o_valid_to_ms o)); [done|].
  destruct (negative (o_amount o)), (accepts_label pol (o_label o)); try done.
  cbn. destruct (valid dev && _ && _); [done|]. by destruct (valid rs && _ && _).
Qed.

(** ** Ranking *)

Definition rank_key (c : Candidate) : list Z :=
  let e := c_econ c in
  [ cb_total (pe_projected e); pe_projected_per_request e; pe_projected_per_token e;
    known_value (pe_projected e) CostComponent.ENERGY;
    known_value (pe_projected e) CostComponent.TRANSFER;
    known_value (pe_projected e) CostComponent.ACCELERATOR_TIME;
    - p_completion_probability_percent (c_plan c); value (p_id (c_plan c)) ].

Lemma lex_step x y r :
  (if decide (x ≠ y) then bool_decide (x < y) else r)
  = (if decide (x = y) then r else bool_decide (x < y)).
Proof. destruct (decide (x = y)) as [->|]; [by rewrite decide_False by tauto|by rewrite decide_True]. Qed.

Lemma better_lex a b : better a b = lex_ltb (rank_key a) (rank_key b).
Proof.
  unfold better, rank_key. rewrite !lex_step. cbn [lex_ltb].
  do 6 (f_equal; destruct (decide _) as [_|]; [|done]).
  destruct (decide (p_completion_probability_percent (c_plan a) ≠ _)) as [Hp|Hp].
  - rewrite decide_False by lia. apply bool_decide_ext. lia.
  - rewrite decide_True by lia. destruct (decide (value _ = value _)) as [Heq|]; [|done].
    rewrite Heq. apply bool_decide_eq_false. lia.
Qed.

#[global] Instance better_swo : StrictWeakOrder better.
Proof.
  destruct (lex_swo rank_key) as [H1 H2 H3]. split; intros *; rewrite !better_lex; eauto.
Qed.

(** ** Budgets *)

(** Limit and consumed amount of every budget are non-negative int64 values: the
    condition of the theorems below on the governor's budgets.  Every state of System.v
    has it ([reachable_in_range]). *)
Definition in_range (b : Budget) : Prop := 0 ≤ b_limit b ≤ I64_MAX ∧ 0 ≤ b_consumed b ≤ I64_MAX.
Definition budgets_in_range (g : Impl) : Prop := map_Forall (λ _ b, in_range b) (g_budgets g).

#[global] Instance in_range_dec b : Decision (in_range b).
Proof. unfold in_range. apply _. Defined.
#[global] Instance budgets_in_range_dec g : Decision (budgets_in_range g).
Proof. unfold budgets_in_range. apply _. Defined.

Lemma remaining_in_range b : in_range b → remaining b = Ret (b_limit b - b_consumed b).
Proof.
  intros [??]. unfold remaining. rewrite checked_sub_eq by (widths; lia).
  by rewrite decide_True by (widths; lia).
Qed.

(** [total] fits every hard budget. *)
Definition within_hard (total : Z) (bs : list Budget) : Prop :=
  Forall (λ b, b_mode b = BudgetMode.HARD → total ≤ b_limit b - b_consumed b) bs.

Lemma check_budgets_eq total bs :
  Forall in_range bs →
  ∃ o, check_budgets total bs = Ret o ∧ (o = None ↔ within_hard total bs) ∧
    (∀ r, o = Some r → r ≠ FeasibilityReason.NONE).
Proof.
  induction 1 as [|b bs Hb Hbs IH]; simpl.
  { exists None. split_and!; [done| |done]. split; [intros; constructor|done]. }
  destruct IH as (o & Ho & IH & Hr). case_decide as Hm.
  - rewrite remaining_in_range by done. simpl. case_decide as Ht.
    + eexists. split_and!; [done| |].
      * split; [done|]. intros Hw%Forall_cons. destruct Hw as [Hw _]. specialize (Hw Hm). lia.
      * intros r [= <-]. unfold over_budget_reason. by repeat case_decide.
    + exists o. split_and!; [done| |done]. rewrite IH. unfold within_hard. rewrite Forall_cons.
      split; [|tauto]. intros. split; [intros; lia|done].
  - exists o. split_and!; [done| |done]. rewrite IH. unfold within_hard. rewrite Forall_cons. tauto.
Qed.

Section order.
Context `{IterOrder}.

Lemma budgets_of_in_range g : budgets_in_range g → Forall in_range (budgets_of g).
Proof using Type.
  intros Hg. unfold budgets_of, umap_values. apply Forall_fmap, Forall_forall.
  intros [k b] Hin. rewrite umap_list_perm in Hin. apply elem_of_map_to_list in Hin.
  by apply (map_Forall_lookup_1 _ _ _ _ Hg Hin).
Qed.

Lemma within_hard_lookup total g :
  within_hard total (budgets_of g) ↔
  ∀ id b, g_budgets g !! id = Some b → b_mode b = BudgetMode.HARD →
    total ≤ b_limit b - b_consumed b.
Proof using Type.
  unfold within_hard, budgets_of, umap_values. rewrite Forall_fmap, Forall_forall. split.
  - intros Hw id b Hb. apply (Hw (id, b)). rewrite umap_list_perm. by apply elem_of_map_to_list.
  - intros Hw [id b] Hin. rewrite umap_list_perm in Hin. apply elem_of_map_to_list in Hin.
    exact (Hw id b Hin).
Qed.
End order.

(** ** Feasibility of one plan *)

(** Component [c] of the plan has an applicable, accepted price that is fresh. *)
Definition fresh_price (g : Impl) (now : Z) (plan : ExecutionPlan) (c : CostComponent) : Prop :=
  ∃ p, find_price (g_schedule g) (kind_for_check c) (pol_currency (g_policy g)) now
         (p_device plan) (p_resource plan) (Some (g_policy g)) = Some p ∧
       older_than (pol_price_schedule_max_age_ms (g_policy g)) now
         (s_created_at_ms (g_schedule g)) = false ∧
       older_than (pol_max_evidence_age_ms (g_policy g)) now (o_observed_at_ms p) = false.

Lemma check_components_spec g now plan cs :
  match check_components g now plan cs with
  | None => ∀ c, c ∈ cs → amount_present plan c = true → fresh_price g now plan c
  | Some (f, r) => f ≠ Feasibility.FEASIBLE ∧ r ≠ FeasibilityReason.NONE ∧
      ∃ c, c ∈ cs ∧ amount_present plan c = true ∧ ¬ fresh_price g now plan c
  end.
Proof.
  induction cs as [|c cs IH]; cbn [check_components]; [set_solver|].
  destruct (amount_present plan c) eqn:Hp; cbn [negb].
  - rewrite check_price_search.
    destruct (find_price _ _ _ _ _ _ _) as [p|] eqn:Hf; cbn.
    + destruct (older_than (pol_price_schedule_max_age_ms _) _ _) eqn:Ho1; cbn.
      { split_and!; [done|done|]. exists c. split_and!; [set_solver|done|].
        intros (q & Hq & Hs & _). congruence. }
      destruct (older_than (pol_max_evidence_age_ms _) _ _) eqn:Ho2; cbn.
      { split_and!; [done|done|]. exists c. split_and!; [set_solver|done|].
        intros (q & Hq & _ & Hs). rewrite Hf in Hq. congruence. }
      destruct (check_components g now plan cs) as [[f r]|].
      * destruct IH as (? & ? & c' & ? & ? & ?). split_and!; [done|done|].
        exists c'. split_and!; [set_solver|done|done].
      * intros c' [->|Hc]%elem_of_cons; [|auto]. intros _. exists p. auto.
    + split_and!; [done|done|]. exists c. split_and!; [set_solver|done|].
      intros (q & Hq & _). congruence.
  - destruct (check_components g now plan cs) as [[f r]|].
    + destruct IH as (? & ? & c' & ? & ? & ?). split_and!; [done|done|].
      exists c'. split_and!; [set_solver|done|done].
    + intros c' [->|Hc]%elem_of_cons; [congruence|auto].
Qed.

Lemma project_unknown s cur now attempts bd :
  project s cur now attempts = Ret bd →
  cb_any_unknown bd = existsb (λ ev, bool_decide (e_label ev = DataLabel.UNSUPPORTED)) attempts.
Proof.
  unfold project. intros H. apply res_bind_Ret in H as (c1 & _ & H).
  apply res_bind_Ret in H as (c2 & _ & H). by apply res_bind_Ret in H as (t & _ & [= <-]).
Qed.

(** The conditions under which a plan is feasible at cost [bd]. *)
Record plan_feasible (g : Impl) (now : Z) (plan : ExecutionPlan) (bd : CostBreakdown) : Prop := {
  pf_label : p_label plan ≠ DataLabel.UNSUPPORTED;
  pf_slo : p_meets_hard_slo plan = true;
  pf_valid : g_revalidation_needed g = false;
  pf_fresh : ∀ c, c ∈ checked_components → amount_present plan c = true → fresh_price g now plan c;
  pf_cost : project (g_schedule g) (pol_currency (g_policy g)) now [plan_to_evidence plan] = Ret bd;
  pf_budgets : ∀ id b, g_budgets g !! id = Some b → b_mode b = BudgetMode.HARD →
                 cb_total bd ≤ b_limit b - b_consumed b;
}.

Lemma per_unit_ret total n : ∃ v,
  (if decide (n > 0) then checked_div total n kCeil else Ret 0) = Ret v.
Proof.
  case_decide; [|by eexists]. eexists. apply checked_div_ceil_pos. lia.
Qed.

Lemma existsb_one {A} (P : A → bool) a : existsb P [a] = P a.
Proof. simpl. by rewrite orb_false_r. Qed.

Section feasible.
Context `{IterOrder}.

Lemma evaluate_plan_feasible g now plan e :
  budgets_in_range g → evaluate_plan_locked g now plan = Ret e →
  pe_feasible e = Feasibility.FEASIBLE → plan_feasible g now plan (pe_projected e).
Proof using Type.
  intros Hg He Hf. unfold evaluate_plan_locked in He.
  case_decide as Hl; [by simplify_eq|].
  destruct (p_meets_hard_slo plan) eqn:Hslo; cbn [negb] in He; [|by simplify_eq].
  destruct (g_revalidation_needed g) eqn:Hrev; [by simplify_eq|].
  pose proof (check_components_spec g now plan checked_components) as Hc.
  destruct (check_components _ _ _ _) as [[f r]|].
  { destruct Hc as (Hne & _). injection He as <-. by destruct (Hne Hf). }
  destruct (project _ _ _ _) as [bd|x] eqn:Hp; [|by case_decide; simplify_eq].
  destruct (cb_any_unknown bd); [by simplify_eq|].
  apply res_bind_Ret in He as (v1 & _ & He). apply res_bind_Ret in He as (v2 & _ & He).
  apply res_bind_Ret in He as (o & Ho & He).
  destruct (check_budgets_eq (cb_total bd) (budgets_of g)) as (o' & Ho' & Hw & _);
    [by apply budgets_of_in_range|].
  rewrite Ho in Ho'. injection Ho' as <-. destruct o as [r|]; simplify_eq.
  split; try done. by apply within_hard_lookup, Hw.
Qed.

Lemma feasible_evaluates g now plan bd :
  budgets_in_range g → plan_feasible g now plan bd →
  ∃ e, evaluate_plan_locked g now plan = Ret e ∧ pe_feasible e = Feasibility.FEASIBLE ∧
       pe_projected e = bd ∧ pe_reason e = FeasibilityReason.NONE.
Proof using Type.
  intros Hg [Hl Hslo Hrev Hfr Hp Hb]. unfold evaluate_plan_locked.
  rewrite decide_False by done. rewrite Hslo, Hrev. cbn [negb].
  pose proof (check_components_spec g now plan checked_components) as Hc.
  destruct (check_components _ _ _ _) as [[f r]|].
  { destruct Hc as (_ & _ & c & Hc & Ha & Hn). by destruct (Hn (Hfr c Hc Ha)). }
  rewrite Hp, (project_unknown _ _ _ _ _ Hp), existsb_one.
  rewrite bool_decide_eq_false_2 by done.
  destruct (per_unit_ret (cb_total bd) (p_expected_requests plan)) as [v1 ->]. cbn [res_bind].
  destruct (per_unit_ret (cb_total bd) (p_expected_tokens plan)) as [v2 ->]. cbn [res_bind].
  destruct (check_budgets_eq (cb_total bd) (budgets_of g)) as (o & -> & Hw & _);
    [by apply budgets_of_in_range|]. cbn [res_bind].
  assert (o = None) as -> by (by apply Hw, within_hard_lookup).
  by eexists.
Qed.
End feasible.

(** ** The candidates of a decision *)

Section decision.
Context `{IterOrder}.

Lemma evaluate_candidates_spec g now i plans cs :
  evaluate_candidates g now i plans = Ret cs →
  c_plan <$> cs = plans ∧
  ∀ j c, cs !! j = Some c → evaluate_plan_locked g (now (i + j)%nat) (c_plan c) = Ret (c_econ c).
Proof using Type.
  revert i cs. induction plans as [|p plans IH]; simpl; intros i cs Hc.
  { injection Hc as <-. by split. }
  apply res_bind_Ret in Hc as (e & He & Hc). apply res_bind_Ret in Hc as (cs' & Hcs & [= <-]).
  destruct (IH _ _ Hcs) as [Hp Hj]. split; [by simpl; f_equal|].
  intros [|j] c Hc; simpl in Hc.
  - injection Hc as <-. by rewrite Nat.add_0_r.
  - apply Hj in Hc. by replace (i + S j)%nat with (S i + j)%nat by lia.
Qed.

Lemma candidate_plan g now plans cs j c :
  evaluate_candidates g now 0 plans = Ret cs → cs !! j = Some c →
  plans !! j = Some (c_plan c) ∧ evaluate_plan_locked g (now j) (c_plan c) = Ret (c_econ c).
Proof using Type.
  intros Hcs Hj. destruct (evaluate_candidates_spec _ _ _ _ _ Hcs) as [Hp He].
  split; [|by apply He in Hj]. rewrite <-Hp, list_lookup_fmap, Hj. done.
Qed.

Lemma plan_candidate g now plans cs j p :
  evaluate_candidates g now 0 plans = Ret cs → plans !! j = Some p →
  ∃ e, cs !! j = Some (mkCandidate p e) ∧ evaluate_plan_locked g (now j) p = Ret e.
Proof using Type.
  intros Hcs Hj. destruct (evaluate_candidates_spec _ _ _ _ _ Hcs) as [Hp He].
  rewrite <-Hp, list_lookup_fmap in Hj. destruct (cs !! j) as [[p' e]|] eqn:Hc; simplify_eq/=.
  exists e. split; [done|]. by apply He in Hc.
Qed.

Lemma feasible_front cs best rest :
  stable_sort better (filter (λ c, is_feasible c = true) cs) = best :: rest →
  ∃ k, cs !! k = Some best ∧ is_feasible best = true ∧
    ∀ j c, cs !! j = Some c → is_feasible c = true →
      better c best = false ∧ ((j < k)%nat → better best c = true).
Proof using Type.
  intros Hs. destruct (stable_sort_front better _ _ _ Hs) as (l1 & l2 & Hl & H1 & H2).
  assert (∀ l1 l2 l, filter (λ c, is_feasible c = true) l = l1 ++ best :: l2 →
    ∃ k1 k2, l = k1 ++ best :: k2 ∧ filter (λ c, is_feasible c = true) k1 = l1 ∧
             filter (λ c, is_feasible c = true) k2 = l2) as Hsplit.
  { clear. intros l1 l2 l. revert l1. induction l as [|c l IH]; intros l1 Hl.
    { by destruct l1. }
    rewrite filter_cons in Hl. case_decide as Hc.
    - destruct l1 as [|x l1]; simpl in Hl; injection Hl as -> Hl.
      + by exists [], l.
      + destruct (IH l1 Hl) as (k1 & k2 & -> & <- & <-). exists (x :: k1), k2.
        split_and!; [done| |done]. by rewrite filter_cons_True.
    - destruct (IH l1 Hl) as (k1 & k2 & -> & <- & <-). exists (c :: k1), k2.
      split_and!; [done| |done]. by rewrite filter_cons_False. }
  destruct (Hsplit _ _ _ Hl) as (k1 & k2 & -> & <- & <-).
  assert (is_feasible best = true) as Hb.
  { assert (best ∈ filter (λ c, is_feasible c = true) (k1 ++ best :: k2)) as Hin
      by (rewrite Hl; set_solver). by apply list_elem_of_filter in Hin as [? _]. }
  exists (length k1). split_and!; [by apply list_lookup_middle|done|].
  intros j c Hj Hc. destruct (decide (j < length k1)%nat) as [Hlt|Hge].
  - rewrite lookup_app_l in Hj by done.
    assert (better best c = true) as Hbc
      by (apply H1, list_elem_of_filter; split; [done|by eapply list_elem_of_lookup_2]).
    split; [|done]. destruct (better c best) eqn:Hcb; [|done].
    pose proof (swo_trans better _ _ _ Hcb Hbc) as Ht. by rewrite (swo_irrefl better) in Ht.
  - rewrite lookup_app_r in Hj by lia. split; [|lia].
    destruct (j - length k1)%nat as [|m]; simpl in Hj; simplify_eq; [apply (swo_irrefl better)|].
    apply H2, list_elem_of_filter. split; [done|by eapply list_elem_of_lookup_2].
Qed.

(** The facts a decision that authorizes carries. *)
Lemma evaluate_authorize now g wg plans d :
  evaluate now g wg plans = Ret d → d_kind d = DecisionKind.AUTHORIZE →
  g_revalidation_needed g = false ∧
  ∃ cs k best, evaluate_candidates g now 0 plans = Ret cs ∧ cs !! k = Some best ∧
    is_feasible best = true ∧
    (∀ j c, cs !! j = Some c → is_feasible c = true →
      better c best = false ∧ ((j < k)%nat → better best c = true)) ∧
    d_selected_plan d = p_id (c_plan best) ∧ d_plan_generation d = p_generation (c_plan best) ∧
    d_projected d = pe_projected (c_econ best) ∧ d_status d = Status.OK ∧
    d_authority d = authority_snapshot_from g (c_plan best) wg ∧
    d_rejected_plans d = p_id <$> filter (λ p, p_id p ≠ p_id (c_plan best)) plans ∧
    build_explanation g (c_plan best) (c_econ best) wg plans = Ret (d_explanation d).
Proof using Type.
  intros He Hk. unfold evaluate in He.
  destruct (g_revalidation_needed g); [by simplify_eq|]. split; [done|].
  case_decide; [by simplify_eq|].
  apply res_bind_Ret in He as (cs & Hcs & He).
  destruct (stable_sort _ _) as [|best rest] eqn:Hs; [by simplify_eq|].
  apply feasible_front in Hs as (k & Hk' & Hf & Hmin).
  apply res_bind_Ret in He as (rem & _ & He). apply res_bind_Ret in He as (st & _ & He).
  apply res_bind_Ret in He as (ex & Hex & [= <-]).
  exists cs, k, best. destruct (evaluate_candidates_spec _ _ _ _ _ Hcs) as [Hp _].
  cbn. by rewrite Hp.
Qed.

Lemma evaluate_no_feasible now g wg plans d :
  evaluate now g wg plans = Ret d → g_revalidation_needed g = false →
  d_kind d ≠ DecisionKind.AUTHORIZE →
  d_kind d = DecisionKind.NO_FEASIBLE_PLAN ∧ d_status d = Status.PLAN_INFEASIBLE ∧
  ∃ cs, evaluate_candidates g now 0 plans = Ret cs ∧
    ∀ j c, cs !! j = Some c → is_feasible c = false.
Proof using Type.
  intros He Hrev Hk. unfold evaluate in He. rewrite Hrev in He.
  case_decide as Hl.
  { injection He as <-. split_and!; [done|done|]. apply nil_length_inv in Hl as ->.
    exists []. by split. }
  apply res_bind_Ret in He as (cs & Hcs & He).
  destruct (stable_sort _ _) as [|best rest] eqn:Hs.
  - injection He as <-. split_and!; [done|done|]. exists cs. split; [done|].
    apply stable_sort_nil in Hs. intros j c Hj. destruct (is_feasible c) eqn:Hf; [|done].
    assert (c ∈ filter (λ c, is_feasible c = true) cs) as Hin
      by (apply list_elem_of_filter; split; [done|by eapply list_elem_of_lookup_2]).
    rewrite Hs in Hin. set_solver.
  - apply res_bind_Ret in He as (rem & _ & He). apply res_bind_Ret in He as (st & _ & He).
    apply res_bind_Ret in He as (ex & Hex & [= <-]). done.
Qed.
End decision.

(** ** Independence from the enumeration of the budgets *)

(** Everything but the reason. *)
Definition econ_equiv (e1 e2 : PlanEconomics) : Prop :=
  pe_feasible e1 = pe_feasible e2 ∧ pe_projected e1 = pe_projected e2 ∧
  pe_projected_per_request e1 = pe_projected_per_request e2 ∧
  pe_projected_per_token e1 = pe_projected_per_token e2 ∧
  (pe_feasible e1 = Feasibility.FEASIBLE → e1 = e2).

Lemma econ_equiv_refl e : econ_equiv e e.
Proof. by split_and!. Qed.

Definition candidate_equiv (c1 c2 : Candidate) : Prop :=
  c_plan c1 = c_plan c2 ∧ econ_equiv (c_econ c1) (c_econ c2).

(** The thresholds of a budget that [state_from_breakdown] visits. *)
Definition thresholds_fit (pol : CostPolicy) (b : Budget) : Prop :=
  b_mode b = BudgetMode.HARD → b_limit b ≠ 0 →
  is_Ret (threshold (b_limit b) (pol_near_budget_percent pol)) ∧
  is_Ret (threshold (b_limit b) (pol_at_risk_percent pol)).

Lemma state_loop_ret pol total st bs :
  Forall in_range bs → within_hard total bs →
  is_Ret (state_loop pol total st bs) ↔ Forall (thresholds_fit pol) bs.
Proof.
  intros Hr. revert st. induction Hr as [|b bs Hb Hr IH]; intros st Hw; cbn [state_loop].
  { split; [intros; constructor|by eexists]. }
  apply Forall_cons in Hw as [Hwb Hw]. rewrite Forall_cons. unfold thresholds_fit at 1.
  case_decide as Hskip.
  - rewrite IH by done. split; [|tauto]. intros ?. split; [|done]. intros Hm Hl. exfalso.
    destruct Hskip as [?|Hz]; [done|]. unfold is_zero in Hz. by apply bool_decide_eq_true in Hz.
  - assert (b_mode b = BudgetMode.HARD) as Hm by (apply dec_stable; tauto).
    assert (b_limit b ≠ 0) as Hl by (intros Hz; apply Hskip; right; unfold is_zero; by rewrite Hz).
    rewrite remaining_in_range by done. cbn [res_bind].
    rewrite decide_False by (specialize (Hwb Hm); lia).
    destruct (threshold (b_limit b) (pol_near_budget_percent pol)) as [v1|e1]; cbn [res_bind].
    2:{ split; [by intros [? ?]|]. intros [Ht _]. by destruct (Ht Hm Hl) as [[? ?] _]. }
    destruct (threshold (b_limit b) (pol_at_risk_percent pol)) as [v2|e2]; cbn [res_bind].
    2:{ split; [by intros [? ?]|]. intros [Ht _]. by destruct (Ht Hm Hl) as [_ [? ?]]. }
    rewrite IH by done. split; [|tauto]. intros. split; [|done]. intros. split; by eexists.
Qed.

Section independence.
Context (I1 I2 : IterOrder).

Lemma budgets_of_perm g : @budgets_of I1 g ≡ₚ @budgets_of I2 g.
Proof using Type.
  unfold budgets_of, umap_values. apply fmap_Permutation. by rewrite !umap_list_perm.
Qed.

Lemma evaluate_plan_order g now plan e1 :
  budgets_in_range g → @evaluate_plan_locked I1 g now plan = Ret e1 →
  ∃ e2, @evaluate_plan_locked I2 g now plan = Ret e2 ∧ econ_equiv e1 e2.
Proof using Type.
  intros Hg He. unfold evaluate_plan_locked in *.
  case_decide; [eauto using econ_equiv_refl|].
  destruct (negb _); [eauto using econ_equiv_refl|].
  destruct (g_revalidation_needed g); [eauto using econ_equiv_refl|].
  destruct (check_components _ _ _ _) as [[f r]|]; [eauto using econ_equiv_refl|].
  destruct (project _ _ _ _) as [bd|x]; [|eauto using econ_equiv_refl].
  destruct (cb_any_unknown bd); [eauto using econ_equiv_refl|].
  apply res_bind_Ret in He as (v1 & -> & He). apply res_bind_Ret in He as (v2 & -> & He).
  apply res_bind_Ret in He as (o1 & Ho1 & He). cbn [res_bind].
  destruct (check_budgets_eq (cb_total bd) (@budgets_of I1 g)) as (o1' & Ho1' & Hw1 & _);
    [by apply budgets_of_in_range|]. rewrite Ho1 in Ho1'. injection Ho1' as <-.
  destruct (check_budgets_eq (cb_total bd) (@budgets_of I2 g)) as (o2 & -> & Hw2 & _);
    [by apply budgets_of_in_range|]. cbn [res_bind].
  assert (o1 = None ↔ o2 = None) as Ho.
  { rewrite Hw1, Hw2. unfold within_hard. by rewrite (budgets_of_perm g). }
  destruct o1 as [r1|], o2 as [r2|];
    [|discriminate (proj2 Ho eq_refl)|discriminate (proj1 Ho eq_refl)|];
    injection He as <-; (eexists; split; [done|by split_and!]).
Qed.

Lemma evaluate_candidates_order g now i plans cs1 :
  budgets_in_range g → @evaluate_candidates I1 g now i plans = Ret cs1 →
  ∃ cs2, @evaluate_candidates I2 g now i plans = Ret cs2 ∧ Forall2 candidate_equiv cs1 cs2.
Proof using Type.
  intros Hg. revert i cs1. induction plans as [|p plans IH]; simpl; intros i cs1 Hc.
  { injection Hc as <-. eexists. split; [done|constructor]. }
  apply res_bind_Ret in Hc as (e1 & He1 & Hc). apply res_bind_Ret in Hc as (cs1' & Hcs1 & [= <-]).
  destruct (evaluate_plan_order g _ p e1 Hg He1) as (e2 & -> & Heq).
  destruct (IH _ _ Hcs1) as (cs2 & Hcs2 & Hall). cbn [res_bind]. rewrite Hcs2.
  eexists. split; [done|]. constructor; [by split|done].
Qed.

Lemma feasible_same cs1 cs2 :
  Forall2 candidate_equiv cs1 cs2 →
  filter (λ c, is_feasible c = true) cs1 = filter (λ c, is_feasible c = true) cs2.
Proof using Type.
  induction 1 as [|c1 c2 cs1 cs2 [Hp (Hf & _ & _ & _ & Heq)] _ IH]; [done|].
  assert (is_feasible c1 = is_feasible c2) as Hff by (unfold is_feasible; by rewrite Hf).
  destruct (is_feasible c1) eqn:Hd.
  - rewrite !filter_cons_True by done. f_equal; [|done].
    apply bool_decide_eq_true in Hd. specialize (Heq Hd). destruct c1, c2; simpl in *; congruence.
  - by rewrite !filter_cons_False by congruence.
Qed.

Lemma plans_same cs1 cs2 : Forall2 candidate_equiv cs1 cs2 → c_plan <$> cs1 = c_plan <$> cs2.
Proof using Type. induction 1 as [|c1 c2 cs1 cs2 [Hp _] _ IH]; [done|]. by rewrite !fmap_cons, Hp, IH. Qed.
End independence.

Lemma first_hard_in bs b : first_hard bs = Some b → b ∈ bs ∧ b_mode b = BudgetMode.HARD.
Proof.
  unfold first_hard. destruct (list_find _ bs) as [[i b']|] eqn:Hf; [|done].
  intros [= <-]. apply list_find_Some in Hf as (Hi & Hm & _).
  split; [by eapply list_elem_of_lookup_2|done].
Qed.

(** For a total that fits every hard budget, everything after the ranking returns
    exactly when the thresholds fit. *)
Lemma budget_increases_ret `{IterOrder} g total :
  budgets_in_range g → 0 ≤ total ≤ I64_MAX → within_hard total (budgets_of g) →
  ∃ alt, budget_increases g total = Ret alt ∧ alt_applicable alt = false ∧
    alt_name alt = "BUDGET_INCREASES".
Proof.
  intros Hg Ht Hw. unfold budget_increases.
  destruct (first_hard (budgets_of g)) as [b|] eqn:Hf; [|by eexists].
  apply first_hard_in in Hf as [Hin Hm]. apply budgets_of_in_range in Hg.
  unfold within_hard in Hw. rewrite Forall_forall in Hg, Hw.
  specialize (Hg b Hin). specialize (Hw b Hin Hm). rewrite remaining_in_range by done.
  cbn [res_bind]. destruct Hg. rewrite checked_sub_eq by (widths; lia).
  rewrite decide_True by (widths; lia). cbn [res_bind]. eexists. split; [done|].
  split; [|done]. cbn. apply bool_decide_eq_false. lia.
Qed.

Lemma first_hard_ret `{IterOrder} g :
  budgets_in_range g →
  is_Ret (match first_hard (budgets_of g) with Some b => remaining b | None => Ret 0 end).
Proof.
  intros Hg. destruct (first_hard (budgets_of g)) as [b|] eqn:Hf; [|by eexists].
  apply first_hard_in in Hf as [Hin _]. apply budgets_of_in_range in Hg.
  rewrite Forall_forall in Hg. eexists. by apply remaining_in_range, Hg.
Qed.

(** The cost of a feasible plan is a non-negative int64. *)
Definition governor_ok (g : Impl) : Prop := schedule_ok (g_schedule g) ∧ budgets_in_range g.
Definition plan_ok (p : ExecutionPlan) : Prop := evidence_ok (plan_to_evidence p).

#[global] Instance governor_ok_dec g : Decision (governor_ok g).
Proof. unfold governor_ok. apply _. Defined.
#[global] Instance plan_ok_dec p : Decision (plan_ok p).
Proof. unfold plan_ok. apply _. Defined.

Lemma feasible_total_range g now p bd :
  governor_ok g → plan_ok p → plan_feasible g now p bd → 0 ≤ cb_total bd ≤ I64_MAX.
Proof.
  intros [Hs _] Hp [_ _ _ _ Hc _].
  apply project_inv in Hc as (Hch & -> & Hmax & _); [|done|by constructor].
  split; [|done]. apply sumZ_nonneg, Forall_fmap. eapply Forall_impl; [exact Hch|].
  intros ev Hev. simpl. pose proof (attempt_cost_bounds _ _ _ _ Hs Hev). lia.
Qed.

Lemma state_ret_order (I1 I2 : IterOrder) g bd :
  budgets_in_range g → within_hard (cb_total bd) (@budgets_of I1 g) →
  is_Ret (@state_from_breakdown I1 g bd) → is_Ret (@state_from_breakdown I2 g bd).
Proof.
  intros Hg Hw. unfold state_from_breakdown.
  rewrite !state_loop_ret; try (by apply budgets_of_in_range); try done.
  - by rewrite (budgets_of_perm I1 I2 g).
  - unfold within_hard. by rewrite <-(budgets_of_perm I1 I2 g).
Qed.

Lemma evaluate_order (I1 I2 : IterOrder) now g wg plans d1 :
  governor_ok g → Forall plan_ok plans → @evaluate I1 now g wg plans = Ret d1 →
  ∃ d2, @evaluate I2 now g wg plans = Ret d2 ∧
    d_kind d2 = d_kind d1 ∧ d_status d2 = d_status d1 ∧ d_selected_plan d2 = d_selected_plan d1 ∧
    d_plan_generation d2 = d_plan_generation d1 ∧ d_rejected_plans d2 = d_rejected_plans d1 ∧
    d_projected d2 = d_projected d1 ∧ d_authority d2 = d_authority d1.
Proof.
  intros Hg Hpl He. pose proof Hg as [Hs Hb]. unfold evaluate in *.
  destruct (g_revalidation_needed g); [injection He as <-; by eexists|].
  case_decide; [injection He as <-; by eexists|].
  apply res_bind_Ret in He as (cs1 & Hcs1 & He).
  destruct (evaluate_candidates_order I1 I2 g now 0 plans cs1 Hb Hcs1) as (cs2 & -> & Hall).
  cbn [res_bind]. rewrite <-(feasible_same _ _ Hall), <-(plans_same _ _ Hall).
  destruct (stable_sort _ _) as [|best rest] eqn:Hsort; [injection He as <-; by eexists|].
  apply feasible_front in Hsort as (k & Hk & Hf & _).
  destruct (@candidate_plan I1 _ _ _ _ _ _ Hcs1 Hk) as [Hpk Hek].
  apply bool_decide_eq_true in Hf.
  pose proof (@evaluate_plan_feasible I1 _ _ _ _ Hb Hek Hf) as Hfe.
  pose proof (feasible_total_range _ _ _ _ Hg (Forall_lookup_1 _ _ _ _ Hpl Hpk) Hfe) as Hrange.
  destruct Hfe as [_ _ _ _ _ Hbud].
  assert (∀ I : IterOrder, within_hard (cb_total (pe_projected (c_econ best))) (budgets_of g)) as Hw
    by (intros I; by apply within_hard_lookup).
  apply res_bind_Ret in He as (rem & _ & He). apply res_bind_Ret in He as (st & Hst & He).
  apply res_bind_Ret in He as (ex & _ & [= <-]).
  destruct (@first_hard_ret I2 g Hb) as [rem2 ->]. cbn [res_bind].
  destruct (state_ret_order I1 I2 g _ Hb (Hw I1)) as [st2 ->]; [by eexists|]. cbn [res_bind].
  unfold build_explanation.
  destruct (@budget_increases_ret I2 g _ Hb Hrange (Hw I2)) as (alt & -> & _). cbn [res_bind].
  by eexists.
Qed.

(** ** Dispatch *)

Lemma find_selected_nodup plans k p :
  NoDup (p_id <$> plans) → plans !! k = Some p → find_selected (p_id p) plans = Some p.
Proof.
  revert k. induction plans as [|q plans IH]; intros k Hnd Hk; [done|].
  rewrite fmap_cons, NoDup_cons in Hnd. destruct Hnd as [Hq Hnd]. simpl.
  destruct k as [|k]; simpl in Hk; [injection Hk as ->; by rewrite decide_True|].
  rewrite decide_False; [by eapply IH|]. intros Heq. apply Hq. rewrite Heq.
  by apply list_elem_of_fmap_2, list_elem_of_lookup_2 with k.
Qed.

Lemma find_selected_first sel plans p :
  find_selected sel plans = Some p →
  ∃ k, plans !! k = Some p ∧ p_id p = sel ∧
    ∀ k' q, (k' < k)%nat → plans !! k' = Some q → p_id q ≠ sel.
Proof.
  induction plans as [|q plans IH]; cbn; [done|]. case_decide as Hq.
  - intros [= <-]. exists 0%nat. split_and!; [done|done|lia].
  - intros (k & Hk & Hid & Hf)%IH. exists (S k). split_and!; [done|done|].
    intros [|k'] q' Hlt Hl; [cbn in Hl; congruence|]. apply (Hf k'); [lia|done].
Qed.

(** What a dispatch that is accepted rests on. *)
Lemma validate_ok `{IterOrder} now g prior plans :
  budgets_in_range g → validate_for_dispatch now g prior plans = Ret Status.OK →
  d_kind prior = DecisionKind.AUTHORIZE →
  a_epoch (d_authority prior) = g_epoch g ∧
  a_policy_generation (d_authority prior) = pol_generation (g_policy g) ∧
  a_price_generation (d_authority prior) = s_generation (g_schedule g) ∧
  a_boot (d_authority prior) = current_boot_for g (a_worker (d_authority prior)) ∧
  ∃ k plan bd, plans !! k = Some plan ∧ p_id plan = d_selected_plan prior ∧
    (∀ k' p, (k' < k)%nat → plans !! k' = Some p → p_id p ≠ d_selected_plan prior) ∧
    plan_feasible g (now 0%nat) plan bd.
Proof.
  intros Hg Hv Hk. unfold validate_for_dispatch in Hv.
  case_decide as Hkind; [done|]. do 4 (case_decide; [done|]).
  destruct (g_revalidation_needed g); [done|].
  destruct (find_selected _ _) as [plan|] eqn:Hf; [|done].
  destruct (p_meets_hard_slo plan) eqn:Hslo; cbn [negb] in Hv; [|done].
  apply res_bind_Ret in Hv as (e & He & Hv). case_decide as Hfe; [done|].
  apply find_selected_first in Hf as (k & Hin & Hid & Hfirst). split_and!; try done.
  exists k, plan, (pe_projected e). split_and!; [done..|]. by eapply evaluate_plan_feasible.
Qed.

(** The accounts of a reachable governor are in range. *)
Lemma reachable_in_range s : reachable s → budgets_in_range (sys_g s).
Proof.
  intros Hr. pose proof (reachable_ok s Hr) as [Ha Ht Hc]. intros id b Hb.
  destruct (Ha _ _ Hb) as []. pose proof (held_nonneg _ ReservationState.COMMITTED id _ Ht).
  pose proof (charged_nonneg _ id _ Hc). unfold in_range. lia.
Qed.

(** ** Sample governor: the sample policy and prices, a hard and a soft budget *)

Definition sample_governor : Impl :=
  let g := (set_price_schedule sample_schedule (set_policy sample_policy initial).2).2 in
  let g := (create_budget (sample_budget 1 10000000 BudgetMode.HARD) g).2 in
  (create_budget (sample_budget 2 1 BudgetMode.SOFT) g).2.

Definition sample_plans : list ExecutionPlan := [sample_plan 1 2000000000; sample_plan 2 1000000000].
Definition at_1000 : Readings := λ _, 1000.

(** The enumeration in reverse. *)
Definition reverse_order : IterOrder.
Proof.
  refine {| umap_list K V _ _ m := reverse (map_to_list m) |}.
  intros. apply reverse_Permutation.
Defined.

(** Two hard budgets under which one plan is at risk for one budget and merely
    near the other. *)
Definition two_budgets : Impl :=
  let g := (set_price_schedule sample_schedule (set_policy sample_policy initial).2).2 in
  let g := (create_budget (sample_budget 1 3100000 BudgetMode.HARD) g).2 in
  (create_budget (sample_budget 2 3500000 BudgetMode.HARD) g).2.

(** A policy without synthetic prices, a policy price, and a synthetic price of
    the plan's device. *)
Definition no_synthetic_policy : CostPolicy := {|
  pol_id := mkId 1; pol_generation := mkId 1; pol_epoch := mkId 1;
  pol_currency := kDefaultCurrency; pol_ranking := RankingMode.LEXICOGRAPHIC;
  pol_min_evidence_freshness_ms := 0; pol_max_evidence_age_ms := 30000;
  pol_price_schedule_max_age_ms := 30000; pol_max_projection_uncertainty := 100;
  pol_hysteresis_ms := 0; pol_cooldown_ms := 0;
  pol_near_budget_percent := 80; pol_at_risk_percent := 90;
  pol_retry_budget := 0; pol_recovery_budget := 0; pol_recovery_cost_known := false;
  pol_allow_synthetic := false; pol_allow_policy := true; pol_allow_measured := true |}.
Definition synthetic_price : PriceObservation := {|
  o_id := mkId 9; o_kind := PriceKind.ACCELERATOR_TIME; o_resource_scope := no_id;
  o_device := mkId 7; o_amount := 1; o_currency := kDefaultCurrency;
  o_provenance := Provenance.SYNTHETIC; o_label := DataLabel.SYNTHETIC;
  o_valid_from_ms := 0; o_valid_to_ms := 0; o_observed_at_ms := 1000;
  o_generation := no_id; o_epoch := mkId 1; o_worker := mkId 1; o_boot := no_id |}.
Definition synthetic_governor : Impl :=
  (set_price_schedule (mkPriceSchedule (mkId 1) (mkId 1)
     [sample_price 1 PriceKind.ACCELERATOR_TIME 1000000 1000 0; synthetic_price] 1000)
    (set_policy no_synthetic_policy initial).2).2.

(** The same plan under another plan generation. *)
Definition regenerate (f : ExecutionPlan → PlanGeneration) (p : ExecutionPlan) : ExecutionPlan :=
  mkExecutionPlan (p_id p) (f p) (p_workload p) (p_workload_generation p) (p_resource p)
    (p_resource_generation p) (p_device p) (p_device_generation p) (p_placement p)
    (p_placement_generation p) (p_recovery_generation p) (p_worker p)
    (p_expected_accelerator_time p) (p_expected_energy p) (p_expected_transfer p)
    (p_expected_memory_hold p) (p_expected_residency_hold p) (p_expected_storage p)
    (p_expected_retries p) (p_expected_requests p) (p_expected_tokens p) (p_expected_operations p)
    (p_recovery p) (p_recovery_recompute_ns p) (p_meets_hard_slo p)
    (p_completion_probability_percent p) (p_label p).

Lemma find_selected_regenerate f sel plans :
  find_selected sel (regenerate f <$> plans) = regenerate f <$> find_selected sel plans.
Proof. induction plans as [|p plans IH]; simpl; [done|]. by case_decide. Qed.

(** A plan whose only usage is recomputation. *)
Definition recompute_plan : ExecutionPlan :=
  mkExecutionPlan (mkId 1) (mkId 1) (mkId 1) (mkId 1) no_id no_id no_id no_id no_id no_id no_id
    (mkId 1) (mkAmount 0) (mkAmount 0) (mkAmount 0) (mkAmount 0) (mkAmount 0) (mkAmount 0) 0 1 0 0
    RecoveryKind.RECOMPUTE 1000000000 true 100 DataLabel.POLICY.

(** ** Theorems *)

(** C25. The price check of plan evaluation (governor.cpp) and the price search of the
    cost calculator (cost.cpp) are the same search: [check_price] reports a price exactly when
    [find_price], given the policy, finds one, the same one, and calls it stale
    exactly when the schedule or that observation is older than the policy's age
    limits. *)
Theorem check_price_is_find_price s want cur now pol dev rs :
  let pc := check_price s want cur now pol dev rs in
  pc_obs pc = find_price s want cur now dev rs (Some pol) ∧
  pc_present pc = bool_decide (is_Some (find_price s want cur now dev rs (Some pol))) ∧
  pc_stale pc =
    match find_price s want cur now dev rs (Some pol) with
    | None => false
    | Some b => older_than (pol_price_schedule_max_age_ms pol) now (s_created_at_ms s)
                || older_than (pol_max_evidence_age_ms pol) now (o_observed_at_ms b)
    end.
Proof.
  intros pc. unfold pc. rewrite check_price_search. destruct (find_price _ _ _ _ _ _ _); [|done].
  split_and!; [done| |done]. symmetry. apply bool_decide_eq_true. by eexists.
Qed.

(** C12. Plan feasibility: for any order of the budgets, [evaluate_plan] reports
    FEASIBLE at cost [bd] exactly when the plan's label is supported, it meets
    its hard SLO, no revalidation is pending, every amount it expects has an
    accepted fresh price, its exact projected cost is [bd], and that cost fits
    what every hard budget has left.  (The limit and the consumed amount of every
    budget are non-negative int64 values.) *)
Theorem plan_feasible_iff (I : IterOrder) g now plan bd :
  budgets_in_range g →
  (∃ e, evaluate_plan now g plan = Ret e ∧ pe_feasible e = Feasibility.FEASIBLE ∧
        pe_projected e = bd) ↔
  plan_feasible g (now 0%nat) plan bd.
Proof.
  intros Hg. split.
  - intros (e & He & Hf & <-). by eapply evaluate_plan_feasible.
  - intros Hf. destruct (feasible_evaluates g (now 0%nat) plan bd Hg Hf) as (e & He & ? & ? & _).
    by exists e.
Qed.

Lemma plan_feasible_iff_witness :
  ∃ bd, plan_feasible sample_governor 1000 (sample_plan 2 1000000000) bd ∧ cb_total bd = 3000000.
Proof.
  eexists. split.
  - apply (plan_feasible_iff map_order sample_governor at_1000); [by_compute|].
    eexists. split; [by vm_compute|]. split; reflexivity.
  - by vm_compute.
Defined.

(** C2. Deterministic selection: an authorized decision selects a plan of the list
    that is feasible at the time it was evaluated, at its exact projected cost,
    and no feasible plan of the list precedes it in the lexicographic order of
    total, per-request and per-token cost, energy, transfer, accelerator time,
    completion probability and plan identity.  Of equally ranked plans, which share
    their identity, it is the first of the list: the generation, which the README
    names as the last tie-break, is not compared.  (The limit and the consumed amount
    of every budget are non-negative int64 values.) *)
Theorem evaluate_selects_minimum (I : IterOrder) now g wg plans d :
  budgets_in_range g → evaluate now g wg plans = Ret d → d_kind d = DecisionKind.AUTHORIZE →
  ∃ k plan e, plans !! k = Some plan ∧ evaluate_plan_locked g (now k) plan = Ret e ∧
    plan_feasible g (now k) plan (d_projected d) ∧ d_projected d = pe_projected e ∧
    d_selected_plan d = p_id plan ∧ d_plan_generation d = p_generation plan ∧
    (∀ k' plan' e', plans !! k' = Some plan' → evaluate_plan_locked g (now k') plan' = Ret e' →
       pe_feasible e' = Feasibility.FEASIBLE →
       lex_ltb (rank_key (mkCandidate plan' e')) (rank_key (mkCandidate plan e)) = false ∧
       ((k' < k)%nat →
          lex_ltb (rank_key (mkCandidate plan e)) (rank_key (mkCandidate plan' e')) = true)).
Proof.
  intros Hg He Hk.
  destruct (evaluate_authorize now g wg plans d He Hk)
    as (_ & cs & k & [plan e] & Hcs & Hbest & Hf & Hmin & Hsel & Hgen & Hproj & _).
  destruct (candidate_plan _ _ _ _ _ _ Hcs Hbest) as [Hp Hpe]. cbn [c_plan c_econ] in *.
  exists k, plan, e. apply bool_decide_eq_true in Hf. rewrite Hproj.
  split_and!; try done; [by eapply evaluate_plan_feasible|].
  intros k' plan' e' Hk' He' Hf'.
  destruct (plan_candidate _ _ _ _ _ _ Hcs Hk') as (e'' & Hc' & He''). rewrite He' in He''.
  injection He'' as <-. rewrite <-!better_lex. apply (Hmin k'); [done|].
  by apply bool_decide_eq_true.
Qed.

Lemma evaluate_selects_minimum_witness :
  ∃ d, @evaluate map_order at_1000 sample_governor (mkId 1) sample_plans = Ret d ∧
    ∃ k plan, sample_plans !! k = Some plan ∧ d_selected_plan d = p_id plan.
Proof.
  eexists. split; [by vm_compute|].
  edestruct (evaluate_selects_minimum map_order at_1000 sample_governor (mkId 1) sample_plans)
    as (k & plan & e & Hk & _ & _ & _ & Hs & _);
    [by_compute|by vm_compute|by vm_compute|]. exists k, plan. split; [exact Hk|exact Hs].
Defined.

(** C3. Hard budgets dominate: in every state the governor can reach (from an empty
    one, by calls that return, of any method but [load], with budgets created with
    nothing reserved, consumed or released), an authorized decision's projected cost
    fits on top of what each hard budget has already consumed, and the selected plan
    meets its hard SLO. *)
Theorem authorized_within_hard_budgets (I : IterOrder) s now wg plans d :
  reachable s → evaluate now (sys_g s) wg plans = Ret d → d_kind d = DecisionKind.AUTHORIZE →
  (∀ id b, g_budgets (sys_g s) !! id = Some b → b_mode b = BudgetMode.HARD →
     b_consumed b + cb_total (d_projected d) ≤ b_limit b) ∧
  ∃ plan, plan ∈ plans ∧ p_id plan = d_selected_plan d ∧ p_meets_hard_slo plan = true.
Proof.
  intros Hr He Hk. pose proof (reachable_in_range s Hr) as Hg.
  destruct (evaluate_authorize now (sys_g s) wg plans d He Hk)
    as (_ & cs & k & best & Hcs & Hbest & Hf & _ & Hsel & _ & Hproj & _).
  destruct (candidate_plan _ _ _ _ _ _ Hcs Hbest) as [Hp Hpe]. apply bool_decide_eq_true in Hf.
  pose proof (evaluate_plan_feasible _ _ _ _ Hg Hpe Hf) as [_ Hslo _ _ _ Hb]. rewrite Hproj. split.
  - intros id b Hid Hm. specialize (Hb id b Hid Hm). lia.
  - exists (c_plan best). split_and!; [by eapply list_elem_of_lookup_2|done|done].
Qed.

Definition sample_governor_run : list Op :=
  [ op_set_policy sample_policy; op_set_price_schedule sample_schedule;
    op_create_budget (sample_budget 1 10000000 BudgetMode.HARD) ].
Definition sample_governor_state : Sys := default initial_sys (run sample_governor_run initial_sys).

Lemma sample_governor_reachable : reachable sample_governor_state.
Proof. apply (run_steps sample_governor_run). by vm_compute. Qed.

Lemma authorized_within_hard_budgets_witness :
  ∃ d, @evaluate map_order at_1000 (sys_g sample_governor_state) (mkId 1) sample_plans = Ret d ∧
    ∃ plan, plan ∈ sample_plans ∧ p_id plan = d_selected_plan d ∧ p_meets_hard_slo plan = true.
Proof.
  eexists. split; [by vm_compute|].
  eapply (authorized_within_hard_budgets map_order sample_governor_state at_1000 (mkId 1) sample_plans);
    [apply sample_governor_reachable|by vm_compute|by vm_compute].
Defined.

(** Refusals are justified: with no revalidation pending, a decision that
    evaluation returns either authorizes or reports NO_FEASIBLE_PLAN, and it
    reports NO_FEASIBLE_PLAN exactly when no plan of the list is feasible. *)
Theorem evaluate_refuses_iff (I : IterOrder) now g wg plans d :
  budgets_in_range g → g_revalidation_needed g = false → evaluate now g wg plans = Ret d →
  (d_kind d = DecisionKind.AUTHORIZE ∨ d_kind d = DecisionKind.NO_FEASIBLE_PLAN) ∧
  (d_kind d = DecisionKind.NO_FEASIBLE_PLAN ↔
     ∀ k plan bd, plans !! k = Some plan → ¬ plan_feasible g (now k) plan bd).
Proof.
  intros Hg Hrev He. destruct (decide (d_kind d = DecisionKind.AUTHORIZE)) as [Hk|Hk].
  - split; [by left|]. split; [congruence|]. intros Hno. exfalso.
    destruct (evaluate_authorize now g wg plans d He Hk) as (_ & cs & k & best & Hcs & Hb & Hf & _).
    destruct (candidate_plan _ _ _ _ _ _ Hcs Hb) as [Hp Hpe]. apply bool_decide_eq_true in Hf.
    eapply (Hno k); [exact Hp|]. by eapply evaluate_plan_feasible.
  - destruct (evaluate_no_feasible now g wg plans d He Hrev Hk) as (Hk' & _ & cs & Hcs & Hall).
    split; [by right|]. split; [|done]. intros _ k plan bd Hp Hf.
    destruct (plan_candidate _ _ _ _ _ _ Hcs Hp) as (e & Hc & He').
    destruct (feasible_evaluates g (now k) plan bd Hg Hf) as (e' & He'' & Hfe & _).
    rewrite He' in He''. injection He'' as <-. specialize (Hall _ _ Hc).
    unfold is_feasible in Hall. apply bool_decide_eq_false in Hall. done.
Qed.

Lemma evaluate_refuses_iff_witness :
  ∃ d, @evaluate map_order at_1000 sample_governor (mkId 1) [sample_plan 1 9000000000] = Ret d ∧
    (d_kind d = DecisionKind.AUTHORIZE ∨ d_kind d = DecisionKind.NO_FEASIBLE_PLAN).
Proof.
  eexists. split; [by vm_compute|].
  eapply (evaluate_refuses_iff map_order at_1000 sample_governor (mkId 1) [sample_plan 1 9000000000]);
    [by_compute|by vm_compute|by vm_compute].
Defined.

(** C37. Decisions do not depend on how the hash map of budgets enumerates: for any
    two enumerations, if evaluation returns under one it returns under the other,
    with the same kind, status, selected plan and generation, rejected plans,
    projected cost and authority.  (Prices and the plans' amounts are int64 values,
    and the limit and the consumed amount of every budget non-negative ones.) *)
Theorem evaluate_order_independent (I1 I2 : IterOrder) now g wg plans d1 :
  governor_ok g → Forall plan_ok plans → @evaluate I1 now g wg plans = Ret d1 →
  ∃ d2, @evaluate I2 now g wg plans = Ret d2 ∧
    d_kind d2 = d_kind d1 ∧ d_status d2 = d_status d1 ∧ d_selected_plan d2 = d_selected_plan d1 ∧
    d_plan_generation d2 = d_plan_generation d1 ∧ d_rejected_plans d2 = d_rejected_plans d1 ∧
    d_projected d2 = d_projected d1 ∧ d_authority d2 = d_authority d1.
Proof. apply evaluate_order. Qed.

Lemma evaluate_order_independent_witness :
  ∃ d2, @evaluate reverse_order at_1000 two_budgets (mkId 1) sample_plans = Ret d2 ∧
    d_selected_plan d2 = mkId 2.
Proof.
  edestruct (evaluate_order_independent map_order reverse_order at_1000 two_budgets (mkId 1) sample_plans)
    as (d2 & H2 & _ & _ & Hs & _); [by_compute|by_compute|by vm_compute|].
  exists d2. split; [exact H2|]. rewrite Hs. by vm_compute.
Defined.

(** The reported budget state does depend on the enumeration: a later budget
    overwrites AT_RISK by NEAR_BUDGET, and [remaining_budget] is that of
    whichever hard budget comes first, so the same governor and plans yield
    decisions with different states and remaining budgets. *)
Theorem decision_state_order_dependent :
  ∃ d1 d2, @evaluate map_order at_1000 two_budgets (mkId 1) sample_plans = Ret d1 ∧
    @evaluate reverse_order at_1000 two_budgets (mkId 1) sample_plans = Ret d2 ∧
    d_state d1 = CostState.AT_RISK ∧ d_state d2 = CostState.NEAR_BUDGET ∧
    d_remaining_budget d1 = 3500000 ∧ d_remaining_budget d2 = 3100000.
Proof.
  eexists _, _. split; [by vm_compute|]. split; [by vm_compute|]. by vm_compute.
Qed.

(** C13. A fresh decision is dispatchable: when the plans have distinct identities
    and neither the governor nor the clock changed, [validate_for_dispatch] of an
    authorized decision against the plans it was made from returns OK.  (The limit
    and the consumed amount of every budget are non-negative int64 values.) *)
Theorem evaluate_then_validate (I : IterOrder) t g wg plans d :
  budgets_in_range g → NoDup (p_id <$> plans) → evaluate (λ _, t) g wg plans = Ret d →
  d_kind d = DecisionKind.AUTHORIZE → validate_for_dispatch (λ _, t) g d plans = Ret Status.OK.
Proof.
  intros Hg Hnd He Hk.
  destruct (evaluate_authorize _ g wg plans d He Hk)
    as (Hrev & cs & k & [plan e] & Hcs & Hbest & Hf & _ & Hsel & _ & _ & _ & Hauth & _).
  destruct (candidate_plan _ _ _ _ _ _ Hcs Hbest) as [Hp Hpe]. cbn [c_plan c_econ] in *.
  apply bool_decide_eq_true in Hf.
  pose proof (evaluate_plan_feasible _ _ _ _ Hg Hpe Hf) as [_ Hslo _ _ _ Hb].
  unfold validate_for_dispatch. rewrite Hk, Hauth, Hsel, Hrev.
  rewrite !decide_False by (cbn; tauto).
  rewrite (find_selected_nodup _ _ _ Hnd Hp), Hslo. cbn [negb]. rewrite Hpe. cbn [res_bind].
  rewrite decide_False by tauto.
  destruct (check_budgets_eq (cb_total (pe_projected e)) (budgets_of g)) as (o & -> & Hw & _);
    [by apply budgets_of_in_range|]. cbn [res_bind].
  assert (o = None) as -> by (by apply Hw, within_hard_lookup). done.
Qed.

Lemma evaluate_then_validate_witness :
  ∃ d, @evaluate map_order at_1000 sample_governor (mkId 1) sample_plans = Ret d ∧
    @validate_for_dispatch map_order at_1000 sample_governor d sample_plans = Ret Status.OK.
Proof.
  eexists. split; [by vm_compute|].
  eapply (evaluate_then_validate map_order 1000 sample_governor (mkId 1) sample_plans);
    [by_compute|by_compute|by vm_compute|by vm_compute].
Defined.

(** C20. Dispatch is fenced by authority and feasibility: if [validate_for_dispatch]
    accepts an authorized decision, then the epoch, the policy and price generations
    and the worker's boot are those the decision was made under, and the first
    candidate that carries the identity of the selected plan is feasible now, within
    every hard budget.  Only the identity is compared: the candidate may be of another
    generation than the plan decided on, with other contents.  (The limit and the
    consumed amount of every budget are non-negative int64 values.) *)
Theorem dispatch_is_fenced (I : IterOrder) now g prior plans :
  budgets_in_range g → d_kind prior = DecisionKind.AUTHORIZE →
  validate_for_dispatch now g prior plans = Ret Status.OK →
  a_epoch (d_authority prior) = g_epoch g ∧
  a_policy_generation (d_authority prior) = pol_generation (g_policy g) ∧
  a_price_generation (d_authority prior) = s_generation (g_schedule g) ∧
  a_boot (d_authority prior) = current_boot_for g (a_worker (d_authority prior)) ∧
  ∃ k plan bd, plans !! k = Some plan ∧ p_id plan = d_selected_plan prior ∧
    (∀ k' p, (k' < k)%nat → plans !! k' = Some p → p_id p ≠ d_selected_plan prior) ∧
    plan_feasible g (now 0%nat) plan bd.
Proof. intros ? ? ?. by apply validate_ok. Qed.

Lemma dispatch_is_fenced_witness :
  ∃ d, @evaluate map_order at_1000 sample_governor (mkId 1) sample_plans = Ret d ∧
    a_epoch (d_authority d) = g_epoch sample_governor.
Proof.
  eexists. split; [by vm_compute|].
  eapply (dispatch_is_fenced map_order at_1000 sample_governor _ sample_plans);
    [by_compute|by vm_compute|by vm_compute].
Defined.

(** Dispatch validation ignores the plan generation: giving every candidate
    plan another generation than the one decided on changes nothing. *)
Theorem dispatch_ignores_plan_generation (I : IterOrder) now g prior plans f :
  validate_for_dispatch now g prior (regenerate f <$> plans) =
  validate_for_dispatch now g prior plans.
Proof.
  unfold validate_for_dispatch. rewrite find_selected_regenerate.
  by destruct (find_selected (d_selected_plan prior) plans).
Qed.

(** The generation is no tie-break: of two plans that differ in nothing but their
    generation, the one that is listed first is selected, be it the older or the
    newer. *)
Example generation_not_compared :
  let p := sample_plan 1 1000000000 in
  let q := regenerate (λ _, mkId 2) p in
  (λ d, d_plan_generation <$> match d with Ret d => Some d | Throw _ => None end) <$>
    [@evaluate map_order at_1000 sample_governor (mkId 1) [p; q];
     @evaluate map_order at_1000 sample_governor (mkId 1) [q; p]]
  = [Some (mkId 1); Some (mkId 2)].
Proof. by vm_compute. Qed.

(** Validation accepts refusals: for a decision that is not AUTHORIZE,
    [validate_for_dispatch] returns OK in every state and for any plans. *)
Theorem validate_accepts_refusals (I : IterOrder) now g prior plans :
  d_kind prior ≠ DecisionKind.AUTHORIZE → validate_for_dispatch now g prior plans = Ret Status.OK.
Proof. intros Hk. unfold validate_for_dispatch. by rewrite decide_True. Qed.

Lemma validate_accepts_refusals_witness :
  @validate_for_dispatch map_order at_1000 initial
    (refusal DecisionKind.NO_FEASIBLE_PLAN Status.PLAN_INFEASIBLE FeasibilityReason.NONE EmptyString) []
    = Ret Status.OK.
Proof. apply (validate_accepts_refusals map_order). done. Defined.

(** The what-would-change report is always the same: an authorized decision
    lists exactly one alternative, BUDGET_INCREASES, and marks it inapplicable;
    the computed ENERGY_PRICE_DROPS alternative never reaches the report. *)
Theorem alternatives_never_applicable (I : IterOrder) now g wg plans d :
  governor_ok g → Forall plan_ok plans → evaluate now g wg plans = Ret d →
  d_kind d = DecisionKind.AUTHORIZE →
  ∃ alt, ex_what_would_change (d_explanation d) = [alt] ∧ alt_name alt = "BUDGET_INCREASES" ∧
    alt_applicable alt = false.
Proof.
  intros Hg Hpl He Hk. pose proof Hg as [_ Hb].
  destruct (evaluate_authorize now g wg plans d He Hk)
    as (_ & cs & k & best & Hcs & Hbest & Hf & _ & _ & _ & _ & _ & _ & _ & Hex).
  destruct (candidate_plan _ _ _ _ _ _ Hcs Hbest) as [Hp Hpe]. apply bool_decide_eq_true in Hf.
  pose proof (evaluate_plan_feasible _ _ _ _ Hb Hpe Hf) as Hfe.
  pose proof (feasible_total_range _ _ _ _ Hg (Forall_lookup_1 _ _ _ _ Hpl Hp) Hfe) as Hr.
  unfold build_explanation in Hex.
  destruct (budget_increases_ret g _ Hb Hr) as (alt & Ha & ? & ?);
    [apply within_hard_lookup, Hfe|].
  rewrite Ha in Hex. cbn [res_bind] in Hex. injection Hex as <-. by exists alt.
Qed.

Lemma alternatives_never_applicable_witness :
  ∃ d, @evaluate map_order at_1000 sample_governor (mkId 1) sample_plans = Ret d ∧
    ∃ alt, ex_what_would_change (d_explanation d) = [alt] ∧ alt_applicable alt = false.
Proof.
  eexists. split; [by vm_compute|].
  edestruct (alternatives_never_applicable map_order at_1000 sample_governor (mkId 1) sample_plans)
    as (alt & H1 & _ & H2); [by_compute|by_compute|by vm_compute|by vm_compute|].
  exists alt. split; [exact H1|exact H2].
Defined.

(** Projection bypasses the policy's checks: a plan can be priced by a
    synthetic observation although the policy accepts none, because the check
    found another, accepted price; and a plan that only recomputes is feasible on
    a price that is older than every age limit. *)
Theorem projection_bypasses_policy :
  (∃ e, @evaluate_plan map_order at_1000 synthetic_governor (sample_plan 1 1000000000) = Ret e ∧
     pol_allow_synthetic (g_policy synthetic_governor) = false ∧
     pe_feasible e = Feasibility.FEASIBLE ∧ cb_total (pe_projected e) = o_amount synthetic_price) ∧
  (∃ e, @evaluate_plan map_order (λ _, 1000000000) sample_governor recompute_plan = Ret e ∧
     pe_feasible e = Feasibility.FEASIBLE ∧ cb_total (pe_projected e) = 3000000).
Proof.
  split; eexists; (split; [by vm_compute|]); by vm_compute.
Qed.
