(* ===== verification/Snapshot.v ===== *)
(** * Snapshot: the durable snapshot format

    Models the field writers and readers and [SnapshotCodec::encode] and
    [SnapshotCodec::decode] of src/persistence.cpp. *)

From stdpp Require Import prelude gmap strings.
From S2P Require Import Prelude Effects Money Identity Units Price Policy Budget Cost.
From S2P Require Import Plan Decision Codec Samples.
From stdpp Require Import options.

(** ** The format *)
#[local] Instance snapshot_format : Format.
Proof.
  refine {| fmt_error := StatusError Status.PERSISTENCE_CORRUPT;
            fmt_max_string := 16 * 1024 * 1024; fmt_max_count := 1000000 |}; done.
Defined.

(** ** Field writers and readers *)

Definition write_budget (b : Budget) : res (list Z) := writes
  [ write_id (b_id b); write_id (b_generation b); write_id (b_policy_generation b);
    write_id (b_epoch b); w_str (b_currency b); w_enum (b_mode b); w_enum (b_objective b);
    w_i64 (b_limit b); w_enum (b_lifecycle b); w_i64 (b_reserved b); w_i64 (b_consumed b);
    w_i64 (b_released b); w_i64 (b_created_at_ms b); w_i64 (b_expires_at_ms b);
    w_enum (b_label b) ].

Definition read_budget : R Budget :=
  let* id := read_id in
  let* generation := read_id in
  let* policy_generation := read_id in
  let* epoch := read_id in
  let* currency := r_str in
  let* mode := r_enum in
  let* objective := r_enum in
  let* limit := r_i64 in
  let* lifecycle := r_enum in
  let* reserved := r_i64 in
  let* consumed := r_i64 in
  let* released := r_i64 in
  let* created := r_i64 in
  let* expires := r_i64 in
  let* label := r_enum in
  st_ret (mkBudget id generation policy_generation epoch currency mode objective limit lifecycle
            reserved consumed released created expires label).

Definition write_obs (o : PriceObservation) : res (list Z) := writes
  [ write_id (o_id o); w_enum (o_kind o); write_id (o_resource_scope o); write_id (o_device o);
    w_i64 (o_amount o); w_str (o_currency o); w_enum (o_provenance o); w_enum (o_label o);
    w_i64 (o_valid_from_ms o); w_i64 (o_valid_to_ms o); w_i64 (o_observed_at_ms o);
    write_id (o_generation o); write_id (o_epoch o); write_id (o_worker o); write_id (o_boot o) ].

Definition read_obs : R PriceObservation :=
  let* id := read_id in
  let* kind := r_enum in
  let* resource_scope := read_id in
  let* device := read_id in
  let* amount := r_i64 in
  let* currency := r_str in
  let* provenance := r_enum in
  let* label := r_enum in
  let* valid_from := r_i64 in
  let* valid_to := r_i64 in
  let* observed_at := r_i64 in
  let* generation := read_id in
  let* epoch := read_id in
  let* worker := read_id in
  let* boot := read_id in
  st_ret (mkPriceObservation id kind resource_scope device amount currency provenance label
            valid_from valid_to observed_at generation epoch worker boot).

Definition write_policy (p : CostPolicy) : res (list Z) := writes
  [ write_id (pol_id p); write_id (pol_generation p); write_id (pol_epoch p);
    w_str (pol_currency p); w_enum (pol_ranking p); w_i64 (pol_min_evidence_freshness_ms p);
    w_i64 (pol_max_evidence_age_ms p); w_i64 (pol_price_schedule_max_age_ms p);
    w_i64 (pol_max_projection_uncertainty p); w_i64 (pol_hysteresis_ms p);
    w_i64 (pol_cooldown_ms p); w_i64 (pol_near_budget_percent p); w_i64 (pol_at_risk_percent p);
    w_i64 (pol_retry_budget p); w_i64 (pol_recovery_budget p); w_bool (pol_recovery_cost_known p);
    w_bool (pol_allow_synthetic p); w_bool (pol_allow_policy p); w_bool (pol_allow_measured p) ].

Definition read_policy : R CostPolicy :=
  let* id := read_id in
  let* generation := read_id in
  let* epoch := read_id in
  let* currency := r_str in
  let* ranking := r_enum in
  let* min_freshness := r_i64 in
  let* max_evidence_age := r_i64 in
  let* schedule_max_age := r_i64 in
  let* max_uncertainty := r_i64 in
  let* hysteresis := r_i64 in
  let* cooldown := r_i64 in
  let* near := r_i64 in
  let* at_risk := r_i64 in
  let* retry := r_i64 in
  let* recovery := r_i64 in
  let* recovery_known := r_bool in
  let* allow_synthetic := r_bool in
  let* allow_policy := r_bool in
  let* allow_measured := r_bool in
  st_ret (mkCostPolicy id generation epoch currency ranking min_freshness max_evidence_age
            schedule_max_age max_uncertainty hysteresis cooldown near at_risk retry recovery
            recovery_known allow_synthetic allow_policy allow_measured).

Definition write_history (h : HistoryEntry) : res (list Z) := writes
  [ write_id (h_request h); write_id (h_workload h); w_i64 (h_completed_at_ms h);
    w_i64 (h_realized_cost h); w_i64 (h_attempts h); w_i64 (h_tokens h) ].

Definition read_history : R HistoryEntry :=
  let* request := read_id in
  let* workload := read_id in
  let* completed := r_i64 in
  let* cost := r_i64 in
  let* attempts := r_i64 in
  let* tokens := r_i64 in
  st_ret (mkHistoryEntry request workload completed cost attempts tokens).

Definition write_interv (i : InterventionEntry) : res (list Z) := writes
  [ write_id (ie_id i); w_enum (ie_kind i); w_enum (ie_lifecycle i); write_id (ie_generation i);
    w_i64 (ie_created_at_ms i) ].

Definition read_interv : R InterventionEntry :=
  let* id := read_id in
  let* kind := r_enum in
  let* lifecycle := r_enum in
  let* generation := read_id in
  let* created := r_i64 in
  st_ret (mkInterventionEntry id kind lifecycle generation created).

(** ** Payload *)

Definition write_payload (s : DurableSnapshot) : res (list Z) := writes
  [ write_id (ds_epoch s); write_policy (ds_policy s); write_id (s_id (ds_price_schedule s));
    write_id (s_generation (ds_price_schedule s)); w_i64 (s_created_at_ms (ds_price_schedule s));
    w_list write_obs (s_observations (ds_price_schedule s)); w_list write_budget (ds_budgets s);
    w_list write_history (ds_history s); w_list write_interv (ds_interventions s) ].

Definition read_payload : R DurableSnapshot :=
  let* epoch := read_id in
  let* policy := read_policy in
  let* id := read_id in
  let* generation := read_id in
  let* created := r_i64 in
  let* observations := r_list read_obs in
  let* budgets := r_list read_budget in
  let* history := r_list read_history in
  let* interventions := r_list read_interv in
  expect_end ;;;
  st_ret (mkDurableSnapshot epoch policy (mkPriceSchedule id generation observations created)
            budgets history interventions).

(** ** Framing *)

Definition kVersion : Z := 2.
Definition kMagic : list Z := string_bytes "CGSNAP01".
Definition kHeader : nat := 24.

Definition frame (payload : list Z) : list Z :=
  kMagic ++ le_bytes 4 kVersion ++ le_bytes 8 (Z.of_nat (length payload))
    ++ le_bytes 4 (crc32 payload) ++ payload.

Definition encode (s : DurableSnapshot) : res (list Z) :=
  let! payload := write_payload s in Ret (frame payload).

Definition decode (bytes : list Z) : res DurableSnapshot :=
  if decide (length bytes < kHeader)%nat then throw_status Status.PERSISTENCE_CORRUPT
  else if decide (take 8 bytes ≠ kMagic) then throw_status Status.PERSISTENCE_CORRUPT
  else
    let version := of_le (take 4 (drop 8 bytes)) in
    if decide (version = 1) then throw_status Status.PERSISTENCE_UNSUPPORTED_VERSION
    else if decide (version ≠ kVersion) then throw_status Status.PERSISTENCE_CORRUPT
    else
      let len := of_le (take 8 (drop 12 bytes)) in
      let stored_crc := of_le (take 4 (drop 20 bytes)) in
      if decide (len ≠ Z.of_nat (length bytes - kHeader)) then throw_status Status.PERSISTENCE_CORRUPT
      else
        let payload := drop kHeader bytes in
        if decide (crc32 payload ≠ stored_crc) then throw_status Status.PERSISTENCE_CORRUPT
        else (read_payload payload).1.

(** ** Well-formed snapshots: the values of the C++ types, within the reader's bounds *)

Definition budget_wf (b : Budget) : Prop :=
  id_ok (b_id b) ∧ id_ok (b_generation b) ∧ id_ok (b_policy_generation b) ∧ id_ok (b_epoch b) ∧
  string_ok (b_currency b) ∧ enum_ok (b_mode b) ∧ enum_ok (b_objective b) ∧ in_i64 (b_limit b) ∧
  enum_ok (b_lifecycle b) ∧ in_i64 (b_reserved b) ∧ in_i64 (b_consumed b) ∧ in_i64 (b_released b) ∧
  in_i64 (b_created_at_ms b) ∧ in_i64 (b_expires_at_ms b) ∧ enum_ok (b_label b).

Definition obs_wf (o : PriceObservation) : Prop :=
  id_ok (o_id o) ∧ enum_ok (o_kind o) ∧ id_ok (o_resource_scope o) ∧ id_ok (o_device o) ∧
  in_i64 (o_amount o) ∧ string_ok (o_currency o) ∧ enum_ok (o_provenance o) ∧ enum_ok (o_label o) ∧
  in_i64 (o_valid_from_ms o) ∧ in_i64 (o_valid_to_ms o) ∧ in_i64 (o_observed_at_ms o) ∧
  id_ok (o_generation o) ∧ id_ok (o_epoch o) ∧ id_ok (o_worker o) ∧ id_ok (o_boot o).

Definition policy_wf (p : CostPolicy) : Prop :=
  id_ok (pol_id p) ∧ id_ok (pol_generation p) ∧ id_ok (pol_epoch p) ∧ string_ok (pol_currency p) ∧
  enum_ok (pol_ranking p) ∧ in_i64 (pol_min_evidence_freshness_ms p) ∧
  in_i64 (pol_max_evidence_age_ms p) ∧ in_i64 (pol_price_schedule_max_age_ms p) ∧
  in_i64 (pol_max_projection_uncertainty p) ∧ in_i64 (pol_hysteresis_ms p) ∧
  in_i64 (pol_cooldown_ms p) ∧ in_i64 (pol_near_budget_percent p) ∧
  in_i64 (pol_at_risk_percent p) ∧ in_i64 (pol_retry_budget p) ∧ in_i64 (pol_recovery_budget p).

Definition history_wf (h : HistoryEntry) : Prop :=
  id_ok (h_request h) ∧ id_ok (h_workload h) ∧ in_i64 (h_completed_at_ms h) ∧
  in_i64 (h_realized_cost h) ∧ in_i64 (h_attempts h) ∧ in_i64 (h_tokens h).

Definition interv_wf (i : InterventionEntry) : Prop :=
  id_ok (ie_id i) ∧ enum_ok (ie_kind i) ∧ enum_ok (ie_lifecycle i) ∧ id_ok (ie_generation i) ∧
  in_i64 (ie_created_at_ms i).

Definition snapshot_values (s : DurableSnapshot) : Prop :=
  id_ok (ds_epoch s) ∧ policy_wf (ds_policy s) ∧ id_ok (s_id (ds_price_schedule s)) ∧
  id_ok (s_generation (ds_price_schedule s)) ∧ in_i64 (s_created_at_ms (ds_price_schedule s)) ∧
  Forall obs_wf (s_observations (ds_price_schedule s)) ∧ Forall budget_wf (ds_budgets s) ∧
  Forall history_wf (ds_history s) ∧ Forall interv_wf (ds_interventions s).

Definition snapshot_wf (s : DurableSnapshot) : Prop :=
  snapshot_values s ∧ count_ok (s_observations (ds_price_schedule s)) ∧ count_ok (ds_budgets s) ∧
  count_ok (ds_history s) ∧ count_ok (ds_interventions s).

(** ** Round trip of the payload *)

Lemma read_write_budget b w : write_budget b = Ret w → budget_wf b → reads read_budget w b.
Proof.
  unfold write_budget, budget_wf. intros H Hwf. destruct_and! Hwf.
  unfold read_budget. read_fields H.
Qed.

Lemma read_write_obs o w : write_obs o = Ret w → obs_wf o → reads read_obs w o.
Proof.
  unfold write_obs, obs_wf. intros H Hwf. destruct_and! Hwf.
  unfold read_obs. read_fields H.
Qed.

Lemma read_write_policy p w : write_policy p = Ret w → policy_wf p → reads read_policy w p.
Proof.
  unfold write_policy, policy_wf. intros H Hwf. destruct_and! Hwf.
  unfold read_policy. read_fields H.
Qed.

Lemma read_write_history h w : write_history h = Ret w → history_wf h → reads read_history w h.
Proof.
  unfold write_history, history_wf. intros H Hwf. destruct_and! Hwf.
  unfold read_history. read_fields H.
Qed.

Lemma read_write_interv i w : write_interv i = Ret w → interv_wf i → reads read_interv w i.
Proof.
  unfold write_interv, interv_wf. intros H Hwf. destruct_and! Hwf.
  unfold read_interv. read_fields H.
Qed.

(** The reader after everything before the history was read back. *)
Definition read_tail (s : DurableSnapshot) : R DurableSnapshot :=
  let* history := r_list read_history in
  let* interventions := r_list read_interv in
  expect_end ;;;
  st_ret (mkDurableSnapshot (ds_epoch s) (ds_policy s) (ds_price_schedule s) (ds_budgets s)
            history interventions).

Lemma read_write_prefix s w :
  write_payload s = Ret w → snapshot_values s →
  count_ok (s_observations (ds_price_schedule s)) → count_ok (ds_budgets s) →
  ∃ hw iw, w_list write_history (ds_history s) = Ret hw ∧
    w_list write_interv (ds_interventions s) = Ret iw ∧
    read_payload w = read_tail s (hw ++ iw ++ []).
Proof.
  unfold write_payload, snapshot_values. intros H Hwf ??. destruct_and! Hwf.
  repeat (let x := fresh "x" in let Hx := fresh "Hx" in
          apply writes_cons in H as (x & ? & Hx & H & ->)).
  apply writes_nil in H as ->. exists x6, x7. split_and!; [done|done|]. unfold read_payload.
  rewrite (run_bind _ _ _ _ _ (reads_write_id _ _ Hx ltac:(done))).
  rewrite (run_bind _ _ _ _ _ (read_write_policy _ _ Hx0 ltac:(done))).
  rewrite (run_bind _ _ _ _ _ (reads_write_id _ _ Hx1 ltac:(done))).
  rewrite (run_bind _ _ _ _ _ (reads_write_id _ _ Hx2 ltac:(done))).
  rewrite (run_bind _ _ _ _ _ (reads_w_i64 _ _ Hx3 ltac:(done))).
  rewrite (run_bind _ _ _ _ _ (reads_w_list _ _ _ _ _ Hx4 read_write_obs ltac:(done) ltac:(done))).
  rewrite (run_bind _ _ _ _ _ (reads_w_list _ _ _ _ _ Hx5 read_write_budget ltac:(done) ltac:(done))).
  by destruct s as [? ? []].
Qed.

Lemma read_write_payload s w :
  write_payload s = Ret w → snapshot_wf s → (read_payload w).1 = Ret s.
Proof.
  intros H (Hv & Ho & Hb & Hh & Hi).
  destruct (read_write_prefix s w H Hv Ho Hb) as (hw & iw & Hhw & Hiw & ->).
  unfold snapshot_values in Hv. destruct_and! Hv. unfold read_tail.
  rewrite (run_bind _ _ _ _ _ (reads_w_list _ _ _ _ _ Hhw read_write_history ltac:(done) Hh)).
  rewrite (run_bind _ _ _ _ _ (reads_w_list _ _ _ _ _ Hiw read_write_interv ltac:(done) Hi)).
  by destruct s.
Qed.

(** ** Framing *)

Lemma drop_parts (l1 l2 : list Z) n : length l1 = n → drop n (l1 ++ l2) = l2.
Proof. intros <-. apply drop_app_length. Qed.
Lemma take_parts (l1 l2 : list Z) n : length l1 = n → take n (l1 ++ l2) = l1.
Proof. intros <-. apply take_app_length. Qed.

(** [decode] on the five parts of a file. *)
Lemma decode_parts m v l c p :
  length m = 8%nat → length v = 4%nat → length l = 8%nat → length c = 4%nat →
  decode (m ++ v ++ l ++ c ++ p) =
    if decide (m ≠ kMagic) then throw_status Status.PERSISTENCE_CORRUPT
    else if decide (of_le v = 1) then throw_status Status.PERSISTENCE_UNSUPPORTED_VERSION
    else if decide (of_le v ≠ kVersion) then throw_status Status.PERSISTENCE_CORRUPT
    else if decide (of_le l ≠ Z.of_nat (length p)) then throw_status Status.PERSISTENCE_CORRUPT
    else if decide (crc32 p ≠ of_le c) then throw_status Status.PERSISTENCE_CORRUPT
    else (read_payload p).1.
Proof.
  intros Hm Hv Hl Hc. unfold decode, kHeader.
  assert (length (m ++ v ++ l ++ c ++ p) = 24 + length p)%nat as Hlen
    by (rewrite !length_app; lia).
  rewrite Hlen. rewrite decide_False by lia. rewrite take_parts by done.
  rewrite (drop_parts m) by done. rewrite take_parts by done.
  replace (drop 12 (m ++ v ++ l ++ c ++ p)) with (l ++ c ++ p)
    by (rewrite (app_assoc m); symmetry; apply drop_parts; rewrite length_app; lia).
  rewrite (take_parts l) by done.
  replace (drop 20 (m ++ v ++ l ++ c ++ p)) with (c ++ p)
    by (rewrite (app_assoc m), (app_assoc (m ++ v)); symmetry; apply drop_parts;
        rewrite !length_app; lia).
  rewrite (take_parts c) by done.
  replace (drop 24 (m ++ v ++ l ++ c ++ p)) with p
    by (rewrite (app_assoc m), (app_assoc (m ++ v)), (app_assoc ((m ++ v) ++ l)); symmetry;
        apply drop_parts; rewrite !length_app; lia).
  by replace (24 + length p - 24)%nat with (length p) by lia.
Qed.

Lemma length_magic : length kMagic = 8%nat.
Proof. done. Qed.

(** Every file that is long enough has the five parts. *)
Lemma split_parts (bytes : list Z) :
  (24 ≤ length bytes)%nat → ∃ m v l c p, bytes = m ++ v ++ l ++ c ++ p ∧
    length m = 8%nat ∧ length v = 4%nat ∧ length l = 8%nat ∧ length c = 4%nat.
Proof.
  intros Hlen. exists (take 8 bytes), (take 4 (drop 8 bytes)), (take 8 (drop 12 bytes)),
    (take 4 (drop 20 bytes)), (drop 24 bytes). rewrite !length_take, !length_drop.
  split_and!; try lia.
  rewrite <-(take_drop 8 bytes) at 1. f_equal. rewrite <-(take_drop 4 (drop 8 bytes)) at 1. f_equal.
  rewrite drop_drop. rewrite <-(take_drop 8 (drop (8 + 4) bytes)) at 1. f_equal.
  rewrite drop_drop. rewrite <-(take_drop 4 (drop (8 + 4 + 8) bytes)) at 1. f_equal.
  by rewrite drop_drop.
Qed.

Lemma decode_inv bytes s :
  decode bytes = Ret s → ∃ v l c p, bytes = kMagic ++ v ++ l ++ c ++ p ∧
    length v = 4%nat ∧ length l = 8%nat ∧ length c = 4%nat ∧ of_le v = kVersion ∧
    of_le l = Z.of_nat (length p) ∧ of_le c = crc32 p ∧ (read_payload p).1 = Ret s.
Proof.
  intros H. destruct (decide (length bytes < 24)%nat) as [Hs|Hs].
  { unfold decode, kHeader in H. by rewrite decide_True in H. }
  destruct (split_parts bytes) as (m & v & l & c & p & -> & Hm & Hv & Hl & Hc); [lia|].
  rewrite decode_parts in H by done.
  do 5 (case_decide; [done|]). subst. exists v, l, c, p. by split_and!.
Qed.

(** ** Readers fail only as corrupt *)
Definition fails_corrupt {A} (m : R A) : Prop :=
  ∀ bs e bs', m bs = (Throw e, bs') → e = StatusError Status.PERSISTENCE_CORRUPT.

Lemma fails_bind {A B} (m : R A) (k : A → R B) :
  fails_corrupt m → (∀ a, fails_corrupt (k a)) → fails_corrupt (st_bind m k).
Proof.
  intros Hm Hk bs e bs'. unfold st_bind. destruct (m bs) as [[a|e'] bs1] eqn:H.
  - apply Hk.
  - intros [= <- <-]. by eapply Hm.
Qed.

Lemma fails_ret {A} (a : A) : fails_corrupt (st_ret a).
Proof. by intros bs e bs'. Qed.
Lemma fails_take k : fails_corrupt (r_take k).
Proof. intros bs e bs'. unfold r_take. case_decide; [|done]. by intros [= <-]. Qed.
Lemma fails_throw {A} : fails_corrupt (corrupt (A := A)).
Proof. by intros bs e bs' [= <-]. Qed.
Lemma fails_end : fails_corrupt expect_end.
Proof. intros bs e bs'. unfold expect_end. case_decide; [done|]. by intros [= <-]. Qed.

Ltac fails :=
  repeat first
    [ apply fails_bind; [|intros] | apply fails_ret | apply fails_take | apply fails_throw
    | apply fails_end | case_decide ].

Lemma fails_u32 : fails_corrupt r_u32.
Proof. unfold r_u32. fails. Qed.
Lemma fails_i64 : fails_corrupt r_i64.
Proof. unfold r_i64, r_u64. fails. Qed.
Lemma fails_id {T} : fails_corrupt (read_id (T := T)).
Proof. unfold read_id, r_u64. fails. Qed.
Lemma fails_enum `{Enum8 E} : fails_corrupt r_enum.
Proof. unfold r_enum, r_u8. fails. Qed.
Lemma fails_bool : fails_corrupt r_bool.
Proof. unfold r_bool, r_u8. fails. Qed.
Lemma fails_str : fails_corrupt r_str.
Proof. unfold r_str, r_u32. fails. Qed.

Lemma fails_list {A} (item : R A) : fails_corrupt item → fails_corrupt (r_list item).
Proof.
  intros Hi. unfold r_list, r_u32. fails. generalize (Z.to_nat a). intros n.
  induction n as [|n IH]; simpl; fails; done.
Qed.

Ltac fails_fields :=
  repeat (apply fails_bind;
    [first [apply fails_id | apply fails_i64 | apply fails_enum | apply fails_bool | apply fails_str]
    |intros]); apply fails_ret.

Lemma fails_payload : fails_corrupt read_payload.
Proof.
  unfold read_payload. apply fails_bind; [apply fails_id|intros].
  apply fails_bind; [unfold read_policy; fails_fields|intros].
  do 2 (apply fails_bind; [apply fails_id|intros]). apply fails_bind; [apply fails_i64|intros].
  apply fails_bind; [apply fails_list; unfold read_obs; fails_fields|intros].
  apply fails_bind; [apply fails_list; unfold read_budget; fails_fields|intros].
  apply fails_bind; [apply fails_list; unfold read_history; fails_fields|intros].
  apply fails_bind; [apply fails_list; unfold read_interv; fails_fields|intros].
  fails.
Qed.

(** ** Encoding returns *)

Ltac writes_return :=
  apply writes_ret; repeat constructor; try (by eexists); by apply w_str_ret.

Lemma encode_ret s : snapshot_values s → is_Ret (write_payload s).
Proof.
  intros Hwf. unfold snapshot_values in Hwf. destruct_and! Hwf. apply writes_ret.
  repeat apply Forall_cons_2; try (by eexists); [..|constructor].
  - unfold policy_wf in *. destruct_and?. writes_return.
  - apply w_list_ret. eapply Forall_impl; [done|]. intros o Ho. unfold obs_wf in Ho. destruct_and! Ho.
    writes_return.
  - apply w_list_ret. eapply Forall_impl; [done|]. intros o Ho. unfold budget_wf in Ho. destruct_and! Ho.
    writes_return.
  - apply w_list_ret. eapply Forall_impl; [done|]. intros o Ho. writes_return.
  - apply w_list_ret. eapply Forall_impl; [done|]. intros o Ho. writes_return.
Qed.

Ltac writes_bytes_fields :=
  eapply writes_bytes; [done|]; repeat apply Forall_cons_2; [..|constructor];
  first [ by eauto with codec | let Hq := fresh "Hq" in intros ? Hq; by apply (w_enum_bytes _ _ Hq) ].

Lemma payload_bytes s w : snapshot_values s → write_payload s = Ret w → Forall byte_ok w.
Proof.
  intros Hwf Hw. unfold snapshot_values in Hwf. destruct_and! Hwf. eapply writes_bytes; [exact Hw|].
  repeat apply Forall_cons_2; [..|constructor]; eauto with codec.
  - intros x Hx. unfold policy_wf in *. destruct_and?. writes_bytes_fields.
  - intros x Hx. refine (w_list_bytes _ _ _ _ _ _ Hx); [|eassumption]. intros o y Ho Hy. unfold obs_wf in Ho.
    destruct_and! Ho. writes_bytes_fields.
  - intros x Hx. refine (w_list_bytes _ _ _ _ _ _ Hx); [|eassumption]. intros o y Ho Hy. unfold budget_wf in Ho.
    destruct_and! Ho. writes_bytes_fields.
  - intros x Hx. refine (w_list_bytes _ _ _ _ _ _ Hx); [|eassumption]. intros o y Ho Hy. unfold history_wf in Ho.
    destruct_and! Ho. writes_bytes_fields.
  - intros x Hx. refine (w_list_bytes _ _ _ _ _ _ Hx); [|eassumption]. intros o y Ho Hy. unfold interv_wf in Ho.
    destruct_and! Ho. writes_bytes_fields.
Qed.

(** The size of a record, from its fields'. *)
Ltac size_fields :=
  eapply at_most_weaken; [|apply (at_most_writes field_size)];
  [by vm_compute
  |repeat (constructor; [first [by apply at_most_u64 | by apply at_most_u8 | by apply at_most_str]|]);
   constructor].

(** A well-formed snapshot is small enough for the length field of its header: no
    record has more than 19 fields, no list more than a million records. *)
Lemma encode_size s bytes :
  snapshot_wf s → encode s = Ret bytes → Z.of_nat (length bytes) ≤ U64_MAX.
Proof.
  intros (Hv & Ho & Hb & Hh & Hi) He. unfold snapshot_values in Hv. destruct_and! Hv.
  unfold encode in He. apply res_bind_Ret in He as (p & Hp & He).
  assert (bytes = frame p) as -> by congruence.
  assert (at_most (field_size * 19 * (1 + fmt_max_count) * 9) (write_payload s)) as Hsize.
  { apply (at_most_writes (field_size * 19 * (1 + fmt_max_count))).
    assert (∀ m, at_most (field_size * 19) m → at_most (field_size * 19 * (1 + fmt_max_count)) m) as Hw
      by (intros m; by apply at_most_weaken).
    assert (∀ m, at_most field_size m → at_most (field_size * 19) m) as Hf
      by (intros m; by apply at_most_weaken).
    repeat constructor; try (by apply Hw, Hf, at_most_u64).
    - apply Hw. unfold policy_wf in *. destruct_and?. size_fields.
    - apply (at_most_list obs_wf); [done| |done|done]. unfold obs_wf. intros o ?. destruct_and?. size_fields.
    - apply (at_most_list budget_wf); [done| |done|done]. unfold budget_wf. intros o ?. destruct_and?. size_fields.
    - apply (at_most_list history_wf); [done| |done|done]. intros o _. size_fields.
    - apply (at_most_list interv_wf); [done| |done|done]. intros o _. size_fields. }
  specialize (Hsize p Hp). unfold frame. rewrite !length_app, !length_le_bytes.
  assert (field_size * 19 * (1 + fmt_max_count) * 9 + 24 ≤ U64_MAX) by done.
  change (length kMagic) with 8%nat. lia.
Qed.

(** A well-formed snapshot that encodes to [bytes] is decoded from them. *)
Lemma decode_encode s bytes : snapshot_wf s → encode s = Ret bytes → decode bytes = Ret s.
Proof.
  intros Hwf He. pose proof (encode_size s bytes Hwf He) as Hlen.
  unfold encode in He. apply res_bind_Ret in He as (p & Hp & He).
  assert (bytes = frame p) as -> by congruence.
  pose proof (payload_bytes s p (proj1 Hwf) Hp) as Hb. pose proof (crc32_range p Hb).
  unfold frame in *. rewrite !length_app in Hlen.
  rewrite decode_parts by (done || apply length_le_bytes).
  rewrite !of_le_le_bytes by (widths; lia || done).
  rewrite decide_False by tauto. rewrite decide_False by done. rewrite decide_False by tauto.
  rewrite decide_False by tauto. rewrite decide_False by tauto. by apply read_write_payload.
Qed.

(** ** Damaged files *)

(** [decode] refuses: the file is corrupt, or of the unsupported version 1. *)
Definition refused (bytes : list Z) : Prop :=
  decode bytes = throw_status Status.PERSISTENCE_CORRUPT ∨
  decode bytes = throw_status Status.PERSISTENCE_UNSUPPORTED_VERSION.

Ltac refuse := unfold refused; rewrite decode_parts by (rewrite ?length_insert; done);
  repeat case_decide; auto; exfalso; unfold kVersion in *; congruence || lia.

Lemma decode_byte_changed bytes s i b b' :
  decode bytes = Ret s → Forall byte_ok bytes → bytes !! i = Some b → byte_ok b' → b' ≠ b →
  refused (<[i := b']> bytes).
Proof.
  intros H Hbytes Hi Hb' Hne.
  destruct (decode_inv _ _ H) as (v & l & c & p & -> & Hv & Hl & Hc & Ev & El & Ec & _).
  rewrite !Forall_app in Hbytes. destruct Hbytes as (_ & Bv & Bl & Bc & Bp).
  destruct (decide (i < 8)%nat) as [Hi0|Hi0].
  { rewrite insert_app_l by (rewrite length_magic; lia).
    rewrite lookup_app_l in Hi by (rewrite length_magic; lia).
    assert (<[i := b']> kMagic ≠ kMagic) as Hmg.
    { intros Heq. apply (f_equal (lookup i)) in Heq.
      rewrite list_lookup_insert_eq in Heq by (rewrite length_magic; lia). congruence. }
    left. rewrite decode_parts by (rewrite ?length_insert; done). by rewrite decide_True. }
  rewrite insert_app_r_alt by (rewrite length_magic; lia).
  rewrite lookup_app_r in Hi by (rewrite length_magic; lia). rewrite length_magic in *.
  set (j := (i - 8)%nat) in *. clearbody j. clear i Hi0.
  destruct (decide (j < 4)%nat) as [Hj|Hj].
  { rewrite insert_app_l by lia. rewrite lookup_app_l in Hi by lia.
    pose proof (of_le_changed v j b b' Bv Hb' Hi Hne). refuse. }
  rewrite insert_app_r_alt by lia. rewrite lookup_app_r in Hi by lia. rewrite Hv in *.
  set (k := (j - 4)%nat) in *. clearbody k. clear j Hj.
  destruct (decide (k < 8)%nat) as [Hk|Hk].
  { rewrite insert_app_l by lia. rewrite lookup_app_l in Hi by lia.
    pose proof (of_le_changed l k b b' Bl Hb' Hi Hne). refuse. }
  rewrite insert_app_r_alt by lia. rewrite lookup_app_r in Hi by lia. rewrite Hl in *.
  set (n := (k - 8)%nat) in *. clearbody n. clear k Hk.
  destruct (decide (n < 4)%nat) as [Hn|Hn].
  { rewrite insert_app_l by lia. rewrite lookup_app_l in Hi by lia.
    pose proof (of_le_changed c n b b' Bc Hb' Hi Hne). refuse. }
  rewrite insert_app_r_alt by lia. rewrite lookup_app_r in Hi by lia. rewrite Hc in *.
  pose proof (crc32_single_byte p (n - 4) b b' Bp Hb' Hi Hne). refuse.
Qed.

Lemma decode_resized bytes s p' :
  decode bytes = Ret s → length p' ≠ (length bytes - 24)%nat →
  decode (take 24 bytes ++ p') = throw_status Status.PERSISTENCE_CORRUPT.
Proof.
  intros H Hlen.
  destruct (decode_inv _ _ H) as (v & l & c & p & -> & Hv & Hl & Hc & Ev & El & Ec & _).
  replace (take 24 (kMagic ++ v ++ l ++ c ++ p)) with (kMagic ++ v ++ l ++ c)
    by (rewrite !app_assoc; symmetry; apply take_parts; rewrite !length_app, length_magic; lia).
  rewrite <-!app_assoc, decode_parts by done. rewrite !length_app, length_magic in Hlen.
  rewrite decide_False by tauto. rewrite decide_False by (unfold kVersion in Ev; lia).
  rewrite decide_False by tauto. rewrite decide_True by lia. done.
Qed.

(** A snapshot of the sample policy, prices, a budget and one finalized request. *)
Definition sample_snapshot : DurableSnapshot := {|
  ds_epoch := mkId 1; ds_policy := sample_policy; ds_price_schedule := sample_schedule;
  ds_budgets := [sample_budget 1 100000000 BudgetMode.HARD];
  ds_history := [mkHistoryEntry (mkId 1) (mkId 2) 1000 (-5) 2 0];
  ds_interventions := [mkInterventionEntry (mkId 1) InterventionKind.REPLAN
    InterventionLifecycle.ACKNOWLEDGED (mkId 1) 900] |}.

#[global] Instance history_wf_dec h : Decision (history_wf h).
Proof. unfold history_wf. apply _. Defined.
#[global] Instance count_ok_dec {A} (l : list A) : Decision (count_ok l).
Proof. unfold count_ok. apply _. Defined.
#[global] Instance snapshot_values_dec s : Decision (snapshot_values s).
Proof.
  unfold snapshot_values, policy_wf, obs_wf, budget_wf, history_wf, interv_wf. apply _.
Defined.
#[global] Instance snapshot_wf_dec s : Decision (snapshot_wf s).
Proof.
  unfold snapshot_wf. apply _.
Defined.

Definition sample_bytes : list Z :=
  match encode sample_snapshot with Ret bytes => bytes | Throw _ => [] end.

(** ** Theorems *)

(** C10. Snapshots round-trip: every well-formed snapshot (64-bit values, strings of
    at most 16 MiB, at most a million entries of each kind) encodes, and decoding
    the bytes returns exactly that snapshot. *)
Theorem snapshot_roundtrip s :
  snapshot_wf s →
  ∃ bytes, encode s = Ret bytes ∧ Forall byte_ok bytes ∧ decode bytes = Ret s.
Proof.
  intros Hwf. destruct (encode_ret s (proj1 Hwf)) as [p Hp].
  assert (encode s = Ret (frame p)) as He by (unfold encode; by rewrite Hp).
  exists (frame p). split_and!; [done| |by apply decode_encode].
  unfold frame. rewrite !Forall_app. split_and!; try apply le_bytes_ok; [apply string_bytes_ok|].
  by eapply payload_bytes; [apply Hwf|].
Qed.

Lemma snapshot_roundtrip_witness :
  ∃ bytes, encode sample_snapshot = Ret bytes ∧ decode bytes = Ret sample_snapshot.
Proof.
  destruct (snapshot_roundtrip sample_snapshot) as (bytes & He & _ & Hd); [by_compute|].
  exists bytes. split; [exact He|exact Hd].
Defined.

(** C21. Any single damaged byte is detected: if a file decodes, the file with any
    one of its bytes replaced by another one does not; the damage is reported as
    corrupt, or as the unsupported version 1. *)
Theorem single_byte_corruption_detected bytes s i b b' :
  decode bytes = Ret s → Forall byte_ok bytes → bytes !! i = Some b → byte_ok b' → b' ≠ b →
  refused (<[i := b']> bytes).
Proof. apply decode_byte_changed. Qed.

Lemma single_byte_corruption_detected_witness : refused (<[30%nat := 77]> sample_bytes).
Proof.
  eapply (single_byte_corruption_detected sample_bytes sample_snapshot 30 0 77).
  - by vm_compute.
  - by_compute.
  - by vm_compute.
  - by_compute.
  - done.
Defined.

(** C26. Truncation and trailing garbage are detected: if a file decodes, every
    proper prefix of it and every extension of it is rejected as corrupt. *)
Theorem truncation_and_garbage_detected bytes s n extra :
  decode bytes = Ret s → (n < length bytes)%nat → extra ≠ [] →
  decode (take n bytes) = throw_status Status.PERSISTENCE_CORRUPT ∧
  decode (bytes ++ extra) = throw_status Status.PERSISTENCE_CORRUPT.
Proof.
  intros H Hn He.
  assert (24 ≤ length bytes)%nat as Hlen.
  { destruct (decode_inv _ _ H) as (v & l & c & p & -> & Hv & Hl & Hc & _).
    rewrite !length_app, length_magic. lia. }
  split.
  - destruct (decide (n < 24)%nat).
    { unfold decode, kHeader. rewrite decide_True; [done|]. rewrite length_take. lia. }
    rewrite <-(take_drop 24 (take n bytes)), take_take, Nat.min_l by lia.
    eapply decode_resized; [done|]. rewrite length_drop, length_take. lia.
  - rewrite <-(take_drop 24 bytes), <-app_assoc.
    rewrite <-(take_drop 24 bytes) in H at 1.
    replace (take 24 bytes) with (take 24 bytes) by done.
    eapply decode_resized; [by rewrite take_drop in H|].
    rewrite length_app, length_drop. destruct extra; [done|]. simpl. lia.
Qed.

Lemma truncation_and_garbage_detected_witness :
  decode (take 100 sample_bytes) = throw_status Status.PERSISTENCE_CORRUPT ∧
  decode (sample_bytes ++ [0]) = throw_status Status.PERSISTENCE_CORRUPT.
Proof.
  apply (truncation_and_garbage_detected sample_bytes sample_snapshot); [by vm_compute|by_compute|done].
Defined.

(** Decoding never fails in another way: on any bytes whatever it returns a
    snapshot or throws PERSISTENCE_CORRUPT or PERSISTENCE_UNSUPPORTED_VERSION, the
    latter exactly when the header is complete, the magic is right and the
    version is 1, whatever the payload. *)
Theorem decode_outcomes bytes :
  match decode bytes with
  | Ret _ => True
  | Throw e => e = StatusError Status.PERSISTENCE_CORRUPT ∨
               e = StatusError Status.PERSISTENCE_UNSUPPORTED_VERSION
  end ∧
  (decode bytes = throw_status Status.PERSISTENCE_UNSUPPORTED_VERSION ↔
     (24 ≤ length bytes)%nat ∧ take 8 bytes = kMagic ∧ of_le (take 4 (drop 8 bytes)) = 1).
Proof.
  assert (∀ p x, (read_payload p).1 = Throw x → x = StatusError Status.PERSISTENCE_CORRUPT) as Hp.
  { intros p x. destruct (read_payload p) as [r p'] eqn:Hr. simpl. intros ->. by eapply fails_payload. }
  unfold decode, kHeader. split.
  - repeat (case_decide; [cbn; by auto|]). destruct ((read_payload (drop 24 bytes)).1) as [?|e] eqn:Hr; [exact I|].
    left. by eapply Hp.
  - split.
    + case_decide; [done|]. case_decide; [done|]. case_decide; [intros _; split_and!; done || lia|].
      repeat (case_decide; [done|]). intros Hr. by apply Hp in Hr.
    + intros (? & ? & ?). rewrite decide_False by lia. rewrite decide_False by tauto.
      by rewrite decide_True.
Qed.

(** The writer accepts what the reader refuses: a well-formed snapshot with
    more than a million history entries encodes, but no governor can load the
    file again. *)
Theorem long_history_unreadable s :
  snapshot_values s → count_ok (s_observations (ds_price_schedule s)) → count_ok (ds_budgets s) →
  1000000 < Z.of_nat (length (ds_history s)) ≤ U32_MAX →
  ∃ bytes, encode s = Ret bytes ∧ ¬ is_Ret (decode bytes).
Proof.
  intros Hv Ho Hb Hn. destruct (encode_ret s Hv) as [w Hw]. unfold encode. rewrite Hw.
  cbn [res_bind]. eexists. split; [done|]. intros [s' Hd].
  unfold frame in Hd. rewrite decode_parts in Hd by (done || apply length_le_bytes).
  do 5 (case_decide; [done|]).
  destruct (read_write_prefix s w Hw Hv Ho Hb) as (hw & iw & Hhw & _ & Hr).
  rewrite Hr in Hd. unfold read_tail, st_bind at 1 in Hd.
  destruct (list_too_long (F := snapshot_format) read_history write_history (ds_history s) hw (iw ++ []) Hn Hhw) as [bs Hbs].
  by rewrite Hbs in Hd.
Qed.

(** A snapshot with 1000001 finalized requests. *)
Definition long_snapshot : DurableSnapshot :=
  mkDurableSnapshot (mkId 1) sample_policy sample_schedule []
    (replicate (Z.to_nat 1000001) (mkHistoryEntry (mkId 1) (mkId 2) 1000 5 2 0)) [].

Lemma long_history_unreadable_witness :
  ∃ bytes, encode long_snapshot = Ret bytes ∧ ¬ is_Ret (decode bytes).
Proof.
  apply (long_history_unreadable long_snapshot).
  - assert (snapshot_values sample_snapshot) as Hv by by_compute.
    unfold snapshot_values in *. destruct_and! Hv. split_and!; try assumption.
    + constructor.
    + apply Forall_replicate. by_compute.
    + constructor.
  - by_compute.
  - by_compute.
  - unfold long_snapshot. cbn [ds_history]. rewrite length_replicate, Z2Nat.id by lia. widths. lia.
Defined.
