(* ===== verification/Recovery.v ===== *)
(** * Recovery: the state store, persist and load

    Models [StateStore] of src/persistence.cpp over a map of files, and
    [CostGovernor::persist] and [CostGovernor::load] of src/governor.cpp.  The
    failures of the file system calls are the [IoFaults] argument; renaming a
    file replaces the target in one step, as POSIX [rename] does. *)

From stdpp Require Import prelude gmap strings.
From S2P Require Import Prelude Effects Money Identity Units Price Policy Budget Cost.
From S2P Require Import Plan Decision Samples Codec Snapshot Governor Evaluate Ledger System.
From S2P Require Import Accounts Fencing.
From stdpp Require Import options.

(** ** Files *)
Abbreviation Files := (gmap string (list Z)).

Record IoFaults := mkIoFaults {
  io_open_ok : bool;      (** the temporary file can be opened *)
  io_written : nat;       (** bytes that reach it when writing fails *)
  io_write_ok : bool;
  io_rename_ok : bool;
}.
Definition no_faults : IoFaults := mkIoFaults true 0 true true.

Definition tmp_path (path : string) : string := String.append path ".tmp".

(** [StateStore::save] *)
Definition save (io : IoFaults) (path : string) (s : DurableSnapshot) : St Files Status :=
  let* bytes := st_lift (encode s) in
  if negb (io_open_ok io) then st_ret Status.INTERVENTION_FAILED
  else if negb (io_write_ok io) then
    st_modify (<[tmp_path path := take (io_written io) bytes]>) ;;; st_ret Status.INTERVENTION_FAILED
  else
    st_modify (<[tmp_path path := bytes]>) ;;;
    if negb (io_rename_ok io) then st_ret Status.INTERVENTION_FAILED
    else st_modify (λ fs, <[path := bytes]> (delete (tmp_path path) fs)) ;;; st_ret Status.OK.

(** [StateStore::load]: a file that cannot be opened is corrupt. *)
Definition load_file (fs : Files) (path : string) : res DurableSnapshot :=
  match fs !! path with
  | None => throw_status Status.PERSISTENCE_CORRUPT
  | Some bytes => decode bytes
  end.

(** [StateStore::exists] and [StateStore::remove]: removing a file that is not
    there is no error, and [ok] is whether the file system call succeeds. *)
Definition exists_file (fs : Files) (path : string) : bool := bool_decide (is_Some (fs !! path)).
Definition remove_file (ok : bool) (path : string) : St Files bool :=
  if ok then st_modify (delete path) ;;; st_ret true else st_ret false.

(** The file systems a crash during [save] can leave: the temporary file holds
    some prefix of the bytes, or the rename has happened. *)
Inductive save_crash (path : string) (bytes : list Z) (fs : Files) : Files → Prop :=
  | crash_before : save_crash path bytes fs fs
  | crash_writing n : save_crash path bytes fs (<[tmp_path path := take n bytes]> fs)
  | crash_renamed :
      save_crash path bytes fs
        (<[path := bytes]> (delete (tmp_path path) (<[tmp_path path := bytes]> fs))).

(** ** persist *)

Definition intervention_entry (i : CostIntervention) : InterventionEntry :=
  mkInterventionEntry (i_id i) (i_kind i) (i_lifecycle i) (i_generation i) (i_created_at_ms i).

Definition snapshot_of `{IterOrder} (g : Impl) : DurableSnapshot := {|
  ds_epoch := g_epoch g; ds_policy := g_policy g; ds_price_schedule := g_schedule g;
  ds_budgets := stable_sort (λ a b, id_ltb (b_id a) (b_id b)) (budgets_of g);
  ds_history := g_history g;
  ds_interventions := intervention_entry <$> interventions_of g |}.

Definition persist `{IterOrder} (io : IoFaults) (g : Impl) : St Files Status :=
  match g_store g with
  | None => st_ret Status.INTERVENTION_FAILED
  | Some path => save io path (snapshot_of g)
  end.

(** ** load *)

Definition recover_budget (b : Budget) : Budget :=
  let bb := set_b_reserved 0 b in
  if is_zero (b_consumed bb) && is_zero (b_released bb)
     && bool_decide (b_lifecycle bb = BudgetLifecycle.RESERVED)
  then set_b_lifecycle BudgetLifecycle.ACTIVE bb else bb.

Definition recover_intervention (e : InterventionEntry) : CostIntervention := {|
  i_id := ie_id e; i_generation := ie_generation e; i_kind := ie_kind e;
  i_lifecycle := ie_lifecycle e; i_authority := no_authority;
  i_created_at_ms := ie_created_at_ms e; i_dispatched_at_ms := 0; i_acknowledged_at_ms := 0;
  i_verified_at_ms := 0; i_detail := EmptyString |}.

(** [unordered_map::emplace]: the first value of a key stays. *)
Definition emplace {T V} (key : V → Id T) (m : gmap (Id T) V) (v : V) : gmap (Id T) V :=
  match m !! key v with Some _ => m | None => <[key v := v]> m end.
Definition emplace_all {T V} (key : V → Id T) (l : list V) : gmap (Id T) V :=
  foldl (emplace key) ∅ l.

Definition load_snapshot (snap : DurableSnapshot) (g : Impl) : Impl := {|
  g_policy := ds_policy snap; g_schedule := ds_price_schedule snap; g_epoch := ds_epoch snap;
  g_worker_boots := g_worker_boots g; g_revalidation_needed := true;
  g_budgets := emplace_all b_id (recover_budget <$> ds_budgets snap);
  g_attempts := g_attempts g; g_reservations := g_reservations g; g_history := ds_history snap;
  g_interventions := emplace_all i_id (recover_intervention <$> ds_interventions snap);
  g_next_reservation := g_next_reservation g; g_next_intervention := g_next_intervention g;
  g_store := g_store g |}.

Definition load (fs : Files) : St Impl Status :=
  let* g := st_get in
  match g_store g with
  | None => st_ret Status.INTERVENTION_FAILED
  | Some path =>
      let* snap := st_lift (load_file fs path) in
      st_modify (load_snapshot snap) ;;; st_ret Status.OK
  end.

(** ** Lemmas *)

Lemma tmp_path_ne path : tmp_path path ≠ path.
Proof.
  intros H. apply (f_equal String.length) in H. unfold tmp_path in H.
  assert (∀ s t, String.length (String.append s t) = String.length s + String.length t)%nat as Hl.
  { intros s t. induction s; simpl; [done|]. by f_equal. }
  rewrite Hl in H. simpl in H. lia.
Qed.

Lemma save_crash_path path bytes fs fs' :
  save_crash path bytes fs fs' → fs' !! path = fs !! path ∨ fs' !! path = Some bytes.
Proof.
  pose proof (tmp_path_ne path) as Hne. destruct 1.
  - by left.
  - left. by rewrite lookup_insert_ne.
  - right. by rewrite lookup_insert_eq.
Qed.

(** Values with distinct keys are all found under their keys. *)
Lemma emplace_all_lookup {T V} (key : V → Id T) l :
  NoDup (key <$> l) → ∀ k v, emplace_all key l !! k = Some v ↔ v ∈ l ∧ key v = k.
Proof.
  unfold emplace_all. induction l as [|x l IH] using rev_ind; intros Hnd k v.
  { cbn. rewrite lookup_empty. set_solver. }
  rewrite fmap_app in Hnd. apply NoDup_app in Hnd as (Hnd & Hx & _). specialize (IH Hnd).
  assert (∀ y, y ∈ l → key y ≠ key x) as Hfresh.
  { intros y Hy Heq. apply (Hx (key y)); [by apply list_elem_of_fmap_2|set_solver]. }
  rewrite foldl_snoc. unfold emplace at 1.
  assert (foldl (emplace key) ∅ l !! key x = None) as ->.
  { apply eq_None_not_Some. intros [y Hy]. apply IH in Hy as [Hy Hk]. by apply (Hfresh y). }
  rewrite elem_of_app, list_elem_of_singleton. destruct (decide (key x = k)) as [<-|Hne].
  - rewrite lookup_insert_eq. split; [intros [= <-]; auto|].
    intros [[Hv| ->] Hk]; [by destruct (Hfresh v)|done].
  - rewrite lookup_insert_ne, IH by done. split; [tauto|]. intros [[Hv| ->] Hk]; [auto|done].
Qed.

Lemma emplace_all_eq {T V W} (key : W → Id T) (f : V → W) (m : gmap (Id T) V) l :
  l ≡ₚ (map_to_list m).*2 → (∀ k v, m !! k = Some v → key (f v) = k) →
  emplace_all key (f <$> l) = f <$> m.
Proof.
  intros Hl Hkey.
  assert (key <$> (f <$> l) ≡ₚ (map_to_list m).*1) as Hkeys.
  { rewrite Hl, <-!list_fmap_compose. apply reflexive_eq, Forall_fmap_ext, Forall_forall.
    intros [k v] Hin. apply elem_of_map_to_list in Hin. by apply Hkey. }
  apply map_eq. intros k. apply option_eq. intros w.
  rewrite emplace_all_lookup by (rewrite Hkeys; apply NoDup_fst_map_to_list).
  rewrite lookup_fmap, fmap_Some, list_elem_of_fmap. split.
  - intros [(v & -> & Hv) Hk]. rewrite Hl in Hv. apply list_elem_of_fmap in Hv as ([k' v'] & -> & Hin).
    apply elem_of_map_to_list in Hin. cbn in *. rewrite (Hkey _ _ Hin) in Hk. subst. by exists v'.
  - intros (v & Hv & ->). split; [|by apply Hkey]. exists v. split; [done|]. rewrite Hl.
    apply list_elem_of_fmap. exists (k, v). split; [done|]. by apply elem_of_map_to_list.
Qed.

(** Budgets and interventions are stored under their own ids. *)
Definition keyed (g : Impl) : Prop :=
  (∀ id b, g_budgets g !! id = Some b → b_id b = id) ∧
  (∀ id i, g_interventions g !! id = Some i → i_id i = id).

Lemma umap_values_perm `{IterOrder} {K V} `{Countable K} (m : gmap K V) :
  umap_values m ≡ₚ (map_to_list m).*2.
Proof. unfold umap_values. apply fmap_Permutation, umap_list_perm. Qed.

Lemma recovered_budgets `{IterOrder} g :
  keyed g →
  emplace_all b_id (recover_budget <$> ds_budgets (snapshot_of g)) = recover_budget <$> g_budgets g.
Proof.
  intros [Hk _]. apply emplace_all_eq.
  - cbn. rewrite stable_sort_perm. apply umap_values_perm.
  - intros k b Hb. unfold recover_budget. case_match; by apply Hk in Hb.
Qed.

Definition recover_int (i : CostIntervention) : CostIntervention :=
  recover_intervention (intervention_entry i).

Lemma recovered_interventions `{IterOrder} g :
  keyed g →
  emplace_all i_id (recover_intervention <$> ds_interventions (snapshot_of g))
  = recover_int <$> g_interventions g.
Proof.
  intros [_ Hk]. cbn. rewrite <-list_fmap_compose. apply emplace_all_eq.
  - apply umap_values_perm.
  - intros k i Hi. by apply Hk in Hi.
Qed.

Lemma reachable_keyed s : reachable s → keyed (sys_g s).
Proof.
  intros Hr. split.
  - intros id b Hb. by destruct (ok_accounts s (reachable_ok s Hr) id b Hb).
  - intros id i Hi. by apply (proj2 (reachable_books s Hr) id i).
Qed.

Lemma save_ok path s bytes fs :
  encode s = Ret bytes →
  save no_faults path s fs =
    (Ret Status.OK, <[path := bytes]> (delete (tmp_path path) (<[tmp_path path := bytes]> fs))).
Proof. intros He. unfold save, st_bind, st_lift. by rewrite He. Qed.

(** What a save leaves, whatever fails, is what a crash during it can leave. *)
Lemma save_leaves io path s bytes fs x fs' :
  encode s = Ret bytes → save io path s fs = (x, fs') → save_crash path bytes fs fs'.
Proof.
  intros He H. unfold save, st_bind, st_lift in H. rewrite He in H. cbn in H.
  destruct (io_open_ok io); cbn in H; [|injection H as _ <-; constructor].
  destruct (io_write_ok io); cbn in H; [|injection H as _ <-; constructor].
  destruct (io_rename_ok io); cbn in H; injection H as _ <-; [constructor|].
  rewrite <-(firstn_all bytes) at 2. constructor.
Qed.

(** Everything of a budget that a recovery keeps. *)
Definition same_funds (b b' : Budget) : Prop :=
  b_id b' = b_id b ∧ b_generation b' = b_generation b ∧ b_epoch b' = b_epoch b ∧
  b_policy_generation b' = b_policy_generation b ∧ b_currency b' = b_currency b ∧
  b_mode b' = b_mode b ∧ b_objective b' = b_objective b ∧ b_limit b' = b_limit b ∧
  b_consumed b' = b_consumed b ∧ b_released b' = b_released b ∧
  b_expires_at_ms b' = b_expires_at_ms b ∧
  (b_lifecycle b ≠ BudgetLifecycle.RESERVED → b_lifecycle b' = b_lifecycle b).

Lemma recover_budget_funds b :
  b_reserved (recover_budget b) = 0 ∧ same_funds b (recover_budget b).
Proof.
  unfold recover_budget, same_funds. destruct (_ && _) eqn:Hc; [|done].
  apply andb_true_iff in Hc as [_ Hc%bool_decide_eq_true]. cbn in Hc. by split_and!.
Qed.

(** Loading what [persist] wrote installs the persisted snapshot. *)
Lemma load_persisted `{IterOrder} g path g0 fs bytes :
  snapshot_wf (snapshot_of g) → encode (snapshot_of g) = Ret bytes → g_store g0 = Some path →
  ∃ fs', persist no_faults (set_g_store (Some path) g) fs = (Ret Status.OK, fs') ∧
    load fs' g0 = (Ret Status.OK, load_snapshot (snapshot_of g) g0).
Proof.
  intros Hwf He Hst.
  assert (decode bytes = Ret (snapshot_of g)) as Hd by by apply (decode_encode (snapshot_of g)).
  change (snapshot_of g) with (snapshot_of (set_g_store (Some path) g)) in He.
  unfold persist. cbn [g_store set_g_store]. rewrite (save_ok _ _ _ _ He).
  eexists. split; [done|]. unfold load, st_bind, st_get, st_lift. rewrite Hst. unfold load_file.
  by rewrite lookup_insert_eq, Hd.
Qed.

(** What [reserve] does on a budget whose epoch is not the governor's. *)
Lemma reserve_old_epoch now id gen ep amt g b x g' :
  g_budgets g !! id = Some b → b_epoch b ≠ g_epoch g → reserve now id gen ep amt g = (x, g') →
  x = Ret (Status.STALE_AUTHORITY, None) ∧ g' = g.
Proof.
  intros Hb Hep H. unfold reserve in H. st_simpl H. rewrite Hb in H.
  case_decide; [by simplify_eq|]. rewrite decide_True in H by done. by simplify_eq.
Qed.

(** A governor with a state file, a budget and an acknowledged intervention. *)
Definition durable_run : list Op :=
  [ op_set_policy sample_policy; op_set_price_schedule sample_schedule;
    op_create_budget (sample_budget 1 1000 BudgetMode.HARD);
    op_reserve clock0 (mkId 1) (mkId 1) (mkId 1) 600;
    op_propose (λ _, 7) sample_intervention; op_authorize (mkId 1) (mkId 1) ].
Definition durable_sys : Sys := default initial_sys (run durable_run initial_sys).
Definition durable_governor : Impl := set_g_store (Some "state.bin") (sys_g durable_sys).
Definition fresh_governor : Impl := set_g_store (Some "state.bin") initial.
Definition durable_files : Files :=
  ((@persist map_order no_faults durable_governor) ∅).2.

Definition default_token : BudgetReservation :=
  mkBudgetReservation no_id no_id no_id no_id 0 0 0 ReservationState.ACTIVE.

Lemma durable_reachable : reachable durable_sys.
Proof. apply (run_steps durable_run). by vm_compute. Qed.

(** ** Theorems *)

(** C22. Saving is atomic: once a snapshot is encoded, whatever fails and wherever a crash
    interrupts the save, the state file has its old content or all the bytes of the
    new one, never a part of them; every reported failure leaves it as it was, and
    after OK loading decodes exactly the bytes that were written.  They give back the
    snapshot that was saved when it is well-formed, within the reader's bounds of a
    million entries of each kind and 16 MiB for a string; beyond them OK is reported
    for a file that cannot be loaded. *)
Theorem save_is_atomic path s bytes fs :
  encode s = Ret bytes →
  (∀ fs', save_crash path bytes fs fs' →
     fs' !! path = fs !! path ∨ fs' !! path = Some bytes) ∧
  (∀ io x fs', save io path s fs = (x, fs') →
     save_crash path bytes fs fs' ∧
     (x = Ret Status.OK → load_file fs' path = decode bytes) ∧
     (x ≠ Ret Status.OK → fs' !! path = fs !! path)) ∧
  (snapshot_wf s → decode bytes = Ret s).
Proof.
  intros He. pose proof (tmp_path_ne path) as Hne. split_and!.
  - intros fs'. apply save_crash_path.
  - intros io x fs' H. split; [by eapply save_leaves|].
    unfold save, st_bind, st_lift in H. rewrite He in H. cbn in H. unfold load_file.
    destruct (io_open_ok io), (io_write_ok io), (io_rename_ok io); cbn in H; injection H as <- <-;
      rewrite ?lookup_insert_eq, ?lookup_insert_ne by done; done.
  - intros Hwf. by apply decode_encode.
Qed.

Lemma save_is_atomic_witness :
  (save (mkIoFaults true 10 false false) "state.bin" sample_snapshot ∅).2 !! "state.bin" = None ∧
  load_file (save no_faults "state.bin" sample_snapshot ∅).2 "state.bin" = Ret sample_snapshot.
Proof.
  destruct (save_is_atomic "state.bin" sample_snapshot sample_bytes ∅) as (_ & H1 & H2); [by vm_compute|].
  split.
  - eapply (H1 (mkIoFaults true 10 false false)); [apply surjective_pairing|by vm_compute].
  - rewrite <-(H2 ltac:(by_compute)).
    eapply (H1 no_faults); [apply surjective_pairing|by vm_compute].
Defined.

(** C11. Recovery restores the durable state exactly: persisting a reachable
    governor (one reached from an empty one by calls that return, of any method but
    [load], with budgets created with nothing reserved, consumed or released) whose
    snapshot is well-formed, without a file failure, and loading the file into any governor
    with the same path succeeds, and the loaded governor has the same epoch,
    policy, price schedule and history, every budget with its reserved amount
    dropped and its identity, limit, consumed and released amounts and expiry kept,
    every intervention with its identity, kind, lifecycle, generation
    and creation time, and asks for revalidation; attempts, reservations, worker
    boots and the id counters stay those of the loading process. *)
Theorem persist_then_load (I : IterOrder) s path g0 fs bytes :
  reachable s → snapshot_wf (snapshot_of (sys_g s)) →
  encode (snapshot_of (sys_g s)) = Ret bytes → g_store g0 = Some path →
  ∃ fs' g1, persist no_faults (set_g_store (Some path) (sys_g s)) fs = (Ret Status.OK, fs') ∧
    load fs' g0 = (Ret Status.OK, g1) ∧
    g_epoch g1 = g_epoch (sys_g s) ∧ g_policy g1 = g_policy (sys_g s) ∧
    g_schedule g1 = g_schedule (sys_g s) ∧ g_history g1 = g_history (sys_g s) ∧
    g_budgets g1 = recover_budget <$> g_budgets (sys_g s) ∧
    (∀ id b, g_budgets (sys_g s) !! id = Some b → ∃ b', g_budgets g1 !! id = Some b' ∧
       b_reserved b' = 0 ∧ same_funds b b') ∧
    g_interventions g1 = recover_int <$> g_interventions (sys_g s) ∧
    g_revalidation_needed g1 = true ∧ g_attempts g1 = g_attempts g0 ∧
    g_reservations g1 = g_reservations g0 ∧ g_worker_boots g1 = g_worker_boots g0 ∧
    g_next_reservation g1 = g_next_reservation g0 ∧
    g_next_intervention g1 = g_next_intervention g0.
Proof.
  intros Hr Hwf He Hst. pose proof (reachable_keyed s Hr) as Hk.
  destruct (load_persisted (sys_g s) path g0 fs bytes Hwf He Hst) as (fs' & Hp & Hl).
  eexists fs', _. split; [exact Hp|]. split; [exact Hl|].
  cbn [load_snapshot g_epoch g_policy g_schedule g_history g_budgets g_interventions
    g_revalidation_needed g_attempts g_reservations g_worker_boots g_next_reservation
    g_next_intervention].
  rewrite recovered_budgets, recovered_interventions by done. split_and!; try done.
  intros id b Hb. rewrite lookup_fmap, Hb. eexists. split; [done|]. apply recover_budget_funds.
Qed.

Lemma persist_then_load_witness :
  ∃ fs' g1, @persist map_order no_faults (set_g_store (Some "state.bin") (sys_g durable_sys)) ∅
      = (Ret Status.OK, fs') ∧
    load fs' fresh_governor = (Ret Status.OK, g1) ∧ g_epoch g1 = g_epoch (sys_g durable_sys).
Proof.
  edestruct (persist_then_load map_order durable_sys "state.bin" fresh_governor ∅)
    as (fs' & g1 & H1 & H2 & H3 & _);
    [apply durable_reachable|by_compute|by vm_compute|done|].
  exists fs', g1. split; [exact H1|]. split; [exact H2|exact H3].
Defined.

(** C34. Recovered state is not current authority: after a load, evaluation of any
    plans answers REVALIDATE with STALE_EVIDENCE, and no authorized decision
    passes dispatch validation. *)
Theorem loaded_state_requires_revalidation (I : IterOrder) fs g g1 now wg plans prior :
  load fs g = (Ret Status.OK, g1) →
  (∃ d, evaluate now g1 wg plans = Ret d ∧ d_kind d = DecisionKind.REVALIDATE ∧
        d_status d = Status.STALE_EVIDENCE) ∧
  (d_kind prior = DecisionKind.AUTHORIZE →
   validate_for_dispatch now g1 prior plans ≠ Ret Status.OK).
Proof.
  intros H. assert (g_revalidation_needed g1 = true) as Hrev.
  { unfold load in H. st_simpl H. destruct (g_store g); [|done].
    destruct (load_file fs _); [|done]. by injection H as <-. }
  split.
  - unfold evaluate. rewrite Hrev. by eexists.
  - intros Hk. unfold validate_for_dispatch. rewrite Hk, Hrev.
    rewrite decide_False by tauto. by repeat case_decide.
Qed.

Lemma loaded_state_requires_revalidation_witness :
  ∃ d, @evaluate map_order clock0 (load durable_files fresh_governor).2 (mkId 1) [] = Ret d ∧
    d_kind d = DecisionKind.REVALIDATE.
Proof.
  edestruct (loaded_state_requires_revalidation map_order durable_files fresh_governor
    (load durable_files fresh_governor).2 clock0 (mkId 1) [] (refusal DecisionKind.REJECT
      Status.OK FeasibilityReason.NONE EmptyString)) as [(d & Hd & Hk & _) _]; [by vm_compute|].
  exists d. split; [exact Hd|exact Hk].
Defined.

(** Recovered budgets cannot be reserved again: after a reachable governor is
    persisted, loaded and its epoch advanced as a restart does, every budget that
    was usable under the persisted epoch refuses every reservation as stale,
    whatever generation and epoch the caller gives, and a replacement under the
    same identity is refused too. *)
Theorem recovered_budgets_unusable (I : IterOrder) s path g0 fs id b bytes :
  reachable s → snapshot_wf (snapshot_of (sys_g s)) →
  encode (snapshot_of (sys_g s)) = Ret bytes → g_store g0 = Some path → g_budgets (sys_g s) !! id = Some b →
  b_epoch b = g_epoch (sys_g s) → id_ok (g_epoch (sys_g s)) →
  ∃ fs' g1, persist no_faults (set_g_store (Some path) (sys_g s)) fs = (Ret Status.OK, fs') ∧
    load fs' g0 = (Ret Status.OK, g1) ∧
    let g2 := (advance_epoch g1).2 in
    (∀ now gen ep amt,
       reserve now id gen ep amt g2 = (Ret (Status.STALE_AUTHORITY, None), g2)) ∧
    (∀ b', b_id b' = id → (create_budget b' g2).1 ≠ Ret Status.OK ∧ (create_budget b' g2).2 = g2).
Proof.
  intros Hr Hwf He Hst Hb Hep Hok. pose proof (reachable_keyed s Hr) as Hk.
  destruct (load_persisted (sys_g s) path g0 fs bytes Hwf He Hst) as (fs' & Hp & Hl).
  eexists fs', _. split; [exact Hp|]. split; [exact Hl|]. intros g2.
  assert (g_budgets g2 !! id = Some (recover_budget b)) as Hb2.
  { change (g_budgets g2) with (emplace_all b_id (recover_budget <$> ds_budgets (snapshot_of (sys_g s)))).
    by rewrite recovered_budgets, lookup_fmap, Hb. }
  assert (b_epoch (recover_budget b) ≠ g_epoch g2) as Hne.
  { assert (b_epoch (recover_budget b) = b_epoch b) as -> by (unfold recover_budget; by case_match).
    rewrite Hep. intros Heq. by apply (id_succ_ne (g_epoch (sys_g s))). }
  split.
  - intros now gen ep amt. destruct (reserve now id gen ep amt g2) as [x g'] eqn:H.
    by destruct (reserve_old_epoch now id gen ep amt g2 _ x g' Hb2 Hne H) as [-> ->].
  - intros b' Hb'. destruct (create_budget b' g2) as [x g'] eqn:H.
    apply create_budget_cases in H as [[-> ?]|(_ & _ & Hno & _)]; [done|]. congruence.
Qed.

Lemma recovered_budgets_unusable_witness :
  ∃ fs' g1, @persist map_order no_faults (set_g_store (Some "state.bin") (sys_g durable_sys)) ∅
      = (Ret Status.OK, fs') ∧
    load fs' fresh_governor = (Ret Status.OK, g1) ∧
    reserve clock0 (mkId 1) (mkId 1) (mkId 2) 10 (advance_epoch g1).2
      = (Ret (Status.STALE_AUTHORITY, None), (advance_epoch g1).2).
Proof.
  edestruct (recovered_budgets_unusable map_order durable_sys "state.bin" fresh_governor ∅ (mkId 1))
    as (fs' & g1 & H1 & H2 & H3 & _);
    [apply durable_reachable|by_compute|by vm_compute|done|by vm_compute
    |by vm_compute|by_compute|].
  exists fs', g1. split; [exact H1|]. split; [exact H2|exact (H3 _ _ _ _)].
Defined.

(** Loading under a live reservation breaks the accounts: [load] drops what is reserved
    and keeps the epoch, so a reservation granted before it can still be committed,
    and leaves the reserved amount negative. *)
Example load_under_reservation :
  let r := default default_token (last (sys_tokens durable_sys)) in
  let g := (load durable_files durable_governor).2 in
  let after := commit clock0 (g, r) in
  (b_reserved <$> g_budgets durable_governor !! mkId 1) = Some 600 ∧
  after.1 = Ret Status.OK ∧
  (b_reserved <$> g_budgets after.2.1 !! mkId 1) = Some (-600).
Proof. by vm_compute. Qed.

(** Intervention identities collide after a restart: the counter is not
    persisted, so the first proposal after a load reports OK under the identity
    of a recovered intervention, is not stored, and the recovered one answers
    under that identity. *)
Theorem restart_loses_proposals :
  let g1 := (load durable_files fresh_governor).2 in
  ∃ x g2, propose_intervention clock0 sample_intervention g1 = (Ret (Status.OK, x), g2) ∧
    i_id x = mkId 1 ∧ g_interventions g2 = g_interventions g1 ∧
    (i_lifecycle <$> g_interventions g2 !! i_id x) = Some InterventionLifecycle.AUTHORIZED ∧
    i_lifecycle x = InterventionLifecycle.PROPOSED.
Proof.
  intros g1. eexists _, _. split; [by vm_compute|]. split; [by vm_compute|].
  split; [by vm_compute|]. split; by vm_compute.
Qed.
