(* ===== verification/Wire.v ===== *)
(** * Wire: message codecs and framing of the distributed protocol

    Models distributed/chan.hpp and distributed/msgs.hpp.  A socket's incoming
    side is the list of chunks that successive [::recv] calls find, so that
    partial reads are explicit; its outgoing side is the list of results of
    successive [::send] calls.  The sockets themselves are not modelled. *)

From stdpp Require Import prelude gmap strings.
From S2P Require Import Prelude Effects Money Identity Units Price Policy Budget Cost.
From S2P Require Import Plan Decision Codec Samples.
From stdpp Require Import options.

(** ** Message types *)
Module Msg.
Inductive Msg :=
  | HELLO | PUBLISH_PRICE | REQUEST_EVAL | EVAL_RESULT | RECORD_ATTEMPT | REALIZE | GET_STATE
  | QUIT | RESERVE | COMMIT | RELEASE | PING | PONG | REVALIDATE | other (v : Z).

#[global] Instance Msg_eq_dec : EqDecision Msg.
Proof. solve_decision. Defined.

Definition Msg_to_u8 (e : Msg) : Z :=
  match e with
  | HELLO => 1
  | PUBLISH_PRICE => 2
  | REQUEST_EVAL => 3
  | EVAL_RESULT => 4
  | RECORD_ATTEMPT => 5
  | REALIZE => 6
  | GET_STATE => 7
  | QUIT => 8
  | RESERVE => 9
  | COMMIT => 10
  | RELEASE => 11
  | PING => 12
  | PONG => 13
  | REVALIDATE => 14
  | other v => v
  end.

Definition Msg_of_u8 (v : Z) : Msg :=
  match v with
  | 1 => HELLO
  | 2 => PUBLISH_PRICE
  | 3 => REQUEST_EVAL
  | 4 => EVAL_RESULT
  | 5 => RECORD_ATTEMPT
  | 6 => REALIZE
  | 7 => GET_STATE
  | 8 => QUIT
  | 9 => RESERVE
  | 10 => COMMIT
  | 11 => RELEASE
  | 12 => PING
  | 13 => PONG
  | 14 => REVALIDATE
  | _ => other v
  end.

#[global] Instance Msg_enum8 : Enum8 Msg.
Proof. refine {| to_u8 := Msg_to_u8; of_u8 := Msg_of_u8 |}. solve_enum8. Defined.
End Msg.
Abbreviation Msg := Msg.Msg.

Definition kMagic : Z := 0x43475301.
Definition kVersion : Z := 1.
Definition kMaxPayload : Z := 2 ^ 20.

(** The reader throws [std::runtime_error] and bounds strings by [kMaxPayload];
    the message handlers bound plan counts by 4096. *)
#[local] Instance wire_format : Format.
Proof.
  refine {| fmt_error := runtime_error; fmt_max_string := kMaxPayload; fmt_max_count := 4096 |}; done.
Defined.

(** ** Field codecs *)

(** [Writer::str]: the size is cast to [uint32_t] without a check. *)
Definition put_str (s : string) : res (list Z) :=
  let bytes := string_bytes s in
  let! n := w_u32 (Z.of_nat (length bytes) `mod` 2 ^ 32) in Ret (n ++ bytes).

Definition put_amount {u} (a : Amount u) : res (list Z) := w_i64 (count a).
Definition get_amount {u} : R (Amount u) := let* v := r_i64 in st_ret (mkAmount v).

Definition encode_price (o : PriceObservation) : res (list Z) := writes
  [ write_id (o_id o); w_enum (o_kind o); write_id (o_resource_scope o); write_id (o_device o);
    w_i64 (o_amount o); put_str (o_currency o); w_enum (o_provenance o); w_enum (o_label o);
    w_i64 (o_valid_from_ms o); w_i64 (o_valid_to_ms o); w_i64 (o_observed_at_ms o);
    write_id (o_generation o); write_id (o_epoch o); write_id (o_worker o); write_id (o_boot o) ].

Definition decode_price : R PriceObservation :=
  let* id := read_id in
  let* kind := r_enum in
  let* resource_scope := read_id in
  let* device := read_id in
  let* amount := r_i64 in
  let* currency := r_str in
  let* provenance := r_enum in
  let* label := r_enum in
  let* valid_from := r_i64 in
  let* valid_to := r_i64 in
  let* observed_at := r_i64 in
  let* generation := read_id in
  let* epoch := read_id in
  let* worker := read_id in
  let* boot := read_id in
  st_ret (mkPriceObservation id kind resource_scope device amount currency provenance label
            valid_from valid_to observed_at generation epoch worker boot).

Definition encode_plan (p : ExecutionPlan) : res (list Z) := writes
  [ write_id (p_id p); write_id (p_generation p); write_id (p_workload p);
    write_id (p_workload_generation p); write_id (p_resource p);
    write_id (p_resource_generation p); write_id (p_device p); write_id (p_device_generation p);
    write_id (p_worker p); put_amount (p_expected_accelerator_time p);
    put_amount (p_expected_energy p); put_amount (p_expected_transfer p);
    put_amount (p_expected_memory_hold p); put_amount (p_expected_residency_hold p);
    put_amount (p_expected_storage p); w_i64 (p_expected_retries p);
    w_i64 (p_expected_requests p); w_i64 (p_expected_tokens p); w_i64 (p_expected_operations p);
    w_enum (p_label p); w_bool (p_meets_hard_slo p);
    w_i64 (p_completion_probability_percent p) ].

(** The fields that are not on the wire keep their default member initializers. *)
Definition decode_plan : R ExecutionPlan :=
  let* id := read_id in
  let* generation := read_id in
  let* workload := read_id in
  let* workload_generation := read_id in
  let* resource := read_id in
  let* resource_generation := read_id in
  let* device := read_id in
  let* device_generation := read_id in
  let* worker := read_id in
  let* accelerator_time := get_amount in
  let* energy := get_amount in
  let* transfer := get_amount in
  let* memory_hold := get_amount in
  let* residency_hold := get_amount in
  let* storage := get_amount in
  let* retries := r_i64 in
  let* requests := r_i64 in
  let* tokens := r_i64 in
  let* operations := r_i64 in
  let* label := r_enum in
  let* meets_hard_slo := r_bool in
  let* completion := r_i64 in
  st_ret {|
    p_id := id; p_generation := generation; p_workload := workload;
    p_workload_generation := workload_generation; p_resource := resource;
    p_resource_generation := resource_generation; p_device := device;
    p_device_generation := device_generation; p_placement := no_id;
    p_placement_generation := no_id; p_recovery_generation := no_id; p_worker := worker;
    p_expected_accelerator_time := accelerator_time; p_expected_energy := energy;
    p_expected_transfer := transfer; p_expected_memory_hold := memory_hold;
    p_expected_residency_hold := residency_hold; p_expected_storage := storage;
    p_expected_retries := retries; p_expected_requests := requests; p_expected_tokens := tokens;
    p_expected_operations := operations; p_recovery := RecoveryKind.NONE;
    p_recovery_recompute_ns := 0; p_meets_hard_slo := meets_hard_slo;
    p_completion_probability_percent := completion; p_label := label |}.

Definition encode_evidence (e : CostEvidence) : res (list Z) := writes
  [ write_id (e_id e); write_id (e_request e); write_id (e_workload e); write_id (e_attempt e);
    write_id (e_attempt_gen e); write_id (e_worker e); write_id (e_boot e); write_id (e_epoch e);
    write_id (e_generation e); w_i64 (e_observed_at_ms e); write_id (e_device e);
    write_id (e_resource e); w_enum (e_label e); w_bool (e_completed_successfully e);
    w_bool (e_is_completion e); put_amount (e_accelerator_time e); put_amount (e_energy e);
    put_amount (e_transfer e); put_amount (e_memory_hold e); put_amount (e_residency_hold e);
    put_amount (e_storage_bytes e); w_i64 (e_requests e); w_i64 (e_tokens e);
    w_i64 (e_operations e); w_i64 (e_recovery_actions e); w_i64 (e_recompute_ns e) ].

Definition decode_evidence : R CostEvidence :=
  let* id := read_id in
  let* request := read_id in
  let* workload := read_id in
  let* attempt := read_id in
  let* attempt_gen := read_id in
  let* worker := read_id in
  let* boot := read_id in
  let* epoch := read_id in
  let* generation := read_id in
  let* observed_at := r_i64 in
  let* device := read_id in
  let* resource := read_id in
  let* label := r_enum in
  let* completed := r_bool in
  let* is_completion := r_bool in
  let* accelerator_time := get_amount in
  let* energy := get_amount in
  let* transfer := get_amount in
  let* memory_hold := get_amount in
  let* residency_hold := get_amount in
  let* storage := get_amount in
  let* requests := r_i64 in
  let* tokens := r_i64 in
  let* operations := r_i64 in
  let* recovery_actions := r_i64 in
  let* recompute_ns := r_i64 in
  st_ret (mkCostEvidence id request workload attempt attempt_gen worker boot epoch generation
            observed_at label completed is_completion device resource accelerator_time energy
            transfer memory_hold residency_hold storage requests tokens operations
            recovery_actions recompute_ns).

(** The summary of a decision that is sent back. *)
Record DecisionResult := mkDecisionResult {
  dr_kind : Z;
  dr_selected : Z;
  dr_total_micros : Z;
  dr_rejected_count : Z;
  dr_state : Z;
  dr_status : Z;
}.

Definition encode_decision (d : CostDecision) : res (list Z) := writes
  [ w_u8 (DecisionKind.DecisionKind_to_u8 (d_kind d)); write_id (d_selected_plan d);
    w_i64 (cb_total (d_projected d)); w_u64 (Z.of_nat (length (d_rejected_plans d)));
    w_u8 (CostState.CostState_to_u8 (d_state d)); w_u8 (Status.Status_to_u8 (d_status d)) ].

Definition decode_decision : R DecisionResult :=
  let* kind := r_u8 in
  let* selected := r_u64 in
  let* total := r_i64 in
  let* rejected := r_u64 in
  let* state := r_u8 in
  let* status := r_u8 in
  st_ret (mkDecisionResult kind selected total rejected state status).

(** ** Sockets *)

(** What one [::send] call answers: the bytes it took (zero or negative: it failed), or
    the WSAEWOULDBLOCK that the Windows build tries again on; elsewhere that error is
    a negative result like any other. *)
Inductive SendResult := sent (n : Z) | would_block.
Coercion sent : Z >-> SendResult.

(** [Sock::send_all]: [rs] are the results of the [::send] calls; the bytes that
    went out are returned with the outcome and the results not yet used. *)
Fixpoint send_all (rs : list SendResult) (d : list Z) : bool * list Z * list SendResult :=
  match d with
  | [] => (true, [], rs)
  | _ :: _ =>
      match rs with
      | [] => (false, [], [])
      | would_block :: rs' => send_all rs' d
      | sent n :: rs' =>
          if decide (n ≤ 0) then (false, [], rs')
          else
            let '(ok, out, rest) := send_all rs' (drop (Z.to_nat n) d) in
            (ok, take (Z.to_nat n) d ++ out, rest)
      end
  end.

(** [Sock::recv_all]: the state is the chunks that the [::recv] calls find; an
    empty chunk, or none, is the end of the stream or an error. *)
Fixpoint recv_all (n : nat) (chunks : list (list Z)) : option (list Z) * list (list Z) :=
  match n with
  | O => (Some [], chunks)
  | S _ =>
      match chunks with
      | [] => (None, [])
      | [] :: cs => (None, cs)
      | c :: cs =>
          if decide (length c ≤ n)%nat then
            let '(r, cs') := recv_all (n - length c) cs in ((c ++.) <$> r, cs')
          else (Some (take n c), drop n c :: cs)
      end
  end.

(** ** Frames *)

Definition kHeader : nat := 16.

Definition header (type : Msg) (payload : list Z) : res (list Z) := writes
  [ w_u32 kMagic; w_u16 kVersion; w_enum type; w_u8 0; w_u32 (Z.of_nat (length payload));
    w_u32 (crc32 payload) ].

Definition read_header : R (Z * Z * Msg * Z * Z) :=
  let* magic := r_u32 in
  let* ver := r_u16 in
  let* t := r_enum in
  let* flags := r_u8 in
  let* len := r_u32 in
  let* crc := r_u32 in
  st_ret (magic, ver, t, len, crc).

(** [FramedEndpoint::send]: whether both parts went out, and the bytes that did. *)
Definition send (rs : list SendResult) (type : Msg) (payload : list Z) : res (bool * list Z) :=
  if decide (Z.of_nat (length payload) > kMaxPayload) then Throw runtime_error
  else
    let! hdr := header type payload in
    let '(ok, out, rs') := send_all rs hdr in
    if negb ok then Ret (false, out)
    else
      match payload with
      | [] => Ret (true, out)
      | _ => let '(ok', out', _) := send_all rs' payload in Ret (ok', out ++ out')
      end.

(** [FramedEndpoint::recv]: [None] is the end of the transport. *)
Definition recv : St (list (list Z)) (option (Msg * list Z)) := λ chunks,
  match recv_all kHeader chunks with
  | (None, cs) => (Ret None, cs)
  | (Some hdr, cs) =>
      match (read_header hdr).1 with
      | Throw e => (Throw e, cs)
      | Ret (magic, ver, t, len, crc) =>
          if decide (magic ≠ kMagic) then (Throw runtime_error, cs)
          else if decide (ver ≠ kVersion) then (Throw runtime_error, cs)
          else if decide (len > kMaxPayload) then (Throw runtime_error, cs)
          else
            match recv_all (Z.to_nat len) cs with
            | (None, cs') => (Ret None, cs')
            | (Some payload, cs') =>
                if decide (crc32 payload ≠ crc) then (Throw runtime_error, cs')
                else (Ret (Some (t, payload)), cs')
            end
      end
  end.
