(* ===== verification/WireFacts.v ===== *)
(** * WireFacts: what the distributed protocol carries and what it detects

    Round trips of the message codecs and of frames under partial reads and
    writes, the corruption a frame detects, and what it does not protect. *)

From stdpp Require Import prelude gmap strings.
From S2P Require Import Prelude Effects Money Identity Units Price Policy Budget Cost.
From S2P Require Import Plan Decision Codec Samples Wire.
From stdpp Require Import options.

#[local] Existing Instance wire_format.

(** ** Message codecs *)

Lemma reads_put_str s x : put_str s = Ret x → string_ok s → reads r_str x s.
Proof.
  intros Hx Hs. apply reads_str; [done|]. rewrite <-Hx. unfold string_ok in Hs. cbn in Hs.
  unfold w_str, put_str, kMaxPayload in *. rewrite decide_False by (widths; lia).
  by rewrite Z.mod_small by lia.
Qed.

Lemma reads_put_amount {u} (a : Amount u) x :
  put_amount a = Ret x → in_i64 (count a) → reads get_amount x a.
Proof.
  intros Hx Ha. pose proof (reads_map r_i64 (mkAmount (u := u)) x (count a) (reads_w_i64 _ _ Hx Ha)) as H.
  by destruct a.
Qed.

Lemma reads_w_u8 v x : w_u8 v = Ret x → byte_ok v → reads r_u8 x v.
Proof. intros [= <-] ?. by apply reads_u8. Qed.
Lemma reads_w_u16 v x : w_u16 v = Ret x → 0 ≤ v < 2 ^ 16 → reads r_u16 x v.
Proof. intros H ?. assert (x = le_bytes 2 v) as -> by (unfold w_u16 in H; congruence). by apply reads_u16. Qed.
Lemma reads_w_u32 v x : w_u32 v = Ret x → 0 ≤ v ≤ U32_MAX → reads r_u32 x v.
Proof. intros H ?. assert (x = le_bytes 4 v) as -> by (unfold w_u32 in H; congruence). by apply reads_u32. Qed.
Lemma reads_w_u64 v x : w_u64 v = Ret x → in_u64 v → reads r_u64 x v.
Proof. intros H ?. assert (x = le_bytes 8 v) as -> by (unfold w_u64 in H; congruence). by apply reads_u64. Qed.

#[local] Hint Resolve reads_put_str reads_put_amount reads_w_u8 reads_w_u16 reads_w_u32 reads_w_u64
  : codec.

(** The values of the C++ types, within the reader's bound on strings. *)
Definition price_ok (o : PriceObservation) : Prop :=
  id_ok (o_id o) ∧ enum_ok (o_kind o) ∧ id_ok (o_resource_scope o) ∧ id_ok (o_device o) ∧
  in_i64 (o_amount o) ∧ string_ok (o_currency o) ∧ enum_ok (o_provenance o) ∧ enum_ok (o_label o) ∧
  in_i64 (o_valid_from_ms o) ∧ in_i64 (o_valid_to_ms o) ∧ in_i64 (o_observed_at_ms o) ∧
  id_ok (o_generation o) ∧ id_ok (o_epoch o) ∧ id_ok (o_worker o) ∧ id_ok (o_boot o).

Definition usage_ok (e : CostEvidence) : Prop :=
  id_ok (e_id e) ∧ id_ok (e_request e) ∧ id_ok (e_workload e) ∧ id_ok (e_attempt e) ∧
  id_ok (e_attempt_gen e) ∧ id_ok (e_worker e) ∧ id_ok (e_boot e) ∧ id_ok (e_epoch e) ∧
  id_ok (e_generation e) ∧ in_i64 (e_observed_at_ms e) ∧ id_ok (e_device e) ∧ id_ok (e_resource e) ∧
  enum_ok (e_label e) ∧ in_i64 (count (e_accelerator_time e)) ∧ in_i64 (count (e_energy e)) ∧
  in_i64 (count (e_transfer e)) ∧ in_i64 (count (e_memory_hold e)) ∧
  in_i64 (count (e_residency_hold e)) ∧ in_i64 (count (e_storage_bytes e)) ∧
  in_i64 (e_requests e) ∧ in_i64 (e_tokens e) ∧ in_i64 (e_operations e) ∧
  in_i64 (e_recovery_actions e) ∧ in_i64 (e_recompute_ns e).

Definition candidate_ok (p : ExecutionPlan) : Prop :=
  id_ok (p_id p) ∧ id_ok (p_generation p) ∧ id_ok (p_workload p) ∧ id_ok (p_workload_generation p) ∧
  id_ok (p_resource p) ∧ id_ok (p_resource_generation p) ∧ id_ok (p_device p) ∧
  id_ok (p_device_generation p) ∧ id_ok (p_worker p) ∧
  in_i64 (count (p_expected_accelerator_time p)) ∧ in_i64 (count (p_expected_energy p)) ∧
  in_i64 (count (p_expected_transfer p)) ∧ in_i64 (count (p_expected_memory_hold p)) ∧
  in_i64 (count (p_expected_residency_hold p)) ∧ in_i64 (count (p_expected_storage p)) ∧
  in_i64 (p_expected_retries p) ∧ in_i64 (p_expected_requests p) ∧ in_i64 (p_expected_tokens p) ∧
  in_i64 (p_expected_operations p) ∧ enum_ok (p_label p) ∧
  in_i64 (p_completion_probability_percent p).

Definition decision_ok (d : CostDecision) : Prop :=
  id_ok (d_selected_plan d) ∧ in_i64 (cb_total (d_projected d)) ∧
  Z.of_nat (length (d_rejected_plans d)) ≤ U64_MAX.

#[global] Instance price_ok_dec o : Decision (price_ok o).
Proof. unfold price_ok. apply _. Defined.
#[global] Instance usage_ok_dec e : Decision (usage_ok e).
Proof. unfold usage_ok. apply _. Defined.
#[global] Instance candidate_ok_dec p : Decision (candidate_ok p).
Proof. unfold candidate_ok. apply _. Defined.
#[global] Instance decision_ok_dec d : Decision (decision_ok d).
Proof. unfold decision_ok. apply _. Defined.

(** What a plan becomes on the other side. *)
Definition wire_plan (p : ExecutionPlan) : ExecutionPlan := {|
  p_id := p_id p; p_generation := p_generation p; p_workload := p_workload p;
  p_workload_generation := p_workload_generation p; p_resource := p_resource p;
  p_resource_generation := p_resource_generation p; p_device := p_device p;
  p_device_generation := p_device_generation p; p_placement := no_id;
  p_placement_generation := no_id; p_recovery_generation := no_id; p_worker := p_worker p;
  p_expected_accelerator_time := p_expected_accelerator_time p;
  p_expected_energy := p_expected_energy p; p_expected_transfer := p_expected_transfer p;
  p_expected_memory_hold := p_expected_memory_hold p;
  p_expected_residency_hold := p_expected_residency_hold p;
  p_expected_storage := p_expected_storage p; p_expected_retries := p_expected_retries p;
  p_expected_requests := p_expected_requests p; p_expected_tokens := p_expected_tokens p;
  p_expected_operations := p_expected_operations p; p_recovery := RecoveryKind.NONE;
  p_recovery_recompute_ns := 0; p_meets_hard_slo := p_meets_hard_slo p;
  p_completion_probability_percent := p_completion_probability_percent p; p_label := p_label p |}.

Definition decision_summary (d : CostDecision) : DecisionResult := {|
  dr_kind := DecisionKind.DecisionKind_to_u8 (d_kind d); dr_selected := value (d_selected_plan d);
  dr_total_micros := cb_total (d_projected d);
  dr_rejected_count := Z.of_nat (length (d_rejected_plans d));
  dr_state := CostState.CostState_to_u8 (d_state d); dr_status := Status.Status_to_u8 (d_status d) |}.

(** As [read_fields], when the value read is not a variable. *)
Ltac read_fields_as H :=
  repeat (let x := fresh "x" in let Hx := fresh "Hx" in
          apply writes_cons in H as (x & ? & Hx & H & ->));
  injection H as <-;
  repeat (eapply reads_bind; [by eauto with codec|]); apply reads_ret.

Lemma reads_price o w : encode_price o = Ret w → price_ok o → reads decode_price w o.
Proof.
  unfold encode_price, price_ok. intros H Ho. destruct_and! Ho. unfold decode_price. read_fields H.
Qed.

Lemma reads_evidence e w : encode_evidence e = Ret w → usage_ok e → reads decode_evidence w e.
Proof.
  unfold encode_evidence, usage_ok. intros H He. destruct_and! He. unfold decode_evidence. read_fields H.
Qed.

Lemma reads_plan p w : encode_plan p = Ret w → candidate_ok p → reads decode_plan w (wire_plan p).
Proof.
  unfold encode_plan, candidate_ok. intros H Hp. destruct_and! Hp. unfold decode_plan. read_fields_as H.
Qed.

Lemma reads_decision d w :
  encode_decision d = Ret w → decision_ok d → reads decode_decision w (decision_summary d).
Proof.
  unfold encode_decision, decision_ok. intros H Hd. destruct_and! Hd.
  assert (byte_ok (DecisionKind.DecisionKind_to_u8 (d_kind d))) by (by destruct (d_kind d)).
  assert (byte_ok (CostState.CostState_to_u8 (d_state d))) by (by destruct (d_state d)).
  assert (byte_ok (Status.Status_to_u8 (d_status d))) by (by destruct (d_status d)).
  assert (in_u64 (Z.of_nat (length (d_rejected_plans d)))) by (widths; lia).
  unfold decode_decision. unfold write_id in H. read_fields_as H.
Qed.

Lemma wire_writes_ret :
  (∀ o, is_Ret (encode_price o)) ∧ (∀ e, is_Ret (encode_evidence e)) ∧
  (∀ p, is_Ret (encode_plan p)) ∧ (∀ d, is_Ret (encode_decision d)).
Proof. split_and!; intros x; apply writes_ret; repeat constructor; by eexists. Qed.

(** ** Sockets *)

Lemma send_all_spec rs d ok out rest :
  send_all rs d = (ok, out, rest) → out `prefix_of` d ∧ (ok = true → out = d).
Proof.
  revert d out rest. induction rs as [|[n|] rs IH]; intros [|b d] out rest H; cbn in H.
  1,3,5: by simplify_eq.
  { simplify_eq. split; [apply prefix_nil|done]. }
  2: by eapply IH.
  case_decide; [simplify_eq; split; [apply prefix_nil|done]|].
  destruct (send_all rs (drop (Z.to_nat n) (b :: d))) as [[ok' out'] rest'] eqn:Hs. simplify_eq.
  apply IH in Hs as [Hp Ho]. split.
  - rewrite <-(take_drop (Z.to_nat n) (b :: d)) at 2. by apply prefix_app.
  - intros Hok. rewrite (Ho Hok). apply take_drop.
Qed.

(** The chunks of a live stream: [::recv] found at least one byte each time. *)
Abbreviation live := (Forall (λ c : list Z, c ≠ [])) (only parsing).

Lemma recv_all_spec n chunks :
  live chunks →
  ∃ cs, recv_all n chunks =
      (if decide (n ≤ length (mjoin chunks))%nat then Some (take n (mjoin chunks)) else None, cs) ∧
    mjoin cs = drop n (mjoin chunks) ∧ live cs.
Proof.
  intros Hl. revert n. induction Hl as [|c cs Hc Hl IH]; intros [|n].
  - exists []. by rewrite decide_True by (cbn; lia).
  - exists []. cbn. by rewrite decide_False by lia.
  - exists (c :: cs). rewrite decide_True by lia. split_and!; [done|done|by constructor].
  - destruct c as [|b c]; [done|]. cbn [recv_all]. case_decide as Hle.
    + destruct (IH (S n - length (b :: c))%nat) as (cs' & -> & Hd & Hl'). exists cs'.
      change (mjoin ((b :: c) :: cs)) with ((b :: c) ++ mjoin cs).
      rewrite length_app, Hd, drop_app_ge, take_app_ge by done. split_and!; [|done|done].
      f_equal. case_decide as Hn; case_decide; simpl in *; (done || lia).
    + exists (drop (S n) (b :: c) :: cs). change (mjoin ((b :: c) :: cs)) with ((b :: c) ++ mjoin cs).
      rewrite length_app, decide_True by lia. rewrite take_app_le by lia. split_and!; [done| |].
      * change (mjoin (drop (S n) (b :: c) :: cs)) with (drop (S n) (b :: c) ++ mjoin cs).
        by rewrite drop_app_le by lia.
      * constructor; [|done]. intros Hn%(f_equal length). rewrite length_drop in Hn. cbn in *. lia.
Qed.

(** ** Frames *)

Lemma read_header_parts m v t f l c :
  length m = 4%nat → length v = 2%nat → length l = 4%nat → length c = 4%nat →
  (read_header (m ++ v ++ [t] ++ [f] ++ l ++ c)).1 = Ret (of_le m, of_le v, Msg.Msg_of_u8 t, of_le l, of_le c).
Proof.
  intros Hm Hv Hl Hc.
  assert (∀ k w, length w = k → reads (let* bs := r_take k in st_ret (of_le bs)) w (of_le w)) as Hr.
  { intros k w Hw. by apply reads_map, reads_take. }
  assert (reads r_enum [t] (Msg.Msg_of_u8 t)) as Ht.
  { pose proof (reads_map r_u8 Msg.Msg_of_u8 [t] t) as H. apply H. intros rest. unfold r_u8, st_bind.
    rewrite (reads_take 1 [t]) by done. cbn. by rewrite Z.lor_0_r. }
  unfold read_header. rewrite (run_bind _ _ _ _ _ (Hr 4%nat m Hm)), (run_bind _ _ _ _ _ (Hr 2%nat v Hv)).
  rewrite (run_bind _ _ _ _ _ Ht), (run_bind _ _ _ _ _ (Hr 1%nat [f] eq_refl)).
  rewrite (run_bind _ _ _ _ _ (Hr 4%nat l Hl)).
  pose proof (Hr 4%nat c Hc []) as He. rewrite app_nil_r in He.
  change (let* bs := r_take 4 in st_ret (of_le bs)) with r_u32 in He.
  unfold st_bind. by rewrite He.
Qed.

Definition frame_bytes (type : Msg) (payload : list Z) : list Z :=
  le_bytes 4 kMagic ++ le_bytes 2 kVersion ++ [to_u8 type] ++ [0]
    ++ le_bytes 4 (Z.of_nat (length payload)) ++ le_bytes 4 (crc32 payload).

Lemma header_eq type payload : header type payload = Ret (frame_bytes type payload).
Proof. unfold header, frame_bytes. cbn [writes res_bind w_u32 w_u16 w_enum w_u8]. by rewrite app_nil_r. Qed.

Lemma length_frame_bytes type payload : length (frame_bytes type payload) = kHeader.
Proof. unfold frame_bytes. by rewrite !length_app, !length_le_bytes. Qed.

(** A frame that was sent completely is its header and its payload. *)
Lemma send_spec rs type payload w :
  send rs type payload = Ret (true, w) →
  Z.of_nat (length payload) ≤ kMaxPayload ∧ w = frame_bytes type payload ++ payload.
Proof.
  unfold send. case_decide as Hlen; [done|]. rewrite header_eq. cbn [res_bind].
  destruct (send_all rs _) as [[ok out] rs'] eqn:Hs. apply send_all_spec in Hs as [_ Hs].
  destruct ok; cbn [negb]; [|done]. rewrite (Hs eq_refl). intros H. split; [lia|].
  destruct payload as [|b p]; [rewrite app_nil_r; congruence|].
  destruct (send_all rs' (b :: p)) as [[ok' out'] rest] eqn:Hs'. apply send_all_spec in Hs' as [_ Hs'].
  assert (ok' = true) as -> by congruence. rewrite (Hs' eq_refl) in H. congruence.
Qed.

(** [recv] as a function of the bytes of the stream, however they are chunked. *)
Definition recv_bytes (bs : list Z) : res (option (Msg * list Z)) * list Z :=
  if decide (length bs < kHeader)%nat then (Ret None, [])
  else
    let rest := drop kHeader bs in
    match (read_header (take kHeader bs)).1 with
    | Throw e => (Throw e, rest)
    | Ret (magic, ver, t, len, crc) =>
        if decide (magic ≠ kMagic ∨ ver ≠ kVersion ∨ len > kMaxPayload) then (Throw runtime_error, rest)
        else if decide (length rest < Z.to_nat len)%nat then (Ret None, [])
        else if decide (crc32 (take (Z.to_nat len) rest) ≠ crc)
        then (Throw runtime_error, drop (Z.to_nat len) rest)
        else (Ret (Some (t, take (Z.to_nat len) rest)), drop (Z.to_nat len) rest)
    end.

Lemma recv_recv_bytes chunks :
  live chunks → ∃ cs, recv chunks = ((recv_bytes (mjoin chunks)).1, cs) ∧
    mjoin cs = (recv_bytes (mjoin chunks)).2 ∧ live cs.
Proof.
  intros Hl. unfold recv, recv_bytes. destruct (recv_all_spec kHeader chunks Hl) as (cs & -> & Hd & Hlc).
  destruct (decide (length (mjoin chunks) < kHeader)%nat) as [Hs|Hs].
  { rewrite decide_False by lia. exists cs. split_and!; [done| |done].
    rewrite Hd. apply drop_ge. lia. }
  rewrite decide_True by lia. set (rest := drop kHeader (mjoin chunks)) in *.
  destruct (read_header (take kHeader (mjoin chunks))).1 as [[[[[m v] t] l] c]|e]; [|by exists cs].
  destruct (decide (m ≠ kMagic ∨ v ≠ kVersion ∨ l > kMaxPayload)) as [Hb|Hg].
  { exists cs. split_and!; [|done|done]. repeat case_decide; (done || tauto). }
  rewrite !decide_False by tauto.
  destruct (recv_all_spec (Z.to_nat l) cs Hlc) as (cs' & -> & Hd' & Hlc'). rewrite Hd in *. exists cs'.
  destruct (decide (length rest < Z.to_nat l)%nat) as [Hs'|Hs'].
  { rewrite decide_False by lia. split_and!; [done| |done]. rewrite Hd'. apply drop_ge. lia. }
  rewrite decide_True by lia. by case_decide.
Qed.

Lemma recv_bytes_parts m v t f l c tail :
  length m = 4%nat → length v = 2%nat → length l = 4%nat → length c = 4%nat →
  recv_bytes ((m ++ v ++ [t] ++ [f] ++ l ++ c) ++ tail) =
    if decide (of_le m ≠ kMagic ∨ of_le v ≠ kVersion ∨ of_le l > kMaxPayload)
    then (Throw runtime_error, tail)
    else if decide (length tail < Z.to_nat (of_le l))%nat then (Ret None, [])
    else if decide (crc32 (take (Z.to_nat (of_le l)) tail) ≠ of_le c)
    then (Throw runtime_error, drop (Z.to_nat (of_le l)) tail)
    else (Ret (Some (Msg.Msg_of_u8 t, take (Z.to_nat (of_le l)) tail)), drop (Z.to_nat (of_le l)) tail).
Proof.
  intros Hm Hv Hl Hc. set (h := m ++ v ++ [t] ++ [f] ++ l ++ c).
  assert (length h = kHeader) as Hh by (unfold h; rewrite !length_app, Hm, Hv, Hl, Hc; done).
  unfold recv_bytes. rewrite decide_False by (rewrite length_app; lia).
  rewrite take_app_length', drop_app_length' by done. unfold h. by rewrite read_header_parts.
Qed.

(** The header of a frame with its six fields replaced by bytes that still say
    what [recv] checks. *)
Lemma recv_bytes_good type payload t f rest :
  Z.of_nat (length payload) ≤ kMaxPayload → Forall byte_ok payload →
  recv_bytes ((le_bytes 4 kMagic ++ le_bytes 2 kVersion ++ [t] ++ [f]
      ++ le_bytes 4 (Z.of_nat (length payload)) ++ le_bytes 4 (crc32 payload)) ++ payload ++ rest)
    = (Ret (Some (type, payload)), rest) ↔ Msg.Msg_of_u8 t = type.
Proof.
  intros Hlen Hb. unfold kMaxPayload in Hlen. pose proof (crc32_range payload Hb) as Hcrc.
  rewrite recv_bytes_parts by apply length_le_bytes.
  rewrite !of_le_le_bytes by (done || (widths; lia) || lia). rewrite Nat2Z.id.
  rewrite take_app_length, drop_app_length, length_app.
  rewrite decide_False by (intros [|[|]]; try done; unfold kMaxPayload in *; lia).
  rewrite decide_False by lia. rewrite decide_False by tauto. split; [congruence|by intros ->].
Qed.

Lemma of_u8_msg (type : Msg) : enum_ok type → Msg.Msg_of_u8 (to_u8 type) = type.
Proof. by intros [_ H]. Qed.

(** Replacing one byte of a frame: the field it lies in is replaced. *)
Lemma insert_frame type payload i b' :
  (i < 6)%nat ∨ (12 ≤ i)%nat →
  <[i := b']> (frame_bytes type payload ++ payload) =
    (<[i := b']> (le_bytes 4 kMagic)
      ++ (if decide (i < 4)%nat then le_bytes 2 kVersion else <[(i - 4)%nat := b']> (le_bytes 2 kVersion))
      ++ [to_u8 type] ++ [0] ++ le_bytes 4 (Z.of_nat (length payload))
      ++ (if decide (i < 12)%nat then le_bytes 4 (crc32 payload)
          else <[(i - 12)%nat := b']> (le_bytes 4 (crc32 payload))))
    ++ (if decide (i < 16)%nat then payload else <[(i - 16)%nat := b']> payload).
Proof.
  intros Hi. unfold frame_bytes.
  generalize (le_bytes 4 kMagic) (le_bytes 2 kVersion) (le_bytes 4 (Z.of_nat (length payload)))
    (le_bytes 4 (crc32 payload)) (length_le_bytes 4 kMagic) (length_le_bytes 2 kVersion)
    (length_le_bytes 4 (Z.of_nat (length payload))) (length_le_bytes 4 (crc32 payload)).
  intros m v l c Hm Hv Hl Hc.
  destruct m as [|? [|? [|? [|? []]]]], v as [|? [|? []]], l as [|? [|? [|? [|? []]]]],
    c as [|? [|? [|? [|? []]]]]; try done.
  do 16 (destruct i as [|i]; [by (lia || reflexivity)|]).
  rewrite !decide_False by lia. cbn. by rewrite Nat.sub_0_r.
Qed.

(** The byte at an index, in the field it lies in. *)
Lemma lookup_frame type payload i :
  (i < 6)%nat ∨ (12 ≤ i)%nat →
  (frame_bytes type payload ++ payload) !! i =
    if decide (i < 4)%nat then le_bytes 4 kMagic !! i
    else if decide (i < 6)%nat then le_bytes 2 kVersion !! (i - 4)%nat
    else if decide (i < 16)%nat then le_bytes 4 (crc32 payload) !! (i - 12)%nat
    else payload !! (i - 16)%nat.
Proof.
  intros Hi. unfold frame_bytes.
  generalize (le_bytes 4 kMagic) (le_bytes 2 kVersion) (le_bytes 4 (Z.of_nat (length payload)))
    (le_bytes 4 (crc32 payload)) (length_le_bytes 4 kMagic) (length_le_bytes 2 kVersion)
    (length_le_bytes 4 (Z.of_nat (length payload))) (length_le_bytes 4 (crc32 payload)).
  intros m v l c Hm Hv Hl Hc.
  destruct m as [|? [|? [|? [|? []]]]], v as [|? [|? []]], l as [|? [|? [|? [|? []]]]],
    c as [|? [|? [|? [|? []]]]]; try done.
  do 16 (destruct i as [|i]; [by (lia || reflexivity)|]).
  rewrite !decide_False by lia. cbn. by rewrite Nat.sub_0_r.
Qed.

Lemma field_changed n v i b b' :
  0 ≤ v < 2 ^ (8 * Z.of_nat n) → le_bytes n v !! i = Some b → byte_ok b' → b' ≠ b →
  of_le (<[i := b']> (le_bytes n v)) ≠ v.
Proof.
  intros Hv Hi Hb Hne. rewrite <-(of_le_le_bytes n v) at 2 by done.
  eapply of_le_changed; [apply le_bytes_ok|done..].
Qed.

(** A damaged magic or version: the header alone is consumed. *)
Lemma recv_bad_header type payload i b b' rest :
  (i < 6)%nat → (frame_bytes type payload ++ payload) !! i = Some b → byte_ok b' → b' ≠ b →
  recv_bytes (<[i := b']> (frame_bytes type payload ++ payload) ++ rest)
    = (Throw runtime_error, payload ++ rest).
Proof.
  intros Hi Hw Hb Hne. rewrite lookup_frame in Hw by lia.
  rewrite insert_frame, <-app_assoc by lia. rewrite (decide_True (P := (i < 16)%nat)) by lia.
  rewrite recv_bytes_parts by (repeat case_decide; rewrite ?length_insert; apply length_le_bytes).
  rewrite decide_True; [done|]. case_decide.
  - left. by eapply field_changed.
  - rewrite decide_True in Hw by done. right; left. by eapply field_changed.
Qed.

(** A damaged checksum or payload: the checksum does not match. *)
Lemma recv_bad_body type payload i b b' rest :
  Forall byte_ok payload → Z.of_nat (length payload) ≤ kMaxPayload → (12 ≤ i)%nat →
  (frame_bytes type payload ++ payload) !! i = Some b → byte_ok b' → b' ≠ b →
  recv_bytes (<[i := b']> (frame_bytes type payload ++ payload) ++ rest) = (Throw runtime_error, rest).
Proof.
  intros Hp Hlen Hi Hw Hb Hne. rewrite lookup_frame in Hw by lia.
  rewrite !decide_False in Hw by lia. pose proof (crc32_range payload Hp) as Hcrc.
  rewrite insert_frame, <-app_assoc by lia.
  rewrite (decide_False (P := (i < 4)%nat)), (decide_False (P := (i < 12)%nat)) by lia.
  set (body := if decide (i < 16)%nat then payload else <[(i - 16)%nat := b']> payload).
  assert (length body = length payload) as Hbody by (unfold body; case_decide; rewrite ?length_insert; done).
  rewrite (list_insert_ge _ i), (list_insert_ge _ (i - 4)) by (rewrite length_le_bytes; lia).
  rewrite recv_bytes_parts by (rewrite ?length_insert; apply length_le_bytes).
  rewrite !(of_le_le_bytes _ (Z.of_nat (length payload))), Nat2Z.id by (unfold kMaxPayload in Hlen; lia).
  rewrite <-Hbody, take_app_length, drop_app_length, Hbody.
  rewrite decide_False by (rewrite !of_le_le_bytes by done; lia).
  rewrite decide_False by (rewrite length_app; lia). rewrite decide_True; [done|].
  unfold body. case_decide.
  - intros Heq. eapply (field_changed 4 (crc32 payload)); [widths; lia|done..].
  - rewrite (list_insert_ge (le_bytes 4 _)) by (rewrite length_le_bytes; lia).
    rewrite of_le_le_bytes by (widths; lia).
    by eapply crc32_single_byte.
Qed.

(** ** Theorems *)

(** Messages arrive as they were sent: price observations and usage evidence of
    the C++ types with a bounded currency are decoded to themselves, whatever
    follows them, and a decision to its summary. *)
Theorem messages_roundtrip o e d :
  price_ok o → usage_ok e → decision_ok d →
  ∃ wo we wd, encode_price o = Ret wo ∧ encode_evidence e = Ret we ∧ encode_decision d = Ret wd ∧
    ∀ rest, decode_price (wo ++ rest) = (Ret o, rest) ∧ decode_evidence (we ++ rest) = (Ret e, rest) ∧
      decode_decision (wd ++ rest) = (Ret (decision_summary d), rest).
Proof.
  intros Ho He Hd. destruct wire_writes_ret as (Wo & We & _ & Wd).
  destruct (Wo o) as [wo Hwo], (We e) as [we Hwe], (Wd d) as [wd Hwd]. exists wo, we, wd.
  split_and!; [done|done|done|]. intros rest.
  split_and!; [by apply reads_price|by apply reads_evidence|by apply reads_decision].
Qed.

Lemma messages_roundtrip_witness :
  ∃ wo, encode_price (sample_price 1 PriceKind.ENERGY 200000 1000 7) = Ret wo ∧
    decode_price (wo ++ [1; 2; 3]) = (Ret (sample_price 1 PriceKind.ENERGY 200000 1000 7), [1; 2; 3]).
Proof.
  destruct (messages_roundtrip (sample_price 1 PriceKind.ENERGY 200000 1000 7)
    (sample_attempt 1 2500000000 0 true false)
    (refusal DecisionKind.NO_FEASIBLE_PLAN Status.PLAN_INFEASIBLE FeasibilityReason.NONE EmptyString))
    as (wo & we & wd & Ho & _ & _ & H); [by_compute|by_compute|by_compute|].
  exists wo. split; [exact Ho|]. apply H.
Defined.

(** Plans lose their recovery cost on the wire: a plan is decoded to [wire_plan],
    which is the plan itself exactly when its placement, its placement and
    recovery generations, its recovery kind and its recomputation time are the
    defaults; any recomputation time arrives as 0 and is not charged. *)
Theorem plan_roundtrip_lossy p :
  candidate_ok p →
  (∃ w, encode_plan p = Ret w ∧ ∀ rest, decode_plan (w ++ rest) = (Ret (wire_plan p), rest)) ∧
  (wire_plan p = p ↔
     p_placement p = no_id ∧ p_placement_generation p = no_id ∧ p_recovery_generation p = no_id ∧
     p_recovery p = RecoveryKind.NONE ∧ p_recovery_recompute_ns p = 0).
Proof.
  intros Hp. destruct wire_writes_ret as (_ & _ & Wp & _). destruct (Wp p) as [w Hw]. split.
  - exists w. split; [done|]. intros rest. by apply reads_plan.
  - destruct p. unfold wire_plan. cbn. split; [intros [=]; by subst|naive_solver].
Qed.

Lemma plan_roundtrip_lossy_witness :
  ∃ w, encode_plan (sample_plan 1 1000) = Ret w ∧
    decode_plan (w ++ [9]) = (Ret (wire_plan (sample_plan 1 1000)), [9]).
Proof.
  destruct (plan_roundtrip_lossy (sample_plan 1 1000)) as [(w & Hw & H) _]; [by_compute|].
  exists w. split; [exact Hw|exact (H [9])].
Defined.

(** A COMMIT of reservation 7, sent in three pieces. *)
Definition commit_payload : list Z := le_bytes 8 7.
Definition commit_frame : list Z :=
  match send [sent 10; would_block; sent 6; sent 8] Msg.COMMIT commit_payload with Ret (_, w) => w | _ => [] end.

(** C19. Frames survive partial writes and partial reads: once [send] reported success,
    with any split of its bytes over the calls of [::send], any of which may also
    report that it would block and is repeated, a peer that finds them in any chunks receives exactly the message, and the following bytes
    stay in the stream. *)
Theorem frame_roundtrip rs type payload w chunks rest :
  enum_ok type → Forall byte_ok payload → send rs type payload = Ret (true, w) →
  Forall (λ c, c ≠ []) chunks → mjoin chunks = w ++ rest →
  ∃ cs, recv chunks = (Ret (Some (type, payload)), cs) ∧ mjoin cs = rest ∧ Forall (λ c, c ≠ []) cs.
Proof.
  intros Ht Hb Hs Hl Hj. apply send_spec in Hs as [Hlen ->]. rewrite <-app_assoc in Hj.
  destruct (recv_recv_bytes chunks Hl) as (cs & Hr & Hrest & Hlc). rewrite Hj in Hr, Hrest.
  unfold frame_bytes in Hr, Hrest.
  rewrite (proj2 (recv_bytes_good type payload (to_u8 type) 0 rest Hlen Hb)) in Hr, Hrest
    by (by apply of_u8_msg).
  by exists cs.
Qed.

Lemma frame_roundtrip_witness :
  ∃ cs, recv [take 5 commit_frame; drop 5 commit_frame ++ [1]]
      = (Ret (Some (Msg.COMMIT, commit_payload)), cs) ∧ mjoin cs = [1].
Proof.
  destruct (frame_roundtrip [sent 10; would_block; sent 6; sent 8] Msg.COMMIT commit_payload commit_frame
    [take 5 commit_frame; drop 5 commit_frame ++ [1]] [1]) as (cs & H1 & H2 & _);
    [by_compute|by_compute|by vm_compute|by_compute|by vm_compute|].
  exists cs. split; [exact H1|exact H2].
Defined.

(** C23. Damage is detected: when one byte of a frame's magic, version, checksum or
    payload changes on the way, receiving it throws. *)
Theorem frame_corruption_detected rs type payload w i b b' chunks rest :
  Forall byte_ok payload → send rs type payload = Ret (true, w) →
  (i < 6)%nat ∨ (12 ≤ i)%nat → w !! i = Some b → byte_ok b' → b' ≠ b →
  Forall (λ c, c ≠ []) chunks → mjoin chunks = <[i := b']> w ++ rest →
  ∃ cs, recv chunks = (Throw runtime_error, cs).
Proof.
  intros Hb Hs Hi Hw Hb' Hne Hl Hj. apply send_spec in Hs as [Hlen ->].
  destruct (recv_recv_bytes chunks Hl) as (cs & Hr & _). exists cs. rewrite Hr, Hj. f_equal.
  destruct Hi; [by rewrite (recv_bad_header type payload i b)|by rewrite (recv_bad_body type payload i b)].
Qed.

Lemma frame_corruption_detected_witness :
  ∃ cs, recv [<[16%nat := 8]> commit_frame] = (Throw runtime_error, cs).
Proof.
  apply (frame_corruption_detected [sent 10; would_block; sent 6; sent 8] Msg.COMMIT commit_payload commit_frame 16 7 8
    [<[16%nat := 8]> commit_frame] []);
    [by_compute|by vm_compute|right; lia|by vm_compute|by_compute|done|by_compute|by vm_compute].
Defined.

(** The type of a message is outside the checksum: changing its byte to that of
    any other type delivers the same payload under the other type, so one
    flipped bit turns a COMMIT into a RELEASE. *)
Theorem frame_type_unprotected rs type type' payload w chunks rest :
  enum_ok type' → Forall byte_ok payload → send rs type payload = Ret (true, w) →
  Forall (λ c, c ≠ []) chunks → mjoin chunks = <[6%nat := to_u8 type']> w ++ rest →
  ∃ cs, recv chunks = (Ret (Some (type', payload)), cs).
Proof.
  intros Ht Hb Hs Hl Hj. apply send_spec in Hs as [Hlen ->].
  destruct (recv_recv_bytes chunks Hl) as (cs & Hr & _). exists cs. rewrite Hr, Hj. f_equal.
  assert (<[6%nat := to_u8 type']> (frame_bytes type payload ++ payload)
          = frame_bytes type' payload ++ payload) as -> by done.
  rewrite <-app_assoc. unfold frame_bytes.
  by rewrite (proj2 (recv_bytes_good type' payload (to_u8 type') 0 rest Hlen Hb)) by (by apply of_u8_msg).
Qed.

Lemma frame_type_unprotected_witness :
  ∃ cs, recv [<[6%nat := 11]> commit_frame] = (Ret (Some (Msg.RELEASE, commit_payload)), cs).
Proof.
  apply (frame_type_unprotected [sent 10; would_block; sent 6; sent 8] Msg.COMMIT Msg.RELEASE commit_payload commit_frame
    [<[6%nat := 11]> commit_frame] []);
    [by_compute|by_compute|by vm_compute|by_compute|by vm_compute].
Defined.

(** A refused frame desynchronises the stream: when the magic or the version of a
    frame is damaged, only its header is consumed, so the receiver takes the
    payload for the next frame; a payload that is itself a frame is delivered
    as a message of the peer. *)
Theorem refused_frame_smuggles rs rs' type type0 payload inner w i b b' chunks rest :
  enum_ok type → Forall byte_ok payload → send rs type payload = Ret (true, inner) →
  send rs' type0 inner = Ret (true, w) → (i < 6)%nat → w !! i = Some b → byte_ok b' → b' ≠ b →
  Forall (λ c, c ≠ []) chunks → mjoin chunks = <[i := b']> w ++ rest →
  ∃ cs cs', recv chunks = (Throw runtime_error, cs) ∧
    recv cs = (Ret (Some (type, payload)), cs') ∧ mjoin cs' = rest.
Proof.
  intros Ht Hb Hs Hs' Hi Hw Hb' Hne Hl Hj. apply send_spec in Hs' as [_ ->].
  destruct (recv_recv_bytes chunks Hl) as (cs & Hr & Hrest & Hlc). rewrite Hj in Hr, Hrest.
  rewrite (recv_bad_header type0 inner i b b' rest) in Hr, Hrest by done.
  apply send_spec in Hs as [Hlen ->]. cbn [snd] in Hrest.
  destruct (recv_recv_bytes cs Hlc) as (cs' & Hr' & Hrest' & _).
  rewrite Hrest, <-app_assoc in Hr', Hrest'. unfold frame_bytes in Hr', Hrest'.
  rewrite (proj2 (recv_bytes_good type payload (to_u8 type) 0 rest Hlen Hb)) in Hr', Hrest'
    by (by apply of_u8_msg).
  by exists cs, cs'.
Qed.

(** A PING that carries the COMMIT as its payload. *)
Definition carrier_frame : list Z :=
  match send [sent 16; sent 24] Msg.PING commit_frame with Ret (_, w) => w | _ => [] end.

Lemma refused_frame_smuggles_witness :
  ∃ cs cs', recv [<[4%nat := 2]> carrier_frame] = (Throw runtime_error, cs) ∧
    recv cs = (Ret (Some (Msg.COMMIT, commit_payload)), cs').
Proof.
  destruct (refused_frame_smuggles [sent 10; would_block; sent 6; sent 8] [sent 16; sent 24] Msg.COMMIT Msg.PING commit_payload commit_frame
    carrier_frame 4 1 2 [<[4%nat := 2]> carrier_frame] []) as (cs & cs' & H1 & H2 & _);
    [by_compute|by_compute|by vm_compute|by vm_compute|lia|by vm_compute|by_compute|done|by_compute
    |by vm_compute|].
  exists cs, cs'. split; [exact H1|exact H2].
Defined.
