(* ===== verification/Types.v ===== *)
(** * Types: every value of the program is a value of its C++ type

    The model's integers and identities are unbounded; the sources' are not.  This
    file shows that the bounds hold where nothing checks them: what the readers
    return from bytes is well-typed, and so is every state the governor reaches from
    well-typed arguments, so that it can be persisted and read back. *)

From stdpp Require Import prelude gmap strings.
From S2P Require Import Prelude Effects Money Identity Units Price Policy Budget Cost.
From S2P Require Import Plan Decision Samples Codec Snapshot Governor Evaluate Ledger System.
From S2P Require Import Accounts Fencing Recovery Wire WireFacts.
From stdpp Require Import options.

(** ** Readers *)

(** What [m] reads from bytes satisfies [P]. *)
Definition yields {A} (P : A → Prop) (m : R A) : Prop :=
  ∀ bs a rest, Forall byte_ok bs → m bs = (Ret a, rest) → P a ∧ Forall byte_ok rest.

Lemma yields_ret {A} (P : A → Prop) (a : A) : P a → yields P (st_ret a).
Proof. intros Ha bs x rest Hbs [= <- <-]. by split. Qed.

Lemma yields_bind {A B} (P : A → Prop) (Q : B → Prop) (m : R A) (k : A → R B) :
  yields P m → (∀ a, P a → yields Q (k a)) → yields Q (st_bind m k).
Proof.
  intros Hm Hk bs b rest Hbs H. unfold st_bind in H.
  destruct (m bs) as [[a|e] bs'] eqn:Ha; [|done].
  destruct (Hm bs a bs' Hbs Ha) as [HP Hbs']. by apply (Hk a HP bs').
Qed.

Lemma yields_map {A B} (P : A → Prop) (Q : B → Prop) (m : R A) (f : A → B) :
  yields P m → (∀ a, P a → Q (f a)) → yields Q (let* a := m in st_ret (f a)).
Proof. intros Hm Hf. eapply yields_bind; [exact Hm|]. intros a Ha. by apply yields_ret, Hf. Qed.

Lemma of_le_range bs : Forall byte_ok bs → 0 ≤ of_le bs < 2 ^ (8 * Z.of_nat (length bs)).
Proof.
  induction 1 as [|b bs Hb Hbs IH]; [done|]. cbn [of_le length]. unfold byte_ok in Hb.
  assert (Z.lor b (Z.shiftl (of_le bs) 8) = b + of_le bs * 2 ^ 8) as ->.
  { rewrite Z.shiftl_mul_pow2 by lia. rewrite Z.add_nocarry_lxor, <-Z.lxor_lor; [done|..];
      apply Z.bits_inj'; intros i Hi; rewrite Z.land_spec, Z.bits_0;
      (destruct (decide (i < 8));
       [rewrite (Z.mul_pow2_bits_low _ 8 i) by lia; by rewrite andb_false_r
       |rewrite (Z.bits_above_log2 b i); [done|lia|]]);
      (destruct (decide (b = 0)) as [->|]; [cbn; lia|]; apply Z.log2_lt_pow2; [lia|];
       apply (Z.lt_le_trans _ (2 ^ 8)); [lia|]; apply Z.pow_le_mono_r; lia). }
  replace (8 * Z.of_nat (S (length bs))) with (8 * Z.of_nat (length bs) + 8) by lia.
  rewrite Z.pow_add_r by lia. nia.
Qed.

Section readers.
Context `{F : Format}.

Lemma yields_take k : yields (λ w, Forall byte_ok w ∧ length w = k) (r_take k).
Proof.
  intros bs w rest Hbs. unfold r_take. case_decide; [done|]. intros [= <- <-].
  split_and!; [by apply Forall_take|rewrite length_take; lia|by apply Forall_drop].
Qed.

Lemma yields_u8 : yields byte_ok r_u8.
Proof.
  eapply yields_map; [apply yields_take|]. intros w [Hw Hl]. pose proof (of_le_range w Hw) as Hr.
  rewrite Hl in Hr. exact Hr.
Qed.
Lemma yields_u32 : yields (λ v, 0 ≤ v ≤ U32_MAX) r_u32.
Proof.
  eapply yields_map; [apply yields_take|]. intros w [Hw Hl]. pose proof (of_le_range w Hw) as Hr.
  rewrite Hl in Hr. widths. lia.
Qed.
Lemma yields_u64 : yields in_u64 r_u64.
Proof.
  eapply yields_map; [apply yields_take|]. intros w [Hw Hl]. pose proof (of_le_range w Hw) as Hr.
  rewrite Hl in Hr. widths. lia.
Qed.
Lemma yields_i64 : yields in_i64 r_i64.
Proof. eapply yields_map; [apply yields_u64|]. intros v _. apply wrap_i64_range. Qed.
Lemma yields_id {T} : yields (id_ok (T := T)) read_id.
Proof. by eapply yields_map; [apply yields_u64|]. Qed.
Lemma yields_bool : yields (λ _, True) r_bool.
Proof. by eapply yields_map; [apply yields_u8|]. Qed.
Lemma yields_enum `{Enum8 E} : yields (enum_ok (E := E)) r_enum.
Proof. eapply yields_map; [apply yields_u8|]. intros v Hv. by apply of_u8_ok. Qed.

Lemma length_string_bytes bs : length (string_bytes (bytes_string bs)) = length bs.
Proof. induction bs as [|b bs IH]; cbn; [done|]. by rewrite IH. Qed.

Lemma yields_str : yields string_ok r_str.
Proof.
  eapply yields_bind; [apply yields_u32|]. intros len [Hlen _]. case_decide as Hmax; [by intros ??? _|].
  eapply yields_map; [apply yields_take|]. intros w [_ Hl]. unfold string_ok.
  rewrite length_string_bytes, Hl. lia.
Qed.

Lemma yields_repeat {A} (P : A → Prop) n (item : R A) :
  yields P item → yields (λ l, Forall P l ∧ length l = n) (r_repeat n item).
Proof.
  intros Hi. induction n as [|n IH]; [by apply yields_ret|]. cbn [r_repeat].
  eapply yields_bind; [exact Hi|]. intros a Ha. eapply yields_map; [exact IH|].
  intros l [Hl Hn]. split; [by constructor|]. cbn. by rewrite Hn.
Qed.

Lemma yields_list {A} (P : A → Prop) (item : R A) :
  yields P item → yields (λ l, Forall P l ∧ count_ok l) (r_list item).
Proof.
  intros Hi. eapply yields_bind; [apply yields_u32|]. intros n [Hn _].
  case_decide as Hmax; [by intros ??? _|]. intros bs l rest Hbs Hr.
  destruct (yields_repeat P (Z.to_nat n) item Hi bs l rest Hbs Hr) as [[Hl Hlen] Hrest].
  split_and!; [done| |done]. unfold count_ok. lia.
Qed.

Lemma yields_expect_end : yields (λ _, True) expect_end.
Proof. intros bs a rest Hbs. unfold expect_end. case_decide; [|done]. by intros [= <- <-]. Qed.
End readers.

Lemma yields_amount {u} : yields (λ a : Amount u, in_i64 (count a)) get_amount.
Proof. by eapply yields_map; [apply yields_i64|]. Qed.

(** Reads the fields in order and hands their types to the record. *)
Create HintDb typed.
#[export] Hint Resolve yields_u8 yields_u32 yields_u64 yields_i64 yields_id yields_bool yields_str
  yields_expect_end : typed.
#[export] Hint Extern 0 (yields _ r_enum) => apply yields_enum : typed.
#[export] Hint Extern 0 (yields _ get_amount) => apply yields_amount : typed.

Ltac read_typed :=
  repeat (eapply yields_bind; [solve [eauto with typed]|intros ? ?]);
  apply yields_ret; cbn; split_and!; done.

Lemma yields_price : yields price_ok decode_price.
Proof. unfold decode_price, price_ok. read_typed. Qed.
Lemma yields_evidence : yields usage_ok decode_evidence.
Proof. unfold decode_evidence, usage_ok. read_typed. Qed.
Lemma yields_plan : yields candidate_ok decode_plan.
Proof. unfold decode_plan, candidate_ok. read_typed. Qed.

Lemma yields_budget : yields budget_wf read_budget.
Proof. unfold read_budget, budget_wf. read_typed. Qed.
Lemma yields_obs : yields obs_wf read_obs.
Proof. unfold read_obs, obs_wf. read_typed. Qed.
Lemma yields_policy : yields policy_wf read_policy.
Proof. unfold read_policy, policy_wf. read_typed. Qed.
Lemma yields_history : yields history_wf read_history.
Proof. unfold read_history, history_wf. read_typed. Qed.
Lemma yields_interv : yields interv_wf read_interv.
Proof. unfold read_interv, interv_wf. read_typed. Qed.

Lemma yields_payload : yields snapshot_wf read_payload.
Proof.
  unfold read_payload.
  eapply yields_bind; [apply yields_id|intros ? ?]. eapply yields_bind; [apply yields_policy|intros ? ?].
  eapply yields_bind; [apply yields_id|intros ? ?]. eapply yields_bind; [apply yields_id|intros ? ?].
  eapply yields_bind; [apply yields_i64|intros ? ?].
  eapply yields_bind; [apply (yields_list _ _ yields_obs)|intros ? [? ?]].
  eapply yields_bind; [apply (yields_list _ _ yields_budget)|intros ? [? ?]].
  eapply yields_bind; [apply (yields_list _ _ yields_history)|intros ? [? ?]].
  eapply yields_bind; [apply (yields_list _ _ yields_interv)|intros ? [? ?]].
  eapply yields_bind; [apply yields_expect_end|intros ? _].
  apply yields_ret. by split_and!.
Qed.

(** ** The governor's state *)

(** Everything of a budget but its accounts. *)
Definition budget_typed (b : Budget) : Prop :=
  id_ok (b_id b) ∧ id_ok (b_generation b) ∧ id_ok (b_policy_generation b) ∧ id_ok (b_epoch b) ∧
  @string_ok snapshot_format (b_currency b) ∧ enum_ok (b_mode b) ∧ enum_ok (b_objective b) ∧
  enum_ok (b_lifecycle b) ∧ in_i64 (b_created_at_ms b) ∧ in_i64 (b_expires_at_ms b) ∧
  enum_ok (b_label b).

Definition schedule_typed (s : PriceSchedule) : Prop :=
  id_ok (s_id s) ∧ id_ok (s_generation s) ∧ in_i64 (s_created_at_ms s) ∧
  Forall obs_wf (s_observations s).

Record impl_typed (g : Impl) : Prop := mk_impl_typed {
  it_epoch : id_ok (g_epoch g);
  it_policy : policy_wf (g_policy g);
  it_schedule : schedule_typed (g_schedule g);
  it_budgets : ∀ id b, g_budgets g !! id = Some b → budget_typed b;
  it_history : Forall history_wf (g_history g);
  it_interventions : ∀ id i, g_interventions g !! id = Some i → interv_wf (intervention_entry i);
  it_next_intervention : in_u64 (g_next_intervention g);
}.

Definition clock_ok (now : Readings) : Prop := ∀ n, in_i64 (now n).

(** The arguments of a call are values of their types. *)
Definition op_typed (op : Op) : Prop :=
  match op with
  | op_set_policy p => policy_wf p
  | op_set_price_schedule s => schedule_typed s
  | op_create_budget b => budget_typed b
  | op_publish_price o => obs_wf o
  | op_propose now x => clock_ok now ∧ enum_ok (i_kind x)
  | op_finalize now req wl => clock_ok now ∧ id_ok req ∧ id_ok wl
  | _ => True
  end.

Inductive typed_step : Sys → Sys → Prop :=
  | typed_call op s s' : op_ok op → op_typed op → exec op s = (Ret tt, s') → typed_step s s'.

Definition typed_reachable (s : Sys) : Prop := rtc typed_step initial_sys s.

Lemma typed_reachable_reachable s : typed_reachable s → reachable s.
Proof.
  intros H. eapply rtc_subrel; [|exact H]. intros s1 s2 [op ? ? Hop _ He]. by eapply step_call.
Qed.

Lemma typed_reachable_step s s' : typed_reachable s → typed_step s s' → typed_reachable s'.
Proof. intros Hr Hs. by eapply rtc_r. Qed.

(** *** Preservation *)

Lemma budget_typed_lifecycle l b : enum_ok l → budget_typed b → budget_typed (set_b_lifecycle l b).
Proof. unfold budget_typed. intros Hl Hb. destruct_and! Hb. cbn. by split_and!. Qed.

Lemma consumed_lifecycle_ok c l : enum_ok (consumed_lifecycle c l).
Proof. unfold consumed_lifecycle. case_decide; by_compute. Qed.

Lemma released_lifecycle_ok g b id : enum_ok (released_lifecycle g b id).
Proof. unfold released_lifecycle. repeat case_match; by_compute. Qed.

(** A budget is replaced by one of its type. *)
Lemma typed_with_budget id b' g :
  impl_typed g → budget_typed b' → impl_typed (with_budget id b' g).
Proof.
  intros [] Hb. split; try done. cbn. intros id' b. rewrite lookup_insert_Some.
  intros [[_ <-]|[_ H]]; [done|eauto].
Qed.

Lemma typed_reservations v g : impl_typed g → impl_typed (set_g_reservations v g).
Proof. by intros []. Qed.
Lemma typed_next_reservation v g : impl_typed g → impl_typed (set_g_next_reservation v g).
Proof. by intros []. Qed.

Lemma checked_add_in a b v : a +$ b = Ret v → in_i64 v.
Proof.
  unfold checked_add. rewrite signed_wrapping. cbn. case_decide; [done|]. intros [= <-].
  apply wrap_i64_range.
Qed.

Lemma foldM_keeps {A B} (P : B → Prop) (f : B → A → res B) l b r :
  (∀ b x b', P b → f b x = Ret b' → P b') → P b → foldM f l b = Ret r → P r.
Proof.
  intros Hf. revert b. induction l as [|x l IH]; intros b Hb H; cbn in H; [by injection H as <-|].
  apply res_bind_Ret in H as (b' & Hx & H). eapply IH; [|exact H]. by eapply Hf.
Qed.

(** A realized cost fits: it is a checked sum. *)
Lemma project_total_in s cur t evs bd : project s cur t evs = Ret bd → in_i64 (cb_total bd).
Proof.
  unfold project. intros H. apply res_bind_Ret in H as (c1 & _ & H).
  apply res_bind_Ret in H as (c2 & _ & H). apply res_bind_Ret in H as (total & Ht & [= <-]).
  cbn. unfold sum_total in Ht. refine (foldM_keeps in_i64 _ _ _ _ _ _ Ht); [|by_compute].
  intros acc i acc' Hacc. cbn. destruct (_ && _); [apply checked_add_in|intros [= <-]; exact Hacc].
Qed.

Lemma typed_reserve now id gen ep amt s s' :
  sys_ok s → in_i64 amt → impl_typed (sys_g s) →
  exec (op_reserve now id gen ep amt) s = (Ret tt, s') → impl_typed (sys_g s').
Proof.
  intros Hr Hamt Ht H. cbn [exec] in H. destruct (reserve _ _ _ _ _ _) as [y g'] eqn:Hres. simplify_eq.
  apply reserve_cases in Hres as [[-> _]|[(b & Hb & _ & ->)|(b & Hb & Hrest)]];
    [done| | |intros b; by apply sys_budget_ok|done].
  - apply typed_with_budget; [done|]. apply budget_typed_lifecycle; [by_compute|].
    by eapply it_budgets.
  - destruct Hrest as (_ & _ & _ & _ & _ & _ & _ & ->). cbn [sys_g].
    apply typed_reservations, typed_next_reservation, typed_with_budget; [done|].
    apply budget_typed_lifecycle; [by_compute|]. by apply (it_budgets _ Ht id b).
Qed.

Lemma typed_consume now id gen ep amt s s' :
  sys_ok s → in_i64 amt → impl_typed (sys_g s) →
  exec (op_consume now id gen ep amt) s = (Ret tt, s') → impl_typed (sys_g s').
Proof.
  intros Hr Hamt Ht H. cbn [exec] in H. destruct (consume _ _ _ _ _ _) as [y g'] eqn:Hres. simplify_eq.
  apply consume_cases in Hres as [[-> _]|[(b & Hb & _ & ->)|(b & Hb & Hrest)]];
    [done| | |intros b; by apply sys_budget_ok|done].
  - apply typed_with_budget; [done|]. apply budget_typed_lifecycle; [by_compute|].
    by eapply it_budgets.
  - destruct Hrest as (_ & _ & _ & _ & _ & _ & _ & ->). apply typed_with_budget; [done|].
    apply budget_typed_lifecycle; [apply consumed_lifecycle_ok|]. by apply (it_budgets _ Ht id b).
Qed.

Lemma typed_commit now k s s' :
  sys_ok s → impl_typed (sys_g s) → exec (op_commit now k) s = (Ret tt, s') → impl_typed (sys_g s').
Proof.
  intros Hok Ht H. cbn [exec] in H. unfold call_on in H.
  destruct (sys_tokens s !! k) as [r|] eqn:Hk; [|by simplify_eq].
  destruct (commit now (sys_g s, r)) as [x [g' r']] eqn:Hc. injection H as Hx <-.
  apply commit_cases in Hc as [(-> & _)|(b & Hb & _ & _ & _ & _ & Hc)];
    [done| |by intros; eapply sys_budget_ok|by intros; eapply sys_covered].
  pose proof (it_budgets _ Ht _ _ Hb) as Hbt.
  destruct Hc as [(-> & _)|[(_ & _ & _ & ->)|(_ & _ & _ & _ & ->)]]; [done|..];
    (apply typed_with_budget; [done|]); [done|].
  apply budget_typed_lifecycle; [apply consumed_lifecycle_ok|done].
Qed.

Lemma typed_release k s s' :
  sys_ok s → impl_typed (sys_g s) → exec (op_release k) s = (Ret tt, s') → impl_typed (sys_g s').
Proof.
  intros Hok Ht H. cbn [exec] in H. unfold call_on in H.
  destruct (sys_tokens s !! k) as [r|] eqn:Hk; [|by simplify_eq].
  destruct (release (sys_g s, r)) as [x [g' r']] eqn:Hc. injection H as Hx <-.
  apply release_cases in Hc as [(-> & _)|(b & Hb & _ & _ & _ & Hc)];
    [done| |by intros; eapply sys_budget_ok|by intros; eapply sys_covered].
  pose proof (it_budgets _ Ht _ _ Hb) as Hbt.
  destruct Hc as [(-> & _)|(_ & _ & _ & ->)]; [done|].
  apply typed_with_budget; [by apply typed_reservations|].
  apply budget_typed_lifecycle; [apply released_lifecycle_ok|done].
Qed.

Lemma typed_upd_intervention id l ack ver g :
  impl_typed g → enum_ok l → impl_typed (upd_intervention id (λ i, set_i l (ack i) (ver i) i) g).
Proof.
  intros [] Hl. split; try done. cbn. intros id' i. rewrite lookup_alter_Some.
  intros [(_ & i0 & Hi & ->)|[_ Hi]]; [|eauto]. destruct (it_interventions0 _ _ Hi) as (?&?&?&?&?).
  by split_and!.
Qed.

Ltac typed_lifecycle H :=
  st_simpl H; repeat first [case_match | case_decide]; simplify_eq; try done;
  apply typed_upd_intervention; [done|by_compute].

Lemma typed_authorize id gen g r g' :
  impl_typed g → authorize_intervention id gen g = (r, g') → impl_typed g'.
Proof. intros Hg H. unfold authorize_intervention in H. typed_lifecycle H. Qed.
Lemma typed_acknowledge now id gen g r g' :
  impl_typed g → acknowledge_intervention now id gen g = (r, g') → impl_typed g'.
Proof. intros Hg H. unfold acknowledge_intervention in H. typed_lifecycle H. Qed.
Lemma typed_verify now id gen post g r g' :
  impl_typed g → verify_intervention now id gen post g = (r, g') → impl_typed g'.
Proof. intros Hg H. unfold verify_intervention in H. typed_lifecycle H. Qed.

Lemma typed_propose now x g r g' :
  impl_typed g → clock_ok now → enum_ok (i_kind x) → propose_intervention now x g = (r, g') →
  impl_typed g'.
Proof.
  intros [] Hnow Hk H. unfold propose_intervention in H. st_simpl H. injection H as _ <-.
  split; try done; cbn.
  - intros id i Hi. destruct (g_interventions g !! mkId (g_next_intervention g)) eqn:Hn; [eauto|].
    apply lookup_insert_Some in Hi as [[_ <-]|[_ Hi]]; [|eauto].
    unfold interv_wf. cbn. split_and!; [exact it_next_intervention0|done|by_compute|by_compute|apply Hnow].
  - apply u64_succ_range.
Qed.

Lemma typed_publish o g r g' :
  impl_typed g → obs_wf o → publish_price o g = (r, g') → impl_typed g'.
Proof.
  intros [] Ho H. apply publish_price_cases in H as [[-> _]|(_ & _ & _ & _ & _ & ->)]; [done|].
  destruct it_schedule0 as (?&?&?&Hobs). split; try done. cbn. split_and!; try done; cbn.
  - apply u64_succ_range.
  - destruct (replace_obs o (s_observations (g_schedule g))) as [l|] eqn:Hr.
    + revert l Hr. induction Hobs as [|o' l' Ho' Hl' IH]; intros l Hr; cbn in Hr; [done|].
      case_decide; [simplify_eq; by constructor|].
      destruct (replace_obs o l') as [l''|]; [|done]. simplify_eq/=. constructor; auto.
    + apply Forall_app. split; [done|]. by apply Forall_singleton.
Qed.

Lemma typed_finalize now req wl g r g' :
  impl_typed g → clock_ok now → id_ok req → id_ok wl → finalize_request now req wl g = (r, g') →
  impl_typed g'.
Proof.
  intros [] Hnow Hreq Hwl H. unfold finalize_request in H. st_simpl H.
  destruct (existsb _ _); [by simplify_eq|]. destruct (g_attempts g !! req); [|by simplify_eq].
  destruct (project _ _ _ _) as [bd|e] eqn:Hp; cbn in H; [|by simplify_eq].
  injection H as _ <-. split; try done. cbn. apply Forall_app. split; [done|].
  apply Forall_singleton. split_and!; cbn; try done; [by eapply project_total_in|apply wrap_i64_range].
Qed.

Lemma typed_create b g r g' : impl_typed g → budget_typed b → create_budget b g = (r, g') → impl_typed g'.
Proof.
  intros Hg Hb H. apply create_budget_cases in H as [[-> _]|(_ & _ & _ & _ & _ & _ & ->)]; [done|].
  apply typed_with_budget; [done|]. apply budget_typed_lifecycle; [by_compute|done].
Qed.

(** Calls that touch none of the typed fields, or set one to a typed argument. *)
Lemma typed_simple g :
  impl_typed g →
  (∀ path, impl_typed (set_state_path path g).2) ∧
  (∀ p, policy_wf p → impl_typed (set_policy p g).2) ∧
  (∀ s, schedule_typed s → impl_typed (set_price_schedule s g).2) ∧
  impl_typed (advance_epoch g).2 ∧
  (∀ w b, impl_typed (set_worker_boot w b g).2) ∧
  (∀ ev, impl_typed (record_attempt ev g).2).
Proof.
  intros Hg. split_and!; intros *; try (by destruct Hg).
  - intros Hp. destruct Hg. split; try done. cbn. by destruct Hp as (_ & _ & ? & _).
  - destruct Hg. split; try done. apply u64_succ_range.
  - destruct (record_attempt ev g) as [r g'] eqn:H. cbn.
    apply record_attempt_cases in H as [[-> _]|(_ & _ & _ & _ & _ & ->)]; by destruct Hg.
Qed.

Lemma call_state {A} (m : St Impl A) s x s' : call m s = (x, s') → sys_g s' = (m (sys_g s)).2.
Proof. unfold call. destruct (m (sys_g s)). by intros [= _ <-]. Qed.

Lemma typed_step_preserves s s' :
  sys_ok s → impl_typed (sys_g s) → typed_step s s' → impl_typed (sys_g s').
Proof.
  intros Hr Hg Hstep. destruct Hstep as [op s0 s1 Hop Hty H]. destruct (typed_simple _ Hg) as (H1 & H2 & H3 & H4 & H5 & H6).
  destruct op; cbn [op_ok op_typed] in *;
    try first [ exact (typed_reserve _ _ _ _ _ _ _ Hr Hop Hg H)
              | exact (typed_consume _ _ _ _ _ _ _ Hr Hop Hg H)
              | exact (typed_commit _ _ _ _ Hr Hg H) | exact (typed_release _ _ _ Hr Hg H) ];
    cbn [exec] in H; apply call_state in H; rewrite H; auto;
    match goal with |- impl_typed (?m ?g).2 => destruct (m g) as [r g'] eqn:He end; cbn.
  - exact (typed_create _ _ _ _ Hg Hty He).
  - exact (typed_publish _ _ _ _ Hg Hty He).
  - destruct Hty as [Hn Hk]. exact (typed_propose _ _ _ _ _ Hg Hn Hk He).
  - exact (typed_authorize _ _ _ _ _ Hg He).
  - exact (typed_acknowledge _ _ _ _ _ _ Hg He).
  - exact (typed_verify _ _ _ _ _ _ _ Hg He).
  - destruct Hty as (Hn & Hreq & Hwl). exact (typed_finalize _ _ _ _ _ _ Hg Hn Hreq Hwl He).
Qed.

(** *** What the states of a system have in common *)

(** Exact accounts, unique history and interventions under their ids, typed fields. *)
Record sound (s : Sys) : Prop := mk_sound {
  sound_accounts : sys_ok s;
  sound_books : books_ok s;
  sound_typed : impl_typed (sys_g s);
}.

Lemma typed_step_step s s' : typed_step s s' → step s s'.
Proof. intros [op ? ? Hop _ He]. by eapply step_call. Qed.

Lemma sound_step s s' : sound s → typed_step s s' → sound s'.
Proof.
  intros [Ha Hb Ht] Hs. pose proof (typed_step_step s s' Hs) as Hs'.
  split; [by eapply step_preserves|by eapply books_ok_step|by eapply typed_step_preserves].
Qed.

Lemma initial_sound : sound initial_sys.
Proof.
  split; [apply reachable_ok; constructor|apply reachable_books; constructor|].
  split; try (by_compute || done); cbn; intros *; by rewrite lookup_empty.
Qed.

Lemma typed_reachable_sound s : typed_reachable s → sound s.
Proof.
  unfold typed_reachable. revert s. apply rtc_ind_r; [apply initial_sound|].
  intros s s' _ Hs Hok. by eapply sound_step.
Qed.

(** A set of system states that calls with typed arguments do not leave: what a
    component that only makes such calls can rely on and must keep. *)
Class Invariant (P : Sys → Prop) : Prop := {
  inv_sound s : P s → sound s;
  inv_step s s' : P s → typed_step s s' → P s';
}.
#[export] Instance reachable_inv : Invariant typed_reachable.
Proof. split; [apply typed_reachable_sound|apply typed_reachable_step]. Qed.
#[export] Instance sound_inv : Invariant sound.
Proof. split; [done|apply sound_step]. Qed.

Lemma sound_keyed s : sound s → keyed (sys_g s).
Proof.
  intros [Ha [_ Hi] _]. split.
  - intros id b Hb. by destruct (ok_accounts s Ha id b Hb).
  - intros id i Hid. by apply (Hi id i).
Qed.

(** With its accounts, a typed budget can be stored. *)
Lemma budget_wf_typed b : budget_typed b → budget_ok b → budget_wf b.
Proof.
  unfold budget_typed, budget_ok, budget_wf. intros Ht Hb. destruct_and! Ht. destruct_and! Hb.
  by split_and!.
Qed.

Lemma Forall_umap_values `{IterOrder} {K V} `{Countable K} (P : V → Prop) (m : gmap K V) :
  (∀ k v, m !! k = Some v → P v) → Forall P (umap_values m).
Proof.
  intros HP. rewrite umap_values_perm. apply Forall_fmap, Forall_forall. intros [k v] Hin.
  apply elem_of_map_to_list in Hin. by eapply HP.
Qed.

Lemma typed_snapshot `{IterOrder} s :
  sys_ok s → impl_typed (sys_g s) → snapshot_values (snapshot_of (sys_g s)).
Proof.
  intros Hr [? ? (?&?&?&?) Hb ? Hi ?]. unfold snapshot_values. cbn. split_and!; try done.
  - rewrite stable_sort_perm. apply Forall_umap_values. intros id b Hid.
    apply budget_wf_typed; [by eapply Hb|]. by eapply sys_budget_ok.
  - apply Forall_fmap. by apply Forall_umap_values.
Qed.

Lemma encode_total s : snapshot_values s → ∃ bytes, encode s = Ret bytes.
Proof. intros Hv. destruct (encode_ret s Hv) as [p Hp]. unfold encode. rewrite Hp. by eexists. Qed.

(** The lists of a snapshot are within the reader's bounds. *)
Definition readable_counts (s : DurableSnapshot) : Prop :=
  @count_ok snapshot_format _ (s_observations (ds_price_schedule s)) ∧
  @count_ok snapshot_format _ (ds_budgets s) ∧ @count_ok snapshot_format _ (ds_history s) ∧
  @count_ok snapshot_format _ (ds_interventions s).

#[global] Instance readable_counts_dec s : Decision (readable_counts s).
Proof. unfold readable_counts. apply _. Defined.

(** A run of typed calls, for the witness. *)
Lemma typed_run ops s s' : Forall op_typed ops → run ops s = Some s' → rtc typed_step s s'.
Proof.
  intros Hops. revert s. induction Hops as [|op ops Ht Hops IH]; cbn; intros s H; [simplify_eq; constructor|].
  case_decide; [|done]. destruct (exec op s) as [[[]|] s1] eqn:He; [|done].
  eapply rtc_l; [by eapply typed_call|auto].
Qed.

Lemma durable_typed : typed_reachable durable_sys.
Proof.
  apply (typed_run durable_run); [|by vm_compute].
  repeat constructor; by_compute.
Qed.

(** ** Theorems *)

(** C18. What is read is well-typed: from any bytes, a snapshot that [decode] accepts
    has every identity, amount, time and enumeration within its type and every
    string and count within the reader's bounds, and the messages' decoders return
    well-typed prices, evidence and plans; a decoded snapshot can be encoded again,
    and decoding that gives the same snapshot. *)
Theorem decode_well_typed bytes :
  Forall byte_ok bytes →
  (∀ s, decode bytes = Ret s →
     snapshot_wf s ∧ ∃ bytes', encode s = Ret bytes' ∧ decode bytes' = Ret s) ∧
  (∀ o rest, decode_price bytes = (Ret o, rest) → price_ok o) ∧
  (∀ e rest, decode_evidence bytes = (Ret e, rest) → usage_ok e) ∧
  (∀ p rest, decode_plan bytes = (Ret p, rest) → candidate_ok p).
Proof.
  intros Hb. split_and!.
  - intros s H. unfold decode in H. do 6 (case_decide; [done|]).
    destruct (read_payload (drop Snapshot.kHeader bytes)) as [x rest] eqn:Hr. cbn in H. subst x.
    assert (snapshot_wf s) as Hwf by (eapply yields_payload; [|exact Hr]; by apply Forall_drop).
    split; [done|]. destruct (encode_total s (proj1 Hwf)) as [bytes' He].
    exists bytes'. split; [done|]. by apply decode_encode.
  - intros o rest H. by eapply yields_price.
  - intros e rest H. by eapply yields_evidence.
  - intros p rest H. by eapply yields_plan.
Qed.

Lemma decode_well_typed_witness :
  snapshot_wf sample_snapshot ∧
  ∃ bytes', encode sample_snapshot = Ret bytes' ∧ decode bytes' = Ret sample_snapshot.
Proof.
  destruct (decode_well_typed sample_bytes) as (H & _); [by_compute|].
  apply (H sample_snapshot). by vm_compute.
Defined.

(** C17. The governor's state stays well-typed: from an empty governor, after any
    sequence of calls that return (of every state-changing method but [load], with
    integers and enumerators of their C++ types, strings of at most 16 MiB, int64
    clock readings, and budgets that are created with nothing reserved, consumed or
    released), every value of the durable state is one of its type, and the snapshot
    that [persist] takes is encoded without an exception; it is decoded again as it
    was if no list of it has more than a million entries. *)
Theorem reachable_well_typed (I : IterOrder) s :
  typed_reachable s →
  impl_typed (sys_g s) ∧ snapshot_values (snapshot_of (sys_g s)) ∧
  ∃ bytes, encode (snapshot_of (sys_g s)) = Ret bytes ∧
    (readable_counts (snapshot_of (sys_g s)) → decode bytes = Ret (snapshot_of (sys_g s))).
Proof.
  intros Hr. destruct (typed_reachable_sound s Hr) as [Ha _ Ht].
  pose proof (typed_snapshot s Ha Ht) as Hv.
  split; [done|]. split; [done|]. destruct (encode_total _ Hv) as [bytes He].
  exists bytes. split; [done|]. intros Hc. by apply decode_encode.
Qed.

Lemma reachable_well_typed_witness :
  snapshot_values (@snapshot_of map_order (sys_g durable_sys)) ∧
  ∃ bytes, encode (@snapshot_of map_order (sys_g durable_sys)) = Ret bytes ∧
    decode bytes = Ret (@snapshot_of map_order (sys_g durable_sys)).
Proof.
  destruct (reachable_well_typed map_order durable_sys) as (_ & H1 & bytes & H2 & H3);
    [apply durable_typed|].
  split; [exact H1|]. exists bytes. split; [exact H2|]. apply H3. by_compute.
Defined.
