(* ===== verification/Coordinator.v ===== *)
(** * Coordinator: the message handlers and sessions of the coordinator process

    Models distributed/coordinator.cpp: the state its sessions share, the
    handler of every message, the session loop over a connection, and the
    set-up of [main].  A [COMMIT] or [RELEASE] is three critical sections, kept
    apart here ([fetch], [settle], [store]) so that sessions can interleave
    between them. *)

From stdpp Require Import prelude gmap strings.
From S2P Require Import Prelude Effects Money Identity Units Price Policy Budget Cost.
From S2P Require Import Plan Decision Codec Governor Evaluate Snapshot Ledger System Recovery Wire.
From stdpp Require Import options.

#[local] Existing Instance wire_format.

(** ** State shared by the sessions *)

Record Coord := mkCoord {
  co_gov : Impl;
  co_reservations : gmap Z BudgetReservation;
  co_last : CostDecision;
  co_files : Files;
}.

Definition set_co_gov (g : Impl) (c : Coord) : Coord :=
  mkCoord g (co_reservations c) (co_last c) (co_files c).
Definition set_co_reservations (m : gmap Z BudgetReservation) (c : Coord) : Coord :=
  mkCoord (co_gov c) m (co_last c) (co_files c).
Definition set_co_last (d : CostDecision) (c : Coord) : Coord :=
  mkCoord (co_gov c) (co_reservations c) d (co_files c).
Definition set_co_files (fs : Files) (c : Coord) : Coord :=
  mkCoord (co_gov c) (co_reservations c) (co_last c) fs.

(** A method of the governor. *)
Definition gov {A} (m : St Impl A) : St Coord A := λ c,
  let '(x, g') := m (co_gov c) in (x, set_co_gov g' c).

(** A method on a local reservation, which is lost when the method throws. *)
Definition gov_on (m : St (Impl * BudgetReservation) Status) (r : BudgetReservation)
    : St Coord (Status * BudgetReservation) := λ c,
  let '(x, (g', r')) := m (co_gov c, r) in
  ((let! st := x in Ret (st, r')), set_co_gov g' c).

(** [gov.persist()], whose status is ignored. *)
Definition persist_now `{IterOrder} (io : IoFaults) : St Coord unit := λ c,
  let '(x, fs') := persist io (co_gov c) (co_files c) in
  ((let! _ := x in Ret tt), set_co_files fs' c).

(** What a reader makes of the payload; what is left of it is ignored. *)
Definition parse {A} (m : R A) (payload : list Z) : St Coord A := st_lift (m payload).1.

(** ** Replies *)

Definition Reply : Type := Msg * list Z.

Definition reply (type : Msg) (w : list (res (list Z))) : St Coord (list Reply) :=
  let* payload := st_lift (writes w) in st_ret [(type, payload)].

Definition status_fields (st : Status) : list (res (list Z)) :=
  [w_u8 (Status.Status_to_u8 st); w_u64 0].

Definition reply_status (type : Msg) (st : Status) : St Coord (list Reply) :=
  reply type (status_fields st).

(** ** The critical sections of COMMIT and RELEASE *)

Definition fetch (token : Z) : St Coord (option BudgetReservation) :=
  let* c := st_get in st_ret (co_reservations c !! token).

Definition settle (now : Readings) (type : Msg) (r : BudgetReservation)
    : St Coord (Status * BudgetReservation) :=
  gov_on (if decide (type = Msg.COMMIT) then commit now else release) r.

Definition store (token : Z) (r : BudgetReservation) : St Coord unit :=
  st_modify (λ c, set_co_reservations (<[token := r]> (co_reservations c)) c).

(** ** Session::handle *)
Section handle.
Context `{IterOrder}.

Definition handle_hello (payload : list Z) : St Coord (list Reply) :=
  let* worker := parse read_id payload in
  let* boot := parse (let* _ := read_id (T := WorkerIdTag) in read_id) payload in
  gov (set_worker_boot worker boot) ;;;
  let* c := st_get in
  reply Msg.PONG [write_id (g_epoch (co_gov c)); write_id boot].

Definition handle_publish (io : IoFaults) (payload : list Z) : St Coord (list Reply) :=
  let* o := parse decode_price payload in
  let* st := gov (publish_price o) in
  (if decide (st = Status.OK) then persist_now io else st_ret tt) ;;;
  reply_status Msg.PONG st.

Definition read_eval : R (WorkloadId * WorkloadGeneration * list ExecutionPlan) :=
  let* wl := read_id in
  let* wg := read_id in
  let* plans := r_list decode_plan in
  st_ret (wl, wg, plans).

Definition handle_eval (now : Readings) (payload : list Z) : St Coord (list Reply) :=
  let* (wl, wg, plans) := parse read_eval payload in
  let* c := st_get in
  let* d := st_lift (evaluate now (co_gov c) wg plans) in
  st_modify (set_co_last d) ;;;
  reply Msg.EVAL_RESULT [encode_decision d].

Definition handle_record (io : IoFaults) (payload : list Z) : St Coord (list Reply) :=
  let* e := parse decode_evidence payload in
  let* st := gov (record_attempt e) in
  (if decide (st = Status.OK) then persist_now io else st_ret tt) ;;;
  reply_status Msg.PONG st.

Definition read_reserve : R (BudgetId * BudgetGeneration * CoordinatorEpoch * Z) :=
  let* bid := read_id in
  let* bg := read_id in
  let* epch := read_id in
  let* amt := r_i64 in
  st_ret (bid, bg, epch, amt).

Definition reserve_fields (st : Status) (r : option BudgetReservation) : list (res (list Z)) :=
  w_u8 (Status.Status_to_u8 st) ::
  match st, r with
  | Status.OK, Some r => [write_id (r_id r); write_id (r_budget_generation r);
                          write_id (r_epoch r); w_i64 (r_amount r)]
  | _, _ => [w_u64 0; w_u64 0; w_u64 0; w_i64 0]
  end.

Definition handle_reserve (now : Readings) (payload : list Z) : St Coord (list Reply) :=
  let* (bid, bg, epch, amt) := parse read_reserve payload in
  let* (st, out) := gov (reserve now bid bg epch amt) in
  match st, out with
  | Status.OK, Some r => store (value (r_id r)) r
  | _, _ => st_ret tt
  end ;;;
  reply Msg.PONG (reserve_fields st out).

Definition handle_settle (now : Readings) (type : Msg) (payload : list Z) : St Coord (list Reply) :=
  let* token := parse r_u64 payload in
  let* found := fetch token in
  match found with
  | None => reply_status Msg.PONG Status.INVALID_INPUT
  | Some r =>
      let* (st, r') := settle now type r in
      store token r' ;;;
      reply_status Msg.PONG st
  end.

Definition read_realize : R (RequestId * WorkloadId) :=
  let* req := read_id in
  let* wl := read_id in
  st_ret (req, wl).

Definition handle_realize (now : Readings) (payload : list Z) : St Coord (list Reply) :=
  let* (req, wl) := parse read_realize payload in
  let* st := gov (finalize_request now req wl) in
  let* c := st_get in
  let* cost := st_lift (realized_request_cost now (co_gov c) req) in
  reply Msg.PONG [w_u8 (Status.Status_to_u8 st); w_i64 cost].

Definition handle_state : St Coord (list Reply) :=
  let* c := st_get in
  let g := co_gov c in
  reply Msg.PONG
    [ write_id (g_epoch g); write_id (s_generation (g_schedule g));
      write_id (pol_generation (g_policy g)); w_u64 (Z.of_nat (length (budgets_of g)));
      w_u64 (Z.of_nat (length (s_observations (g_schedule g)))) ].

Definition handle_revalidate (now : Readings) (payload : list Z) : St Coord (list Reply) :=
  let* plans := parse (r_list decode_plan) payload in
  let* c := st_get in
  let* st := st_lift (validate_for_dispatch now (co_gov c) (co_last c) plans) in
  reply_status Msg.PONG st.

Definition handle (now : Readings) (io : IoFaults) (type : Msg) (payload : list Z)
    : St Coord (list Reply) :=
  match type with
  | Msg.HELLO => handle_hello payload
  | Msg.PUBLISH_PRICE => handle_publish io payload
  | Msg.REQUEST_EVAL => handle_eval now payload
  | Msg.RECORD_ATTEMPT => handle_record io payload
  | Msg.RESERVE => handle_reserve now payload
  | Msg.COMMIT | Msg.RELEASE => handle_settle now type payload
  | Msg.REALIZE => handle_realize now payload
  | Msg.GET_STATE => handle_state
  | Msg.REVALIDATE => handle_revalidate now payload
  | Msg.QUIT => st_ret []
  | _ => reply_status Msg.PONG Status.PROTOCOL_ERROR
  end.

(** ** Session::run *)

Definition status_payload (st : Status) : list Z := Status.Status_to_u8 st :: le_bytes 8 0.

(** One message: an exception of [handle] is answered, and what was changed
    before it stays. *)
Definition serve (now : Readings) (io : IoFaults) (type : Msg) (payload : list Z) (c : Coord)
    : list Reply * Coord :=
  match handle now io type payload c with
  | (Ret out, c') => (out, c')
  | (Throw _, c') => ([(Msg.PONG, status_payload Status.INTERVENTION_FAILED)], c')
  end.

(** The loop over a connection; [io i] are the file system's failures while
    message [i] is handled.  [None] is a loop that has not ended. *)
Fixpoint run_session (fuel : nat) (now : Readings) (io : nat → IoFaults) (i : nat)
    (chunks : list (list Z)) (c : Coord) : option (list Reply) * Coord :=
  match fuel with
  | O => (None, c)
  | S fuel' =>
      match recv chunks with
      | (Ret None, _) => (Some [], c)
      | (Throw _, cs) =>
          let '(out, c') := run_session fuel' now io (S i) cs c in
          (([(Msg.PONG, status_payload Status.PROTOCOL_ERROR)] ++.) <$> out, c')
      | (Ret (Some (type, payload)), cs) =>
          let '(out1, c1) := serve now (io i) type payload c in
          let '(out2, c2) := run_session fuel' now io (S i) cs c1 in
          ((out1 ++.) <$> out2, c2)
      end
  end.
End handle.

(** ** main *)

Definition kNow : Z := 1000000000.

Definition coordinator_policy : CostPolicy := {|
  pol_id := pol_id default_policy; pol_generation := mkId 1; pol_epoch := mkId 1;
  pol_currency := kDefaultCurrency; pol_ranking := pol_ranking default_policy;
  pol_min_evidence_freshness_ms := pol_min_evidence_freshness_ms default_policy;
  pol_max_evidence_age_ms := 120000; pol_price_schedule_max_age_ms := 120000;
  pol_max_projection_uncertainty := pol_max_projection_uncertainty default_policy;
  pol_hysteresis_ms := pol_hysteresis_ms default_policy;
  pol_cooldown_ms := pol_cooldown_ms default_policy;
  pol_near_budget_percent := pol_near_budget_percent default_policy;
  pol_at_risk_percent := pol_at_risk_percent default_policy;
  pol_retry_budget := pol_retry_budget default_policy;
  pol_recovery_budget := pol_recovery_budget default_policy;
  pol_recovery_cost_known := pol_recovery_cost_known default_policy;
  pol_allow_synthetic := true; pol_allow_policy := true; pol_allow_measured := true |}.

Definition coordinator_budget (limit : MoneyMicros) (g : Impl) : Budget := {|
  b_id := mkId 1; b_generation := mkId 1; b_policy_generation := pol_generation (g_policy g);
  b_epoch := g_epoch g; b_currency := kDefaultCurrency; b_mode := BudgetMode.HARD;
  b_objective := BudgetObjective.MAX_TOTAL_EXECUTION_COST; b_limit := limit;
  b_lifecycle := BudgetLifecycle.CREATED; b_reserved := 0; b_consumed := 0; b_released := 0;
  b_created_at_ms := 0; b_expires_at_ms := 0; b_label := DataLabel.POLICY |}.

Definition setup_fresh : St Impl unit :=
  set_price_schedule (mkPriceSchedule (mkId 1) (mkId 1) [] kNow) ;;;
  let* g := st_get in
  let* limit := st_lift (@from_units wrapping 1) in
  create_budget (coordinator_budget limit g) ;;;
  st_ret tt.

Definition setup (path : string) (fs : Files) : St Impl unit :=
  set_state_path path ;;;
  set_policy coordinator_policy ;;;
  if exists_file fs path then load fs ;;; advance_epoch else setup_fresh.

(** [CostDecision last_decision;] *)
Definition no_decision : CostDecision :=
  refusal DecisionKind.NO_FEASIBLE_PLAN Status.OK FeasibilityReason.NONE EmptyString.

(** The coordinator when it starts to listen; an exception of [load] ends it. *)
Definition start (path : string) (fs : Files) : res Coord :=
  let '(x, g) := setup path fs initial in
  let! _ := x in Ret (mkCoord g ∅ no_decision fs).
