(* ===== verification/CoordinatorFacts.v ===== *)
(** * CoordinatorFacts: what the coordinator guarantees

    Theorems about Coordinator.v: the coordinator implements the transition
    system of System.v, a session serves its connection to the end and answers
    every message, what a settlement race does, and which messages are durable. *)

From stdpp Require Import prelude gmap strings.
From S2P Require Import Prelude Effects Money Identity Units Price Policy Budget Cost.
From S2P Require Import Plan Decision Samples Codec Governor Evaluate Ledger System Accounts.
From S2P Require Import Snapshot Recovery Wire WireFacts Types Coordinator.
From stdpp Require Import options.

#[local] Existing Instance wire_format.

(** ** Running the handlers' monad *)

(** [m] keeps [I], whether it returns or throws. *)
Definition keeps {S A} (I : S → Prop) (m : St S A) : Prop := ∀ s, I s → I (m s).2.

(** [m] never throws. *)
Definition total {S A} (m : St S A) : Prop := ∀ s, is_Ret (m s).1.

Lemma keeps_bind {S A B} I (m : St S A) (k : A → St S B) :
  keeps I m → (∀ a, keeps I (k a)) → keeps I (st_bind m k).
Proof.
  intros Hm Hk s Hs. specialize (Hm s Hs). unfold st_bind.
  destruct (m s) as [[a|e] s']; [by apply Hk|done].
Qed.

Lemma keeps_lift {S A} I (m : res A) : keeps I (st_lift (S := S) m).
Proof. by intros s. Qed.
Lemma keeps_ret {S A} I (a : A) : keeps I (st_ret (S := S) a).
Proof. by intros s. Qed.
Lemma keeps_get {S} I : keeps I (st_get (S := S)).
Proof. by intros s. Qed.

Create HintDb keeps.
#[local] Hint Resolve keeps_bind keeps_lift keeps_ret keeps_get : keeps.
#[local] Hint Extern 1 (keeps _ (parse _ _)) => apply keeps_lift : keeps.
#[local] Hint Extern 1 (keeps _ (reply _ _)) => unfold reply : keeps.
#[local] Hint Extern 1 (keeps _ (reply_status _ _)) => unfold reply_status, reply : keeps.
#[local] Hint Extern 2 (keeps _ (if decide _ then _ else _)) => case_decide : keeps.
#[local] Hint Extern 2 (keeps _ (match ?x with _ => _ end)) => destruct x : keeps.
#[local] Hint Extern 2 (keeps _ (let '_ := ?x in _)) => destruct x : keeps.

(** ** The coordinator implements the system *)

(** [s] has the coordinator's governor and, at distinct positions, every
    reservation of its map. *)
Definition simulates (c : Coord) (s : Sys) : Prop :=
  sys_g s = co_gov c ∧
  ∃ ix : Z → nat,
    (∀ t r, co_reservations c !! t = Some r → sys_tokens s !! ix t = Some r) ∧
    (∀ t t' r r', co_reservations c !! t = Some r → co_reservations c !! t' = Some r' →
       ix t = ix t' → t = t').

(** Exact accounts keep the budgets within their limits. *)
Lemma system_bounds s id b :
  sys_ok s → g_budgets (sys_g s) !! id = Some b →
  0 ≤ b_reserved b ≤ b_limit b ∧ 0 ≤ b_consumed b ∧
  (b_mode b = BudgetMode.HARD → b_consumed b ≤ b_limit b).
Proof.
  intros Hok Hb. destruct (ok_accounts s Hok id b Hb) as [].
  pose proof (held_nonneg _ ReservationState.ACTIVE id _ (ok_tokens s Hok)).
  pose proof (held_nonneg _ ReservationState.COMMITTED id _ (ok_tokens s Hok)).
  pose proof (charged_nonneg _ id _ (ok_charges s Hok)). split_and!; try done; lia.
Qed.

(** The coordinator's governor, seen as a state of the system that satisfies [P]. *)
Section refinement.
Context (P : Sys → Prop) `{!Invariant P}.
#[local] Set Default Proof Using "Type*".

Definition refined (c : Coord) : Prop := ∃ s, P s ∧ simulates c s.

(** A governor call that moves the system within [P] and leaves the clients'
    reservations alone. *)
Definition tracked {A} (m : St Impl A) : Prop :=
  ∀ s, P s → ∃ s', P s' ∧ sys_g s' = (m (sys_g s)).2 ∧ sys_tokens s' = sys_tokens s.

(** A call that is a step when it returns and changes nothing when it throws. *)
Lemma tracked_call {A} (m : St Impl A) op :
  op_ok op → op_typed op → (∀ s, exec op s = call m s) → (∀ g e, (m g).1 = Throw e → (m g).2 = g) →
  tracked m.
Proof.
  intros Hop Hty Hex Hthrow s Hs. pose proof (Hex s) as He. unfold call in He.
  specialize (Hthrow (sys_g s)). destruct (m (sys_g s)) as [[a|e] g'] eqn:Hm; cbn in *.
  - eexists. split; [|split]; [eapply inv_step; [done|by eapply typed_call; [| |exact He]]|done|done].
  - exists s. by rewrite (Hthrow e eq_refl).
Qed.

Lemma keeps_gov {A} (m : St Impl A) : tracked m → keeps refined (gov m).
Proof.
  intros Hm c (s & Hs & Hg & Hix). destruct (Hm s Hs) as (s' & Hs' & Hg' & Ht). exists s'.
  unfold gov. rewrite Hg in Hg'. destruct (m (co_gov c)) as [x g']. split; [done|].
  split; [done|]. by rewrite Ht.
Qed.

(** Fields the simulation does not look at. *)
Lemma refined_frame c c' :
  refined c → co_gov c' = co_gov c → co_reservations c' = co_reservations c → refined c'.
Proof.
  intros (s & Hr & Hg & ix & Hix & Hinj) Hgov Hres. exists s. split; [done|].
  split; [congruence|]. exists ix. by rewrite Hres.
Qed.

Lemma keeps_persist `{IterOrder} io : keeps refined (persist_now io).
Proof.
  intros c Hc. unfold persist_now. destruct (persist io _ _) as [x fs].
  by eapply refined_frame.
Qed.

(** The payload is bytes, so what is parsed from it is well-typed. *)
Lemma keeps_parse {A B} I (Q : A → Prop) (m : R A) payload (k : A → St Coord B) :
  yields Q m → Forall byte_ok payload → (∀ a, Q a → keeps I (k a)) →
  keeps I (let* a := parse m payload in k a).
Proof.
  intros Hm Hb Hk c Hc. unfold st_bind, parse, st_lift.
  destruct (m payload) as [[a|e] rest] eqn:Ha; [|done]. apply Hk; [|done]. by eapply Hm.
Qed.

Lemma price_obs_wf o : price_ok o → obs_wf o.
Proof.
  unfold price_ok, obs_wf. intros Ho. destruct_and! Ho. split_and!; try done.
  unfold string_ok in *. cbn in *. unfold kMaxPayload in *. lia.
Qed.

Lemma keeps_set_last d : keeps refined (st_modify (set_co_last d)).
Proof. intros c Hc. by eapply refined_frame. Qed.

Lemma tracked_boot w b : tracked (set_worker_boot w b).
Proof. by eapply (tracked_call _ (op_set_worker_boot w b)). Qed.

Lemma tracked_publish o : price_ok o → tracked (publish_price o).
Proof.
  intros Ho. eapply (tracked_call _ (op_publish_price o)); [done|by apply price_obs_wf|done|]. intros g e.
  destruct (publish_price o g) as [x g'] eqn:H. cbn. intros ->.
  by apply publish_price_cases in H as [[-> _]|(? & _)].
Qed.

Lemma tracked_record e : tracked (record_attempt e).
Proof.
  eapply (tracked_call _ (op_record_attempt e)); [done|done|done|]. intros g ex.
  destruct (record_attempt e g) as [x g'] eqn:H. cbn. intros ->.
  by apply record_attempt_cases in H as [[-> _]|(? & _)].
Qed.

Lemma tracked_finalize now (req : RequestId) (wl : WorkloadId) :
  clock_ok now → id_ok req → id_ok wl → tracked (finalize_request now req wl).
Proof.
  intros Hn Hr Hw. eapply (tracked_call _ (op_finalize now req wl)); [done|done|done|]. intros g ex.
  destruct (finalize_request now req wl g) as [x g'] eqn:H. cbn. intros ->.
  by apply finalize_cases in H as [->|(? & ? & _)].
Qed.

#[local] Hint Resolve keeps_persist keeps_set_last keeps_gov tracked_boot tracked_publish
  tracked_record tracked_finalize : keeps.

(** A granted reservation is the system's newest token. *)
Lemma tracked_reserve now bid bg epch amt s x g' :
  P s → in_i64 amt → reserve now bid bg epch amt (sys_g s) = (x, g') →
  ∃ s', P s' ∧ sys_g s' = g' ∧
    sys_tokens s' = match x with Ret (Status.OK, Some r) => sys_tokens s ++ [r] | _ => sys_tokens s end.
Proof.
  intros Hs Hamt Hres.
  assert (void x = Ret tt → ∃ s', P s' ∧ sys_g s' = g' ∧
    sys_tokens s' = match x with Ret (Status.OK, Some r) => sys_tokens s ++ [r] | _ => sys_tokens s end)
    as Hstep.
  { intros Hv. eexists (mkSys g' _ (sys_charges s)). split; [|by split].
    eapply inv_step; [exact Hs|].
    eapply (typed_call (op_reserve now bid bg epch amt)); [done|done|].
    cbn [exec]. by rewrite Hres, Hv. }
  destruct x as [y|e]; [by apply Hstep|].
  apply reserve_cases in Hres as [[-> _]|[(? & _ & ? & _)|(? & _ & _ & _ & _ & _ & _ & _ & ? & _)]];
    try done; [by exists s|]. intros b. by apply sys_budget_ok, sound_accounts, inv_sound.
Qed.

(** A settlement that returns moves the token it was made with. *)
Lemma tracked_settle now type s k r st g' r' :
  P s → sys_tokens s !! k = Some r →
  (if decide (type = Msg.COMMIT) then commit now else release) (sys_g s, r) = (Ret st, (g', r')) →
  ∃ s', P s' ∧ sys_g s' = g' ∧ sys_tokens s' = <[k := r']> (sys_tokens s).
Proof.
  intros Hs Hk Hm. eexists (mkSys g' _ (sys_charges s)). split; [|by split].
  eapply inv_step; [exact Hs|].
  eapply (typed_call (if decide (type = Msg.COMMIT) then op_commit now k else op_release k));
    [by case_decide|by case_decide|].
  case_decide; cbn [exec]; unfold call_on; by rewrite Hk, Hm.
Qed.

Lemma simulates_grant c s s' g' r :
  simulates c s → sys_g s' = g' → sys_tokens s' = sys_tokens s ++ [r] →
  simulates (set_co_reservations (<[value (r_id r) := r]> (co_reservations c)) (set_co_gov g' c)) s'.
Proof.
  intros (Hg & ix & Hix & Hinj) Hg' Htok. split; [done|]. set (n := length (sys_tokens s)).
  exists (λ t, if decide (t = value (r_id r)) then n else ix t). rewrite Htok. cbn.
  assert (∀ t x, co_reservations c !! t = Some x → (ix t < n)%nat) as Hlt.
  { intros t x Ht. by eapply lookup_lt_Some, Hix. }
  split.
  - intros t x. case_decide as Ht; [subst t|].
    + rewrite lookup_insert_eq. intros [= <-]. by apply list_lookup_middle.
    + rewrite lookup_insert_ne by done. intros Hx. rewrite lookup_app_l by (by eapply Hlt). auto.
  - intros t t' x x'. rewrite !lookup_insert_Some.
    intros [[<- _]|[Ht Hx]] [[<- _]|[Ht' Hx']]; repeat case_decide; try done; intros Heq.
    + apply Hlt in Hx'. lia.
    + apply Hlt in Hx. lia.
    + by eapply Hinj.
Qed.

Lemma read_reserve_amount payload bid bg epch amt :
  (read_reserve payload).1 = Ret (bid, bg, epch, amt) → in_i64 amt.
Proof.
  unfold read_reserve, r_i64. unfold st_bind, st_ret. intros Hp.
  repeat (case_match; simplify_eq/=). apply wrap_i64_range.
Qed.

Lemma handle_reserve_refined now payload : keeps refined (handle_reserve now payload).
Proof.
  unfold handle_reserve. intros c (s & Hs & Hsim). unfold st_bind at 1, parse, st_lift.
  destruct (read_reserve payload).1 as [[[[bid bg] epch] amt]|e] eqn:Hp; [|by exists s].
  apply read_reserve_amount in Hp. unfold st_bind at 1, gov. pose proof Hsim as [Hg _].
  destruct (reserve now bid bg epch amt (co_gov c)) as [x g'] eqn:Hres. rewrite <-Hg in Hres.
  apply tracked_reserve in Hres as (s' & Hs' & Hg' & Ht); [|done|done].
  assert (x = x → (∀ r, x ≠ Ret (Status.OK, Some r)) → refined (set_co_gov g' c)) as Hframe.
  { intros _ Hx. exists s'. split; [done|]. destruct Hsim as (_ & ix & Hix). split; [done|]. exists ix.
    rewrite Ht. cbn. destruct x as [[[] [r|]]|]; try done. by destruct (Hx r). }
  destruct x as [[st out]|e]; [|by apply Hframe].
  destruct (decide (st = Status.OK)) as [->|Hst]; [destruct out as [r|]|].
  - exists s'. split; [done|]. by apply (simulates_grant c s s' g' r).
  - by apply Hframe.
  - replace (match st with Status.OK => _ | _ => _ end) with (st_ret (S := Coord) tt) by (by destruct st).
    unfold st_bind, st_ret, reply, st_bind, st_lift. destruct (writes _); apply Hframe; try done;
      intros r [= ? ?]; done.
Qed.

(** The outcome of a settlement replaces the token it was taken from. *)
Lemma simulates_outcome c s s' t r g' r' ix :
  (∀ t r, co_reservations c !! t = Some r → sys_tokens s !! ix t = Some r) →
  (∀ t t' r r', co_reservations c !! t = Some r → co_reservations c !! t' = Some r' →
     ix t = ix t' → t = t') →
  co_reservations c !! t = Some r → sys_g s' = g' → sys_tokens s' = <[ix t := r']> (sys_tokens s) →
  simulates (set_co_reservations (<[t := r']> (co_reservations c)) (set_co_gov g' c)) s'.
Proof.
  intros Hix Hinj Ht Hg' Htok. split; [done|]. exists ix. rewrite Htok. cbn. split.
  - intros t' x. rewrite lookup_insert_Some. intros [[<- <-]|[Hne Hx]].
    + rewrite list_lookup_insert_eq; [done|]. by eapply lookup_lt_Some, Hix.
    + rewrite list_lookup_insert_ne; [by apply Hix|]. intros Heq. by eapply Hne, (Hinj t t').
  - assert (∀ t' x, <[t := r']> (co_reservations c) !! t' = Some x → is_Some (co_reservations c !! t'))
      as Hdom.
    { intros t' x. rewrite lookup_insert_Some. intros [[<- _]|[_ ->]]; by eexists. }
    intros t1 t2 x x' [y H1]%Hdom [y' H2]%Hdom. by eapply Hinj.
Qed.

(** COMMIT and RELEASE, when they do not throw. *)
Lemma handle_settle_refined now type payload c out c' :
  handle_settle now type payload c = (Ret out, c') → refined c → refined c'.
Proof.
  intros H (s & Hs & Hg & ix & Hix & Hinj). unfold handle_settle, st_bind at 1, parse, st_lift in H.
  destruct (r_u64 payload).1 as [token|]; [|done].
  unfold st_bind at 1, fetch, st_bind at 1, st_get, st_ret in H.
  destruct (co_reservations c !! token) as [r|] eqn:Ht;
    [|injection H as _ <-; exists s; split; [done|]; split; [done|]; by exists ix].
  unfold st_bind at 1, settle, gov_on in H. rewrite <-Hg in H.
  destruct ((if decide (type = Msg.COMMIT) then commit now else release) (sys_g s, r))
    as [[st|e] [g' r']] eqn:Hm; [|done]. injection H as _ <-.
  apply (tracked_settle _ _ s (ix token)) in Hm as (s' & Hs' & Hg' & Htok); [|done|by apply Hix].
  exists s'. split; [done|]. by eapply (simulates_outcome c s s' token r g' r' ix).
Qed.

Lemma yields_realize : yields (λ '(req, wl), id_ok req ∧ id_ok wl) read_realize.
Proof.
  unfold read_realize. eapply yields_bind; [apply yields_id|]. intros req Hreq.
  eapply yields_bind; [apply yields_id|]. intros wl Hwl. by apply yields_ret.
Qed.

Lemma handle_refined `{IterOrder} now io type payload :
  clock_ok now → Forall byte_ok payload → type ≠ Msg.COMMIT → type ≠ Msg.RELEASE →
  keeps refined (handle now io type payload).
Proof.
  intros Hn Hb Hc Hrel. pose proof (handle_reserve_refined now payload).
  destruct type; try done; cbn [handle];
    unfold handle_hello, handle_publish, handle_eval, handle_record, handle_realize, handle_state,
      handle_revalidate; try (by eauto 20 with keeps).
  - apply (keeps_parse _ _ _ _ _ yields_price Hb). intros o Ho. eauto 20 with keeps.
  - eapply (keeps_parse _ _ _ _ _ yields_realize Hb). intros [req wl] [Hreq Hwl]. eauto 20 with keeps.
Qed.

(** Messages handled one after the other, whatever bytes they hold; a settlement
    that throws is excluded, since it may have changed the budget already. *)
Inductive co_step `{IterOrder} : Coord → Coord → Prop :=
  | co_handled now io type payload c x c' :
      clock_ok now → Forall byte_ok payload → handle now io type payload c = (x, c') →
      (type = Msg.COMMIT ∨ type = Msg.RELEASE → is_Ret x) → co_step c c'.

Lemma co_step_refined `{IterOrder} c c' : co_step c c' → refined c → refined c'.
Proof.
  intros [now io type payload c0 x c1 Hn Hb H1 Hret] Hc.
  destruct (decide (type = Msg.COMMIT ∨ type = Msg.RELEASE)) as [Ht|Ht].
  - destruct (Hret Ht) as [out ->]. apply (handle_settle_refined now type payload c0 out); [|done].
    by destruct Ht as [-> | ->].
  - assert (type ≠ Msg.COMMIT ∧ type ≠ Msg.RELEASE) as [Hc1 Hc2] by tauto.
    pose proof (handle_refined now io type payload Hn Hb Hc1 Hc2 c0 Hc) as Hk. by rewrite H1 in Hk.
Qed.

Lemma refined_bounds c id b :
  refined c → g_budgets (co_gov c) !! id = Some b →
  0 ≤ b_reserved b ≤ b_limit b ∧ 0 ≤ b_consumed b ∧
  (b_mode b = BudgetMode.HARD → b_consumed b ≤ b_limit b).
Proof.
  intros (s & Hs & Hg & _) Hb. rewrite <-Hg in Hb. apply (system_bounds s id b); [by apply inv_sound|done].
Qed.

Lemma co_steps_refined `{IterOrder} c c' : rtc co_step c c' → refined c → refined c'.
Proof. induction 1; eauto using co_step_refined. Qed.
End refinement.

Lemma start_fresh_refined path fs c :
  exists_file fs path = false → start path fs = Ret c → refined typed_reachable c.
Proof.
  intros Hno H. unfold start, setup, st_bind at 1 2 in H. cbn in H. rewrite Hno in H.
  injection H as <-.
  pose (ops := [ op_set_state_path path; op_set_policy coordinator_policy;
    op_set_price_schedule (mkPriceSchedule (mkId 1) (mkId 1) [] kNow);
    op_create_budget (coordinator_budget 1000000
      (set_g_epoch (mkId 1) (set_g_policy coordinator_policy initial))) ]).
  eexists (default initial_sys (run ops initial_sys)). split.
  { apply (typed_run ops); [|by vm_compute]. repeat constructor; by_compute. }
  split; [by vm_compute|]. exists (λ _, 0%nat). split; intros * Ht; discriminate Ht.
Qed.

(** ** Sessions *)

(** A read leaves what it did not take. *)
Lemma recv_all_length n chunks w cs :
  recv_all n chunks = (Some w, cs) → length (mjoin chunks) = (n + length (mjoin cs))%nat.
Proof.
  revert n w cs. induction chunks as [|ch chunks IH]; intros n w cs H.
  { destruct n; [|done]. by simplify_eq/=. }
  destruct n as [|n]; [by simplify_eq/=|]. destruct ch as [|b ch]; [done|]. cbn [recv_all] in H.
  case_decide as Hle.
  - destruct (recv_all _ chunks) as [[v|] cs'] eqn:Hr; [|done]. simplify_eq/=.
    apply IH in Hr. rewrite length_app. cbn in *. lia.
  - simplify_eq/=. rewrite !length_app, length_drop. cbn in *. lia.
Qed.

(** Every frame, good or bad, takes at least its header from the stream. *)
Lemma recv_progress chunks x cs :
  recv chunks = (x, cs) → x ≠ Ret None → (kHeader + length (mjoin cs) ≤ length (mjoin chunks))%nat.
Proof.
  unfold recv. intros H Hx. destruct (recv_all kHeader chunks) as [[hdr|] cs1] eqn:Hh;
    [|by simplify_eq]. apply recv_all_length in Hh.
  destruct (read_header hdr).1 as [[[[[magic ver] t] len] crc]|e]; [|simplify_eq; lia].
  do 3 (case_decide; [simplify_eq; lia|]).
  destruct (recv_all (Z.to_nat len) cs1) as [[payload|] cs2] eqn:Hp; [|by simplify_eq].
  apply recv_all_length in Hp. case_decide; simplify_eq; lia.
Qed.

Lemma session_terminates_aux `{IterOrder} fuel now io i chunks c :
  (length (mjoin chunks) < kHeader * fuel)%nat →
  ∃ out c', run_session fuel now io i chunks c = (Some out, c').
Proof.
  unfold kHeader. revert i chunks c. induction fuel as [|fuel IH]; intros i chunks c Hf; [lia|].
  cbn [run_session]. destruct (recv chunks) as [x cs] eqn:Hr.
  pose proof (recv_progress _ _ _ Hr) as Hp. unfold kHeader in Hp.
  destruct x as [[[type payload]|]|e]; [|by repeat eexists|].
  - assert (16 + length (mjoin cs) ≤ length (mjoin chunks))%nat by (by apply Hp).
    destruct (serve now (io i) type payload c) as [out1 c1].
    destruct (IH (S i) cs c1) as (out & c' & ->); [lia|by repeat eexists].
  - assert (16 + length (mjoin cs) ≤ length (mjoin chunks))%nat by (by apply Hp).
    destruct (IH (S i) cs c) as (out & c' & ->); [lia|by repeat eexists].
Qed.

(** *** Replies *)

(** Whatever it answers, [m] answers once. *)
Definition one_reply (m : St Coord (list Reply)) : Prop :=
  ∀ c out c', m c = (Ret out, c') → length out = 1%nat.

Lemma one_reply_bind {A} (m : St Coord A) k : (∀ a, one_reply (k a)) → one_reply (st_bind m k).
Proof.
  intros Hk c out c'. unfold st_bind. destruct (m c) as [[a|] c1]; [|done]. apply Hk.
Qed.

Lemma one_reply_reply type w : one_reply (reply type w).
Proof.
  intros c out c' H. unfold reply, st_bind, st_lift in H.
  destruct (writes w); [|done]. by injection H as <- _.
Qed.

Lemma one_reply_status type st : one_reply (reply_status type st).
Proof. apply one_reply_reply. Qed.

#[local] Hint Resolve one_reply_bind one_reply_reply one_reply_status : keeps.
#[local] Hint Extern 2 (one_reply (match ?x with _ => _ end)) => destruct x : keeps.
#[local] Hint Extern 2 (one_reply (let '_ := ?x in _)) => destruct x : keeps.

Lemma serve_replies `{IterOrder} now io type payload c :
  length (serve now io type payload c).1 = if decide (type = Msg.QUIT) then 0%nat else 1%nat.
Proof.
  unfold serve. destruct (decide (type = Msg.QUIT)) as [->|Hq]; [done|].
  assert (one_reply (handle now io type payload)) as Hone.
  { destruct type; try done; cbn [handle];
      unfold handle_hello, handle_publish, handle_eval, handle_record, handle_reserve, handle_settle,
        handle_realize, handle_state, handle_revalidate; eauto 20 with keeps. }
  destruct (handle now io type payload c) as [[out|e] c'] eqn:Hh; [|done]. by apply Hone in Hh.
Qed.

(** *** Streams of frames *)

(** The messages one after the other: their replies and the final state. *)
Fixpoint serve_all `{IterOrder} (now : Readings) (io : nat → IoFaults) (i : nat)
    (msgs : list (Msg * list Z)) (c : Coord) : list Reply * Coord :=
  match msgs with
  | [] => ([], c)
  | (type, payload) :: msgs' =>
      let '(out1, c1) := serve now (io i) type payload c in
      let '(out2, c2) := serve_all now io (S i) msgs' c1 in (out1 ++ out2, c2)
  end.

Definition message_ok (m : Msg * list Z) : Prop :=
  enum_ok m.1 ∧ Forall byte_ok m.2 ∧ Z.of_nat (length m.2) ≤ kMaxPayload.
#[global] Instance message_ok_dec m : Decision (message_ok m).
Proof. unfold message_ok. apply _. Defined.

Definition stream (msgs : list (Msg * list Z)) : list Z :=
  mjoin ((λ m, frame_bytes m.1 m.2 ++ m.2) <$> msgs).

Lemma recv_frame type payload rest chunks :
  message_ok (type, payload) → live chunks →
  mjoin chunks = (frame_bytes type payload ++ payload) ++ rest →
  ∃ cs, recv chunks = (Ret (Some (type, payload)), cs) ∧ mjoin cs = rest ∧ live cs.
Proof.
  intros (Ht & Hb & Hlen) Hl Hj. destruct (recv_recv_bytes chunks Hl) as (cs & Hr & Hrest & Hlc).
  rewrite <-app_assoc in Hj. rewrite Hj in Hr, Hrest. unfold frame_bytes in Hr, Hrest.
  rewrite (proj2 (recv_bytes_good type payload (to_u8 type) 0 rest Hlen Hb)) in Hr, Hrest
    by (by apply of_u8_msg).
  by exists cs.
Qed.

Lemma recv_end chunks : live chunks → mjoin chunks = [] → ∃ cs, recv chunks = (Ret None, cs).
Proof.
  intros Hl Hj. destruct (recv_recv_bytes chunks Hl) as (cs & Hr & _). rewrite Hj in Hr. by exists cs.
Qed.

Lemma run_session_stream `{IterOrder} now io msgs i chunks c :
  Forall message_ok msgs → live chunks → mjoin chunks = stream msgs →
  run_session (S (length msgs)) now io i chunks c =
    (Some (serve_all now io i msgs c).1, (serve_all now io i msgs c).2).
Proof.
  intros Hm. revert i chunks c. induction Hm as [|[type payload] msgs Hm Hms IH]; intros i chunks c Hl Hj.
  { destruct (recv_end chunks Hl Hj) as [cs Hr]. cbn [run_session length]. by rewrite Hr. }
  destruct (recv_frame type payload (stream msgs) chunks Hm Hl Hj) as (cs & Hr & Hrest & Hlc).
  cbn [length]. remember (S (length msgs)) as fuel eqn:Hfuel. cbn [run_session]. rewrite Hr.
  cbn [serve_all]. destruct (serve now (io i) type payload c) as [out1 c1].
  rewrite (IH (S i) cs c1 Hlc Hrest). by destruct (serve_all now io (S i) msgs c1).
Qed.

Lemma serve_all_replies `{IterOrder} now io msgs i c :
  length (serve_all now io i msgs c).1 = length (filter (λ m, m.1 ≠ Msg.QUIT) msgs).
Proof.
  revert i c. induction msgs as [|[type payload] msgs IH]; intros i c; [done|]. cbn [serve_all].
  pose proof (serve_replies now (io i) type payload c) as Hs.
  destruct (serve now (io i) type payload c) as [out1 c1]. specialize (IH (S i) c1).
  destruct (serve_all now io (S i) msgs c1) as [out2 c2].
  cbn [fst] in *. rewrite length_app, Hs, IH, filter_cons. cbn [fst].
  repeat case_decide; naive_solver.
Qed.

(** ** Settlements that overlap *)





Definition ok_reply : Reply := (Msg.PONG, status_payload Status.OK).





(** ** What a message leaves on disk *)

Lemma keeps_gov_files {A} fs (m : St Impl A) : keeps (λ c, co_files c = fs) (gov m).
Proof. intros c Hc. unfold gov. by destruct (m (co_gov c)). Qed.
Lemma keeps_settle_files fs now type r : keeps (λ c, co_files c = fs) (settle now type r).
Proof. intros c Hc. unfold settle, gov_on. by destruct (_ (co_gov c, r)) as [? [? ?]]. Qed.
Lemma keeps_store_files fs token r : keeps (λ c, co_files c = fs) (store token r).
Proof. by intros c Hc. Qed.
Lemma keeps_fetch I token : keeps I (fetch token).
Proof. by intros c Hc. Qed.

Lemma keeps_last_files fs d : keeps (λ c, co_files c = fs) (st_modify (set_co_last d)).
Proof. by intros c Hc. Qed.

#[local] Hint Resolve keeps_gov_files keeps_settle_files keeps_store_files keeps_fetch
  keeps_last_files : keeps.

Lemma handle_files `{IterOrder} fs now io type payload :
  type ≠ Msg.PUBLISH_PRICE → type ≠ Msg.RECORD_ATTEMPT →
  keeps (λ c, co_files c = fs) (handle now io type payload).
Proof.
  intros H1 H2. destruct type; try done; cbn [handle];
    unfold handle_hello, handle_eval, handle_reserve, handle_settle, handle_realize, handle_state,
      handle_revalidate; eauto 20 with keeps.
Qed.

Lemma serve_files `{IterOrder} now io type payload c :
  type ≠ Msg.PUBLISH_PRICE → type ≠ Msg.RECORD_ATTEMPT →
  co_files (serve now io type payload c).2 = co_files c.
Proof.
  intros H1 H2. pose proof (handle_files (co_files c) now io type payload H1 H2 c eq_refl) as Hk.
  unfold serve. by destruct (handle now io type payload c) as [[]].
Qed.

(** ** What survives a restart *)

(** The handlers never change where the state is saved. *)
Lemma keeps_modify {S} (I : S → Prop) f : (∀ s, I s → I (f s)) → keeps I (st_modify f).
Proof. intros Hf s Hs. by apply Hf. Qed.

(** The field [f] of the governor has the value [v]. *)
Definition has {F} (f : Impl → F) (v : F) (g : Impl) : Prop := f g = v.
Definition has_on {F} (f : Impl → F) (v : F) (x : Impl * BudgetReservation) : Prop := has f v x.1.
Definition co_has {F} (f : Impl → F) (v : F) (c : Coord) : Prop := has f v (co_gov c).

Lemma keeps_on_impl {A F} (f : Impl → F) v (m : St Impl A) :
  keeps (has f v) m → keeps (has_on f v) (on_impl m).
Proof. intros Hm [g r] Hg. unfold on_impl. specialize (Hm g Hg). by destruct (m g). Qed.
Lemma keeps_set_state {F} (f : Impl → F) v st : keeps (has_on f v) (set_state st).
Proof. by intros [g r]. Qed.

Ltac keeps_step :=
  lazymatch goal with
  | |- keeps _ (st_ret _) => apply keeps_ret
  | |- keeps _ (st_lift _) => apply keeps_lift
  | |- keeps _ st_get => apply keeps_get
  | |- keeps _ (st_modify _) => apply keeps_modify; by intros []
  | |- keeps _ (set_state _) => apply keeps_set_state
  | |- keeps _ (on_impl _) => apply keeps_on_impl
  | |- keeps _ (sub_reserved _ _ _) => unfold sub_reserved
  | |- keeps _ (add_released _ _ _) => unfold add_released
  | |- keeps _ (st_bind _ _) => apply keeps_bind; [|intros ?]
  | |- keeps _ (let _ := _ in _) => cbv zeta
  | |- keeps _ (match ?x with _ => _ end) => destruct x
  end.

(** The methods that leave the store, the schedule, or both alone. *)
Ltac field_kept :=
  intros; unfold set_worker_boot, publish_price, record_attempt, reserve, finalize_request, commit,
    release; repeat keeps_step.

Class Kept {F} (f : Impl → F) : Prop := {
  kept_boot v w b : keeps (has f v) (set_worker_boot w b);
  kept_record v e : keeps (has f v) (record_attempt e);
  kept_reserve v now id gen ep amt : keeps (has f v) (reserve now id gen ep amt);
  kept_finalize v now req wl : keeps (has f v) (finalize_request now req wl);
  kept_commit v now : keeps (has_on f v) (commit now);
  kept_release v : keeps (has_on f v) release }.
#[export] Instance store_is_kept : Kept g_store.
Proof. split; field_kept. Qed.
#[export] Instance schedule_is_kept : Kept g_schedule.
Proof. split; field_kept. Qed.
Lemma publish_keeps_store st o : keeps (has g_store st) (publish_price o).
Proof. field_kept. Qed.

Definition saved_at (st : option string) (c : Coord) : Prop := co_has g_store st c.

Lemma keeps_gov_has {A F} (f : Impl → F) v (m : St Impl A) :
  keeps (has f v) m → keeps (co_has f v) (gov m).
Proof. intros Hm c Hc. unfold gov. specialize (Hm _ Hc). by destruct (m (co_gov c)). Qed.

Lemma keeps_settle_has `{Hf : Kept F f} v now type r : keeps (co_has f v) (settle now type r).
Proof.
  intros c Hg. unfold settle, gov_on.
  assert (keeps (has_on f v) (if decide (type = Msg.COMMIT) then commit now else release)) as Hm
    by (case_decide; [apply kept_commit|apply kept_release]).
  specialize (Hm (co_gov c, r) Hg). by destruct (_ (co_gov c, r)) as [? [? ?]].
Qed.

Lemma keeps_persist_has `{IterOrder} {F} (f : Impl → F) v io : keeps (co_has f v) (persist_now io).
Proof. intros c Hc. unfold persist_now. by destruct (persist io _ _). Qed.
Lemma keeps_store_has {F} (f : Impl → F) v token r : keeps (co_has f v) (store token r).
Proof. by intros c Hc. Qed.
Lemma keeps_last_has {F} (f : Impl → F) v d : keeps (co_has f v) (st_modify (set_co_last d)).
Proof. by intros c Hc. Qed.

#[local] Hint Resolve keeps_gov_has keeps_settle_has keeps_persist_has keeps_store_has
  keeps_last_has : keeps.

(** A field that every method but [publish_price] keeps, through a message. *)
Lemma handle_has `{IterOrder} `{Hf : Kept F f} v now io type payload :
  (type = Msg.PUBLISH_PRICE → ∀ o, keeps (has f v) (publish_price o)) →
  keeps (co_has f v) (handle now io type payload).
Proof.
  intros Hpub. pose proof (Hf' := Hf). destruct Hf' as [Hb Hrec Hres Hfin _ _].
  destruct type; cbn [handle];
    unfold handle_hello, handle_publish, handle_eval, handle_record, handle_reserve, handle_settle,
      handle_realize, handle_state, handle_revalidate; eauto 20 with keeps.
Qed.

Lemma handle_store `{IterOrder} st now io type payload : keeps (saved_at st) (handle now io type payload).
Proof. apply (handle_has (f := g_store)). intros _ o. apply publish_keeps_store. Qed.

Lemma co_steps_store `{IterOrder} st c c' : rtc co_step c c' → saved_at st c → saved_at st c'.
Proof.
  induction 1 as [|c c1 c2 [now io type payload c3 x c4 _ _ Hh _] _ IH]; [done|]. intros Hc. apply IH.
  pose proof (handle_store st now io type payload c3 Hc) as Hk. by rewrite Hh in Hk.
Qed.

Lemma start_store path fs c : start path fs = Ret c → saved_at (Some path) c.
Proof.
  unfold start. destruct (setup path fs initial) as [x g] eqn:Hs.
  intros H. apply res_bind_Ret in H as ([] & -> & [= <-]). unfold saved_at, co_has, has. cbn.
  unfold setup, st_bind at 1 2 in Hs. cbn in Hs.
  destruct (exists_file fs path); [|by injection Hs as <-].
  unfold load in Hs. st_simpl Hs. destruct (load_file fs path); [|done]. by injection Hs as <-.
Qed.

(** The common shape of the two handlers that save the state. *)
Definition saving {A} `{IterOrder} (io : IoFaults) (m : R A) (f : A → St Impl Status)
    (payload : list Z) : St Coord (list Reply) :=
  let* a := parse m payload in
  let* st := gov (f a) in
  (if decide (st = Status.OK) then persist_now io else st_ret tt) ;;;
  reply_status Msg.PONG st.

Lemma reply_status_ret type st c :
  reply_status type st c = (Ret [(type, status_payload st)], c).
Proof. by destruct st. Qed.

(** Such a handler saves, or leaves the files alone and does not answer OK. *)
Lemma saving_cases `{IterOrder} {A} io (m : R A) f payload c x c' :
  saving io m f payload c = (x, c') →
  (∃ y fs', persist io (co_gov c') (co_files c) = (y, fs') ∧ co_files c' = fs') ∨
  (co_files c' = co_files c ∧ x ≠ Ret [ok_reply]).
Proof.
  unfold saving. intros Hm. unfold st_bind at 1, parse, st_lift in Hm.
  destruct (m payload).1 as [a|]; [|right; by injection Hm as <- <-].
  unfold st_bind at 1, gov in Hm.
  destruct (f a (co_gov c)) as [[st|] g']; [|right; by injection Hm as <- <-].
  unfold st_bind at 1 in Hm. case_decide as Hst.
  - left. unfold persist_now in Hm. cbn [co_gov co_files set_co_gov] in Hm.
    destruct (persist io g' (co_files c)) as [y fs'] eqn:Hp. exists y, fs'.
    destruct y; cbn [res_bind] in Hm; [rewrite reply_status_ret in Hm|]; by injection Hm as _ <-.
  - right. unfold st_ret in Hm. rewrite reply_status_ret in Hm. injection Hm as <- <-.
    split; [done|]. intros Heq. apply Hst. by destruct st.
Qed.

Lemma handle_saving `{IterOrder} now io type payload c x c' :
  type = Msg.PUBLISH_PRICE ∨ type = Msg.RECORD_ATTEMPT →
  handle now io type payload c = (x, c') →
  (∃ y fs', persist io (co_gov c') (co_files c) = (y, fs') ∧ co_files c' = fs') ∨
  (co_files c' = co_files c ∧ x ≠ Ret [ok_reply]).
Proof.
  intros [-> | ->] Hh;
    [by apply (saving_cases io decode_price publish_price payload)
    |by apply (saving_cases io decode_evidence record_attempt payload)].
Qed.

(** A reply of OK to a message that saves means that the state was saved. *)
Lemma ok_reply_saved `{IterOrder} now io type payload c c' :
  type = Msg.PUBLISH_PRICE ∨ type = Msg.RECORD_ATTEMPT →
  serve now io type payload c = ([ok_reply], c') →
  ∃ y, persist io (co_gov c') (co_files c) = (y, co_files c').
Proof.
  intros Ht Hs. unfold serve in Hs.
  destruct (handle now io type payload c) as [[out|e] c2] eqn:Hh; [|done].
  injection Hs as -> ->. by apply handle_saving in Hh as [(y & fs' & Hp & ->)|[_ ?]]; eauto.
Qed.

Lemma revalidate_reply `{IterOrder} now io payload plans st c :
  (r_list decode_plan payload).1 = Ret plans →
  validate_for_dispatch now (co_gov c) (co_last c) plans = Ret st →
  serve now io Msg.REVALIDATE payload c = ([(Msg.PONG, status_payload st)], c).
Proof.
  intros Hp Hv. unfold serve. cbn [handle]. unfold handle_revalidate, st_bind, parse, st_lift, st_get.
  by rewrite Hp, Hv, reply_status_ret.
Qed.

(** The governor of [main] when it looks for a state file. *)
Definition configured (path : string) : Impl :=
  (set_policy coordinator_policy (set_state_path path initial).2).2.

Lemma start_loaded path fs snap :
  load_file fs path = Ret snap →
  start path fs =
    Ret (mkCoord (advance_epoch (load_snapshot snap (configured path))).2 ∅ no_decision fs).
Proof.
  intros Hl. assert (exists_file fs path = true) as Hex.
  { unfold exists_file. apply bool_decide_eq_true. unfold load_file in Hl.
    destruct (fs !! path); [by eexists|done]. }
  unfold start, setup, st_bind at 1 2. cbn. rewrite Hex. unfold load. unfold st_bind, st_get, st_lift.
  cbn [g_store set_g_store set_g_policy set_g_epoch set_g_revalidation_needed]. by rewrite Hl.
Qed.

(** A restart from the file that [persist] wrote. *)
Lemma restart_persisted `{IterOrder} path g fs bytes :
  g_store g = Some path → snapshot_wf (snapshot_of g) → encode (snapshot_of g) = Ret bytes →
  keyed g →
  ∃ c, start path (persist no_faults g fs).2 = Ret c ∧
    g_schedule (co_gov c) = g_schedule g ∧ g_policy (co_gov c) = g_policy g ∧
    g_history (co_gov c) = g_history g ∧ g_epoch (co_gov c) = id_succ (g_epoch g) ∧
    g_budgets (co_gov c) = recover_budget <$> g_budgets g ∧
    g_attempts (co_gov c) = ∅ ∧ co_reservations c = ∅ ∧ co_last c = no_decision.
Proof.
  intros Hst Hwf He Hk.
  assert (decode bytes = Ret (snapshot_of g)) as Hd by by apply (decode_encode (snapshot_of g)).
  unfold persist. rewrite Hst, (save_ok _ _ _ _ He). cbn [snd].
  eexists. split.
  { apply start_loaded. unfold load_file. by rewrite lookup_insert_eq, Hd. }
  split_and!; try done. cbn. by apply recovered_budgets.
Qed.

(** ** A coordinator at work, for the witnesses *)

Definition coord_or (x : res Coord) : Coord :=
  match x with Ret c => c | Throw _ => mkCoord initial ∅ no_decision ∅ end.
Definition fresh_coord : Coord := coord_or (start "state.bin" ∅).
Definition kClock : Readings := λ _, kNow.
Lemma kClock_ok : clock_ok kClock.
Proof. intros n. by_compute. Qed.
Definition id_bytes (l : list Z) : list Z := mjoin (le_bytes 8 <$> l).
(** Worker 1 boots, and reserves 300000 of the budget twice. *)
Definition opening : list (Msg * list Z) :=
  [ (Msg.HELLO, id_bytes [1; 5]); (Msg.RESERVE, id_bytes [1; 1; 1; 300000]);
    (Msg.RESERVE, id_bytes [1; 1; 1; 300000]) ].
Definition opened : Coord := (@serve_all map_order kClock (λ _, no_faults) 0 opening fresh_coord).2.


Lemma opened_steps : rtc (@co_step map_order) fresh_coord opened.
Proof.
  eapply rtc_l; [by eapply (@co_handled map_order kClock no_faults Msg.HELLO (id_bytes [1; 5]));
    [|by_compute|apply surjective_pairing|intros []]|].
  do 2 (eapply rtc_l; [by eapply (@co_handled map_order kClock no_faults Msg.RESERVE (id_bytes [1; 1; 1; 300000]));
    [|by_compute|apply surjective_pairing|intros []]|]).
  apply reflexive_eq. by vm_compute.
Qed.

(** A price of worker 1, published on that coordinator. *)
Definition price_payload : list Z :=
  match encode_price (sample_price 1 PriceKind.ENERGY 200000 1000 7) with Ret w => w | Throw _ => [] end.
Definition published : Coord :=
  (@serve map_order kClock no_faults Msg.PUBLISH_PRICE price_payload opened).2.

(** ** Theorems *)

(** C24. The coordinator implements the governor's transition system: from a start
    without a state file, after any sequence of messages handled one at a time
    with any payloads, clock readings and file system failures (a settlement that
    throws excepted), its governor is that of a reachable system state in which
    every reservation of its token map is a client's reservation at a position of
    its own; hence in every budget the reserved amount stays between zero and the
    limit, and the consumed amount of a hard budget never exceeds its limit. *)
Theorem coordinator_refines_system (I : IterOrder) path fs c0 c :
  exists_file fs path = false → start path fs = Ret c0 → rtc co_step c0 c →
  (∃ s, typed_reachable s ∧ reachable s ∧ simulates c s) ∧
  (∀ id b, g_budgets (co_gov c) !! id = Some b →
     0 ≤ b_reserved b ≤ b_limit b ∧ 0 ≤ b_consumed b ∧
     (b_mode b = BudgetMode.HARD → b_consumed b ≤ b_limit b)).
Proof.
  intros Hno Hs Hrun. assert (refined typed_reachable c) as Hc.
  { apply (co_steps_refined _ c0 c Hrun). by apply (start_fresh_refined path fs). }
  split; [|intros id b; by apply (refined_bounds typed_reachable)]. destruct Hc as (s & Ht & Hsim).
  exists s. split; [done|]. split; [by apply typed_reachable_reachable|done].
Qed.

Lemma coordinator_refines_system_witness :
  (∃ s, typed_reachable s ∧ reachable s ∧ simulates opened s) ∧
  ∀ id b, g_budgets (co_gov opened) !! id = Some b → 0 ≤ b_reserved b ≤ b_limit b.
Proof.
  destruct (coordinator_refines_system map_order "state.bin" ∅ fresh_coord opened) as [H1 H2];
    [by vm_compute|by vm_compute|apply opened_steps|].
  split; [exact H1|]. intros id b Hb. by apply (H2 id b Hb).
Defined.

(** C16. A session always ends: whatever bytes arrive, in whatever pieces, the loop
    over a connection runs at most once per sixteen bytes, plus one. *)
Theorem session_terminates (I : IterOrder) now io i chunks c :
  ∃ out c', run_session (S (length (mjoin chunks) / kHeader)) now io i chunks c = (Some out, c').
Proof.
  apply session_terminates_aux. unfold kHeader.
  pose proof (Nat.div_mod_eq (length (mjoin chunks)) 16).
  pose proof (Nat.mod_upper_bound (length (mjoin chunks)) 16). lia.
Qed.

(** C15. Every request is answered, in order: on a connection that delivers well-formed
    frames in any pieces and then ends, the session's replies are exactly those of
    handling the messages one after the other, one reply for each message but
    QUIT, whatever the handlers throw. *)
Theorem session_answers_every_request (I : IterOrder) now io i msgs chunks c :
  Forall message_ok msgs → Forall (λ ch, ch ≠ []) chunks → mjoin chunks = stream msgs →
  ∃ out c', run_session (S (length msgs)) now io i chunks c = (Some out, c') ∧
    (out, c') = serve_all now io i msgs c ∧
    length out = length (filter (λ m, m.1 ≠ Msg.QUIT) msgs).
Proof.
  intros Hm Hl Hj. eexists _, _. split; [by apply run_session_stream|].
  split; [by destruct (serve_all now io i msgs c)|]. apply serve_all_replies.
Qed.

Lemma session_answers_every_request_witness :
  ∃ out c', @run_session map_order 4 kClock (λ _, no_faults) 0
      [take 30 (stream opening); drop 30 (stream opening)] fresh_coord = (Some out, c') ∧
    length out = 3%nat.
Proof.
  destruct (session_answers_every_request map_order kClock (λ _, no_faults) 0 opening
    [take 30 (stream opening); drop 30 (stream opening)] fresh_coord) as (out & c' & H1 & _ & H2);
    [by_compute|by_compute|by vm_compute|].
  exists out, c'. split; [exact H1|]. rewrite H2. by vm_compute.
Defined.



(** Settlements are not durable: RESERVE, COMMIT, RELEASE and REALIZE leave the
    file system as it was, whatever they answer, so a coordinator started again
    is the one it would have been without them. *)
Theorem settlements_not_durable (I : IterOrder) now io type payload c path :
  type ∈ [Msg.RESERVE; Msg.COMMIT; Msg.RELEASE; Msg.REALIZE] →
  co_files (serve now io type payload c).2 = co_files c ∧
  start path (co_files (serve now io type payload c).2) = start path (co_files c).
Proof. intros Ht. rewrite (serve_files now io type payload c); set_solver. Qed.

Lemma settlements_not_durable_witness :
  let after := @serve map_order kClock no_faults Msg.COMMIT (id_bytes [1]) opened in
  after.1 = [ok_reply] ∧ (b_consumed <$> g_budgets (co_gov after.2) !! mkId 1) = Some 300000 ∧
  co_files after.2 = co_files opened ∧
  start "state.bin" (co_files after.2) = start "state.bin" (co_files opened).
Proof.
  intros after. split; [by vm_compute|]. split; [by vm_compute|].
  apply (settlements_not_durable map_order kClock no_faults Msg.COMMIT (id_bytes [1]) opened
    "state.bin"). by_compute.
Defined.

(** Acknowledged prices and evidence are saved: when a coordinator that started
    without a state file answers PUBLISH_PRICE or RECORD_ATTEMPT with OK and no file
    operation fails, starting it again on the file succeeds and restores the price
    schedule (the published price in it), the policy, the history and every budget's
    funds, under the next epoch; recorded attempts, outstanding reservations and the
    last decision are not part of the file and are gone. *)
Theorem acknowledged_state_survives_restart (I : IterOrder) path fs c0 c now type payload c' :
  exists_file fs path = false → start path fs = Ret c0 → rtc co_step c0 c →
  type = Msg.PUBLISH_PRICE ∨ type = Msg.RECORD_ATTEMPT → clock_ok now → Forall byte_ok payload →
  serve now no_faults type payload c = ([ok_reply], c') →
  readable_counts (snapshot_of (co_gov c')) →
  ∃ c2, start path (co_files c') = Ret c2 ∧
    g_schedule (co_gov c2) = g_schedule (co_gov c') ∧ g_policy (co_gov c2) = g_policy (co_gov c') ∧
    g_history (co_gov c2) = g_history (co_gov c') ∧
    g_epoch (co_gov c2) = id_succ (g_epoch (co_gov c')) ∧
    (∀ id b, g_budgets (co_gov c') !! id = Some b → ∃ b', g_budgets (co_gov c2) !! id = Some b' ∧
       b_reserved b' = 0 ∧ same_funds b b') ∧
    g_attempts (co_gov c2) = ∅ ∧ co_reservations c2 = ∅ ∧ co_last c2 = no_decision.
Proof.
  intros Hno Hstart Hrun Htype Hn Hb Hs Hcnt.
  assert (co_step c c') as Hstep.
  { unfold serve in Hs. destruct (handle now no_faults type payload c) as [[out|e] c1] eqn:Hh; [|done].
    injection Hs as _ <-. eapply co_handled; [done|done|exact Hh|]. by eexists. }
  assert (refined typed_reachable c') as (s & Ht & Hg & _).
  { apply (co_step_refined typed_reachable c c' Hstep). apply (co_steps_refined _ c0 c Hrun).
    by apply (start_fresh_refined path fs). }
  assert (g_store (co_gov c') = Some path) as Hst.
  { apply (co_steps_store (Some path) c0 c'); [by eapply rtc_r|by eapply start_store]. }
  pose proof (typed_reachable_sound s Ht) as Hs'. 
  assert (snapshot_wf (snapshot_of (co_gov c'))) as Hwf.
  { split; [|exact Hcnt]. rewrite <-Hg. apply typed_snapshot; apply Hs'. }
  destruct (encode_total _ (proj1 Hwf)) as [bytes He].
  destruct (ok_reply_saved now no_faults type payload c c' Htype Hs) as [y Hp].
  assert (co_files c' = (persist no_faults (co_gov c') (co_files c)).2) as -> by by rewrite Hp.
  destruct (restart_persisted path (co_gov c') (co_files c) bytes) as (c2 & H2 & ?&?&?&?& Hbud &?&?&?);
    [done..|rewrite <-Hg; by apply sound_keyed|].
  exists c2. split_and!; try done. intros id b Hid. rewrite Hbud, lookup_fmap, Hid.
  eexists. split; [done|]. apply recover_budget_funds.
Qed.

Lemma acknowledged_state_survives_restart_witness :
  ∃ c2, start "state.bin" (co_files published) = Ret c2 ∧
    g_schedule (co_gov c2) = g_schedule (co_gov published) ∧ co_reservations c2 = ∅.
Proof.
  destruct (acknowledged_state_survives_restart map_order "state.bin" ∅ fresh_coord opened kClock
    Msg.PUBLISH_PRICE price_payload published) as (c2 & H1 & H2 & _ & _ & _ & _ & _ & H3 & _);
    [by vm_compute|by vm_compute|apply opened_steps|by left|intros n; by_compute|by_compute
    |by vm_compute|by_compute|].
  exists c2. split; [exact H1|]. split; [exact H2|exact H3].
Defined.

(** QUIT is not answered, changes nothing and does
    not end the session: the frames after it are served like any others. *)
Theorem quit_is_ignored (I : IterOrder) now io i payload msgs chunks c :
  message_ok (Msg.QUIT, payload) → Forall message_ok msgs → Forall (λ ch, ch ≠ []) chunks →
  mjoin chunks = stream ((Msg.QUIT, payload) :: msgs) →
  run_session (S (S (length msgs))) now io i chunks c =
    (Some (serve_all now io (S i) msgs c).1, (serve_all now io (S i) msgs c).2).
Proof.
  intros Hq Hm Hl Hj. rewrite (run_session_stream now io ((Msg.QUIT, payload) :: msgs)); [|by constructor|done|done].
  cbn. by destruct (serve_all now io (S i) msgs c).
Qed.

Lemma quit_is_ignored_witness :
  @run_session map_order 5 kClock (λ _, no_faults) 0 [stream ((Msg.QUIT, []) :: opening)] fresh_coord
    = (Some (@serve_all map_order kClock (λ _, no_faults) 1 opening fresh_coord).1,
       (@serve_all map_order kClock (λ _, no_faults) 1 opening fresh_coord).2).
Proof.
  apply (quit_is_ignored map_order kClock (λ _, no_faults) 0 [] opening
    [stream ((Msg.QUIT, []) :: opening)] fresh_coord);
    [by_compute|by_compute|by_compute|by vm_compute].
Defined.
