(* ===== verification/Dispatch.v ===== *)
(** * Dispatch: what the coordinator lets a worker dispatch

    A worker asks for a decision with REQUEST_EVAL and, before it dispatches, for a
    confirmation with REVALIDATE.  This file follows the last decision through the
    messages in between, from any number of sessions. *)

From stdpp Require Import prelude gmap strings.
From S2P Require Import Prelude Effects Money Identity Units Price Policy Budget Cost.
From S2P Require Import Plan Decision Samples Codec Governor Evaluate Ledger System EvaluateFacts.
From S2P Require Import Snapshot Recovery Wire WireFacts Types Coordinator CoordinatorFacts.
From stdpp Require Import options.

#[local] Existing Instance wire_format.

(** ** The last decision *)

Lemma keeps_gov_last {A} d (m : St Impl A) : keeps (λ c, co_last c = d) (gov m).
Proof. intros c Hc. unfold gov. by destruct (m (co_gov c)). Qed.
Lemma keeps_settle_last d now type r : keeps (λ c, co_last c = d) (settle now type r).
Proof. intros c Hc. unfold settle, gov_on. by destruct (_ (co_gov c, r)) as [? [? ?]]. Qed.
Lemma keeps_store_last d token r : keeps (λ c, co_last c = d) (store token r).
Proof. by intros c Hc. Qed.
Lemma keeps_persist_last `{IterOrder} d io : keeps (λ c, co_last c = d) (persist_now io).
Proof. intros c Hc. unfold persist_now. by destruct (persist io _ _). Qed.

#[local] Hint Resolve keeps_bind keeps_lift keeps_ret keeps_get keeps_fetch keeps_gov_last
  keeps_settle_last keeps_store_last keeps_persist_last : keeps.
#[local] Hint Extern 1 (keeps _ (parse _ _)) => apply keeps_lift : keeps.
#[local] Hint Extern 1 (keeps _ (reply _ _)) => unfold reply : keeps.
#[local] Hint Extern 1 (keeps _ (reply_status _ _)) => unfold reply_status, reply : keeps.
#[local] Hint Extern 2 (keeps _ (if decide _ then _ else _)) => case_decide : keeps.
#[local] Hint Extern 2 (keeps _ (match ?x with _ => _ end)) => destruct x : keeps.
#[local] Hint Extern 2 (keeps _ (let '_ := ?x in _)) => destruct x : keeps.

Lemma handle_last `{IterOrder} d now io type payload :
  type ≠ Msg.REQUEST_EVAL → keeps (λ c, co_last c = d) (handle now io type payload).
Proof.
  intros Ht. destruct type; try done; cbn [handle];
    unfold handle_hello, handle_publish, handle_record, handle_reserve, handle_settle, handle_realize,
      handle_state, handle_revalidate; eauto 20 with keeps.
Qed.

Lemma serve_keeps `{IterOrder} P now io type payload c :
  keeps P (handle now io type payload) → P c → P (serve now io type payload c).2.
Proof.
  intros Hk Hc. specialize (Hk c Hc). unfold serve.
  by destruct (handle now io type payload c) as [[]].
Qed.

(** ** The schedule's generation *)

(** The generation after [k] accepted prices. *)
Definition bumped (gen : PriceScheduleGeneration) (k : Z) : PriceScheduleGeneration :=
  mkId (wrap_u64 (value gen + k)).

(** Whether the message is a price and was accepted. *)
Definition accepts (type : Msg) (out : list Reply) : Z :=
  if decide (type = Msg.PUBLISH_PRICE ∧ out = [ok_reply]) then 1 else 0.

Definition generation_of (c : Coord) : PriceScheduleGeneration := s_generation (g_schedule (co_gov c)).

(** A saving handler calls the governor once, if it can parse the message. *)
Lemma saving_gov `{IterOrder} {A} io (m : R A) f payload c x c' :
  saving io m f payload c = (x, c') →
  (co_gov c' = co_gov c ∧ x ≠ Ret [ok_reply]) ∨
  ∃ a y, f a (co_gov c) = (y, co_gov c') ∧ (x = Ret [ok_reply] → y = Ret Status.OK).
Proof.
  unfold saving. intros Hm. unfold st_bind at 1, parse, st_lift in Hm.
  destruct (m payload).1 as [a|]; [|left; by injection Hm as <- <-].
  unfold st_bind at 1, gov in Hm. right. exists a.
  destruct (f a (co_gov c)) as [[st|e] g'] eqn:Hf; [|exists (Throw e); by injection Hm as <- <-].
  exists (Ret st). unfold st_bind at 1 in Hm. case_decide as Hst.
  - subst st. unfold persist_now in Hm. destruct (persist io _ _) as [y fs'].
    destruct y; cbn [res_bind] in Hm; [rewrite reply_status_ret in Hm|]; by injection Hm as <- <-.
  - unfold st_ret in Hm. rewrite reply_status_ret in Hm. injection Hm as <- <-.
    split; [done|]. by destruct st.
Qed.

Lemma bumped_ok gen k : id_ok (bumped gen k).
Proof. unfold id_ok, bumped. cbn. widths. pose proof (Z.mod_pos_bound (value gen + k) (2 ^ 64)). lia. Qed.

Lemma bumped_0 gen : id_ok gen → bumped gen 0 = gen.
Proof. intros Hg. apply value_inj. cbn. rewrite Z.add_0_r. unfold id_ok in Hg. widths.
  by rewrite Z.mod_small by lia. Qed.

Lemma serve_generation `{IterOrder} now io type payload c :
  id_ok (generation_of c) →
  let '(out, c') := serve now io type payload c in
  ∃ k, accepts type out ≤ k ≤ (if decide (type = Msg.PUBLISH_PRICE) then 1 else 0) ∧
    generation_of c' = bumped (generation_of c) k.
Proof.
  intros Hg. destruct (serve now io type payload c) as [out c'] eqn:Hs. unfold accepts.
  destruct (decide (type = Msg.PUBLISH_PRICE)) as [->|Ht].
  - unfold serve in Hs. destruct (handle now io Msg.PUBLISH_PRICE payload c) as [x c1] eqn:Hh.
    assert (c1 = c' ∧ (out = [ok_reply] → x = Ret [ok_reply])) as [-> Hok].
    { destruct x as [out1|e]; injection Hs as <- <-; [by split; [|intros ->]|]. done. }
    apply (saving_gov io decode_price publish_price payload) in Hh as [[Hc Hx]|(o & y & Hp & Hx)].
    + exists 0. rewrite decide_False by tauto. split; [lia|]. unfold generation_of.
      by rewrite Hc, bumped_0.
    + apply publish_price_cases in Hp as [[Hc Hy]|(_ & _ & _ & _ & _ & Hc)].
      * exists 0. rewrite decide_False by tauto. split; [lia|]. unfold generation_of.
        by rewrite Hc, bumped_0.
      * exists 1. split; [case_decide; lia|]. unfold generation_of. by rewrite Hc.
  - exists 0. rewrite decide_False by tauto. split; [lia|]. rewrite bumped_0 by done.
    pose proof (serve_keeps (co_has g_schedule (g_schedule (co_gov c))) now io type payload c
      (handle_has _ now io type payload ltac:(done)) eq_refl) as Hk.
    rewrite Hs in Hk. unfold generation_of. by rewrite Hk.
Qed.

(** The number of prices accepted, and sent, among the messages. *)
Fixpoint accepted_prices `{IterOrder} (now : Readings) (io : nat → IoFaults) (i : nat)
    (msgs : list (Msg * list Z)) (c : Coord) : Z :=
  match msgs with
  | [] => 0
  | (type, payload) :: msgs' =>
      let '(out, c1) := serve now (io i) type payload c in
      accepts type out + accepted_prices now io (S i) msgs' c1
  end.
Definition sent_prices (msgs : list (Msg * list Z)) : Z :=
  Z.of_nat (length (filter (λ m, m.1 = Msg.PUBLISH_PRICE) msgs)).

Lemma serve_all_generation `{IterOrder} now io msgs i c :
  id_ok (generation_of c) →
  ∃ k, accepted_prices now io i msgs c ≤ k ≤ sent_prices msgs ∧
    generation_of (serve_all now io i msgs c).2 = bumped (generation_of c) k.
Proof.
  revert i c. induction msgs as [|[type payload] msgs IH]; intros i c Hg.
  { exists 0. by rewrite bumped_0. }
  cbn [accepted_prices serve_all]. pose proof (serve_generation now (io i) type payload c Hg) as Hs.
  destruct (serve now (io i) type payload c) as [out1 c1]. destruct Hs as (k1 & Hk1 & H1).
  assert (id_ok (generation_of c1)) as Hg1 by (rewrite H1; apply bumped_ok).
  destruct (IH (S i) c1 Hg1) as (k2 & Hk2 & H2).
  destruct (serve_all now io (S i) msgs c1) as [out2 c2]. exists (k1 + k2). split.
  - unfold sent_prices in *. rewrite filter_cons. cbn [fst]. case_decide; cbn [length]; lia.
  - cbn in *. rewrite H2, H1. unfold bumped. cbn. f_equal. unfold wrap_u64.
    rewrite Zplus_mod_idemp_l. f_equal. lia.
Qed.

Lemma serve_all_last `{IterOrder} now io msgs i c :
  Forall (λ m, m.1 ≠ Msg.REQUEST_EVAL) msgs → co_last (serve_all now io i msgs c).2 = co_last c.
Proof.
  intros Hm. revert i c. induction Hm as [|[type payload] msgs H1 _ IH]; intros i c; [done|].
  cbn [serve_all].
  pose proof (serve_keeps _ now (io i) type payload c (handle_last (co_last c) now (io i) type payload H1)
    eq_refl) as Hf.
  destruct (serve now (io i) type payload c) as [out1 c1]. specialize (IH (S i) c1).
  destruct (serve_all now io (S i) msgs c1). cbn in *. congruence.
Qed.

(** ** Decisions of the coordinator *)

(** REQUEST_EVAL, when it is answered with a decision. *)
Lemma eval_served `{IterOrder} now io payload c w c1 :
  serve now io Msg.REQUEST_EVAL payload c = ([(Msg.EVAL_RESULT, w)], c1) →
  ∃ wg plans, evaluate now (co_gov c) wg plans = Ret (co_last c1) ∧ co_gov c1 = co_gov c.
Proof.
  unfold serve. cbn [handle]. unfold handle_eval, st_bind at 1, parse, st_lift. intros Hs.
  destruct (read_eval payload).1 as [[[wl wg] plans]|]; [|discriminate Hs].
  unfold st_bind, st_get, st_lift in Hs. exists wg, plans.
  destruct (evaluate now (co_gov c) wg plans) as [d|]; [|discriminate Hs].
  unfold st_modify, reply, st_bind, st_lift in Hs. destruct (writes [encode_decision d]); [|discriminate Hs].
  by injection Hs as _ <-.
Qed.

Lemma bumped_ne gen k : id_ok gen → 0 < k < 2 ^ 64 → bumped gen k ≠ gen.
Proof.
  intros Hg Hk Heq. apply (f_equal value) in Heq. cbn in Heq. unfold id_ok in Hg. widths.
  destruct (decide (value gen + k < 2 ^ 64)); [rewrite Z.mod_small in Heq; lia|].
  rewrite <-(Z_mod_plus_full _ (-1)), Z.mod_small in Heq; lia.
Qed.

(** ** A decision at the coordinator, for the witnesses *)

Definition plans_bytes (plans : list ExecutionPlan) : list Z :=
  match w_list encode_plan plans with Ret w => w | Throw _ => [] end.
(** Worker 1 has a plan with no usage, and the coordinator authorizes it. *)
Definition decided : list Reply * Coord :=
  @serve map_order kClock no_faults Msg.REQUEST_EVAL
    (id_bytes [1; 1] ++ plans_bytes [sample_plan 1 0]) published.

(** ** Theorems *)

(** C8. No stale plan is confirmed: once REQUEST_EVAL has been answered with an
    authorization, and after any messages of any sessions in which no other
    evaluation was requested, REVALIDATE answers STALE_AUTHORITY, whatever plans it
    names, if a price was accepted in between or the plan's worker has another boot
    than at the evaluation.  (Fewer than 2^64 prices are sent.) *)
Theorem session_dispatch_fenced (I : IterOrder) now io payload w c c1 now1 io1 i msgs now2 io2 payload2 plans :
  id_ok (generation_of c) →
  serve now io Msg.REQUEST_EVAL payload c = ([(Msg.EVAL_RESULT, w)], c1) →
  d_kind (co_last c1) = DecisionKind.AUTHORIZE →
  Forall (λ m, m.1 ≠ Msg.REQUEST_EVAL) msgs → sent_prices msgs < 2 ^ 64 →
  let c2 := (serve_all now1 io1 i msgs c1).2 in
  let worker := a_worker (d_authority (co_last c1)) in
  0 < accepted_prices now1 io1 i msgs c1 ∨
    current_boot_for (co_gov c2) worker ≠ current_boot_for (co_gov c) worker →
  (r_list decode_plan payload2).1 = Ret plans →
  serve now2 io2 Msg.REVALIDATE payload2 c2
    = ([(Msg.PONG, status_payload Status.STALE_AUTHORITY)], c2).
Proof.
  intros Hgen Hs Hd Hm Hlt c2 worker Hst Hp.
  apply eval_served in Hs as (wg & ps & He & Hg).
  destruct (evaluate_authorize _ _ _ _ _ He Hd) as (_ & cs & k & best & _ & _ & _ & _ & _ & _ & _ & _ & Ha & _).
  apply (revalidate_reply now2 io2 payload2 plans); [done|]. unfold c2.
  rewrite serve_all_last by done. fold c2. unfold validate_for_dispatch.
  rewrite decide_False by tauto.
  assert (a_price_generation (d_authority (co_last c1)) ≠ s_generation (g_schedule (co_gov c2)) ∨
    a_boot (d_authority (co_last c1)) ≠ current_boot_for (co_gov c2) worker) as Hne.
  { unfold worker in *. rewrite Ha in *. cbn in *. destruct Hst as [Hacc|Hb]; [left|right; congruence].
    destruct (serve_all_generation now1 io1 msgs i c1) as (n & Hn & Hgn);
      [unfold generation_of in *; by rewrite Hg|].
    unfold generation_of in Hgn. rewrite Hg in Hgn. fold c2 in Hgn. rewrite Hgn.
    intros Heq. symmetry in Heq. revert Heq. apply bumped_ne; [done|lia]. }
  fold worker. repeat (case_decide; [done|]). exfalso. naive_solver.
Qed.

Lemma session_dispatch_fenced_witness :
  let c2 := (@serve_all map_order kClock (λ _, no_faults) 0 [(Msg.PUBLISH_PRICE, price_payload)] decided.2).2 in
  d_kind (co_last decided.2) = DecisionKind.AUTHORIZE ∧
  @serve map_order kClock no_faults Msg.REVALIDATE (plans_bytes [sample_plan 1 0]) decided.2
    = ([ok_reply], decided.2) ∧
  @serve map_order kClock no_faults Msg.REVALIDATE (plans_bytes [sample_plan 1 0]) c2
    = ([(Msg.PONG, status_payload Status.STALE_AUTHORITY)], c2).
Proof.
  split; [by vm_compute|]. split; [by vm_compute|].
  apply (session_dispatch_fenced map_order kClock no_faults
    (id_bytes [1; 1] ++ plans_bytes [sample_plan 1 0])
    (match decided.1 with [(_, w)] => w | _ => [] end) published decided.2 kClock (λ _, no_faults) 0
    [(Msg.PUBLISH_PRICE, price_payload)] kClock no_faults (plans_bytes [sample_plan 1 0])
    [sample_plan 1 0]); [by_compute|by vm_compute|by vm_compute|by_compute|by_compute| |by vm_compute].
  left. by vm_compute.
Defined.

(** A refused evaluation confirms everything: the last decision is shared by all
    sessions, and one that authorizes nothing is confirmed with OK.  After any
    session's REQUEST_EVAL was refused, every REVALIDATE of every session answers
    OK, whatever plans it names, until the next evaluation. *)
Theorem refused_evaluation_confirms (I : IterOrder) now io payload w c c1 now1 io1 i msgs now2 io2 payload2 plans :
  serve now io Msg.REQUEST_EVAL payload c = ([(Msg.EVAL_RESULT, w)], c1) →
  d_kind (co_last c1) ≠ DecisionKind.AUTHORIZE →
  Forall (λ m, m.1 ≠ Msg.REQUEST_EVAL) msgs →
  (r_list decode_plan payload2).1 = Ret plans →
  serve now2 io2 Msg.REVALIDATE payload2 (serve_all now1 io1 i msgs c1).2
    = ([ok_reply], (serve_all now1 io1 i msgs c1).2).
Proof.
  intros Hs Hd Hm Hp. apply (revalidate_reply now2 io2 payload2 plans Status.OK); [done|].
  rewrite serve_all_last by done. unfold validate_for_dispatch. by rewrite decide_True.
Qed.
