(* ===== verification/Concurrent.v ===== *)
(** * Concurrent: sessions that interleave

    The coordinator serves every connection in a thread of its own.  A handler is a
    sequence of critical sections: each call of the governor takes its mutex, the
    token map and the last decision have theirs, and a save takes none.  This file
    cuts the handlers of Coordinator.v into those sections, lets the sections of any
    number of messages interleave, and shows what the interleavings keep and what
    they break. *)

From stdpp Require Import prelude gmap strings.
From S2P Require Import Prelude Effects Money Identity Units Price Policy Budget Cost.
From S2P Require Import Plan Decision Samples Codec Governor Evaluate Ledger System Accounts.
From S2P Require Import Snapshot Recovery Wire WireFacts Types Coordinator CoordinatorFacts.
From stdpp Require Import options.

#[local] Existing Instance wire_format.

(** ** Saving in two steps *)

(** [StateStore::save] up to the closed temporary file; [Some] is an early return. *)
Definition save_write (io : IoFaults) (path : string) (s : DurableSnapshot)
    : St Files (option Status) :=
  let* bytes := st_lift (encode s) in
  if negb (io_open_ok io) then st_ret (Some Status.INTERVENTION_FAILED)
  else if negb (io_write_ok io) then
    st_modify (<[tmp_path path := take (io_written io) bytes]>) ;;;
    st_ret (Some Status.INTERVENTION_FAILED)
  else st_modify (<[tmp_path path := bytes]>) ;;; st_ret None.

(** Its renaming: whatever the temporary file now holds becomes the state. *)
Definition save_rename (io : IoFaults) (path : string) : St Files Status :=
  let* fs := st_get in
  match fs !! tmp_path path with
  | Some bytes =>
      if negb (io_rename_ok io) then st_ret Status.INTERVENTION_FAILED
      else st_modify (λ fs, <[path := bytes]> (delete (tmp_path path) fs)) ;;; st_ret Status.OK
  | None => st_ret Status.INTERVENTION_FAILED
  end.

Definition on_files {A} (m : St Files A) : St Coord A := λ c,
  let '(x, fs') := m (co_files c) in (x, set_co_files fs' c).

(** ** Messages in progress *)

Inductive Pc :=
  | pc_start (type : Msg) (payload : list Z)
  | pc_booted (boot : WorkerBootId)                     (** HELLO: the boot is set *)
  | pc_persist (st : Status)                            (** the governor accepted *)
  | pc_write (st : Status) (path : string) (snap : DurableSnapshot)
  | pc_rename (st : Status) (path : string)
  | pc_reply (st : Status)
  | pc_decided (d : CostDecision)                       (** REQUEST_EVAL: not yet stored *)
  | pc_reserved (r : BudgetReservation)                 (** RESERVE: not yet in the map *)
  | pc_fetched (type : Msg) (token : Z) (r : BudgetReservation)
  | pc_settled (token : Z) (r : BudgetReservation) (st : Status)
  | pc_finalized (req : RequestId) (st : Status)
  | pc_reading (read : list (res (list Z)))             (** GET_STATE: the fields read *)
  | pc_last (plans : list ExecutionPlan) (d : CostDecision)
  | pc_done (out : list Reply)
  | pc_failed (e : exn).

Definition ended (p : Pc) : bool :=
  match p with pc_done _ | pc_failed _ => true | _ => false end.

Definition answer (m : St Coord (list Reply)) : St Coord Pc :=
  let* out := m in st_ret (pc_done out).

(** The getters of GET_STATE, in the order in which they are called. *)
Definition state_getters `{IterOrder} : list (Impl → res (list Z)) :=
  [ λ g, write_id (g_epoch g); λ g, write_id (s_generation (g_schedule g));
    λ g, write_id (pol_generation (g_policy g)); λ g, w_u64 (Z.of_nat (length (budgets_of g)));
    λ g, w_u64 (Z.of_nat (length (s_observations (g_schedule g)))) ].

Section sections.
Context `{IterOrder}.

(** The first section of every message. *)
Definition enter (now : Readings) (type : Msg) (payload : list Z) : St Coord Pc :=
  match type with
  | Msg.HELLO =>
      let* worker := parse read_id payload in
      let* boot := parse (let* _ := read_id (T := WorkerIdTag) in read_id) payload in
      gov (set_worker_boot worker boot) ;;; st_ret (pc_booted boot)
  | Msg.PUBLISH_PRICE =>
      let* o := parse decode_price payload in
      let* st := gov (publish_price o) in
      st_ret (if decide (st = Status.OK) then pc_persist st else pc_reply st)
  | Msg.REQUEST_EVAL =>
      let* (wl, wg, plans) := parse read_eval payload in
      let* c := st_get in
      let* d := st_lift (evaluate now (co_gov c) wg plans) in
      st_ret (pc_decided d)
  | Msg.RECORD_ATTEMPT =>
      let* e := parse decode_evidence payload in
      let* st := gov (record_attempt e) in
      st_ret (if decide (st = Status.OK) then pc_persist st else pc_reply st)
  | Msg.RESERVE =>
      let* (bid, bg, epch, amt) := parse read_reserve payload in
      let* (st, out) := gov (reserve now bid bg epch amt) in
      match st, out with
      | Status.OK, Some r => st_ret (pc_reserved r)
      | _, _ => answer (reply Msg.PONG (reserve_fields st out))
      end
  | Msg.COMMIT | Msg.RELEASE =>
      let* token := parse r_u64 payload in
      let* found := fetch token in
      st_ret (match found with
              | None => pc_reply Status.INVALID_INPUT
              | Some r => pc_fetched type token r
              end)
  | Msg.REALIZE =>
      let* (req, wl) := parse read_realize payload in
      let* st := gov (finalize_request now req wl) in
      st_ret (pc_finalized req st)
  | Msg.GET_STATE => st_ret (pc_reading [])
  | Msg.REVALIDATE =>
      let* plans := parse (r_list decode_plan) payload in
      let* c := st_get in
      st_ret (pc_last plans (co_last c))
  | Msg.QUIT => st_ret (pc_done [])
  | _ => st_ret (pc_reply Status.PROTOCOL_ERROR)
  end.

(** The next section of a message in progress. *)
Definition next (now : Readings) (io : IoFaults) (p : Pc) : St Coord Pc :=
  match p with
  | pc_start type payload => enter now type payload
  | pc_booted boot =>
      let* c := st_get in
      answer (reply Msg.PONG [write_id (g_epoch (co_gov c)); write_id boot])
  | pc_persist st =>
      let* c := st_get in
      st_ret (match g_store (co_gov c) with
              | None => pc_reply st
              | Some path => pc_write st path (snapshot_of (co_gov c))
              end)
  | pc_write st path snap =>
      let* x := on_files (save_write io path snap) in
      st_ret (match x with Some _ => pc_reply st | None => pc_rename st path end)
  | pc_rename st path => on_files (save_rename io path) ;;; st_ret (pc_reply st)
  | pc_reply st => answer (reply_status Msg.PONG st)
  | pc_decided d =>
      st_modify (set_co_last d) ;;; answer (reply Msg.EVAL_RESULT [encode_decision d])
  | pc_reserved r =>
      store (value (r_id r)) r ;;;
      answer (reply Msg.PONG (reserve_fields Status.OK (Some r)))
  | pc_fetched type token r =>
      let* (st, r') := settle now type r in st_ret (pc_settled token r' st)
  | pc_settled token r st => store token r ;;; st_ret (pc_reply st)
  | pc_finalized req st =>
      let* c := st_get in
      let* cost := st_lift (realized_request_cost now (co_gov c) req) in
      answer (reply Msg.PONG [w_u8 (Status.Status_to_u8 st); w_i64 cost])
  | pc_reading read =>
      let* c := st_get in
      match state_getters !! length read with
      | Some getter => st_ret (pc_reading (read ++ [getter (co_gov c)]))
      | None => answer (reply Msg.PONG read)
      end
  | pc_last plans d =>
      let* c := st_get in
      let* st := st_lift (validate_for_dispatch now (co_gov c) d plans) in
      st_ret (pc_reply st)
  | pc_done _ | pc_failed _ => st_ret p
  end.

(** An exception ends the message. *)
Definition advance (now : Readings) (io : IoFaults) (p : Pc) (c : Coord) : Pc * Coord :=
  match next now io p c with
  | (Ret p', c') => (p', c')
  | (Throw e, c') => (pc_failed e, c')
  end.

(** A message that no other interrupts. *)
Fixpoint uninterrupted (n : nat) (now : Readings) (io : IoFaults) (p : Pc) (c : Coord) : Pc * Coord :=
  match n with
  | O => (p, c)
  | S n' => let '(p', c') := advance now io p c in uninterrupted n' now io p' c'
  end.

Definition outcome (x : res (list Reply)) : Pc :=
  match x with Ret out => pc_done out | Throw e => pc_failed e end.

(** ** Uninterrupted, the sections are the handler *)

Lemma save_split io path s fs :
  save io path s fs =
    (let* x := save_write io path s in
     match x with Some st => st_ret st | None => save_rename io path end) fs.
Proof.
  unfold save, save_write, save_rename, st_bind, st_lift, st_get, st_modify, st_ret.
  destruct (encode s) as [bytes|e]; [|done].
  destruct (io_open_ok io), (io_write_ok io), (io_rename_ok io); cbn;
    rewrite ?lookup_insert_eq; done.
Qed.

Lemma ended_stays n now io p c : ended p = true → uninterrupted n now io p c = (p, c).
Proof. intros Hp. induction n as [|n IH]; [done|]. cbn. by destruct p. Qed.

(** The rest of a message from its current section, and the handler's result. *)
Definition finish (n : nat) (now : Readings) (io : IoFaults) (m : St Coord Pc) (c : Coord)
    : Pc * Coord :=
  match m c with
  | (Ret p, c') => uninterrupted n now io p c'
  | (Throw e, c') => (pc_failed e, c')
  end.
Definition whole (m : St Coord (list Reply)) (c : Coord) : Pc * Coord := (outcome (m c).1, (m c).2).

Lemma uninterrupted_S n now io p c : uninterrupted (S n) now io p c = finish n now io (next now io p) c.
Proof.
  cbn [uninterrupted]. unfold advance, finish. destruct (next now io p c) as [[p'|e] c']; [done|].
  by apply ended_stays.
Qed.

Lemma finish_bind {A} n now io (m : St Coord A) k k' c :
  (∀ a c', finish n now io (k a) c' = whole (k' a) c') →
  finish n now io (st_bind m k) c = whole (st_bind m k') c.
Proof.
  intros Hk. specialize (Hk). unfold finish, whole, st_bind in *.
  destruct (m c) as [[a|e] c']; [|done]. apply Hk.
Qed.

Lemma whole_bind {A} (m : St Coord A) k c :
  whole (st_bind m k) c =
    match m c with (Ret a, c') => whole (k a) c' | (Throw e, c') => (pc_failed e, c') end.
Proof. unfold whole, st_bind. by destruct (m c) as [[a|e] c']. Qed.

Lemma finish_get n now io k c : finish n now io (st_bind st_get k) c = finish n now io (k c) c.
Proof. done. Qed.
Lemma whole_get k c : whole (st_bind st_get k) c = whole (k c) c.
Proof. done. Qed.

Lemma finish_answer n now io m c : finish n now io (answer m) c = whole m c.
Proof.
  unfold finish, whole, answer, st_bind. destruct (m c) as [[out|e] c']; [|done].
  by apply ended_stays.
Qed.

Lemma finish_reply n now io st c :
  uninterrupted (S n) now io (pc_reply st) c = whole (reply_status Msg.PONG st) c.
Proof. rewrite uninterrupted_S. apply finish_answer. Qed.

(** The two steps of a save and the snapshot before them are [persist]. *)
Lemma finish_persist n now io st c :
  uninterrupted (S (S (S (S n)))) now io (pc_persist st) c =
    whole (persist_now io ;;; reply_status Msg.PONG st) c.
Proof.
  rewrite uninterrupted_S, whole_bind. unfold finish at 1. cbn [next].
  unfold st_bind at 1, st_get, st_ret, persist_now, persist.
  destruct (g_store (co_gov c)) as [path|]; cbn [res_bind].
  2:{ rewrite finish_reply. by destruct c. }
  rewrite save_split, uninterrupted_S. unfold finish at 1. cbn [next].
  unfold st_bind at 1 2, on_files at 1.
  destruct (save_write io path (snapshot_of (co_gov c)) (co_files c)) as [[[st'|]|e] fs1].
  - apply finish_reply.
  - unfold st_ret. rewrite uninterrupted_S. unfold finish at 1. cbn [next].
    unfold st_bind at 1, on_files. cbn [co_files set_co_files].
    destruct (save_rename io path fs1) as [[st'|e] fs2]; [apply finish_reply|done].
  - done.
Qed.

Lemma finish_ret n now io p c : finish (S n) now io (st_ret p) c = finish n now io (next now io p) c.
Proof. apply uninterrupted_S. Qed.

(** A read section: the getters of GET_STATE one by one. *)
Lemma finish_reading n now io read c :
  uninterrupted (S n) now io (pc_reading read) c =
    match state_getters !! length read with
    | Some getter => uninterrupted n now io (pc_reading (read ++ [getter (co_gov c)])) c
    | None => whole (reply Msg.PONG read) c
    end.
Proof.
  rewrite uninterrupted_S. unfold finish. cbn [next]. unfold st_bind at 1, st_get, st_ret.
  destruct (state_getters !! length read); [done|]. apply finish_answer.
Qed.

Lemma saving_whole n now io st c :
  finish (S (S (S (S n)))) now io
    (st_ret (if decide (st = Status.OK) then pc_persist st else pc_reply st)) c =
  whole ((if decide (st = Status.OK) then persist_now io else st_ret tt) ;;; reply_status Msg.PONG st) c.
Proof. case_decide; [apply finish_persist|apply finish_reply]. Qed.

(** Every kind of message has at most eight sections. *)
Lemma enter_whole now io type payload c :
  finish 7 now io (enter now type payload) c = whole (handle now io type payload) c.
Proof.
  destruct type; cbn [enter handle];
    unfold handle_hello, handle_publish, handle_eval, handle_record, handle_reserve, handle_settle,
      handle_realize, handle_revalidate;
    try (by repeat first [ apply finish_reply | apply saving_whole | apply finish_answer
           | apply finish_bind; intros ? ?
           | match goal with |- context [let '(_, _) := ?a in _] => destruct a end
           | match goal with |- context [match ?a with Some _ => _ | None => _ end] => destruct a end
           | rewrite finish_ret; cbn [next] ]).
  - change (uninterrupted 7 now io (pc_reading []) c = whole handle_state c).
    do 6 (rewrite finish_reading; cbn [state_getters lookup list_lookup length app]). done.
  - do 2 (apply finish_bind; intros ? ?; repeat match goal with a : _ * _ |- _ => destruct a end).
    destruct s; try apply finish_answer. destruct o; [|apply finish_answer].
    rewrite finish_ret. cbn [next]. apply finish_bind. intros ? ?. apply finish_answer.
  - apply finish_bind. intros plans c'. rewrite finish_get, finish_ret. cbn [next].
    rewrite finish_get, whole_get. apply finish_bind. intros st c1. apply finish_reply.
Qed.
End sections.

(** ** Interleavings *)

Record Pool := mkPool { po_threads : list Pc; po_coord : Coord }.

(** The token that a message is settling, and the copy of a reservation it holds. *)
Definition settling (p : Pc) : option Z :=
  match p with pc_fetched _ token _ | pc_settled token _ _ => Some token | _ => None end.
Definition held_copy (p : Pc) : option BudgetReservation :=
  match p with pc_reserved r | pc_fetched _ _ r | pc_settled _ r _ => Some r | _ => None end.
Definition is_settled (p : Pc) : bool := match p with pc_settled _ _ _ => true | _ => false end.

(** A message arrives at some session, or one in progress executes its next
    section.  As in [co_step], a settlement that throws is excluded. *)
Inductive interleave `{IterOrder} : Pool → Pool → Prop :=
  | il_arrive type payload ps c :
      Forall byte_ok payload →
      interleave (mkPool ps c) (mkPool (ps ++ [pc_start type payload]) c)
  | il_section now io j p p' ps c c' :
      clock_ok now → ps !! j = Some p → advance now io p c = (p', c') →
      (is_Some (held_copy p) → ∀ e, p' ≠ pc_failed e) →
      interleave (mkPool ps c) (mkPool (<[j := p']> ps) c').

(** No two messages settle the same token at the same time. *)
Definition exclusive (ps : list Pc) : Prop :=
  ∀ i j p q t, ps !! i = Some p → ps !! j = Some q →
    settling p = Some t → settling q = Some t → i = j.

Definition orderly `{IterOrder} (a b : Pool) : Prop := interleave a b ∧ exclusive (po_threads b).

(** Payloads of messages that have not begun are bytes. *)
Definition pc_ok (p : Pc) : Prop :=
  match p with pc_start _ payload => Forall byte_ok payload | _ => True end.

(** ** Where the reservations are *)

(** Every reservation of the map, and every copy a message holds, is one of the
    system's, at a position that nothing else has, but for the token that the
    message is settling; the map's value is out of date exactly while a settlement
    has been made and not stored. *)
Record linked (ps : list Pc) (m : gmap Z BudgetReservation) (toks : list BudgetReservation)
    (ix : Z → nat) (px : nat → nat) : Prop := mk_linked {
  lk_map : ∀ t r, m !! t = Some r →
    toks !! ix t = Some r ∨ ∃ j p, ps !! j = Some p ∧ is_settled p = true ∧ px j = ix t;
  lk_inj : ∀ t t' r r', m !! t = Some r → m !! t' = Some r' → ix t = ix t' → t = t';
  lk_held : ∀ j p r, ps !! j = Some p → held_copy p = Some r → toks !! px j = Some r;
  lk_dist : ∀ j j' p p', ps !! j = Some p → ps !! j' = Some p' →
    is_Some (held_copy p) → is_Some (held_copy p') → px j = px j' → j = j';
  lk_own : ∀ j p t r, ps !! j = Some p → is_Some (held_copy p) → m !! t = Some r → ix t = px j →
    settling p = Some t;
}.

Lemma settled_held p : is_settled p = true → is_Some (held_copy p).
Proof. by destruct p. Qed.

(** Some position of every reservation of the map. *)
Lemma linked_lt ps m toks ix px t r : linked ps m toks ix px → m !! t = Some r → (ix t < length toks)%nat.
Proof.
  intros Hl Ht. destruct (lk_map _ _ _ _ _ Hl t r Ht) as [Hix|(j & p & Hj & Hs & <-)].
  - by eapply lookup_lt_Some.
  - destruct (settled_held p Hs) as [r' Hr]. by eapply lookup_lt_Some, (lk_held _ _ _ _ _ Hl j p).
Qed.

Lemma linked_frame ps m toks ix px j p p' :
  linked ps m toks ix px → ps !! j = Some p → held_copy p = None → held_copy p' = None →
  linked (<[j := p']> ps) m toks ix px.
Proof.
  intros [Hm Hi Hh Hd Ho] Hj Hp Hp'.
  assert (∀ i q, <[j := p']> ps !! i = Some q → is_Some (held_copy q) → ps !! i = Some q) as Hback.
  { intros i q Hq [r Hr]. apply list_lookup_insert_Some in Hq as [(-> & <- & _)|[_ Hq]]; [congruence|done]. }
  split; try done.
  - intros t r Ht. destruct (Hm t r Ht) as [?|(i & q & Hq & Hs & Hix)]; [by left|]. right. exists i, q.
    split; [|done]. rewrite list_lookup_insert_ne; [done|]. intros ->.
    destruct (settled_held q Hs). congruence.
  - intros i q r Hq Hr. eapply Hh; [|exact Hr]. apply Hback; [done|by eexists].
  - intros i i' q q' Hq Hq' Hs Hs'. apply (Hd i i' q q'); auto.
  - intros i q t r Hq Hs. apply Ho; auto.
Qed.

Lemma linked_arrive ps m toks ix px p :
  linked ps m toks ix px → held_copy p = None → linked (ps ++ [p]) m toks ix px.
Proof.
  intros [Hm Hi Hh Hd Ho] Hp.
  assert (∀ i q, (ps ++ [p]) !! i = Some q → is_Some (held_copy q) → ps !! i = Some q) as Hback.
  { intros i q Hq [r Hr]. apply lookup_snoc_Some in Hq as [[_ Hq]|[_ <-]]; [done|congruence]. }
  split; try done.
  - intros t r Ht. destruct (Hm t r Ht) as [?|(i & q & Hq & Hs & Hix)]; [by left|]. right. exists i, q.
    split; [|done]. by apply lookup_app_l_Some.
  - intros i q r Hq Hr. eapply Hh; [|exact Hr]. apply Hback; [done|by eexists].
  - intros i i' q q' Hq Hq' Hs Hs'. apply (Hd i i' q q'); auto.
  - intros i q t r Hq Hs. apply Ho; auto.
Qed.

(** A message that held nothing now holds a reservation at position [n], which no
    other message holds and at which the map has no other token than the message's. *)
Lemma linked_take ps m toks toks' ix px j p p' r n :
  linked ps m toks ix px → ps !! j = Some p → held_copy p = None → held_copy p' = Some r →
  is_settled p' = false → toks' !! n = Some r → (∀ k x, toks !! k = Some x → toks' !! k = Some x) →
  (∀ i q, ps !! i = Some q → is_Some (held_copy q) → px i ≠ n) →
  (∀ t x, m !! t = Some x → ix t = n → settling p' = Some t) →
  linked (<[j := p']> ps) m toks' ix (λ i, if decide (i = j) then n else px i).
Proof.
  intros [Hm Hi Hh Hd Ho] Hj Hp Hp' Hns Hn Hmono Hfree Hown.
  split.
  - intros t x Ht. destruct (Hm t x Ht) as [?|(i & q & Hq & Hs & Hix)]; [left; auto|]. right. exists i, q.
    assert (j ≠ i) by (intros ->; destruct (settled_held q Hs); congruence).
    rewrite list_lookup_insert_ne, decide_False by done. done.
  - done.
  - intros i q x Hq Hx. apply list_lookup_insert_Some in Hq as [(<- & <- & _)|[Hne Hq]].
    + rewrite decide_True by done. congruence.
    + rewrite decide_False by done. by eapply Hmono, Hh.
  - intros i i' q q' Hq Hq' Hs Hs'.
    apply list_lookup_insert_Some in Hq as [(<- & <- & _)|[Hne Hq]];
      apply list_lookup_insert_Some in Hq' as [(<- & <- & _)|[Hne' Hq']]; repeat case_decide; try done.
    + intros Heq. by destruct (Hfree i' q' Hq' Hs').
    + intros Heq. by destruct (Hfree i q Hq Hs).
    + by apply (Hd i i' q q').
  - intros i q t x Hq Hs Ht. apply list_lookup_insert_Some in Hq as [(<- & <- & _)|[Hne Hq]].
    + rewrite decide_True by done. by apply Hown with x.
    + rewrite decide_False by done. by apply (Ho i q t x).
Qed.

(** A settlement changes the reservation that the message holds, and no other. *)
Lemma linked_settle ps m toks ix px j p p' r' :
  linked ps m toks ix px → ps !! j = Some p → is_Some (held_copy p) → is_settled p = false →
  held_copy p' = Some r' → is_settled p' = true → settling p' = settling p →
  linked (<[j := p']> ps) m (<[px j := r']> toks) ix px.
Proof.
  intros [Hm Hi Hh Hd Ho] Hj [r Hp] Hns Hp' Hs' Hset. pose proof (Hh j p r Hj Hp) as Htok.
  assert (j < length ps)%nat as Hlt by by eapply lookup_lt_Some.
  split; [..|done| | |].
  - intros t x Ht. destruct (decide (ix t = px j)) as [Heq|Hne].
    + right. exists j, p'. by rewrite list_lookup_insert_eq.
    + rewrite list_lookup_insert_ne by done. destruct (Hm t x Ht) as [?|(i & q & Hq & Hs & Hix)]; [by left|].
      right. exists i, q. rewrite list_lookup_insert_ne; [done|]. intros <-. congruence.
  - intros i q x Hq Hx. apply list_lookup_insert_Some in Hq as [(<- & <- & _)|[Hne Hq]].
    + rewrite list_lookup_insert_eq by (by eapply lookup_lt_Some). congruence.
    + rewrite list_lookup_insert_ne; [by eapply Hh|]. intros Heq. apply Hne.
      by apply (Hd j i p q); [..|by eexists|by eexists|].
  - intros i i' q q' Hq Hq' Hi1 Hi2.
    apply list_lookup_insert_Some in Hq as [(<- & <- & _)|[Hne Hq]];
      apply list_lookup_insert_Some in Hq' as [(<- & <- & _)|[Hne' Hq']]; try done; eauto.
  - intros i q t x Hq Hsq Ht. apply list_lookup_insert_Some in Hq as [(<- & <- & _)|[Hne Hq]].
    + rewrite Hset. intros Heq. by eapply Ho.
    + by apply (Ho i q t x).
Qed.

(** The message stores the reservation it holds under its token. *)
Lemma linked_store ps m toks ix px j p p' r t :
  linked ps m toks ix px → ps !! j = Some p → held_copy p = Some r → held_copy p' = None →
  (∀ t', settling p = Some t' → t' = t) →
  linked (<[j := p']> ps) (<[t := r]> m) toks (λ x, if decide (x = t) then px j else ix x) px.
Proof.
  intros [Hm Hi Hh Hd Ho] Hj Hp Hp' Hset.
  assert (∀ i q, <[j := p']> ps !! i = Some q → is_Some (held_copy q) → j ≠ i ∧ ps !! i = Some q) as Hback.
  { intros i q Hq [x Hx]. apply list_lookup_insert_Some in Hq as [(-> & <- & _)|Hq]; [congruence|done]. }
  assert (is_Some (held_copy p)) as Hps by by eexists.
  assert (∀ t' x, t' ≠ t → m !! t' = Some x → ix t' ≠ px j) as Hother.
  { intros t' x Hne Ht' Heq. apply Hne, Hset. by eapply (Ho j p t' x). }
  split.
  - intros t' x. rewrite lookup_insert_Some. intros [[<- <-]|[Hne Ht']].
    + left. rewrite decide_True by done. by eapply Hh.
    + rewrite decide_False by done. destruct (Hm t' x Ht') as [?|(i & q & Hq & Hs & Hix)]; [by left|].
      right. exists i, q. rewrite list_lookup_insert_ne; [done|]. intros <-.
      by eapply (Hother t' x).
  - intros t1 t2 x1 x2. rewrite !lookup_insert_Some.
    intros [[<- _]|[Hne1 H1]] [[<- _]|[Hne2 H2]]; repeat case_decide; try done; intros Heq.
    + symmetry in Heq. by eapply Hother in Heq.
    + by eapply Hother in Heq.
    + by eapply Hi.
  - intros i q x Hq Hx. destruct (Hback i q Hq) as [_ Hq']; [by eexists|]. by eapply Hh.
  - intros i i' q q' Hq Hq' Hs Hs'. apply (Hd i i' q q'); try done; by apply Hback.
  - intros i q t' x Hq Hs. destruct (Hback i q Hq Hs) as [Hne Hq']. rewrite lookup_insert_Some.
    intros [[<- _]|[Hne' Ht']]; case_decide; try done; intros Heq.
    + destruct Hne. by apply (Hd j i p q).
    + by apply (Ho i q t' x).
Qed.

(** ** Every section keeps the link *)

Section tracking.
Context (P : Sys → Prop) `{!Invariant P} `{IterOrder}.
#[local] Set Default Proof Using "Type*".

(** The governor is that of a system state in [P] with these reservations. *)
Definition steady (toks : list BudgetReservation) (m : gmap Z BudgetReservation) (c : Coord) : Prop :=
  ∃ s, P s ∧ sys_g s = co_gov c ∧ sys_tokens s = toks ∧ co_reservations c = m.

Definition tracks (pool : Pool) : Prop :=
  ∃ toks ix px, steady toks (co_reservations (po_coord pool)) (po_coord pool) ∧
    Forall pc_ok (po_threads pool) ∧
    linked (po_threads pool) (co_reservations (po_coord pool)) toks ix px.

Lemma keeps_steady_gov {A} toks m (f : St Impl A) : tracked P f → keeps (steady toks m) (gov f).
Proof.
  intros Hf c (s & Hs & Hg & Ht & Hm). destruct (Hf s Hs) as (s' & Hs' & Hg' & Ht'). exists s'.
  unfold gov. rewrite Hg in Hg'. destruct (f (co_gov c)). by split_and!; [|..|congruence|].
Qed.
Lemma keeps_steady_files {A} toks m (f : St Files A) : keeps (steady toks m) (on_files f).
Proof. intros c Hc. unfold on_files. by destruct (f (co_files c)). Qed.
Lemma keeps_steady_last toks m d : keeps (steady toks m) (st_modify (set_co_last d)).
Proof. by intros c Hc. Qed.

(** Whatever [m] returns is in [Q]. *)
Definition gives {A} (Q : A → Prop) (m : St Coord A) : Prop := ∀ c a c', m c = (Ret a, c') → Q a.

Lemma gives_bind {A B} (Q : B → Prop) (m : St Coord A) k : (∀ a, gives Q (k a)) → gives Q (st_bind m k).
Proof.
  intros Hk c b c'. unfold st_bind. destruct (m c) as [[a|] c1]; [|done]. apply Hk.
Qed.
Lemma gives_ret {A} (Q : A → Prop) a : Q a → gives Q (st_ret a).
Proof. by intros Ha c a' c' [= <- _]. Qed.

(** A section that neither takes, settles nor stores a reservation. *)
Definition tokenless (p : Pc) : bool :=
  match p with
  | pc_start (Msg.RESERVE | Msg.COMMIT | Msg.RELEASE) _ => false
  | _ => match held_copy p with Some _ => false | None => true end
  end.

Ltac section_cases :=
  repeat first
    [ apply keeps_bind; [|intros ?] | apply keeps_lift | apply keeps_ret | apply keeps_get
    | apply keeps_steady_files | apply keeps_steady_last
    | apply keeps_steady_gov; auto using tracked_boot, tracked_record, tracked_publish, tracked_finalize
    | apply gives_bind; intros ? | apply gives_ret
    | match goal with |- context [let '(_, _) := ?a in _] => destruct a end
    | match goal with |- keeps _ (match ?x with _ => _ end) => destruct x end
    | match goal with |- gives _ (match ?x with _ => _ end) => destruct x end
    | match goal with |- held_copy (match ?x with _ => _ end) = None => destruct x end
    | match goal with |- pc_ok (match ?x with _ => _ end) => destruct x end ].

Lemma tokenless_held now io p : tokenless p = true → gives (λ p', held_copy p' = None) (next now io p).
Proof.
  intros Hp. destruct p as [type payload| | | | | | | | | | | | | |]; try done;
    [destruct type; try done|..]; cbn [next enter]; unfold answer; by section_cases.
Qed.

Lemma next_ok now io p : pc_ok p → gives pc_ok (next now io p).
Proof.
  intros Hp. destruct p as [type payload| | | | | | | | | | | | | |];
    [destruct type|..]; cbn [next enter]; unfold answer; by section_cases.
Qed.

Lemma advance_ok now io p c p' c' : pc_ok p → advance now io p c = (p', c') → pc_ok p'.
Proof.
  intros Hp Ha. pose proof (next_ok now io p Hp c) as Hg. unfold advance in Ha.
  destruct (next now io p c) as [[q|e] c1]; injection Ha as <- <-; [by eapply Hg|done].
Qed.

Lemma tokenless_steady toks m now io p :
  clock_ok now → pc_ok p → tokenless p = true → keeps (steady toks m) (next now io p).
Proof.
  intros Hn Hok Hp. destruct p as [type payload| | | | | | | | | | | | | |]; try done;
    [destruct type; try done|..]; cbn [next enter]; unfold answer, reply_status, reply;
    try (by unfold parse; section_cases).
  - apply (keeps_parse _ _ _ _ _ yields_price Hok). intros o Ho. by section_cases.
  - apply (keeps_parse _ _ _ _ _ yields_realize Hok).
    intros [req wl] [Hreq Hwl]. by section_cases.
Qed.

(** A section without tokens, in a pool. *)
Lemma tokenless_tracks now io j p p' ps c c' :
  clock_ok now → ps !! j = Some p → tokenless p = true → advance now io p c = (p', c') →
  tracks (mkPool ps c) → tracks (mkPool (<[j := p']> ps) c').
Proof.
  intros Hn Hj Hp Ha (toks & ix & px & Hst & Hok & Hl). cbn in *.
  assert (pc_ok p) as Hpok by by eapply Forall_lookup.
  assert (held_copy p = None) as Hh by (destruct p as [[]| | | | | | | | | | | | | |]; done).
  pose proof (tokenless_steady toks (co_reservations c) now io p Hn Hpok Hp c Hst) as Hk.
  pose proof (tokenless_held now io p Hp c) as Hg. pose proof Ha as Ha'. unfold advance in Ha.
  destruct (next now io p c) as [x c1].
  assert (held_copy p' = None ∧ c1 = c') as [Hh' ->].
  { destruct x as [q|e]; injection Ha as <- <-; [|done]. split; [by eapply Hg|done]. }
  destruct Hk as (s & Hs & Hgv & Ht & Hm). cbn in *. exists toks, ix, px. cbn. rewrite Hm. split_and!.
  - by exists s.
  - apply Forall_insert; [done|]. by eapply advance_ok.
  - by eapply linked_frame.
Qed.

(** RESERVE, up to its reservation. *)
Lemma reserve_tracks now io j payload p' ps c c' :
  ps !! j = Some (pc_start Msg.RESERVE payload) →
  advance now io (pc_start Msg.RESERVE payload) c = (p', c') →
  tracks (mkPool ps c) → tracks (mkPool (<[j := p']> ps) c').
Proof.
  intros Hj Ha (toks & ix & px & (s & Hs & Hg & Ht & _) & Hok & Hl). cbn in *.
  assert (Forall pc_ok (<[j := p']> ps)) as Hok'.
  { apply Forall_insert; [done|]. eapply advance_ok; [|exact Ha]. by eapply Forall_lookup in Hj. }
  assert (∀ s', P s' → sys_g s' = co_gov c' → sys_tokens s' = toks →
    co_reservations c' = co_reservations c → held_copy p' = None → tracks (mkPool (<[j := p']> ps) c'))
    as Hframe.
  { intros s' Hs' Hg' Ht' Hm' Hp'. exists toks, ix, px. cbn. rewrite Hm'. split; [by exists s'|].
    split; [done|]. by eapply linked_frame. }
  unfold advance in Ha. cbn [next enter] in Ha. unfold st_bind at 1, parse, st_lift in Ha.
  destruct (read_reserve payload).1 as [[[[bid bg] epch] amt]|e] eqn:Hp;
    [|injection Ha as <- <-; by apply (Hframe s)].
  apply read_reserve_amount in Hp. unfold st_bind at 1, gov in Ha.
  destruct (reserve now bid bg epch amt (co_gov c)) as [x g'] eqn:Hres. rewrite <-Hg in Hres.
  apply (tracked_reserve P) in Hres as (s' & Hs' & Hg' & Ht'); [|done|done].
  destruct x as [[st out]|e]; [|injection Ha as <- <-; apply (Hframe s'); cbn in *; (done || congruence)].
  destruct (decide (st = Status.OK ∧ is_Some out)) as [[-> [r ->]]|Hno].
  - injection Ha as <- <-. exists (toks ++ [r]), ix, (λ i, if decide (i = j) then length toks else px i).
    cbn. split; [exists s'; by split_and!; [..|congruence|]|]. split; [done|].
    eapply (linked_take _ _ toks); [done|done|done|done|done|by apply list_lookup_middle| | |].
    + intros k x Hx. by apply lookup_app_l_Some.
    + intros i q Hq [x Hx] Heq. pose proof (lk_held _ _ _ _ _ Hl i q x Hq Hx) as Hlt.
      apply lookup_lt_Some in Hlt. lia.
    + intros t x Hx Heq. pose proof (linked_lt _ _ _ _ _ t x Hl Hx). lia.
  - assert (held_copy p' = None ∧ c' = set_co_gov g' c) as [Hp' ->].
    { destruct st; try (by injection Ha as <- <-). destruct out as [r|]; [|by injection Ha as <- <-].
      destruct Hno. by split; [|eexists]. }
    apply (Hframe s'); try done. rewrite Ht'. destruct st; try done. destruct out; [|done].
    destruct Hno. by split; [|eexists].
Qed.

(** The lookup of COMMIT and RELEASE. *)
Lemma fetch_tracks now io j type payload p' ps c c' :
  type = Msg.COMMIT ∨ type = Msg.RELEASE → ps !! j = Some (pc_start type payload) →
  advance now io (pc_start type payload) c = (p', c') → exclusive (<[j := p']> ps) →
  tracks (mkPool ps c) → tracks (mkPool (<[j := p']> ps) c').
Proof.
  intros Htype Hj Ha Hex (toks & ix & px & Hst & Hok & Hl). cbn in *.
  assert (Forall pc_ok (<[j := p']> ps)) as Hok'.
  { apply Forall_insert; [done|]. eapply advance_ok; [|exact Ha]. by eapply Forall_lookup in Hj. }
  assert (c' = c ∧ (held_copy p' = None ∨ ∃ token r, p' = pc_fetched type token r ∧
    co_reservations c !! token = Some r)) as [-> Hp'].
  { unfold advance in Ha. destruct Htype as [-> | ->]; cbn [next enter] in Ha;
      unfold st_bind at 1, parse, st_lift in Ha;
      (destruct (r_u64 payload).1 as [token|e]; [|injection Ha as <- <-; by auto]);
      unfold st_bind, fetch, st_bind, st_get, st_ret in Ha;
      destruct (co_reservations c !! token) as [r|] eqn:Hr; injection Ha as <- <-; eauto 10. }
  destruct Hp' as [Hp'|(token & r & -> & Hr)].
  { exists toks, ix, px. split; [done|]. split; [done|]. by eapply linked_frame. }
  assert (∀ i q, ps !! i = Some q → is_Some (held_copy q) → px i ≠ ix token) as Hfree.
  { intros i q Hq Hs Heq. symmetry in Heq.
    pose proof (lk_own _ _ _ _ _ Hl i q token r Hq Hs Hr Heq) as Hset.
    assert (i ≠ j) as Hne by (intros ->; rewrite Hj in Hq; injection Hq as <-; done).
    apply Hne, (Hex i j q (pc_fetched type token r) token); [by rewrite list_lookup_insert_ne
      |apply list_lookup_insert_eq; by eapply lookup_lt_Some|done|done]. }
  exists toks, ix, (λ i, if decide (i = j) then ix token else px i). split; [done|]. split; [done|].
  eapply (linked_take _ _ toks); [done|done|done|done|done| |done|done|].
  - destruct (lk_map _ _ _ _ _ Hl token r Hr) as [?|(i & q & Hq & Hs & Heq)]; [done|].
    by destruct (Hfree i q Hq (settled_held q Hs)).
  - intros t x Hx Heq. cbn. f_equal. symmetry. by eapply (lk_inj _ _ _ _ _ Hl).
Qed.

(** The settlement itself. *)
Lemma settle_tracks now io j type token r p' ps c c' :
  ps !! j = Some (pc_fetched type token r) →
  advance now io (pc_fetched type token r) c = (p', c') → (∀ e, p' ≠ pc_failed e) →
  tracks (mkPool ps c) → tracks (mkPool (<[j := p']> ps) c').
Proof.
  intros Hj Ha Hne (toks & ix & px & (s & Hs & Hg & Ht & _) & Hok & Hl). cbn in *.
  unfold advance in Ha. cbn [next] in Ha. unfold st_bind at 1, settle, gov_on in Ha.
  rewrite <-Hg in Ha.
  destruct ((if decide (type = Msg.COMMIT) then commit now else release) (sys_g s, r))
    as [[st|e] [g' r']] eqn:Hm; [|injection Ha as <- _; by destruct (Hne e)].
  injection Ha as <- <-.
  pose proof (lk_held _ _ _ _ _ Hl j _ r Hj eq_refl) as Hk. rewrite <-Ht in Hk.
  apply (tracked_settle P _ _ s (px j)) in Hm as (s' & Hs' & Hg' & Htok); [|done|done].
  exists (<[px j := r']> toks), ix, px. cbn. split; [exists s'; by split_and!; [..|congruence|]|].
  split; [by apply Forall_insert|]. by eapply linked_settle.
Qed.

(** The store of the outcome, or of a new reservation. *)
Lemma store_tracks j p r t p' ps c c' :
  ps !! j = Some p → held_copy p = Some r → held_copy p' = None →
  (∀ t', settling p = Some t' → t' = t) → pc_ok p' →
  co_gov c' = co_gov c → co_reservations c' = <[t := r]> (co_reservations c) →
  tracks (mkPool ps c) → tracks (mkPool (<[j := p']> ps) c').
Proof.
  intros Hj Hp Hp' Hset Hpok Hg' Hm' (toks & ix & px & (s & Hs & Hg & Ht & _) & Hok & Hl). cbn in *.
  exists toks, (λ x, if decide (x = t) then px j else ix x), px. cbn. rewrite Hm'.
  split; [exists s; by split_and!; [..|congruence| |]|]. split; [by apply Forall_insert|].
  by eapply linked_store.
Qed.

Lemma section_tracks now io j p p' ps c c' :
  clock_ok now → ps !! j = Some p → advance now io p c = (p', c') →
  (is_Some (held_copy p) → ∀ e, p' ≠ pc_failed e) → exclusive (<[j := p']> ps) →
  tracks (mkPool ps c) → tracks (mkPool (<[j := p']> ps) c').
Proof.
  intros Hn Hj Ha Hne Hex Htr. destruct (tokenless p) eqn:Htl; [by eapply tokenless_tracks|].
  destruct p as [type payload| | | | | | |r|type token r|token r st| | | | |]; try done.
  - destruct type; try done; [by eapply reserve_tracks|..];
      (eapply fetch_tracks; [|exact Hj|exact Ha|done|done]; auto).
  - pose proof (advance_ok now io (pc_reserved r) c p' c' I Ha) as Hok'. unfold advance in Ha.
    cbn [next] in Ha. unfold st_bind at 1, store, st_modify, answer, reply, st_bind, st_lift in Ha.
    destruct (writes _) as [w|e]; [|injection Ha as <- _; by destruct (Hne (mk_is_Some _ _ eq_refl) e)].
    injection Ha as <- <-. by apply (store_tracks j (pc_reserved r) r (value (r_id r)) (pc_done [(Msg.PONG, w)]) ps c).
  - eapply settle_tracks; [done|done|by apply Hne; eexists|done].
  - unfold advance in Ha. cbn [next] in Ha. unfold st_bind, store, st_modify, st_ret in Ha.
    injection Ha as <- <-. apply (store_tracks j (pc_settled token r st) r token (pc_reply st) ps c); try done.
    by intros t' [= ->].
Qed.

Lemma orderly_tracks a b : orderly a b → tracks a → tracks b.
Proof.
  intros [[type payload ps c Hb|now io j p p' ps c c' Hn Hj Ha Hne] Hex] Htr; [|by eapply section_tracks].
  destruct Htr as (toks & ix & px & Hst & Hok & Hl). exists toks, ix, px. cbn in *. split; [done|].
  split; [by apply Forall_app; split; [|apply Forall_singleton]|by apply linked_arrive].
Qed.
Lemma orderlies_track a b : rtc orderly a b → tracks a → tracks b.
Proof. induction 1; eauto using orderly_tracks. Qed.
End tracking.

(** ** Messages that save, interleaved *)

Section racing.
Context `{IterOrder}.

(** A message that publishes or records, in progress or answered. *)
Definition saving (p : Pc) : bool :=
  match p with
  | pc_start Msg.PUBLISH_PRICE _ | pc_start Msg.RECORD_ATTEMPT _ | pc_persist _ | pc_write _ _ _
  | pc_rename _ _ | pc_reply _ | pc_done _ | pc_failed _ => true
  | _ => false
  end.

Lemma saving_holds_none p : saving p = true → held_copy p = None.
Proof. by destruct p. Qed.

Lemma finish_saving {A} (m : St Coord A) k c (ok : Pc → Prop) :
  (∀ e, ok (pc_failed e)) → (∀ a c', ok (match k a c' with (Ret p, _) => p | (Throw e, _) => pc_failed e end)) →
  ok (match st_bind m k c with (Ret p, _) => p | (Throw e, _) => pc_failed e end).
Proof. intros He Hk. unfold st_bind. by destruct (m c) as [[a|e] c']. Qed.

Lemma advance_saving now io p c : saving p = true → saving (advance now io p c).1 = true.
Proof.
  intros Hp. unfold advance.
  enough (saving (match next now io p c with (Ret p', _) => p' | (Throw e, _) => pc_failed e end) = true)
    by (by destruct (next now io p c) as [[?|?] ?]).
  destruct p as [type ?| | | | | | | | | | | | | |]; try done; [destruct type; try done|..];
    cbn [next enter]; unfold answer;
    repeat (apply finish_saving; [done|intros ? ?]); cbn; by repeat case_match.
Qed.

(** Sections of one message that are executed without interruption, among others. *)
Lemma uninterrupted_interleave n now io j p p' ps c c' :
  clock_ok now → ps !! j = Some p → saving p = true → uninterrupted n now io p c = (p', c') →
  rtc interleave (mkPool ps c) (mkPool (<[j := p']> ps) c').
Proof.
  intros Hn. revert p ps c. induction n as [|n IH]; intros p ps c Hj Hp Hu; cbn [uninterrupted] in Hu.
  - simplify_eq. by rewrite list_insert_id.
  - destruct (advance now io p c) as [q c1] eqn:Ha. pose proof (advance_saving now io p c Hp) as Hq.
    rewrite Ha in Hq. eapply rtc_l.
    + eapply (il_section now io j p q); [done|done|exact Ha|]. rewrite saving_holds_none by done. by intros [].
    + rewrite <-(list_insert_insert_eq ps j p' q). eapply IH; [|done|done].
      apply list_lookup_insert_eq. by eapply lookup_lt_Some.
Qed.

(** Two sections of a PUBLISH_PRICE that is accepted: the price, and the snapshot. *)
Lemma publish_snapshots now io payload o path c g' :
  (decode_price payload).1 = Ret o → publish_price o (co_gov c) = (Ret Status.OK, g') →
  g_store g' = Some path →
  uninterrupted 2 now io (pc_start Msg.PUBLISH_PRICE payload) c =
    (pc_write Status.OK path (snapshot_of g'), set_co_gov g' c).
Proof.
  intros Hd Hp Hst. cbn [uninterrupted]. unfold advance at 1. cbn [next enter].
  unfold st_bind at 1, parse, st_lift. rewrite Hd. unfold st_bind at 1, gov. rewrite Hp.
  unfold st_ret at 1. rewrite decide_True by done. unfold advance. cbn [next].
  unfold st_bind, st_get, st_ret. cbn [co_gov set_co_gov]. by rewrite Hst.
Qed.

(** The last three: whatever the file held, it holds the message's snapshot. *)
Lemma late_save_overwrites now path st snap bytes c :
  encode snap = Ret bytes → ∃ fs',
  uninterrupted 3 now no_faults (pc_write st path snap) c =
    (pc_done [(Msg.PONG, status_payload st)], set_co_files fs' c) ∧ fs' !! path = Some bytes.
Proof.
  intros He. set (fs1 := <[tmp_path path := bytes]> (co_files c)).
  set (fs2 := <[path := bytes]> (delete (tmp_path path) fs1)).
  assert (save_write no_faults path snap (co_files c) = (Ret None, fs1)) as H1
    by (unfold save_write, st_bind, st_lift; by rewrite He).
  assert (save_rename no_faults path fs1 = (Ret Status.OK, fs2)) as H2
    by (unfold save_rename, st_bind, st_get, fs2, fs1; by rewrite lookup_insert_eq).
  exists fs2. split; [|apply lookup_insert_eq].
  do 3 (rewrite uninterrupted_S; unfold finish; cbn [next]; unfold answer, st_bind, on_files, st_ret;
    cbn [co_files set_co_files]; rewrite ?H1, ?H2, ?reply_status_ret). done.
Qed.

(** The first message stops between its snapshot and its save; the second one is
    handled in between. *)
Lemma late_save_race now p1 p2 o1 o2 path c g1 g2 bytes1 bytes2 :
  g_store g1 = Some path → g_store g2 = Some path → clock_ok now →
  Forall byte_ok p1 → Forall byte_ok p2 → (decode_price p1).1 = Ret o1 → (decode_price p2).1 = Ret o2 →
  publish_price o1 (co_gov c) = (Ret Status.OK, g1) → publish_price o2 g1 = (Ret Status.OK, g2) →
  encode (snapshot_of g1) = Ret bytes1 → encode (snapshot_of g2) = Ret bytes2 →
  ∃ pool, rtc interleave (mkPool [] c) pool ∧
    po_threads pool = [pc_done [ok_reply]; pc_done [ok_reply]] ∧ co_gov (po_coord pool) = g2 ∧
    co_files (po_coord pool) !! path = Some bytes1.
Proof.
  intros Hs1 Hs2 Hn Hb1 Hb2 Hd1 Hd2 Hp1 Hp2 He1 He2.
  pose proof (publish_snapshots now no_faults p1 o1 path c g1 Hd1 Hp1 Hs1) as Hu1.
  pose proof (publish_snapshots now no_faults p2 o2 path (set_co_gov g1 c) g2 Hd2 Hp2 Hs2) as Hu2.
  destruct (late_save_overwrites now path Status.OK _ bytes2 (set_co_gov g2 (set_co_gov g1 c)) He2)
    as (fs2 & Hw2 & _).
  destruct (late_save_overwrites now path Status.OK _ bytes1
    (set_co_files fs2 (set_co_gov g2 (set_co_gov g1 c))) He1) as (fs1 & Hw1 & Hf).
  eexists (mkPool _ (set_co_files fs1 (set_co_files fs2 (set_co_gov g2 (set_co_gov g1 c))))).
  split; [|by split_and!].
  eapply rtc_l; [by apply (il_arrive Msg.PUBLISH_PRICE p1)|]. cbn [app].
  etrans; [by eapply (uninterrupted_interleave 2 now no_faults 0), Hu1|].
  eapply rtc_l; [by apply (il_arrive Msg.PUBLISH_PRICE p2)|]. cbn.
  etrans; [by eapply (uninterrupted_interleave 2 now no_faults 1), Hu2|]. cbn.
  etrans; [by eapply (uninterrupted_interleave 3 now no_faults 1), Hw2|]. cbn.
  apply (uninterrupted_interleave 3 now no_faults 0
    (pc_write Status.OK path (snapshot_of g1)) (pc_done [ok_reply]) [_; pc_done [ok_reply]] _ _
    Hn eq_refl eq_refl Hw1).
Qed.

Lemma publish_accepted o g g' :
  publish_price o g = (Ret Status.OK, g') →
  g_store g' = g_store g ∧ o ∈ s_observations (g_schedule g') ∧
  s_generation (g_schedule g') = id_succ (s_generation (g_schedule g)).
Proof.
  intros Hp. apply publish_price_cases in Hp as [[_ ?]|(_&_&_&_&_& ->)]; [done|]. cbn.
  split; [done|]. split; [|done]. destruct (replace_obs o _) as [l|] eqn:Hr.
  - by eapply replace_obs_has.
  - apply elem_of_app. right. by apply list_elem_of_singleton.
Qed.

Lemma accepted_refined P `{!Invariant P} payload o c g' :
  Forall byte_ok payload → (decode_price payload).1 = Ret o →
  publish_price o (co_gov c) = (Ret Status.OK, g') → refined P c → refined P (set_co_gov g' c).
Proof.
  intros Hb Hd Hp Hc. destruct (decode_price payload) as [x rest] eqn:Hx. cbn in Hd. subst x.
  destruct (yields_price payload _ _ Hb Hx) as [Ho _].
  pose proof (keeps_gov P (publish_price o) (tracked_publish P o Ho) c Hc) as Hk.
  unfold gov in Hk. by rewrite Hp in Hk.
Qed.

Lemma refined_encodes c :
  refined typed_reachable c →
  snapshot_values (snapshot_of (co_gov c)) ∧ ∃ bytes, encode (snapshot_of (co_gov c)) = Ret bytes.
Proof.
  intros (s & Ht & Hg & _). pose proof (typed_reachable_sound s Ht) as Hs.
  assert (snapshot_values (snapshot_of (co_gov c))) as Hv
    by (rewrite <-Hg; apply typed_snapshot; apply Hs).
  split; [done|by apply encode_total].
Qed.
End racing.

(** ** Schedules, for the witnesses *)

Inductive Event := ev_arrive (type : Msg) (payload : list Z) | ev_section (j : nat).

(** One event, with a constant clock and no failing files; [None] when a section of
    a message that is not there is scheduled, or one throws. *)
Definition fire `{IterOrder} (ev : Event) (pool : Pool) : option Pool :=
  match ev with
  | ev_arrive type payload =>
      if decide (Forall byte_ok payload) then
        Some (mkPool (po_threads pool ++ [pc_start type payload]) (po_coord pool))
      else None
  | ev_section j =>
      p ← po_threads pool !! j;
      let '(p', c') := advance kClock no_faults p (po_coord pool) in
      match p' with
      | pc_failed _ => None
      | _ => Some (mkPool (<[j := p']> (po_threads pool)) c')
      end
  end.

(** A schedule all of whose pools pass a test. *)
Fixpoint play `{IterOrder} (ok : list Pc → bool) (evs : list Event) (pool : Pool) : option Pool :=
  match evs with
  | [] => Some pool
  | ev :: evs' =>
      pool' ← fire ev pool;
      if ok (po_threads pool') then play ok evs' pool' else None
  end.

Definition exclusive_b (ps : list Pc) : bool := bool_decide (NoDup (omap settling ps)).

Lemma NoDup_omap_inj {A B} (f : A → option B) (l : list A) i j x y b :
  NoDup (omap f l) → l !! i = Some x → l !! j = Some y → f x = Some b → f y = Some b → i = j.
Proof.
  intros Hnd Hi Hj Hx Hy. revert i j Hi Hj Hnd. induction l as [|z l IH]; intros i j Hi Hj Hnd; [done|].
  assert (∀ k w, l !! k = Some w → f w = Some b → b ∈ omap f l) as Hin.
  { intros k w Hw Hf. apply list_elem_of_omap. exists w. split; [by eapply list_elem_of_lookup_2|done]. }
  cbn in Hnd. destruct i as [|i], j as [|j]; cbn in Hi, Hj.
  - done.
  - injection Hi as ->. rewrite Hx in Hnd. apply NoDup_cons in Hnd as [Hn _]. destruct Hn. by eapply Hin.
  - injection Hj as ->. rewrite Hy in Hnd. apply NoDup_cons in Hnd as [Hn _]. destruct Hn. by eapply Hin.
  - f_equal. apply IH; [done|done|]. destruct (f z); [by apply NoDup_cons in Hnd as [_ ?]|done].
Qed.

Lemma exclusive_by ps : exclusive_b ps = true → exclusive ps.
Proof. intros Hb%bool_decide_eq_true i j p q t Hi Hj Hp Hq. by eapply NoDup_omap_inj. Qed.

Lemma fire_interleave `{IterOrder} ev a b : fire ev a = Some b → interleave a b.
Proof.
  destruct a as [ps c], ev as [type payload|j]; cbn [fire po_threads po_coord]; intros H1.
  - case_decide; [|done]. simplify_eq. by apply il_arrive.
  - apply bind_Some in H1 as (p & Hj & H1).
    destruct (advance kClock no_faults p c) as [p' c'] eqn:Ha.
    assert (∀ e, p' ≠ pc_failed e) as Hne by (by destruct p').
    assert (b = mkPool (<[j := p']> ps) c') as -> by (destruct p'; congruence).
    by apply (il_section kClock no_faults j p p' ps c c' kClock_ok Hj Ha).
Qed.

Lemma play_steps `{IterOrder} ok (R : Pool → Pool → Prop) evs a b :
  (∀ x y, interleave x y → ok (po_threads y) = true → R x y) → play ok evs a = Some b → rtc R a b.
Proof.
  intros HR. revert a. induction evs as [|ev evs IH]; intros a H1; cbn [play] in H1;
    [simplify_eq; constructor|].
  apply bind_Some in H1 as (a' & Hf & H1). destruct (ok _) eqn:Hok; [|done].
  eapply rtc_l; [|by apply IH]. apply HR; [by eapply fire_interleave|done].
Qed.

Lemma play_orderly `{IterOrder} evs a b : play exclusive_b evs a = Some b → rtc orderly a b.
Proof. apply play_steps. intros x y Hxy Hok. split; [done|by apply exclusive_by]. Qed.

(** *** Two sessions on a coordinator with two reservations *)

(** Two COMMITs of different tokens and a RESERVE, their sections alternating. *)
Definition busy_events : list Event :=
  [ ev_arrive Msg.COMMIT (id_bytes [1]); ev_arrive Msg.COMMIT (id_bytes [2]);
    ev_arrive Msg.RESERVE (id_bytes [1; 1; 1; 1000]); ev_section 0; ev_section 1; ev_section 2;
    ev_section 1; ev_section 0; ev_section 0; ev_section 2; ev_section 1; ev_section 1; ev_section 0 ].
Definition idle : Pool := mkPool [] fresh_coord.
Definition opening_events : list Event :=
  [ ev_arrive Msg.RESERVE (id_bytes [1; 1; 1; 300000]); ev_section 0; ev_section 0;
    ev_arrive Msg.RESERVE (id_bytes [1; 1; 1; 300000]); ev_section 1; ev_section 1 ].
Definition shifted (k : nat) (ev : Event) : Event :=
  match ev with ev_section j => ev_section (k + j) | _ => ev end.
Definition busy : Pool :=
  default idle (@play map_order exclusive_b (opening_events ++ (shifted 2 <$> busy_events)) idle).

Lemma busy_orderly : rtc (@orderly map_order) idle busy.
Proof. apply (play_orderly (opening_events ++ (shifted 2 <$> busy_events))). by vm_compute. Qed.

(** Two prices, and the governor that has accepted one or both. *)
Definition racing_price (id : Z) : PriceObservation := sample_price id PriceKind.ENERGY 200000 1000 7.
Definition price_bytes (id : Z) : list Z :=
  match encode_price (racing_price id) with Ret w => w | Throw _ => [] end.
Definition one_price (c : Coord) : Impl := (publish_price (racing_price 1) (co_gov c)).2.
Definition two_prices (c : Coord) : Impl := (publish_price (racing_price 2) (one_price c)).2.

(** ** Theorems *)

(** The sections are the handlers: a message whose critical sections are executed
    without interruption, at most eight of them, replies and changes the coordinator
    exactly as its handler does, exceptions included. *)
Theorem sections_compose (I : IterOrder) now io type payload c :
  uninterrupted 8 now io (pc_start type payload) c =
    (outcome (handle now io type payload c).1, (handle now io type payload c).2).
Proof. rewrite uninterrupted_S. apply enter_whole. Qed.

(** C4. Interleaved sessions implement the governor's transition system: from a start
    without a state file, however the critical sections of any number of messages
    interleave, with any payloads, clock readings and file system failures, as long
    as no token is being settled by two messages at once (and no settlement throws),
    the governor is that of a reachable system state, in which every reservation of
    the token map and every copy held by a message in progress is a client's
    reservation; hence every budget's reserved amount is between zero and the limit
    and no hard budget consumes more than its limit. *)
Theorem interleavings_refine_system (I : IterOrder) path fs c0 pool :
  exists_file fs path = false → start path fs = Ret c0 → rtc orderly (mkPool [] c0) pool →
  (∃ s ix px, typed_reachable s ∧ reachable s ∧ sys_g s = co_gov (po_coord pool) ∧
     linked (po_threads pool) (co_reservations (po_coord pool)) (sys_tokens s) ix px) ∧
  (∀ id b, g_budgets (co_gov (po_coord pool)) !! id = Some b →
     0 ≤ b_reserved b ≤ b_limit b ∧ 0 ≤ b_consumed b ∧
     (b_mode b = BudgetMode.HARD → b_consumed b ≤ b_limit b)).
Proof.
  intros Hno Hs Hrun. apply start_fresh_refined in Hs as (s0 & Hr0 & Hg0 & ix0 & Hix & Hinj); [|done].
  assert (tracks typed_reachable (mkPool [] c0)) as H0.
  { exists (sys_tokens s0), ix0, (λ _, 0%nat). split; [by exists s0|]. split; [constructor|].
    split; cbn; try done. intros t r Ht. left. by apply Hix. }
  assert (tracks typed_reachable pool) as (toks & ix & px & (s & Hr & Hg & <- & _) & _ & Hl).
  { by apply (orderlies_track typed_reachable (mkPool [] c0)). }
  split; [exists s, ix, px; split_and!; try done; by apply typed_reachable_reachable|].
  intros id b Hb. rewrite <-Hg in Hb. apply (system_bounds s id b); [|done].
  by apply reachable_ok, typed_reachable_reachable.
Qed.

Lemma interleavings_refine_system_witness :
  po_threads busy = (pc_done <$> [ [(Msg.PONG, 0 :: id_bytes [1; 1; 1; 300000])];
    [(Msg.PONG, 0 :: id_bytes [2; 1; 1; 300000])]; [ok_reply]; [ok_reply];
    [(Msg.PONG, 0 :: id_bytes [3; 1; 1; 1000])] ]) ∧
  (b_consumed <$> g_budgets (co_gov (po_coord busy)) !! mkId 1) = Some 600000 ∧
  ∃ s, reachable s ∧ sys_g s = co_gov (po_coord busy).
Proof.
  split; [by vm_compute|]. split; [by vm_compute|].
  destruct (interleavings_refine_system map_order "state.bin" ∅ fresh_coord busy)
    as [(s & ix & px & _ & Hr & Hg & _) _]; [by vm_compute|by vm_compute|apply busy_orderly|].
  exists s. split; [exact Hr|exact Hg].
Defined.

(** C40. Concurrent saves can lose an acknowledged price: take any coordinator that was
    started without a state file and has handled any messages one at a time (no
    settlement threw), and any two
    PUBLISH_PRICE payloads whose prices it accepts one after the other, with a
    million entries of each kind at most in the state after the first.  Then there
    is an interleaving of the two messages, without a failing file operation, in
    which both are answered with OK and the governor has the second price, but the
    snapshot that was taken before it is saved last: killed and started again, the
    coordinator has the schedule from before the second price. *)
Theorem concurrent_saves_lose_price (I : IterOrder) path fs c0 c now p1 p2 o1 o2 g1 g2 :
  exists_file fs path = false → start path fs = Ret c0 → rtc co_step c0 c → clock_ok now →
  Forall byte_ok p1 → Forall byte_ok p2 → (decode_price p1).1 = Ret o1 → (decode_price p2).1 = Ret o2 →
  publish_price o1 (co_gov c) = (Ret Status.OK, g1) → publish_price o2 g1 = (Ret Status.OK, g2) →
  readable_counts (snapshot_of g1) →
  ∃ pool c', rtc interleave (mkPool [] c) pool ∧
    po_threads pool = [pc_done [ok_reply]; pc_done [ok_reply]] ∧ co_gov (po_coord pool) = g2 ∧
    o2 ∈ s_observations (g_schedule g2) ∧
    start path (co_files (po_coord pool)) = Ret c' ∧
    g_schedule (co_gov c') = g_schedule g1 ∧
    s_generation (g_schedule g2) = id_succ (s_generation (g_schedule g1)) ∧
    g_schedule g1 ≠ g_schedule g2.
Proof.
  intros Hno Hs Hrun Hn Hb1 Hb2 Hd1 Hd2 Hp1 Hp2 Hcnt.
  assert (refined typed_reachable c) as Hc.
  { apply (co_steps_refined _ c0 c Hrun). by apply (start_fresh_refined path fs). }
  pose proof (co_steps_store (Some path) c0 c Hrun (start_store path fs c0 Hs)) as Hst.
  pose proof (accepted_refined typed_reachable p1 o1 c g1 Hb1 Hd1 Hp1 Hc) as Hc1.
  pose proof (accepted_refined typed_reachable p2 o2 (set_co_gov g1 c) g2 Hb2 Hd2 Hp2 Hc1) as Hc2.
  destruct (refined_encodes _ Hc1) as [Hv1 [bytes1 He1]], (refined_encodes _ Hc2) as [_ [bytes2 He2]].
  destruct (publish_accepted o1 (co_gov c) g1 Hp1) as (Hst1 & _ & _).
  destruct (publish_accepted o2 g1 g2 Hp2) as (Hst2 & Hin & Hgen).
  destruct (late_save_race now p1 p2 o1 o2 path c g1 g2 bytes1 bytes2)
    as (pool & Hil & Hth & Hg & Hf); [congruence|congruence|done..|].
  assert (load_file (co_files (po_coord pool)) path = Ret (snapshot_of g1)) as Hload%start_loaded.
  { unfold load_file. rewrite Hf. by apply (decode_encode (snapshot_of g1)). }
  exists pool. eexists. do 4 (split; [done|]). split; [exact Hload|]. split; [done|]. split; [done|].
  intros Heq. rewrite <-Heq in Hgen. symmetry in Hgen. revert Hgen. apply id_succ_ne. apply Hv1.
Qed.

Lemma concurrent_saves_lose_price_witness :
  ∃ pool c', rtc (@interleave map_order) idle pool ∧
    po_threads pool = [pc_done [ok_reply]; pc_done [ok_reply]] ∧
    (o_id <$> s_observations (g_schedule (co_gov (po_coord pool)))) = [mkId 1; mkId 2] ∧
    start "state.bin" (co_files (po_coord pool)) = Ret c' ∧
    (o_id <$> s_observations (g_schedule (co_gov c'))) = [mkId 1].
Proof.
  destruct (concurrent_saves_lose_price map_order "state.bin" ∅ fresh_coord fresh_coord kClock
    (price_bytes 1) (price_bytes 2) (racing_price 1) (racing_price 2) (one_price fresh_coord)
    (two_prices fresh_coord)) as (pool & c' & H1 & H2 & H3 & _ & H4 & H5 & _);
    [by vm_compute|by vm_compute|constructor|apply kClock_ok|by_compute|by_compute|by vm_compute
    |by vm_compute|by vm_compute|by vm_compute|by_compute|].
  exists pool, c'. split; [exact H1|]. split; [exact H2|]. split; [rewrite H3; by vm_compute|].
  split; [exact H4|]. rewrite H5. by vm_compute.
Defined.
