(* ===== verification/Lifecycle.v ===== *)
(** * Lifecycle: the coordinator across crashes and restarts

    A coordinator process handles messages, dies at any point (also in the middle
    of saving its state) and is started again on the files that are left.  This
    file models such lives over Coordinator.v and Recovery.v and shows what holds
    through all of them, and what a restart does not fence. *)

From stdpp Require Import prelude gmap strings.
From S2P Require Import Prelude Effects Money Identity Units Price Policy Budget Cost.
From S2P Require Import Plan Decision Samples Codec Governor Evaluate Ledger System Accounts.
From S2P Require Import Fencing Snapshot Recovery Wire WireFacts Types Coordinator CoordinatorFacts.
From stdpp Require Import options.

(** ** Recovered states are sound *)

(** The recovered governor as a system of its own: what a budget has consumed is
    one direct charge, what it has released one settled reservation. *)
Definition past_charge (x : BudgetId * Budget) : BudgetId * Z := (x.1, b_consumed x.2).
Definition past_release (x : BudgetId * Budget) : BudgetReservation :=
  mkBudgetReservation no_id x.1 no_id no_id (b_released x.2) 0 0 ReservationState.RELEASED.
Definition recovered_sys (g : Impl) : Sys :=
  mkSys g (past_release <$> map_to_list (g_budgets g)) (past_charge <$> map_to_list (g_budgets g)).

(** A sum over a map in which only the key [k] counts. *)
Lemma sumZ_at_key {K V} `{Countable K} (m : gmap K V) (f : K * V → Z) k v :
  m !! k = Some v → (∀ x, x.1 ≠ k → f x = 0) → sumZ (f <$> map_to_list m) = f (k, v).
Proof.
  intros Hk Hf. rewrite <-(insert_delete_id m k v Hk), map_to_list_insert by apply lookup_delete_eq.
  rewrite fmap_cons, sumZ_cons. enough (sumZ (f <$> map_to_list (delete k m)) = 0) as -> by lia.
  assert (Forall (λ x, f x = 0) (map_to_list (delete k m))) as Hall.
  { apply Forall_forall. intros [k' v'] Hin%elem_of_map_to_list. apply Hf. cbn.
    apply lookup_delete_Some in Hin as [Hne _]. done. }
  induction Hall as [|x l Hx _ IH]; [done|]. rewrite fmap_cons, sumZ_cons. lia.
Qed.

Lemma sumZ_zero {A} (f : A → Z) l : (∀ x, f x = 0) → sumZ (f <$> l) = 0.
Proof. intros Hf. induction l as [|x l IH]; [done|]. rewrite fmap_cons, sumZ_cons, Hf. lia. Qed.

(** What [recovered_sys] asks of a budget. *)
Definition funds_ok (id : BudgetId) (b : Budget) : Prop :=
  b_id b = id ∧ b_reserved b = 0 ∧ 0 ≤ b_limit b ≤ I64_MAX ∧ 0 ≤ b_consumed b ≤ I64_MAX ∧
  (b_mode b = BudgetMode.HARD → b_consumed b ≤ b_limit b) ∧ 0 ≤ b_released b ≤ I64_MAX.

Lemma recovered_accounts g :
  (∀ id b, g_budgets g !! id = Some b → funds_ok id b) → sys_ok (recovered_sys g).
Proof.
  intros Hb.
  assert (∀ st id b, g_budgets g !! id = Some b →
    held st id (past_release <$> map_to_list (g_budgets g)) =
      if decide (st = ReservationState.RELEASED) then b_released b else 0) as Hheld.
  { intros st id b Hid. unfold held. rewrite <-list_fmap_compose. case_decide as Hst.
    - rewrite (sumZ_at_key _ _ _ _ Hid); unfold in_state; cbn; [by rewrite decide_True|].
      intros x Hx. by rewrite decide_False by tauto.
    - apply sumZ_zero. intros x. unfold in_state. cbn. rewrite decide_False; [done|]. by intros [_ <-]. }
  assert (∀ id b, g_budgets g !! id = Some b →
    charged id (past_charge <$> map_to_list (g_budgets g)) = b_consumed b) as Hch.
  { intros id b Hid. unfold charged. rewrite <-list_fmap_compose, (sumZ_at_key _ _ _ _ Hid);
      unfold charge_of; cbn; [by rewrite decide_True|]. intros x Hx. by rewrite decide_False. }
  split; cbn.
  - intros id b Hid. destruct (Hb id b Hid) as (?&?&?&?&?&?).
    split; rewrite ?(Hheld _ id b Hid), ?(Hch id b Hid); repeat case_decide; try done; lia.
  - apply Forall_fmap, Forall_forall. intros [id b] Hin%elem_of_map_to_list.
    destruct (Hb id b Hin) as (?&?&?&?&?&?). split; cbn; [lia|by eexists].
  - apply Forall_fmap, Forall_forall. intros [id b] Hin%elem_of_map_to_list.
    destruct (Hb id b Hin) as (?&?&?&?&?&?). split; cbn; [lia|by eexists].
Qed.

Lemma recovered_funds s id b :
  sys_ok s → g_budgets (sys_g s) !! id = Some b → funds_ok id (recover_budget b).
Proof.
  intros Hok Hb. destruct (ok_accounts s Hok id b Hb) as [].
  pose proof (held_nonneg _ ReservationState.COMMITTED id _ (ok_tokens s Hok)).
  pose proof (held_nonneg _ ReservationState.RELEASED id _ (ok_tokens s Hok)).
  pose proof (held_nonneg _ ReservationState.EXPIRED id _ (ok_tokens s Hok)).
  pose proof (charged_nonneg _ id _ (ok_charges s Hok)).
  destruct (recover_budget_funds b) as (Hr & Hid & _ & _ & _ & _ & Hm & _ & Hl & Hc & Hrel & _).
  unfold funds_ok. rewrite Hr, Hid, Hm, Hl, Hc, Hrel. split_and!; try done; lia.
Qed.

Lemma recovered_budget_typed b : budget_typed b → budget_typed (recover_budget b).
Proof.
  intros Hb. unfold recover_budget. case_match; [|done].
  apply budget_typed_lifecycle; [by_compute|done].
Qed.

(** Loading the snapshot of a sound state gives one, in a process whose own
    counters are typed; the epoch it advances to is typed as well. *)
Lemma loaded_sound `{IterOrder} s g0 :
  sound s → in_u64 (g_next_intervention g0) →
  sound (recovered_sys (advance_epoch (load_snapshot (snapshot_of (sys_g s)) g0)).2).
Proof.
  intros Hs Hn. pose proof (sound_keyed s Hs) as Hk. destruct Hs as [Ha [Hh Hi] Ht].
  pose proof (recovered_budgets (sys_g s) Hk) as Hb.
  pose proof (recovered_interventions (sys_g s) Hk) as Hv.
  split.
  - apply recovered_accounts. cbn in *. rewrite Hb. intros id b.
    rewrite lookup_fmap, fmap_Some. intros (b0 & Hb0 & ->). by eapply recovered_funds.
  - split; [done|]. cbn in *. rewrite Hv. intros id i. rewrite lookup_fmap, fmap_Some.
    intros (i0 & Hi0 & ->). by apply (Hi id i0).
  - destruct Ht. split; cbn in *; try done; [apply u64_succ_range|..].
    + rewrite Hb. intros id b. rewrite lookup_fmap, fmap_Some. intros (b0 & Hb0 & ->).
      apply recovered_budget_typed. eauto.
    + rewrite Hv. intros id i. rewrite lookup_fmap, fmap_Some. intros (i0 & Hi0 & ->).
      by apply (it_interventions id i0).
Qed.

(** ** What a message leaves on disk *)

(** The state file is as it was, or holds the state after the message. *)
Lemma handle_disk `{IterOrder} path now io type payload c x c' :
  saved_at (Some path) c → snapshot_values (snapshot_of (co_gov c')) →
  handle now io type payload c = (x, c') →
  co_files c' !! path = co_files c !! path ∨
  ∃ bytes, encode (snapshot_of (co_gov c')) = Ret bytes ∧ co_files c' !! path = Some bytes.
Proof.
  intros Hsv Hv Hh.
  pose proof (handle_store (Some path) now io type payload c Hsv) as Hst. rewrite Hh in Hst.
  destruct (encode_total _ Hv) as [bytes He].
  destruct (decide (type = Msg.PUBLISH_PRICE ∨ type = Msg.RECORD_ATTEMPT)) as [Ht|Ht].
  - apply handle_saving in Hh as [(y & fs' & Hp & ->)|[-> _]]; [|by left|done].
    unfold persist in Hp. unfold saved_at, co_has, has in Hst. cbn in Hst. rewrite Hst in Hp.
    apply (save_leaves _ _ _ bytes) in Hp; [|done]. apply save_crash_path in Hp as [?|?]; eauto.
  - left. assert (type ≠ Msg.PUBLISH_PRICE ∧ type ≠ Msg.RECORD_ATTEMPT) as [H1 H2] by tauto.
    pose proof (handle_files (co_files c) now io type payload H1 H2 c eq_refl) as Hk.
    rewrite Hh in Hk. by rewrite <-Hk.
Qed.

(** ** Lives *)

(** The state can be read back: no list of its snapshot has more entries than the
    million that the reader accepts, which the code does not check when it saves. *)
Definition savable `{IterOrder} (g : Impl) : Prop := readable_counts (snapshot_of g).

(** The files a crash leaves: between the saves, or while the state that a
    PUBLISH_PRICE or a RECORD_ATTEMPT produced is saved. *)
Inductive crash_leaves `{IterOrder} (path : string) (c : Coord) : Files → Prop :=
  | crash_idle : crash_leaves path c (co_files c)
  | crash_saving now io type payload c1 bytes fs :
      type = Msg.PUBLISH_PRICE ∨ type = Msg.RECORD_ATTEMPT → clock_ok now → Forall byte_ok payload →
      serve now io type payload c = ([ok_reply], c1) → savable (co_gov c1) →
      encode (snapshot_of (co_gov c1)) = Ret bytes → save_crash path bytes (co_files c) fs →
      crash_leaves path c fs.

(** A message handled to its end, or a crash and a restart on what it left. *)
Inductive life `{IterOrder} (path : string) : Coord → Coord → Prop :=
  | life_message c c' : co_step c c' → savable (co_gov c') → life path c c'
  | life_restart c fs c' : crash_leaves path c fs → start path fs = Ret c' → life path c c'.

(** [c'] has what is durable of [g], and none of the authority. *)
Record recovers (g : Impl) (c' : Coord) : Prop := mk_recovers {
  rc_schedule : g_schedule (co_gov c') = g_schedule g;
  rc_policy : g_policy (co_gov c') = g_policy g;
  rc_history : g_history (co_gov c') = g_history g;
  rc_epoch : g_epoch (co_gov c') = id_succ (g_epoch g);
  rc_budgets : g_budgets (co_gov c') = recover_budget <$> g_budgets g;
  rc_attempts : g_attempts (co_gov c') = ∅;
  rc_reservations : co_reservations c' = ∅;
  rc_revalidation : g_revalidation_needed (co_gov c') = true;
}.

Section life.
Context `{IterOrder} (path : string).

(** The state file holds the state of a coordinator that [Q] admits. *)
Definition holds (Q : Coord → Prop) (fs : Files) : Prop :=
  ∃ c1, Q c1 ∧ refined sound c1 ∧ load_file fs path = Ret (snapshot_of (co_gov c1)).

Lemma refined_values P `{!Invariant P} c : refined P c → snapshot_values (snapshot_of (co_gov c)).
Proof.
  intros (s & Hs & Hg & _). rewrite <-Hg. apply inv_sound in Hs. apply typed_snapshot; apply Hs.
Qed.

Lemma savable_decodes P `{!Invariant P} c bytes :
  refined P c → savable (co_gov c) → encode (snapshot_of (co_gov c)) = Ret bytes →
  decode bytes = Ret (snapshot_of (co_gov c)).
Proof.
  intros Hc Hcnt He. apply decode_encode; [|done].
  split; [by apply (refined_values P)|done].
Qed.

(** Starting on such a file succeeds with the recovered state, which is sound. *)
Lemma start_holds Q fs :
  holds Q fs → ∃ c1 c', Q c1 ∧ start path fs = Ret c' ∧ recovers (co_gov c1) c' ∧
    co_files c' = fs ∧ refined sound c'.
Proof.
  intros (c1 & HQ & (s & Hs & Hg & _) & Hl).
  eexists c1, _. split; [done|]. split; [by apply start_loaded|].
  pose proof (sound_keyed s Hs) as Hk. rewrite <-Hg. split_and!.
  - split; try done. cbn. by apply recovered_budgets.
  - done.
  - eexists (recovered_sys _). split; [|split; [done|]].
    + apply (loaded_sound s (configured path) Hs). by_compute.
    + exists (λ _, 0%nat). split; intros * Ht; discriminate Ht.
Qed.

(** A life from [c0]: the coordinator is sound, and the file holds the state of
    a moment of the life or, if it was [new] at [c0], has not been written since. *)
Record alive (new : bool) (c0 c : Coord) : Prop := mk_alive {
  al_refined : refined sound c;
  al_store : saved_at (Some path) c;
  al_disk : (new = true ∧ exists_file (co_files c) path = false) ∨
            holds (rtc (life path) c0) (co_files c);
  al_past : rtc (life path) c0 c;
}.

Lemma disk_path new Q fs fs' :
  fs' !! path = fs !! path → (new = true ∧ exists_file fs path = false) ∨ holds Q fs →
  (new = true ∧ exists_file fs' path = false) ∨ holds Q fs'.
Proof.
  intros Heq [[Hn Hd]|(c1 & H1 & H2 & H3)].
  - left. unfold exists_file in *. by rewrite Heq.
  - right. exists c1. unfold load_file in *. by rewrite Heq.
Qed.

Lemma alive_message new c0 c c' :
  alive new c0 c → co_step c c' → savable (co_gov c') → alive new c0 c'.
Proof.
  intros [Hr Hst Hd Hp] Hs Hsv. assert (refined sound c') as Hr' by by apply (co_step_refined sound c c' Hs).
  assert (rtc (life path) c0 c') as Hp' by (eapply rtc_r; [exact Hp|by apply life_message]).
  split; [done|apply (co_steps_store _ c c'); [by apply rtc_once|done]| |done].
  destruct Hs as [now io type payload c x c' Hn Hb Hh _].
  apply (handle_disk path) in Hh as [Heq|(bytes & He & Hb')]; [by eapply disk_path| |done|].
  - right. exists c'. split_and!; [done|done|]. unfold load_file. rewrite Hb'.
    by apply (savable_decodes sound).
  - by apply (refined_values sound).
Qed.

Lemma served_step now io type payload c out c1 :
  clock_ok now → Forall byte_ok payload → type = Msg.PUBLISH_PRICE ∨ type = Msg.RECORD_ATTEMPT →
  serve now io type payload c = (out, c1) → co_step c c1.
Proof.
  intros Hn Hb Ht Hs. unfold serve in Hs.
  destruct (handle now io type payload c) as [x c2] eqn:Hh. assert (c2 = c1) as -> by (destruct x; congruence).
  eapply co_handled; [done|done|exact Hh|]. by intros [-> | ->]; destruct Ht.
Qed.

(** What a crash leaves can be started on. *)
Lemma crash_disk new c0 c fs :
  alive new c0 c → crash_leaves path c fs →
  (new = true ∧ exists_file fs path = false) ∨ holds (rtc (life path) c0) fs.
Proof.
  intros Ha [|now io type payload c1 bytes fs' Ht Hn Hb Hs Hsv He Hcr]; [apply Ha|].
  apply save_crash_path in Hcr as [Heq|Heq]; [eapply disk_path, Ha; done|].
  assert (co_step c c1) as Hstep by by eapply served_step.
  right. destruct (alive_message new c0 c c1 Ha Hstep Hsv) as [Hr _ _ Hp].
  exists c1. split_and!; [done|done|]. unfold load_file. rewrite Heq. by apply (savable_decodes sound).
Qed.

Lemma reachable_refined_sound c : refined typed_reachable c → refined sound c.
Proof. intros (s & Hs & Hsim). exists s. split; [by apply typed_reachable_sound|done]. Qed.

Lemma start_files fs c : start path fs = Ret c → co_files c = fs.
Proof.
  unfold start. destruct (setup path fs initial). intros H1.
  by apply res_bind_Ret in H1 as ([] & _ & [= <-]).
Qed.

Lemma start_alive fs c : exists_file fs path = false → start path fs = Ret c → alive true c c.
Proof.
  intros Hno Hs. split; [by eapply reachable_refined_sound, start_fresh_refined|by eapply start_store
    |left; by rewrite (start_files fs c Hs)|constructor].
Qed.

Lemma alive_life new c0 c c' : alive new c0 c → life path c c' → alive new c0 c'.
Proof.
  intros Ha Hl. pose proof (rtc_r _ _ _ (al_past _ _ _ Ha) Hl) as Hp.
  destruct Hl as [c c' Hs Hsv|c fs c' Hcr Hs]; [by eapply alive_message|].
  pose proof (start_files fs c' Hs) as Hf. pose proof (start_store path fs c' Hs) as Hst.
  pose proof (crash_disk new c0 c fs Ha Hcr) as Hd. split; [|done|by rewrite Hf|done].
  destruct Hd as [[_ Hno]|Hd]; [by eapply reachable_refined_sound, start_fresh_refined|].
  destruct (start_holds _ fs Hd) as (c1 & c2 & _ & Hs2 & _ & _ & Hr). congruence.
Qed.

Lemma alive_lives new c0 c c' : alive new c0 c → rtc (life path) c c' → alive new c0 c'.
Proof. intros Ha Hl. induction Hl; eauto using alive_life. Qed.

(** After an acknowledged save, the file is no longer new. *)
Lemma saved_alive new c0 c now type payload c1 :
  alive new c0 c → clock_ok now → Forall byte_ok payload →
  type = Msg.PUBLISH_PRICE ∨ type = Msg.RECORD_ATTEMPT →
  serve now no_faults type payload c = ([ok_reply], c1) → savable (co_gov c1) → alive false c1 c1.
Proof.
  intros Ha Hn Hb Ht Hs Hsv. assert (co_step c c1) as Hstep by by eapply served_step.
  destruct (alive_message new c0 c c1 Ha Hstep Hsv) as [Hr Hst _ _].
  split; [done|done| |constructor]. right. exists c1. split; [constructor|]. split; [done|].
  destruct (ok_reply_saved now no_faults type payload c c1 Ht Hs) as [y Hp].
  destruct (encode_total _ (refined_values sound c1 Hr)) as [bytes He].
  unfold persist in Hp. unfold saved_at, co_has, has in Hst. rewrite Hst, (save_ok _ _ _ _ He) in Hp.
  injection Hp as _ <-. unfold load_file. rewrite lookup_insert_eq.
  by apply (savable_decodes sound).
Qed.
End life.

(** ** What a restart does not fence *)

(** What a process starts with, whatever it finds on disk. *)
Lemma start_state path fs c :
  start path fs = Ret c →
  co_last c = no_decision ∧ co_reservations c = ∅ ∧ g_next_reservation (co_gov c) = 1 ∧
  (exists_file fs path = true → g_revalidation_needed (co_gov c) = true).
Proof.
  unfold start. destruct (setup path fs initial) as [x g] eqn:Hs.
  intros H. apply res_bind_Ret in H as ([] & -> & [= <-]). split; [done|]. split; [done|].
  cbn [co_gov]. unfold setup, st_bind at 1 2 in Hs. cbn in Hs.
  destruct (exists_file fs path); [|by injection Hs as <-].
  unfold load in Hs. st_simpl Hs. destruct (load_file fs path); [|done]. by injection Hs as <-.
Qed.

Lemma serve_all_files `{IterOrder} now io msgs i c :
  Forall (λ m, m.1 ≠ Msg.PUBLISH_PRICE ∧ m.1 ≠ Msg.RECORD_ATTEMPT) msgs →
  co_files (serve_all now io i msgs c).2 = co_files c.
Proof.
  intros Hm. revert i c. induction Hm as [|[type payload] msgs [H1 H2] _ IH]; intros i c; [done|].
  cbn [serve_all]. pose proof (serve_files now (io i) type payload c H1 H2) as Hf.
  destruct (serve now (io i) type payload c) as [out1 c1]. specialize (IH (S i) c1).
  destruct (serve_all now io (S i) msgs c1). cbn in *. congruence.
Qed.

(** ** A life, for the witnesses *)

#[global] Instance savable_dec `{IterOrder} g : Decision (savable g).
Proof. unfold savable. apply _. Defined.

Lemma life_served `{IterOrder} path now io type payload c :
  clock_ok now → Forall byte_ok payload → type ≠ Msg.COMMIT → type ≠ Msg.RELEASE →
  bool_decide (savable (co_gov (serve now io type payload c).2)) = true →
  life path c (serve now io type payload c).2.
Proof.
  intros Hn Hb H1 H2 Hs. apply life_message; [|by apply bool_decide_eq_true in Hs]. unfold serve.
  destruct (handle now io type payload c) as [x c'] eqn:Hh.
  replace (match x with Ret out => (out, c') | Throw _ => _ end).2 with c' by (by destruct x).
  eapply co_handled; [done|done|exact Hh|]. by intros [].
Qed.

(** A second price is published, and the process dies when ten bytes of the
    temporary file are written; [reborn] is started on what that left. *)
Definition saved_bytes (c : Coord) : list Z :=
  match encode (@snapshot_of map_order (co_gov c)) with Ret w => w | Throw _ => [] end.
Definition second_price : list Z :=
  match encode_price (sample_price 2 PriceKind.STORAGE 7 1000 8) with Ret w => w | Throw _ => [] end.
Definition republished : Coord :=
  (@serve map_order kClock no_faults Msg.PUBLISH_PRICE second_price published).2.
Definition republished_files : Files :=
  <[tmp_path "state.bin" := take 10 (saved_bytes republished)]> (co_files published).
Definition reborn : Coord := coord_or (start "state.bin" republished_files).

Lemma opened_life : rtc (@life map_order "state.bin") fresh_coord opened.
Proof.
  eapply rtc_l; [apply (@life_served map_order "state.bin" kClock no_faults Msg.HELLO (id_bytes [1; 5]));
    [apply kClock_ok|by_compute|done|done|by vm_compute]|].
  do 2 (eapply rtc_l; [apply (@life_served map_order "state.bin" kClock no_faults Msg.RESERVE
      (id_bytes [1; 1; 1; 300000])); [apply kClock_ok|by_compute|done|done|by vm_compute]|]).
  apply reflexive_eq. by vm_compute.
Qed.

Lemma published_life : @life map_order "state.bin" opened published.
Proof. apply life_served; [apply kClock_ok|by_compute|done|done|by vm_compute]. Qed.

Lemma torn_crash : @crash_leaves map_order "state.bin" published republished_files.
Proof.
  eapply (@crash_saving map_order "state.bin" published kClock no_faults Msg.PUBLISH_PRICE second_price
    republished (saved_bytes republished));
    [by left|apply kClock_ok|by_compute|by vm_compute|by_compute|by vm_compute|].
  apply crash_writing.
Qed.

Lemma reborn_life : rtc (@life map_order "state.bin") fresh_coord reborn.
Proof.
  eapply rtc_r; [eapply rtc_r; [apply opened_life|apply published_life]|].
  eapply life_restart; [apply torn_crash|by vm_compute].
Qed.

(** ** Theorems *)

(** C5. Crash safety while the state is readable: take a coordinator that started
    without a state file, handles its messages one at a time (any payloads, clock
    readings and file system failures; no settlement throws) and is crashed and
    restarted any number of times, also in the middle of a save, and suppose that no
    state it reaches or is saving has more than a million prices, budgets, history
    entries or interventions, a bound the reader checks and the writer does not
    enforce.  Then it is in a sound state: it stands for a system with exact accounts
    in which every budget's reserved amount is between zero and the limit and no hard
    budget has consumed more than its limit.  Wherever it is killed next, it can be
    started again, and the restart recovers exactly the durable part of a state the
    coordinator was in before, under the next epoch, or starts afresh when nothing
    was ever saved. *)
Theorem crash_recovery_safe (I : IterOrder) path fs0 c0 c :
  exists_file fs0 path = false → start path fs0 = Ret c0 → rtc (life path) c0 c →
  (∃ s, sound s ∧ simulates c s) ∧
  (∀ id b, g_budgets (co_gov c) !! id = Some b →
     0 ≤ b_reserved b ≤ b_limit b ∧ 0 ≤ b_consumed b ∧
     (b_mode b = BudgetMode.HARD → b_consumed b ≤ b_limit b)) ∧
  (∀ fs, crash_leaves path c fs → ∃ c', start path fs = Ret c' ∧
     ((exists_file fs path = false ∧ co_gov c' = co_gov c0) ∨
      ∃ c1, rtc (life path) c0 c1 ∧ recovers (co_gov c1) c')).
Proof.
  intros Hno Hs Hl. pose proof (start_alive path fs0 c0 Hno Hs) as Ha0.
  pose proof (alive_lives path true c0 c0 c Ha0 Hl) as Ha. pose proof (al_refined _ _ _ _ Ha) as Hr.
  split; [exact Hr|]. split; [intros id b; by apply (refined_bounds sound)|]. intros fs Hcr.
  destruct (crash_disk path true c0 c fs Ha Hcr) as [[_ Hnew]|Hd].
  - unfold start, setup, st_bind at 1 2 in Hs. cbn in Hs. rewrite Hno in Hs.
    unfold start, setup, st_bind at 1 2. cbn. rewrite Hnew. eexists. split; [done|].
    left. split; [done|]. by injection Hs as <-.
  - destruct (start_holds path _ fs Hd) as (c1 & c2 & H1 & H2 & H3 & _). eauto 10.
Qed.

Lemma crash_recovery_safe_witness :
  (∃ s, sound s ∧ simulates reborn s) ∧
  (∀ fs, @crash_leaves map_order "state.bin" reborn fs → ∃ c', start "state.bin" fs = Ret c').
Proof.
  destruct (crash_recovery_safe map_order "state.bin" ∅ fresh_coord reborn) as (H1 & _ & H3);
    [by vm_compute|by vm_compute|apply reborn_life|].
  split; [exact H1|]. intros fs Hcr. destruct (H3 fs Hcr) as (c' & H & _). by exists c'.
Defined.

(** C6. Acknowledged prices and evidence survive crashes while the state is readable:
    under the conditions of a life (messages handled one at a time, no settlement
    that throws, and no state reached or being saved with more than a million
    prices, budgets, history entries or interventions), after PUBLISH_PRICE or
    RECORD_ATTEMPT was answered with OK and no file operation failed, whatever
    messages, file system failures, crashes and restarts follow, a restart succeeds
    and recovers the durable part (schedule, policy, history, budgets' funds) of a
    state that the coordinator reached at or after the acknowledgement, under the
    next epoch; recorded attempts and outstanding reservations are gone.  Beyond the
    bound a saved file is never loaded again, and saves that overlap can bring back
    an older state. *)
Theorem acknowledged_state_survives_crashes (I : IterOrder) path fs0 c0 c now type payload c1 c2 fs :
  exists_file fs0 path = false → start path fs0 = Ret c0 → rtc (life path) c0 c →
  type = Msg.PUBLISH_PRICE ∨ type = Msg.RECORD_ATTEMPT → clock_ok now → Forall byte_ok payload →
  serve now no_faults type payload c = ([ok_reply], c1) → savable (co_gov c1) →
  rtc (life path) c1 c2 → crash_leaves path c2 fs →
  ∃ c3 c', rtc (life path) c1 c3 ∧ start path fs = Ret c' ∧ recovers (co_gov c3) c'.
Proof.
  intros Hno Hs Hl Ht Hn Hb Hserve Hsv Hl2 Hcr. pose proof (start_alive path fs0 c0 Hno Hs) as Ha0.
  pose proof (alive_lives path true c0 c0 c Ha0 Hl) as Ha.
  pose proof (saved_alive path true c0 c now type payload c1 Ha Hn Hb Ht Hserve Hsv) as Ha1.
  pose proof (alive_lives path false c1 c1 c2 Ha1 Hl2) as Ha2.
  destruct (crash_disk path false c1 c2 fs Ha2 Hcr) as [[? _]|Hd]; [done|].
  destruct (start_holds path _ fs Hd) as (c3 & c' & H1 & H2 & H3 & _). by exists c3, c'.
Qed.

Lemma acknowledged_state_survives_crashes_witness :
  ∃ c3 c', rtc (@life map_order "state.bin") published c3 ∧
    start "state.bin" republished_files = Ret c' ∧ recovers (co_gov c3) c'.
Proof.
  apply (acknowledged_state_survives_crashes map_order "state.bin" ∅ fresh_coord opened kClock
    Msg.PUBLISH_PRICE price_payload published published);
    [by vm_compute|by vm_compute|apply opened_life|by left|apply kClock_ok|by_compute|by vm_compute
    |by_compute|constructor|apply torn_crash].
Defined.

(** A restart revalidates anything: a coordinator that has just recovered its
    state answers REVALIDATE with OK for every list of plans, because it validates
    the default decision, which authorizes nothing; the recovered governor itself
    refuses to dispatch any decision that was authorized. *)
Theorem restart_revalidates_anything (I : IterOrder) path fs c now io payload plans d :
  exists_file fs path = true → start path fs = Ret c →
  (@r_list wire_format _ decode_plan payload).1 = Ret plans →
  d_kind d = DecisionKind.AUTHORIZE →
  serve now io Msg.REVALIDATE payload c = ([ok_reply], c) ∧
  validate_for_dispatch now (co_gov c) d plans ≠ Ret Status.OK.
Proof.
  intros Hex Hs Hp Hd. apply start_state in Hs as (Hlast & _ & _ & Hrev). split.
  - apply (revalidate_reply now io payload plans Status.OK); [done|]. by rewrite Hlast.
  - unfold validate_for_dispatch. rewrite Hd, (Hrev Hex), decide_False by tauto.
    by repeat case_decide.
Qed.

Lemma restart_revalidates_anything_witness :
  @serve map_order kClock no_faults Msg.REVALIDATE (le_bytes 4 0) reborn = ([ok_reply], reborn).
Proof.
  apply (restart_revalidates_anything map_order "state.bin" republished_files reborn kClock no_faults
    (le_bytes 4 0) [] (refusal DecisionKind.AUTHORIZE Status.OK FeasibilityReason.NONE EmptyString)); by vm_compute.
Defined.

(** A restart need not advance the epoch: the epoch a restart enters is not
    saved until a price or an attempt is accepted, so a coordinator that handled any
    messages but those is, after a crash and another restart, the same coordinator
    with the same epoch, and hands out the same reservation tokens again. *)
Theorem restart_reuses_epoch (I : IterOrder) path fs c now io i msgs :
  start path fs = Ret c →
  Forall (λ m, m.1 ≠ Msg.PUBLISH_PRICE ∧ m.1 ≠ Msg.RECORD_ATTEMPT) msgs →
  start path (co_files (serve_all now io i msgs c).2) = Ret c ∧ g_next_reservation (co_gov c) = 1.
Proof.
  intros Hs Hm. rewrite serve_all_files by done. rewrite (start_files path fs c Hs).
  split; [done|]. by apply start_state in Hs as (_ & _ & ? & _).
Qed.

Lemma restart_reuses_epoch_witness :
  start "state.bin" (co_files (@serve_all map_order kClock (λ _, no_faults) 0
    [(Msg.HELLO, id_bytes [1; 5]); (Msg.GET_STATE, [])] reborn).2) = Ret reborn.
Proof.
  apply (restart_reuses_epoch map_order "state.bin" republished_files reborn kClock (λ _, no_faults) 0
    [(Msg.HELLO, id_bytes [1; 5]); (Msg.GET_STATE, [])]); [by vm_compute|by_compute].
Defined.

(** A token says nothing of the process that issued it: client A reserves 300000
    under token 1, the process dies before anything is saved and starts again,
    client B reserves 100000 under token 1, and A's COMMIT of token 1 is answered
    with OK and charges B's reservation. *)
Example stale_token_settles_another :
  let a := @serve_all map_order kClock (λ _, no_faults) 0 (take 2 opening) fresh_coord in
  let again := coord_or (start "state.bin" (co_files a.2)) in
  let b := @serve map_order kClock no_faults Msg.RESERVE (id_bytes [1; 1; 1; 100000]) again in
  let late := @serve map_order kClock no_faults Msg.COMMIT (id_bytes [1]) b.2 in
  (r_amount <$> co_reservations a.2 !! 1) = Some 300000 ∧
  (r_amount <$> co_reservations b.2 !! 1) = Some 100000 ∧
  late.1 = [ok_reply] ∧
  (b_consumed <$> g_budgets (co_gov late.2) !! mkId 1) = Some 100000.
Proof. by vm_compute. Qed.
