(* ===== verification/Client.v ===== *)
(** * Client: the worker and the proof runner as clients of the coordinator

    Models the remote calls of distributed/proof_runner.cpp ([struct Client]), the
    messages of distributed/worker.cpp, the arguments both processes are started
    with, and the proof runner's scenarios.  A call is a frame that reaches the
    coordinator's session whole, the session's reply, and the client's reading of
    it; the processes and their sockets are modelled in Processes.v. *)

From stdpp Require Import prelude gmap strings pretty.
From S2P Require Import Prelude Effects Money Identity Units Price Policy Budget Cost.
From S2P Require Import Plan Decision Codec Governor Evaluate Snapshot Ledger System Recovery Wire.
From S2P Require Import Coordinator.
From stdpp Require Import options.

#[local] Existing Instance wire_format.

(** ** Remote calls *)

(** A frame through a connection that breaks nothing. *)
Definition transmit (type : Msg) (payload : list Z) : res (option (Msg * list Z)) :=
  let! (_, w) := send [sent (Z.of_nat kHeader); sent (Z.of_nat (length payload))] type payload in (recv [w]).1.

Section client.
Context `{IterOrder} (now : Readings) (io : IoFaults).

(** [send] and [recv] of the client around one message of the session: the
    payload of the reply, empty when there was none. *)
Definition exchange (type : Msg) (w : list (res (list Z))) : St Coord (list Z) :=
  let* payload := st_lift (writes w) in
  let* request := st_lift (transmit type payload) in
  match request with
  | None => st_ret []
  | Some (t, p) => λ c,
      let '(out, c') := serve now io t p c in
      match out with
      | [] => (Ret [], c')
      | (t', p') :: _ =>
          (let! answer := transmit t' p' in
           Ret (match answer with None => [] | Some (_, py) => py end), c')
      end
  end.

(** A status is read as its byte. *)
Definition call_status (type : Msg) (w : list (res (list Z))) : St Coord Z :=
  let* py := exchange type w in parse r_u8 py.

Definition client_hello (worker : WorkerId) (boot : WorkerBootId) : St Coord unit :=
  exchange Msg.HELLO [write_id worker; write_id boot] ;;; st_ret tt.

Definition client_publish (o : PriceObservation) : St Coord Z :=
  call_status Msg.PUBLISH_PRICE [encode_price o].

(** [w.u32(plans.size())] and the plans. *)
Definition encode_plans (plans : list ExecutionPlan) : res (list Z) := w_list encode_plan plans.

Definition client_eval (wl : WorkloadId) (wg : WorkloadGeneration) (plans : list ExecutionPlan)
    : St Coord DecisionResult :=
  let* py := exchange Msg.REQUEST_EVAL [write_id wl; write_id wg; encode_plans plans] in
  parse decode_decision py.

Definition client_record (e : CostEvidence) : St Coord Z :=
  call_status Msg.RECORD_ATTEMPT [encode_evidence e].

Definition read_realized : R (Z * Z) :=
  let* s := r_u8 in
  let* cost := r_i64 in
  st_ret (s, cost).

Definition client_realize (req : RequestId) (wl : WorkloadId) : St Coord (Z * Z) :=
  let* py := exchange Msg.REALIZE [write_id req; write_id wl] in
  parse read_realized py.

Definition client_revalidate (plans : list ExecutionPlan) : St Coord Z :=
  call_status Msg.REVALIDATE [encode_plans plans].

Record RemoteState := mkRemoteState {
  rs_epoch : Z; rs_price_gen : Z; rs_policy_gen : Z; rs_budgets : Z; rs_obs : Z;
}.

Definition read_state : R RemoteState :=
  let* epoch := r_u64 in
  let* price_gen := r_u64 in
  let* policy_gen := r_u64 in
  let* budgets := r_u64 in
  let* obs := r_u64 in
  st_ret (mkRemoteState epoch price_gen policy_gen budgets obs).

Definition client_state : St Coord RemoteState :=
  let* py := exchange Msg.GET_STATE [] in parse read_state py.

(** ** worker.cpp *)

Definition worker_price (kind : PriceKind) (dev : DeviceId) (per_unit : MoneyMicros)
    (boot : WorkerBootId) (worker : WorkerId) (t : Z) : PriceObservation := {|
  o_id := mkId (wrap_u64 (1000 + PriceKind.PriceKind_to_u8 kind * 100 + value dev));
  o_kind := kind; o_resource_scope := no_id; o_device := dev; o_amount := per_unit;
  o_currency := kDefaultCurrency; o_provenance := Provenance.CONFIGURED_POLICY;
  o_label := DataLabel.POLICY; o_valid_from_ms := 0; o_valid_to_ms := 0; o_observed_at_ms := t;
  o_generation := no_id; o_epoch := mkId 1; o_worker := worker; o_boot := boot |}.

Record WorkerConfig := mkWorkerConfig {
  wc_port : Z; wc_kind : string; wc_stay : bool; wc_boot_override : Z;
}.

Definition is_A (cfg : WorkerConfig) : bool := bool_decide (wc_kind cfg = "A").
Definition worker_boot_id (cfg : WorkerConfig) : WorkerBootId :=
  if decide (wc_boot_override cfg ≠ 0) then mkId (wc_boot_override cfg)
  else if is_A cfg then mkId 10 else mkId 20.
Definition worker_id (cfg : WorkerConfig) : WorkerId := mkId (if is_A cfg then 1 else 2).
Definition worker_device (cfg : WorkerConfig) : DeviceId := mkId (if is_A cfg then 1 else 2).

(** What a worker does once it is connected, call by call. *)
Definition worker_calls (cfg : WorkerConfig) : list (St Coord unit) :=
  let boot := worker_boot_id cfg in
  let worker := worker_id cfg in
  let device := worker_device cfg in
  let publish kind per_unit :=
    client_publish (worker_price kind device per_unit boot worker kNow) ;;; st_ret tt in
  client_hello worker boot ::
  (if is_A cfg
   then [publish PriceKind.ACCELERATOR_TIME 5000; publish PriceKind.TRANSFER 1000]
   else [publish PriceKind.ACCELERATOR_TIME 1000; publish PriceKind.TRANSFER 10000]).

(** One round of the [--stay] loop, and whether it goes on. *)
Definition worker_ping : St Coord bool :=
  let* payload := st_lift (writes []) in
  let* request := st_lift (transmit Msg.PING payload) in
  match request with
  | None => st_ret false
  | Some (t, p) => λ c,
      let '(out, c') := serve now io t p c in (Ret (bool_decide (out ≠ [])), c')
  end.

Fixpoint run_calls (calls : list (St Coord unit)) : St Coord unit :=
  match calls with
  | [] => st_ret tt
  | m :: calls' => m ;;; run_calls calls'
  end.

(** A process of its own: an exception ends it and nobody else. *)
Definition apart (calls : list (St Coord unit)) : St Coord unit := λ c, (Ret tt, (run_calls calls c).2).
End client.

(** ** Starting a process *)

(** [std::atoi] and [std::strtoull] on a string that starts with decimal digits,
    which is all the runner passes. *)
Definition digit_of (a : Ascii.ascii) : option Z :=
  let d := byte_of_ascii a - 48 in
  if decide (0 ≤ d ≤ 9) then Some d else None.

Fixpoint leading_number (acc : Z) (s : string) : Z :=
  match s with
  | EmptyString => acc
  | String a s' => match digit_of a with Some d => leading_number (acc * 10 + d) s' | None => acc end
  end.

(** The option loop over [argv[3..]]. *)
Fixpoint worker_options (args : list string) (cfg : WorkerConfig) : WorkerConfig :=
  match args with
  | [] => cfg
  | a :: args' =>
      if decide (a = "--stay")
      then worker_options args' (mkWorkerConfig (wc_port cfg) (wc_kind cfg) true (wc_boot_override cfg))
      else
        match args' with
        | v :: args'' =>
            if decide (a = "--boot")
            then worker_options args''
                   (mkWorkerConfig (wc_port cfg) (wc_kind cfg) (wc_stay cfg) (leading_number 0 v))
            else worker_options args' cfg
        | [] => cfg
        end
  end.

Definition worker_config (argv : list string) : WorkerConfig :=
  let port := match argv !! 1%nat with Some a => leading_number 0 a | None => 0 end in
  let kind := default "A" (argv !! 2%nat) in
  worker_options (drop 3 argv) (mkWorkerConfig port kind false 0).

(** [spawn] under POSIX: the arguments are one element of [argv]. *)
Definition posix_argv (exe args : string) : list string := [exe; args].

(** [spawn] under Windows: the C runtime splits the command line at the spaces that
    are not between quotes (no quote in it follows a backslash). *)
Fixpoint split_words (quoted : bool) (cur : string) (s : string) : list string :=
  match s with
  | EmptyString => if decide (cur = EmptyString) then [] else [cur]
  | String a s' =>
      if decide (byte_of_ascii a = 34) then split_words (negb quoted) cur s'
      else if negb quoted && bool_decide (byte_of_ascii a = 32) then
        (if decide (cur = EmptyString) then [] else [cur]) ++ split_words false EmptyString s'
      else split_words quoted (String.append cur (String a EmptyString)) s'
  end.
Definition windows_argv (exe args : string) : list string := exe :: split_words false EmptyString args.

(** What the platform decides: the [argv] of a spawned process, and the suffix of
    the programs' names. *)
Record Platform := mkPlatform { pf_argv : string → string → list string; pf_suffix : string }.
Definition windows : Platform := mkPlatform windows_argv ".exe".
Definition posix : Platform := mkPlatform posix_argv EmptyString.

(** ** proof_runner.cpp *)

Definition mk_price (id : EvidenceId) (kind : PriceKind) (dev : DeviceId) (amt : MoneyMicros)
    (worker : WorkerId) (boot : WorkerBootId) (t : Z) : PriceObservation := {|
  o_id := id; o_kind := kind; o_resource_scope := no_id; o_device := dev; o_amount := amt;
  o_currency := kDefaultCurrency; o_provenance := Provenance.CONFIGURED_POLICY;
  o_label := DataLabel.POLICY; o_valid_from_ms := 0; o_valid_to_ms := 0; o_observed_at_ms := t;
  o_generation := no_id; o_epoch := mkId 1; o_worker := worker; o_boot := boot |}.

Definition mk_attempt (id : EvidenceId) (req : RequestId) (att : AttemptId) (dev : DeviceId)
    (worker : WorkerId) (boot : WorkerBootId) (ns t : Z) : CostEvidence := {|
  e_id := id; e_request := req; e_workload := no_id; e_attempt := att; e_attempt_gen := mkId 1;
  e_worker := worker; e_boot := boot; e_epoch := mkId 1; e_generation := mkId 1;
  e_observed_at_ms := t; e_label := DataLabel.POLICY; e_completed_successfully := true;
  e_is_completion := true; e_device := dev; e_resource := no_id;
  e_accelerator_time := mkAmount ns; e_energy := mkAmount 0; e_transfer := mkAmount 0;
  e_memory_hold := mkAmount 0; e_residency_hold := mkAmount 0; e_storage_bytes := mkAmount 0;
  e_requests := 1; e_tokens := 0; e_operations := 0; e_recovery_actions := 0; e_recompute_ns := 0 |}.

(** The runner's plans differ in identity, placement, accelerator time and transfer. *)
Definition runner_plan (id wl dev worker accel transfer : Z) : ExecutionPlan := {|
  p_id := mkId id; p_generation := mkId 1; p_workload := mkId wl; p_workload_generation := mkId 1;
  p_resource := no_id; p_resource_generation := no_id; p_device := mkId dev;
  p_device_generation := no_id; p_placement := no_id; p_placement_generation := no_id;
  p_recovery_generation := no_id; p_worker := mkId worker;
  p_expected_accelerator_time := mkAmount accel; p_expected_energy := mkAmount 0;
  p_expected_transfer := mkAmount transfer; p_expected_memory_hold := mkAmount 0;
  p_expected_residency_hold := mkAmount 0; p_expected_storage := mkAmount 0;
  p_expected_retries := 0; p_expected_requests := 1; p_expected_tokens := 0;
  p_expected_operations := 0; p_recovery := RecoveryKind.NONE; p_recovery_recompute_ns := 0;
  p_meets_hard_slo := true; p_completion_probability_percent := 100; p_label := DataLabel.POLICY |}.

Definition p1 : ExecutionPlan := runner_plan 1 1 1 1 2000000000 0.
Definition p2 : ExecutionPlan := runner_plan 2 1 2 2 1000000000 5000000000.
Definition pBig : ExecutionPlan := runner_plan 3 1 2 2 0 2000000000000.
Definition pw : ExecutionPlan := runner_plan 7 2 1 3 1000000000 0.

(** [ok(name, cond)] *)
Abbreviation Outcome := (string * bool)%type.

Section runner.
Context `{IterOrder} (now : Readings) (io : IoFaults) (pf : Platform) (dir : string) (port : Z).

(** The calls of a worker that is spawned with the port and [options]; it makes none
    when it finds no port among its arguments. *)
Definition spawn_worker (options : string) : list (St Coord unit) :=
  let wk := String.append dir (String.append "/worker" (pf_suffix pf)) in
  let cfg := worker_config (pf_argv pf wk (String.append (pretty port) options)) in
  if decide (wc_port cfg = 0) then [] else worker_calls now io cfg.

Definition status_is (st : Z) (s : Status) : bool := bool_decide (st = Status.Status_to_u8 s).

Definition price_is (name : string) (o : PriceObservation) (s : Status) : St Coord (list Outcome) :=
  let* st := client_publish now io o in st_ret [(name, status_is st s)].
Definition record_is (name : string) (e : CostEvidence) (s : Status) : St Coord (list Outcome) :=
  let* st := client_record now io e in st_ret [(name, status_is st s)].

Fixpoint scenario (parts : list (St Coord (list Outcome))) : St Coord (list Outcome) :=
  match parts with
  | [] => st_ret []
  | m :: parts' => let* a := m in let* b := scenario parts' in st_ret (a ++ b)
  end.

Definition selects (d : DecisionResult) (plan : Z) : bool :=
  bool_decide (dr_kind d = 0) && bool_decide (dr_selected d = plan).

(** The polling loops: [n] attempts at most. *)
Fixpoint wait_for_obs (n : nat) (want : Z) (obs : Z) : St Coord Z :=
  match n with
  | O => st_ret obs
  | S n' =>
      let* s := client_state now io in
      if decide (want ≤ rs_obs s) then st_ret (rs_obs s) else wait_for_obs n' want (rs_obs s)
  end.

Fixpoint publish_until_ok (n : nat) (o : PriceObservation) : St Coord bool :=
  match n with
  | O => st_ret false
  | S n' =>
      let* st := client_publish now io o in
      if status_is st Status.OK then st_ret true else publish_until_ok n' o
  end.

Definition AT := PriceKind.ACCELERATOR_TIME.
Definition kA : WorkerId := mkId 1.
Definition kB : WorkerId := mkId 2.
Definition A1 : WorkerBootId := mkId 10.
Definition A2 : WorkerBootId := mkId 11.
Definition B1 : WorkerBootId := mkId 20.
Definition B2 : WorkerBootId := mkId 21.
Definition devA : DeviceId := mkId 1.
Definition devB : DeviceId := mkId 2.

Definition scenario_A : St Coord (list Outcome) := scenario
  [ (let* o := wait_for_obs 400 4 0 in st_ret [("scenario A: A (boot A1) and B (boot B1) both published 4 observations", bool_decide (4 ≤ o))]);
    (let* ra := client_eval now io (mkId 1) (mkId 1) [p1; p2] in
     st_ret [("scenario A: deterministic cheapest plan (A1+B1 evidence)", selects ra 1)]) ].

Definition scenario_A2 : St Coord (list Outcome) := scenario
  [ price_is "scenario A2: A1 price accepted" (mk_price (mkId 7001) AT devA 5000 kA A1 kNow) Status.OK;
    price_is "scenario A2: B1 price accepted" (mk_price (mkId 7002) AT devB 1000 kB B1 kNow) Status.OK;
    record_is "scenario A2: A1 evidence accepted"
      (mk_attempt (mkId 7101) (mkId 900) (mkId 1) devA kA A1 1000000000 kNow) Status.OK;
    record_is "scenario A2: B1 evidence accepted"
      (mk_attempt (mkId 7102) (mkId 901) (mkId 1) devB kB B1 1000000000 kNow) Status.OK ].

Definition scenario_F : St Coord (list Outcome) := scenario
  [ price_is "scenario F: price generation advanced" (mk_price (mkId 900) AT devA 9000 kA A1 kNow) Status.OK;
    (let* st := client_revalidate now io [p1; p2] in
     st_ret [("scenario F: stale plan rejected before dispatch", status_is st Status.STALE_AUTHORITY)]) ].

Definition mkE (id : EvidenceId) (att : AttemptId) (ns : Z) (success : bool) : CostEvidence :=
  let e := mk_attempt id (mkId 1) att devA kA A1 ns kNow in
  mkCostEvidence (e_id e) (e_request e) (e_workload e) (e_attempt e) (e_attempt_gen e) (e_worker e)
    (e_boot e) (e_epoch e) (e_generation e) (e_observed_at_ms e) (e_label e) success
    (e_is_completion e) (e_device e) (e_resource e) (e_accelerator_time e) (e_energy e)
    (e_transfer e) (e_memory_hold e) (e_residency_hold e) (e_storage_bytes e) (e_requests e)
    (e_tokens e) (e_operations e) (e_recovery_actions e) (e_recompute_ns e).

Definition scenario_E : St Coord (list Outcome) := scenario
  [ (let* e1 := client_record now io (mkE (mkId 50) (mkId 1) 2000000000 false) in
     let* e2 := client_record now io (mkE (mkId 51) (mkId 2) 3000000000 true) in
     st_ret [("scenario E: attempts recorded", status_is e1 Status.OK && status_is e2 Status.OK)]);
    (let* (rs, rcost) := client_realize now io (mkId 1) (mkId 1) in
     st_ret [("scenario E: realized cost includes failed attempts",
              status_is rs Status.OK && bool_decide (rcost > 0))]);
    record_is "scenario E: duplicate completion rejected, no double-charge" (mkE (mkId 51) (mkId 2) 3000000000 true)
      Status.INVALID_INPUT ].

Definition scenario_B : St Coord (list Outcome) :=
  let* rb := client_eval now io (mkId 1) (mkId 1) [pBig] in
  st_ret [("scenario B: hard budget rejection", bool_decide (dr_kind rb = 4))].

(** Worker B comes back under boot 21. *)
Definition scenario_C : St Coord (list Outcome) :=
  apart (spawn_worker " B --stay --boot 21") ;;;
  scenario
  [ (let* reg := publish_until_ok 200 (mk_price (mkId 7002) AT devB 1000 kB B2 kNow) in
     st_ret [("scenario C: B2 (worker B boot B2) reconnected", reg)]);
    price_is "scenario C: B1 stale price rejected" (mk_price (mkId 7003) AT devB 1000 kB B1 kNow)
      Status.STALE_AUTHORITY;
    record_is "scenario C: B1 stale attempt rejected"
      (mk_attempt (mkId 7103) (mkId 910) (mkId 1) devB kB B1 1000000000 kNow) Status.STALE_AUTHORITY;
    record_is "scenario C: B1 stale completion rejected"
      (mk_attempt (mkId 7104) (mkId 911) (mkId 1) devB kB B1 1000000000 kNow) Status.STALE_AUTHORITY;
    price_is "scenario C: A1 remains current (price accepted)"
      (mk_price (mkId 7004) PriceKind.TRANSFER devA 1000 kA A1 kNow) Status.OK;
    record_is "scenario C: A1 evidence accepted"
      (mk_attempt (mkId 7105) (mkId 912) (mkId 1) devA kA A1 1000000000 kNow) Status.OK;
    (let* ra2 := client_eval now io (mkId 1) (mkId 1) [p1; p2] in
     st_ret [("scenario C: A1 still participates (deterministic selection)", selects ra2 1)]) ].

(** Worker A comes back under boot 11. *)
Definition scenario_C2 : St Coord (list Outcome) :=
  apart (spawn_worker " A --stay --boot 11") ;;;
  scenario
  [ (let* reg := publish_until_ok 200 (mk_price (mkId 7001) AT devA 5000 kA A2 kNow) in
     st_ret [("scenario C2: A2 (worker A boot A2) reconnected", reg)]);
    price_is "scenario C2: A1 stale price rejected" (mk_price (mkId 7005) AT devA 5000 kA A1 kNow)
      Status.STALE_AUTHORITY;
    record_is "scenario C2: A1 stale attempt rejected"
      (mk_attempt (mkId 7106) (mkId 913) (mkId 1) devA kA A1 1000000000 kNow) Status.STALE_AUTHORITY;
    record_is "scenario C2: A1 stale completion rejected"
      (mk_attempt (mkId 7107) (mkId 914) (mkId 1) devA kA A1 1000000000 kNow) Status.STALE_AUTHORITY;
    price_is "scenario C2: B2 remains current (price accepted)"
      (mk_price (mkId 7006) PriceKind.TRANSFER devB 10000 kB B2 kNow) Status.OK;
    record_is "scenario C2: B2 evidence accepted (no cross-invalidation)"
      (mk_attempt (mkId 7108) (mkId 915) (mkId 1) devB kB B2 1000000000 kNow) Status.OK ].

Definition scenario_D_boot : St Coord (list Outcome) :=
  client_hello now io (mkId 3) (mkId 50) ;;;
  let* rd := client_eval now io (mkId 2) (mkId 1) [pw] in
  client_hello now io (mkId 3) (mkId 51) ;;;
  let* st := client_revalidate now io [pw] in
  st_ret [("scenario D: worker-3 dispatch authorized", selects rd 7);
          ("scenario D: stale (worker,boot) dispatch rejected", status_is st Status.STALE_AUTHORITY)].

(** The coordinator is killed and started again on its state file: whether the new
    process lives, since a state file it cannot read ends it. *)
Definition restart (path : string) : St Coord bool := λ c,
  match start path (co_files c) with Ret c' => (Ret true, c') | Throw _ => (Ret false, c) end.

(** [reachable]: one of the 200 connection attempts succeeds when the process lives.
    Without a connection the client's reader finds no byte. *)
Definition scenario_D_restart (path : string) (reachable : bool) : St Coord (list Outcome) :=
  let* before := client_state now io in
  let* up := restart path in
  let valid := up && reachable in
  let* after := (if valid then client_state now io else parse read_state []) in
  let* oldst := client_publish now io (mk_price (mkId 777) AT devA 1000 kA A1 kNow) in
  st_ret [("scenario D: coordinator restarted", valid);
          ("scenario D: fresh epoch after restart", bool_decide (rs_epoch after > rs_epoch before));
          ("scenario D: old-epoch price rejected", status_is oldst Status.STALE_AUTHORITY)].

(** The scenarios of [main], once both workers have started. *)
Definition runner (path : string) (reachable : bool) : St Coord (list Outcome) := scenario
  [ scenario_A; scenario_A2; scenario_F; scenario_E; scenario_B; scenario_C; scenario_C2;
    scenario_D_boot; scenario_D_restart path reachable ].
End runner.
