(* ===== verification/ClientFacts.v ===== *)
(** * ClientFacts: remote calls and the proof runner

    Theorems about Client.v: a remote call has the effect and the result of the
    governor's operation, and what POSIX makes of the runner's workers. *)

From stdpp Require Import prelude gmap strings.
From S2P Require Import Prelude Effects Money Identity Units Price Policy Budget Cost.
From S2P Require Import Plan Decision Samples Codec Governor Evaluate Ledger System Accounts.
From S2P Require Import Snapshot Recovery Wire WireFacts Coordinator CoordinatorFacts Client.
From stdpp Require Import options.

#[local] Existing Instance wire_format.

(** ** Writers write bytes *)

Definition writes_bytes (m : res (list Z)) : Prop := ∀ x, m = Ret x → Forall byte_ok x.

Lemma writes_bytes_le n v : writes_bytes (Ret (le_bytes n v)).
Proof. intros x Hx. injection Hx as <-. apply le_bytes_ok. Qed.
Lemma writes_bytes_u8 v : byte_ok v → writes_bytes (w_u8 v).
Proof. intros Hv x [= <-]. by apply Forall_singleton. Qed.
Lemma writes_bytes_enum `{Enum8 E} (e : E) : enum_ok e → writes_bytes (w_enum e).
Proof. intros [He _]. by apply writes_bytes_u8. Qed.
Lemma writes_bytes_bool b : writes_bytes (w_bool b).
Proof. by apply writes_bytes_u8; destruct b. Qed.
Lemma writes_bytes_str s : writes_bytes (put_str s).
Proof.
  intros x Hx. injection Hx as <-. apply (Forall_app_2 _ (le_bytes 4 _));
    [apply le_bytes_ok|apply string_bytes_ok].
Qed.
Lemma writes_bytes_all l : Forall writes_bytes l → writes_bytes (writes l).
Proof.
  induction 1 as [|m l Hm Hl IH]; intros x Hx; [by injection Hx as <-|].
  apply writes_cons in Hx as (y & z & Hy & Hz & ->). apply Forall_app. split; [by apply Hm|by apply IH].
Qed.
Lemma writes_bytes_list {A} (put : A → res (list Z)) (P : A → Prop) l :
  (∀ a, P a → writes_bytes (put a)) → Forall P l → writes_bytes (w_list put l).
Proof.
  intros Hput Hl. apply writes_bytes_all. constructor; [apply writes_bytes_le|].
  apply Forall_fmap. by eapply Forall_impl; [exact Hl|].
Qed.

Ltac solve_bytes :=
  apply writes_bytes_all;
  repeat (constructor; [first [apply writes_bytes_le | apply writes_bytes_str
    | apply writes_bytes_bool | by apply writes_bytes_enum | by apply writes_bytes_u8]|]);
  constructor.

Lemma price_bytes o : price_ok o → writes_bytes (encode_price o).
Proof. unfold price_ok. intros Ho. destruct_and! Ho. solve_bytes. Qed.
Lemma evidence_bytes e : usage_ok e → writes_bytes (encode_evidence e).
Proof. unfold usage_ok. intros He. destruct_and! He. solve_bytes. Qed.
Lemma plan_bytes p : candidate_ok p → writes_bytes (encode_plan p).
Proof. unfold candidate_ok. intros Hp. destruct_and! Hp. solve_bytes. Qed.
Lemma decision_bytes d : writes_bytes (encode_decision d).
Proof.
  assert (byte_ok (DecisionKind.DecisionKind_to_u8 (d_kind d))) by (by destruct (d_kind d)).
  assert (byte_ok (CostState.CostState_to_u8 (d_state d))) by (by destruct (d_state d)).
  assert (byte_ok (Status.Status_to_u8 (d_status d))) by (by destruct (d_status d)).
  solve_bytes.
Qed.

(** ** Sizes *)

Ltac length_of H :=
  repeat (let x := fresh "x" in let Hx := fresh "Hx" in
          apply writes_cons in H as (x & ? & Hx & H & ->);
          first [ injection Hx as <- | idtac ]);
  injection H as <-; rewrite ?length_app, ?length_le_bytes; cbn [length]; try lia.

Lemma length_evidence e w : encode_evidence e = Ret w → length w = 187%nat.
Proof. unfold encode_evidence. intros H. length_of H. Qed.
Lemma length_plan p w : encode_plan p = Ret w → length w = 162%nat.
Proof. unfold encode_plan. intros H. length_of H. Qed.
Lemma length_price o w :
  encode_price o = Ret w → length w = (95 + length (string_bytes (o_currency o)))%nat.
Proof. unfold encode_price. intros H. length_of H. Qed.
Lemma length_decision d w : encode_decision d = Ret w → length w = 27%nat.
Proof. unfold encode_decision. intros H. length_of H. Qed.

Lemma length_plans plans w :
  encode_plans plans = Ret w → length w = (4 + 162 * length plans)%nat.
Proof.
  unfold encode_plans, w_list. intros H. apply writes_cons in H as (x & y & Hx & Hy & ->).
  injection Hx as <-. rewrite length_app. cut (length y = 162 * length plans)%nat; [cbn; lia|].
  revert y Hy. induction plans as [|p plans IH]; intros y Hy; [by injection Hy as <-|].
  rewrite fmap_cons in Hy. apply writes_cons in Hy as (x & z & Hx & Hz & ->).
  apply length_plan in Hx. apply IH in Hz. rewrite length_app. cbn [length]. lia.
Qed.

(** ** A call, step by step *)

Lemma send_all_full rs d : d ≠ [] → send_all (sent (Z.of_nat (length d)) :: rs) d = (true, d, rs).
Proof.
  intros Hd. destruct d as [|b d]; [done|]. cbn [send_all]. rewrite decide_False by (cbn; lia).
  rewrite Nat2Z.id, drop_all, firstn_all. destruct rs; cbn; by rewrite app_nil_r.
Qed.

Lemma transmit_ok type payload :
  message_ok (type, payload) → transmit type payload = Ret (Some (type, payload)).
Proof.
  intros Hm. unfold transmit, send. pose proof Hm as (_ & _ & Hlen). cbn in Hlen.
  rewrite decide_False by lia. rewrite header_eq. cbn [res_bind].
  rewrite <-(length_frame_bytes type payload), send_all_full by done. cbn [negb].
  set (w := frame_bytes type payload ++ payload).
  destruct (recv_frame type payload [] [w] Hm) as (cs & Hr & _);
    [by repeat constructor|cbn; by rewrite !app_nil_r|].
  destruct payload as [|b p].
  - unfold w in Hr. rewrite app_nil_r in Hr. cbn [res_bind]. by rewrite Hr.
  - rewrite send_all_full by done. cbn [res_bind]. fold w. by rewrite Hr.
Qed.

Lemma parse_reads {A} (m : R A) w a c : reads m w a → parse m w c = (Ret a, c).
Proof. intros H. unfold parse, st_lift. by rewrite <-(app_nil_r w), H. Qed.

Lemma exchange_ok `{IterOrder} now io type fields payload t' p' c c' :
  writes fields = Ret payload → message_ok (type, payload) →
  serve now io type payload c = ([(t', p')], c') → message_ok (t', p') →
  exchange now io type fields c = (Ret p', c').
Proof.
  intros Hw Hm Hs Hm'. unfold exchange, st_bind, st_lift. rewrite Hw, (transmit_ok _ _ Hm), Hs.
  by rewrite (transmit_ok _ _ Hm').
Qed.

Lemma status_reply_ok st : message_ok (Msg.PONG, status_payload st).
Proof. destruct st; by_compute. Qed.

Lemma status_byte st : byte_ok (Status.Status_to_u8 st).
Proof. by destruct st. Qed.

Lemma call_status_ok `{IterOrder} now io type fields payload st c c' :
  writes fields = Ret payload → message_ok (type, payload) →
  serve now io type payload c = ([(Msg.PONG, status_payload st)], c') →
  call_status now io type fields c = (Ret (Status.Status_to_u8 st), c').
Proof.
  intros Hw Hm Hs. unfold call_status, st_bind.
  rewrite (exchange_ok now io type fields payload Msg.PONG (status_payload st) c c');
    [|done..|apply status_reply_ok].
  pose proof (reads_u8 _ (status_byte st) (le_bytes 8 0)) as Hr. unfold parse, st_lift.
  change (status_payload st) with ([Status.Status_to_u8 st] ++ le_bytes 8 0). by rewrite Hr.
Qed.

(** ** The handlers on well-formed requests *)

Lemma reply_status_eq type st c : reply_status type st c = (Ret [(type, status_payload st)], c).
Proof. done. Qed.

(** What [persist_now] does to the coordinator after an operation reported [st]. *)
Definition persisted `{IterOrder} (io : IoFaults) (st : Status) (c : Coord) : Coord :=
  if decide (st = Status.OK) then (persist_now io c).2 else c.

Lemma persist_then_reply `{IterOrder} io st c :
  (st = Status.OK → is_Ret (persist io (co_gov c) (co_files c)).1) →
  st_bind (if decide (st = Status.OK) then persist_now io else st_ret tt)
    (λ _, reply_status Msg.PONG st) c = (Ret [(Msg.PONG, status_payload st)], persisted io st c).
Proof.
  intros Hper. unfold st_bind, persisted. case_decide as Hst; [|done].
  destruct (Hper Hst) as [y Hy]. unfold persist_now.
  destruct (persist io (co_gov c) (co_files c)) as [x fs]. cbn in Hy. by subst x.
Qed.

Lemma serve_publish `{IterOrder} now io o w st g' c :
  encode_price o = Ret w → price_ok o → publish_price o (co_gov c) = (Ret st, g') →
  (st = Status.OK → is_Ret (persist io g' (co_files c)).1) →
  serve now io Msg.PUBLISH_PRICE w c =
    ([(Msg.PONG, status_payload st)], persisted io st (set_co_gov g' c)).
Proof.
  intros Hw Ho Hp Hper. unfold serve. cbn [handle]. unfold handle_publish, st_bind at 1.
  rewrite (parse_reads _ _ _ _ (reads_price o w Hw Ho)). unfold st_bind at 1, gov. rewrite Hp.
  by rewrite persist_then_reply.
Qed.

Lemma serve_record `{IterOrder} now io e w st g' c :
  encode_evidence e = Ret w → usage_ok e → record_attempt e (co_gov c) = (Ret st, g') →
  (st = Status.OK → is_Ret (persist io g' (co_files c)).1) →
  serve now io Msg.RECORD_ATTEMPT w c =
    ([(Msg.PONG, status_payload st)], persisted io st (set_co_gov g' c)).
Proof.
  intros Hw He Hp Hper. unfold serve. cbn [handle]. unfold handle_record, st_bind at 1.
  rewrite (parse_reads _ _ _ _ (reads_evidence e w Hw He)). unfold st_bind at 1, gov. rewrite Hp.
  by rewrite persist_then_reply.
Qed.

Lemma reads_plans plans w :
  encode_plans plans = Ret w → Forall candidate_ok plans → count_ok plans →
  reads (r_list decode_plan) w (wire_plan <$> plans).
Proof.
  intros Hw Hp Hn. eapply (reads_list_map _ encode_plan wire_plan candidate_ok); [|done..].
  intros a x Ha Hx. by apply reads_plan.
Qed.

Lemma decision_reply_ok d w : encode_decision d = Ret w → message_ok (Msg.EVAL_RESULT, w).
Proof.
  intros Hw. split; [by_compute|]. split; [by apply (decision_bytes d)|].
  cbn. by rewrite (length_decision d w Hw).
Qed.

Lemma serve_eval `{IterOrder} now io (wl : WorkloadId) (wg : WorkloadGeneration) plans payload d wd c :
  writes [write_id wl; write_id wg; encode_plans plans] = Ret payload →
  id_ok wl → id_ok wg → Forall candidate_ok plans → count_ok plans →
  evaluate now (co_gov c) wg (wire_plan <$> plans) = Ret d → encode_decision d = Ret wd →
  serve now io Msg.REQUEST_EVAL payload c = ([(Msg.EVAL_RESULT, wd)], set_co_last d c).
Proof.
  intros Hw Hwl Hwg Hp Hn He Hd.
  assert (reads read_eval payload (wl, wg, wire_plan <$> plans)) as Hr.
  { repeat (let x := fresh "x" in let Hx := fresh "Hx" in
            apply writes_cons in Hw as (x & ? & Hx & Hw & ->)).
    injection Hw as <-. unfold read_eval.
    eapply reads_bind; [by eapply reads_write_id|]. eapply reads_bind; [by eapply reads_write_id|].
    eapply reads_bind; [by eapply reads_plans|]. apply reads_ret. }
  unfold serve. cbn [handle]. unfold handle_eval, st_bind at 1.
  rewrite (parse_reads _ _ _ _ Hr). unfold st_bind, st_get, st_lift. rewrite He.
  unfold st_modify, reply, st_bind, st_lift, st_ret. cbn [writes]. rewrite Hd. cbn [res_bind].
  by rewrite app_nil_r.
Qed.

Lemma serve_revalidate `{IterOrder} now io plans payload st c :
  encode_plans plans = Ret payload → Forall candidate_ok plans → count_ok plans →
  validate_for_dispatch now (co_gov c) (co_last c) (wire_plan <$> plans) = Ret st →
  serve now io Msg.REVALIDATE payload c = ([(Msg.PONG, status_payload st)], c).
Proof.
  intros Hw Hp Hn Hv. apply (revalidate_reply now io payload (wire_plan <$> plans)); [|done].
  by rewrite <-(app_nil_r payload), (reads_plans plans payload Hw Hp Hn).
Qed.

Lemma serve_realize `{IterOrder} now io (req : RequestId) (wl : WorkloadId) payload st g' cost c :
  writes [write_id req; write_id wl] = Ret payload → id_ok req → id_ok wl →
  finalize_request now req wl (co_gov c) = (Ret st, g') →
  realized_request_cost now g' req = Ret cost →
  serve now io Msg.REALIZE payload c =
    ([(Msg.PONG, [Status.Status_to_u8 st] ++ le_bytes 8 (wrap_u64 cost))], set_co_gov g' c).
Proof.
  intros Hw Hreq Hwl Hf Hc.
  assert (reads read_realize payload (req, wl)) as Hr.
  { repeat (let x := fresh "x" in let Hx := fresh "Hx" in
            apply writes_cons in Hw as (x & ? & Hx & Hw & ->)).
    injection Hw as <-. unfold read_realize.
    eapply reads_bind; [by eapply reads_write_id|]. eapply reads_bind; [by eapply reads_write_id|].
    apply reads_ret. }
  unfold serve. cbn [handle]. unfold handle_realize, st_bind at 1.
  rewrite (parse_reads _ _ _ _ Hr). unfold st_bind at 1, gov. rewrite Hf.
  unfold st_bind, st_get, st_lift. cbn [co_gov set_co_gov]. by rewrite Hc.
Qed.

Lemma realized_reply st cost :
  in_i64 cost →
  message_ok (Msg.PONG, [Status.Status_to_u8 st] ++ le_bytes 8 (wrap_u64 cost)) ∧
  reads read_realized ([Status.Status_to_u8 st] ++ le_bytes 8 (wrap_u64 cost))
    (Status.Status_to_u8 st, cost).
Proof.
  intros Hc. pose proof (status_byte st) as Hb. split.
  - split; [by_compute|]. split; [|cbn -[le_bytes]; by rewrite ?length_le_bytes].
    apply Forall_app. split; [by apply Forall_singleton|apply le_bytes_ok].
  - unfold read_realized. eapply reads_bind; [by apply reads_u8|].
    rewrite <-(app_nil_r (le_bytes 8 _)). eapply reads_bind; [by apply reads_i64|]. apply reads_ret.
Qed.

(** A request of identities and plans fits in a frame. *)
Lemma plans_request_ok type fields payload plans (ids : list (res (list Z))) :
  enum_ok type → Forall candidate_ok plans → count_ok plans →
  Forall (λ m, ∃ v, m = Ret (le_bytes 8 v)) ids → (length ids ≤ 2)%nat →
  fields = ids ++ [encode_plans plans] → writes fields = Ret payload → message_ok (type, payload).
Proof.
  intros Ht Hp Hn Hids Hle -> Hw. split; [done|]. split.
  - refine (writes_bytes_all _ _ _ Hw). apply Forall_app. split.
    + eapply Forall_impl; [exact Hids|]. intros m [v ->]. apply writes_bytes_le.
    + apply Forall_singleton. eapply writes_bytes_list; [|exact Hp]. apply plan_bytes.
  - cbn [snd]. assert (length payload = 8 * length ids + (4 + 162 * length plans))%nat as ->.
    { clear Hle. revert payload Hw. induction Hids as [|m ids [v ->] _ IH]; intros payload Hw.
      - apply writes_cons in Hw as (x & y & Hx & Hy & ->). injection Hy as <-.
        rewrite app_nil_r. by apply length_plans.
      - cbn [app] in Hw. apply writes_cons in Hw as (x & y & Hx & Hy & ->).
        apply IH in Hy. injection Hx as <-. rewrite length_app, Hy. cbn [length]. lia. }
    unfold count_ok in Hn. cbn in Hn. unfold kMaxPayload. lia.
Qed.

(** ** The calls *)

Lemma client_publish_ok `{IterOrder} now io o st g' c :
  price_ok o → Z.of_nat (length (string_bytes (o_currency o))) + 95 ≤ kMaxPayload →
  publish_price o (co_gov c) = (Ret st, g') →
  (st = Status.OK → is_Ret (persist io g' (co_files c)).1) →
  client_publish now io o c = (Ret (Status.Status_to_u8 st), persisted io st (set_co_gov g' c)).
Proof.
  intros Ho Hlen Hp Hper. destruct wire_writes_ret as (Wo & _). destruct (Wo o) as [w Hw].
  apply (call_status_ok now io Msg.PUBLISH_PRICE _ w).
  - cbn [writes]. rewrite Hw. cbn. by rewrite app_nil_r.
  - split; [by_compute|]. split; [by apply (price_bytes o)|]. cbn.
    rewrite (length_price o w Hw). lia.
  - by apply (serve_publish now io o).
Qed.

Lemma client_record_ok `{IterOrder} now io e st g' c :
  usage_ok e → record_attempt e (co_gov c) = (Ret st, g') →
  (st = Status.OK → is_Ret (persist io g' (co_files c)).1) →
  client_record now io e c = (Ret (Status.Status_to_u8 st), persisted io st (set_co_gov g' c)).
Proof.
  intros He Hp Hper. destruct wire_writes_ret as (_ & We & _). destruct (We e) as [w Hw].
  apply (call_status_ok now io Msg.RECORD_ATTEMPT _ w).
  - cbn [writes]. rewrite Hw. cbn. by rewrite app_nil_r.
  - split; [by_compute|]. split; [by apply (evidence_bytes e)|]. cbn.
    by rewrite (length_evidence e w Hw).
  - by apply (serve_record now io e).
Qed.

Lemma encode_plans_ret plans : is_Ret (encode_plans plans).
Proof.
  destruct wire_writes_ret as (_ & _ & Wp & _). apply w_list_ret.
  apply Forall_forall. intros p _. apply Wp.
Qed.

Lemma client_eval_ok `{IterOrder} now io (wl : WorkloadId) (wg : WorkloadGeneration) plans d c :
  id_ok wl → id_ok wg → Forall candidate_ok plans → count_ok plans →
  evaluate now (co_gov c) wg (wire_plan <$> plans) = Ret d → decision_ok d →
  client_eval now io wl wg plans c = (Ret (decision_summary d), set_co_last d c).
Proof.
  intros Hwl Hwg Hp Hn He Hd. destruct wire_writes_ret as (_ & _ & _ & Wd).
  destruct (Wd d) as [wd Hwd], (encode_plans_ret plans) as [wp Hwp].
  assert (writes [write_id wl; write_id wg; encode_plans plans]
    = Ret (le_bytes 8 (value wl) ++ le_bytes 8 (value wg) ++ wp)) as Hw.
  { cbn [writes]. rewrite Hwp. cbn [res_bind write_id w_u64]. by rewrite app_nil_r. }
  unfold client_eval, st_bind.
  rewrite (exchange_ok now io Msg.REQUEST_EVAL _ _ Msg.EVAL_RESULT wd c (set_co_last d c) Hw).
  - by apply parse_reads, reads_decision.
  - eapply (plans_request_ok _ _ _ plans [write_id wl; write_id wg]); [by_compute|done..| |cbn; lia|done|done].
    repeat constructor; by eexists.
  - by eapply serve_eval.
  - by apply (decision_reply_ok d).
Qed.

Lemma client_revalidate_ok `{IterOrder} now io plans st c :
  Forall candidate_ok plans → count_ok plans →
  validate_for_dispatch now (co_gov c) (co_last c) (wire_plan <$> plans) = Ret st →
  client_revalidate now io plans c = (Ret (Status.Status_to_u8 st), c).
Proof.
  intros Hp Hn Hv. destruct (encode_plans_ret plans) as [wp Hwp].
  assert (writes [encode_plans plans] = Ret wp) as Hw.
  { cbn [writes]. rewrite Hwp. cbn. by rewrite app_nil_r. }
  apply (call_status_ok now io Msg.REVALIDATE _ wp); [done| |by apply (serve_revalidate now io plans)].
  eapply (plans_request_ok _ _ _ plans []); [by_compute|done..|constructor|cbn; lia|done|done].
Qed.

Lemma client_realize_ok `{IterOrder} now io (req : RequestId) (wl : WorkloadId) st g' cost c :
  id_ok req → id_ok wl → finalize_request now req wl (co_gov c) = (Ret st, g') →
  realized_request_cost now g' req = Ret cost → in_i64 cost →
  client_realize now io req wl c = (Ret (Status.Status_to_u8 st, cost), set_co_gov g' c).
Proof.
  intros Hr Hwl Hf Hc Hin. destruct (realized_reply st cost Hin) as [Hm Hread].
  unfold client_realize, st_bind.
  rewrite (exchange_ok now io Msg.REALIZE [write_id req; write_id wl] (le_bytes 8 (value req) ++ le_bytes 8 (value wl) ++ [])
    Msg.PONG ([Status.Status_to_u8 st] ++ le_bytes 8 (wrap_u64 cost)) c (set_co_gov g' c) eq_refl);
    [by apply parse_reads| | |exact Hm].
  - split; [by_compute|]. split; [|cbn [snd]; by rewrite !length_app, !length_le_bytes].
    repeat (apply Forall_app; split); [apply le_bytes_ok..|constructor].
  - by eapply serve_realize.
Qed.

(** ** Theorems *)

(** C7. Remote calls are transparent: a call of the client, through its encoder, the
    frame, the session's handler, the reply frame and the client's decoder, returns
    the result of the governor's own operation and leaves the coordinator with the
    governor that operation leaves: publish and record with the status (and the
    state saved when it is OK), eval with the summary of the decision, which becomes
    the last decision, revalidate with the status of the last decision, and realize
    with the status and the cost.  Plans are those the wire carries. *)
Theorem rpc_transparent (I : IterOrder) now io c :
  (∀ o st g', price_ok o → Z.of_nat (length (string_bytes (o_currency o))) + 95 ≤ kMaxPayload →
     publish_price o (co_gov c) = (Ret st, g') →
     (st = Status.OK → is_Ret (persist io g' (co_files c)).1) →
     client_publish now io o c
       = (Ret (Status.Status_to_u8 st), persisted io st (set_co_gov g' c))) ∧
  (∀ e st g', usage_ok e → record_attempt e (co_gov c) = (Ret st, g') →
     (st = Status.OK → is_Ret (persist io g' (co_files c)).1) →
     client_record now io e c
       = (Ret (Status.Status_to_u8 st), persisted io st (set_co_gov g' c))) ∧
  (∀ (wl : WorkloadId) (wg : WorkloadGeneration) plans d, id_ok wl → id_ok wg →
     Forall candidate_ok plans → count_ok plans →
     evaluate now (co_gov c) wg (wire_plan <$> plans) = Ret d → decision_ok d →
     client_eval now io wl wg plans c = (Ret (decision_summary d), set_co_last d c)) ∧
  (∀ plans st, Forall candidate_ok plans → count_ok plans →
     validate_for_dispatch now (co_gov c) (co_last c) (wire_plan <$> plans) = Ret st →
     client_revalidate now io plans c = (Ret (Status.Status_to_u8 st), c)) ∧
  (∀ (req : RequestId) (wl : WorkloadId) st g' cost, id_ok req → id_ok wl →
     finalize_request now req wl (co_gov c) = (Ret st, g') →
     realized_request_cost now g' req = Ret cost → in_i64 cost →
     client_realize now io req wl c = (Ret (Status.Status_to_u8 st, cost), set_co_gov g' c)).
Proof.
  split_and!; intros; [by apply client_publish_ok|by apply client_record_ok|by apply client_eval_ok
    |by apply client_revalidate_ok|by apply client_realize_ok].
Qed.

Lemma rpc_transparent_witness :
  ∃ g', publish_price (mk_price (mkId 7001) AT devA 5000 kA no_id kNow) (co_gov fresh_coord)
      = (Ret Status.OK, g') ∧
    @client_publish map_order kClock no_faults (mk_price (mkId 7001) AT devA 5000 kA no_id kNow) fresh_coord
      = (Ret 0, @persisted map_order no_faults Status.OK (set_co_gov g' fresh_coord)).
Proof.
  destruct (rpc_transparent map_order kClock no_faults fresh_coord) as [H _].
  eexists. split; [by vm_compute|]. refine (H _ Status.OK _ _ _ _ _);
    [by_compute|by_compute|by vm_compute|]. intros _. by eexists; vm_compute.
Defined.

(** Under POSIX the runner starts no worker B: whatever options it passes, in one
    argument, the worker sees a single word after its name and runs as worker A
    under boot 10, without staying, and two such workers leave two observations where
    the runner waits for four. *)
Theorem posix_workers_are_all_A exe args :
  let cfg := worker_config (posix_argv exe args) in
  wc_kind cfg = "A" ∧ wc_stay cfg = false ∧ worker_id cfg = kA ∧ worker_boot_id cfg = A1 ∧
  (worker_id (worker_config (windows_argv exe "5000 B --stay --boot 21")) = kB ∧
   worker_boot_id (worker_config (windows_argv exe "5000 B --stay --boot 21")) = B2) ∧
  ∃ c, run_calls (@worker_calls map_order kClock no_faults cfg ++ @worker_calls map_order kClock no_faults cfg)
         fresh_coord = (Ret tt, c) ∧
    length (s_observations (g_schedule (co_gov c))) = 2%nat.
Proof.
  intros cfg. split_and!; [done..|].
  assert (@worker_calls map_order kClock no_faults cfg
          = @worker_calls map_order kClock no_faults (mkWorkerConfig 0 "A" false 0)) as -> by done.
  eexists. split; [by vm_compute|done].
Qed.
