(* ===== verification/Processes.v ===== *)
(** * Processes: sockets and the three programs of the distributed proof

    Models [Sock] of distributed/chan.hpp over the handles that the operating system
    has open, [connect_to], and the [main] functions of worker.cpp, coordinator.cpp
    and proof_runner.cpp up to their exit codes.  What the operating system answers
    (a new handle, whether a connection, a bind or a spawn succeeds, the bytes that
    arrive) is a parameter. *)

From stdpp Require Import prelude gmap strings pretty.
From S2P Require Import Prelude Effects Money Identity Units Price Policy Budget Cost.
From S2P Require Import Plan Decision Codec Governor Evaluate Ledger System Recovery.
From S2P Require Import Fencing Wire WireFacts Coordinator CoordinatorFacts Client ClientFacts.
From stdpp Require Import options.

(** ** Sock *)

Definition kInvalid : Z := -1.

(** The open handles, the live [Sock] objects with their handles, and how often a
    handle was closed that was not open. *)
Record World := mkWorld {
  w_open : gset Z;
  w_socks : gmap nat Z;
  w_bad : nat;
}.

Definition os_close (h : Z) (w : World) : World :=
  if decide (h ∈ w_open w) then mkWorld (w_open w ∖ {[h]}) (w_socks w) (w_bad w)
  else mkWorld (w_open w) (w_socks w) (S (w_bad w)).

Definition set_sock (v : nat) (h : Z) (w : World) : World :=
  mkWorld (w_open w) (<[v := h]> (w_socks w)) (w_bad w).
Definition handle_of (v : nat) (w : World) : Z := default kInvalid (w_socks w !! v).

Definition sock_valid (v : nat) (w : World) : bool := bool_decide (handle_of v w ≠ kInvalid).

(** [Sock::close] *)
Definition sock_close (v : nat) (w : World) : World :=
  let h := handle_of v w in
  if decide (h ≠ kInvalid) then set_sock v kInvalid (os_close h w) else w.

Inductive SockOp :=
  | so_default (v : nat)            (** [Sock v;] *)
  | so_adopt (v : nat) (h : Z)      (** [Sock v(h);] *)
  | so_move (v o : nat)             (** [Sock v(std::move(o));] *)
  | so_assign (v o : nat)           (** [v = std::move(o);] *)
  | so_close (v : nat)
  | so_destroy (v : nat).

Definition sock_exec (op : SockOp) (w : World) : World :=
  match op with
  | so_default v => set_sock v kInvalid w
  | so_adopt v h => set_sock v h w
  | so_move v o => set_sock o kInvalid (set_sock v (handle_of o w) w)
  | so_assign v o =>
      if decide (v = o) then w
      else let w1 := sock_close v w in set_sock o kInvalid (set_sock v (handle_of o w1) w1)
  | so_close v => sock_close v w
  | so_destroy v =>
      let w1 := sock_close v w in mkWorld (w_open w1) (delete v (w_socks w1)) (w_bad w1)
  end.

(** Objects live from their constructor to their destructor, and a handle that is
    adopted is open and has no owner yet. *)
Definition sock_legal (op : SockOp) (w : World) : Prop :=
  match op with
  | so_default v => w_socks w !! v = None
  | so_adopt v h =>
      w_socks w !! v = None ∧ h ∈ w_open w ∧ h ≠ kInvalid ∧ map_Forall (λ _ h', h' ≠ h) (w_socks w)
  | so_move v o => w_socks w !! v = None ∧ is_Some (w_socks w !! o)
  | so_assign v o => is_Some (w_socks w !! v) ∧ is_Some (w_socks w !! o)
  | so_close v | so_destroy v => is_Some (w_socks w !! v)
  end.
#[global] Instance sock_legal_dec op w : Decision (sock_legal op w).
Proof. destruct op; simpl; apply _. Defined.

Fixpoint sock_run (ops : list SockOp) (w : World) : option World :=
  match ops with
  | [] => Some w
  | op :: ops' => if decide (sock_legal op w) then sock_run ops' (sock_exec op w) else None
  end.

Definition adopted (ops : list SockOp) : list Z :=
  omap (λ op, match op with so_adopt _ h => Some h | _ => None end) ops.

(** ** connect_to *)

(** What the operating system answers to one attempt: the handle of [socket], and
    whether [connect] succeeds. *)
Definition Attempt : Type := option Z * bool.

(** The temporary [Sock(s)] is the object [t]. *)
Definition connect_to (v t : nat) (a : Attempt) (w : World) : bool * World :=
  match a.1 with
  | None => (false, w)
  | Some h =>
      let w1 := mkWorld ({[h]} ∪ w_open w) (w_socks w) (w_bad w) in
      if negb a.2 then (false, w1)
      else (true, sock_exec (so_destroy t) (sock_exec (so_assign v t) (sock_exec (so_adopt t h) w1)))
  end.

(** At most [n] attempts. *)
Fixpoint connect_loop (n : nat) (v t : nat) (net : nat → Attempt) (i : nat) (w : World) : World :=
  match n with
  | O => w
  | S n' =>
      let '(done, w1) := connect_to v t (net i) w in
      if done then w1 else connect_loop n' v t net (S i) w1
  end.

(** [Client::connected]: [ep] is the endpoint's object, [v] the local [Sock]. *)
Definition client_connected (ep v t : nat) (a : Attempt) (w : World) : bool * World :=
  let '(done, w1) := connect_to v t a (sock_exec (so_default v) w) in
  let leave := sock_exec (so_destroy v) in
  if negb done then (false, leave w1) else (true, leave (sock_exec (so_assign ep v) w1)).

(** The runner's loop of at most [n] calls of [connected]. *)
Fixpoint ready_loop (n : nat) (ep v t : nat) (net : nat → Attempt) (i : nat) (w : World) : World :=
  match n with
  | O => w
  | S n' =>
      let '(done, w1) := client_connected ep v t (net i) w in
      if done then w1 else ready_loop n' ep v t net (S i) w1
  end.

(** [attempt < 200] *)
Definition kAttempts : nat := 200.

(** ** The programs *)

(** How a process ends. *)
Inductive Exit := exit_code (n : Z) | exit_uncaught (e : exn).

Section programs.
Context `{IterOrder} (now : Readings) (io : IoFaults).

(** The [--stay] loop, while the connection lasts. *)
Fixpoint stay_loop (rounds : nat) : St Coord unit :=
  match rounds with
  | O => st_ret tt
  | S rounds' =>
      let* go := worker_ping now io in
      if go then stay_loop rounds' else st_ret tt
  end.

(** [main] of worker.cpp; [s] is the object 0, [ep.sock] the object 2. *)
Definition worker_main (argv : list string) (net : nat → Attempt) (rounds : nat)
    (w : World) (c : Coord) : Exit * World * Coord :=
  let cfg := worker_config argv in
  if decide (wc_port cfg = 0) then (exit_code 2, w, c)
  else
    let w1 := connect_loop kAttempts 0 1 net 0 (sock_exec (so_default 0) (sock_exec (so_default 2) w)) in
    let leave w := sock_exec (so_destroy 2) (sock_exec (so_destroy 0) w) in
    if negb (sock_valid 0 w1) then (exit_code 1, leave w1, c)
    else
      let w2 := sock_exec (so_assign 2 0) w1 in
      let '(x, c') := (run_calls (worker_calls now io cfg) ;;;
                       (if wc_stay cfg then stay_loop rounds else st_ret tt)) c in
      (match x with Ret _ => exit_code 0 | Throw e => exit_uncaught e end,
       leave w2, c').

(** The accept loop of coordinator.cpp: the connections that [accept] returns, served
    one after the other (Concurrent.v lets them alternate), until it fails. *)
Fixpoint serve_sessions (sessions : list (list (list Z))) (c : Coord) : list (option (list Reply)) * Coord :=
  match sessions with
  | [] => ([], c)
  | chunks :: sessions' =>
      let '(out, c1) := run_session (S (length (mjoin chunks) / kHeader)) now (λ _, io) 0 chunks c in
      let '(outs, c2) := serve_sessions sessions' c1 in (out :: outs, c2)
  end.

(** Whether [WSAStartup] (always, where there is none), [socket], [bind] and [listen]
    succeed. *)
Record Listen := mkListen { ls_startup : bool; ls_socket : bool; ls_bind : bool; ls_listen : bool }.

(** Its arguments. *)
Definition coordinator_port (argv : list string) : Z :=
  match argv !! 1%nat with Some a => leading_number 0 a | None => 0 end.
Definition coordinator_state (argv : list string) : string :=
  default "cg_dist_state.bin" (argv !! 2%nat).

(** [main] of coordinator.cpp. *)
Definition coordinator_main (argv : list string) (os : Listen) (sessions : list (list (list Z)))
    (fs : Files) : Exit * list (option (list Reply)) * Files :=
  let port := coordinator_port argv in
  let state_file := coordinator_state argv in
  if decide (port = 0) then (exit_code 2, [], fs)
  else if negb (ls_startup os) then (exit_code 3, [], fs)
  else match start state_file fs with
  | Throw e => (exit_uncaught e, [], fs)
  | Ret c =>
      if negb (ls_socket os) then (exit_code 4, [], fs)
      else if negb (ls_bind os) then (exit_code 5, [], fs)
      else if negb (ls_listen os) then (exit_code 6, [], fs)
      else let '(outs, c') := serve_sessions sessions c in (exit_code 0, outs, co_files c')
  end.

(** The counters of [ok], and the exit code of the runner. *)
Definition tally (outs : list Outcome) : nat * nat :=
  foldl (λ '(p, f) o, if o.2 : bool then (S p, f) else (p, S f)) (0%nat, 0%nat) outs.
Definition verdict (outs : list Outcome) : Z := if decide ((tally outs).2 = 0%nat) then 0 else 1.

(** Two processes whose calls alternate as the schedule says ([true]: the first);
    an exception ends its own process. *)
Fixpoint side_by_side (sched : list bool) (a b : list (St Coord unit)) : St Coord unit :=
  match sched with
  | [] => st_ret tt
  | first :: sched' => λ c,
      match if first then a else b with
      | [] => side_by_side sched' a b c
      | m :: rest =>
          let '(x, c') := m c in
          let rest' := match x with Ret _ => rest | Throw _ => [] end in
          if first then side_by_side sched' rest' b c' else side_by_side sched' a rest' c'
      end
  end.

Definition quote : string := String (Ascii.ascii_of_nat 34) EmptyString.
(** The arguments that the runner spawns the coordinator with. *)
Definition coord_args (port : Z) (state : string) : string :=
  String.append (pretty port) (String.append " " (String.append quote (String.append state quote))).

(** [main] of proof_runner.cpp on a platform, with the port that was free.  The
    arguments after them are whether the coordinator could be spawned, whether one of
    the 200 attempts to connect to it and to its successor succeeds, and how the two
    workers' calls alternate.  Without a connection the first check fails. *)
Definition runner_main (pf : Platform) (dir : string) (port : Z) (spawned connected reachable : bool)
    (sched : list bool) (fs : Files) : Exit * list Outcome :=
  let state := String.append dir "/cg_runner_state.bin" in
  let argv := pf_argv pf (String.append dir (String.append "/coordinator" (pf_suffix pf)))
                (coord_args port state) in
  if negb spawned then (exit_code 2, [])
  else match start (coordinator_state argv) (delete state fs),
             connected && bool_decide (coordinator_port argv ≠ 0) with
  | Ret c, true =>
      let m := side_by_side sched
                 (spawn_worker now io pf dir port " A --stay")
                 (spawn_worker now io pf dir port " B --stay") ;;;
               runner now io pf dir port (coordinator_state argv) reachable in
      match (m c).1 with
      | Throw e => (exit_uncaught e, [("coordinator ready", true)])
      | Ret outs =>
          let all := ("coordinator ready", true) :: outs in (exit_code (verdict all), all)
      end
  | _, _ => (exit_code 2, [("coordinator ready", false)])
  end.
End programs.

(** ** Ownership of handles *)

(** Every valid [Sock] owns an open handle of its own, and nothing was closed that
    was not open. *)
Record owned (w : World) : Prop := mk_owned {
  ow_open : ∀ v h, w_socks w !! v = Some h → h ≠ kInvalid → h ∈ w_open w;
  ow_inj : ∀ v v' h, w_socks w !! v = Some h → w_socks w !! v' = Some h → h ≠ kInvalid → v = v';
  ow_bad : w_bad w = 0%nat;
}.

(** An open handle without an owner. *)
Definition leaked (w : World) (h : Z) : Prop :=
  h ∈ w_open w ∧ h ≠ kInvalid ∧ ∀ v, w_socks w !! v ≠ Some h.

(** The two worlds have the same handles without an owner. *)
Definition same_leaks (w w' : World) : Prop := ∀ h, leaked w' h ↔ leaked w h.

#[global] Instance same_leaks_equiv : Equivalence same_leaks.
Proof.
  split; [by intros w h|by intros w w' Hw h; symmetry|].
  intros w1 w2 w3 H12 H23 h. by rewrite (H23 h).
Qed.

Lemma handle_of_eq v h w : w_socks w !! v = Some h → handle_of v w = h.
Proof. unfold handle_of. by intros ->. Qed.

Lemma close_owned v w :
  owned w → is_Some (w_socks w !! v) →
  owned (sock_close v w) ∧ same_leaks w (sock_close v w) ∧
  w_socks (sock_close v w) = <[v := kInvalid]> (w_socks w).
Proof.
  intros [Ho Hi Hb] [h Hv]. unfold sock_close. rewrite (handle_of_eq v h w Hv). case_decide as Hh.
  2:{ subst h. split; [done|]. split; [done|]. by rewrite insert_id. }
  unfold os_close. rewrite decide_True by (by eapply Ho). cbn. split_and!; [|intros x|done].
  - split; cbn; [| |done].
    + intros v' h'. rewrite lookup_insert_Some. intros [[_ <-]|[Hne Hv']] Hh'; [done|].
      apply elem_of_difference. split; [by eapply Ho|]. intros ->%elem_of_singleton.
      by apply Hne, (Hi v v' h).
    + intros v1 v2 h'. rewrite !lookup_insert_Some.
      intros [[_ E]|[? H1]] [[_ E']|[? H2]] Hh'; try congruence. by apply (Hi v1 v2 h').
  - unfold leaked. cbn. split.
    + intros (Hx & Hk & Hn). split_and!; [set_solver|done|]. intros v' Hv'.
      apply (Hn v'). rewrite lookup_insert_ne; [done|]. intros <-. set_solver.
    + intros (Hx & Hk & Hn). split_and!; [|done|].
      * apply elem_of_difference. split; [done|]. intros ->%elem_of_singleton. by apply (Hn v).
      * intros v'. rewrite lookup_insert_Some. intros [[_ ?]|[_ ?]]; [done|]. by apply (Hn v').
Qed.

(** Handing the handle of [o] to [v], which has none. *)
Lemma transfer_owned v o w :
  owned w → v ≠ o → (w_socks w !! v = None ∨ w_socks w !! v = Some kInvalid) →
  is_Some (w_socks w !! o) →
  owned (set_sock o kInvalid (set_sock v (handle_of o w) w)) ∧
  same_leaks w (set_sock o kInvalid (set_sock v (handle_of o w) w)).
Proof.
  intros [Ho Hi Hb] Hne Hv [h Hoh]. rewrite (handle_of_eq o h w Hoh).
  assert (∀ u x, <[o := kInvalid]> (<[v := h]> (w_socks w)) !! u = Some x → x ≠ kInvalid →
    (u = v ∧ x = h) ∨ (u ≠ v ∧ u ≠ o ∧ w_socks w !! u = Some x)) as Hcase.
  { intros u x. rewrite lookup_insert_Some. intros [[_ <-]|[Hou Hu]] Hx; [done|].
    apply lookup_insert_Some in Hu as [[<- <-]|[Hvu Hu]]; [by left|right; by split_and!]. }
  split; [split; cbn; [| |done]|].
  - intros u x Hu Hx. destruct (Hcase u x Hu Hx) as [[-> ->]|(_ & _ & Hu')]; [by eapply Ho|by eapply Ho].
  - intros u u' x Hu Hu' Hx. destruct (Hcase u x Hu Hx) as [[-> ->]|(H1 & H2 & H3)],
      (Hcase u' _ Hu' Hx) as [[-> E]|(H4 & H5 & H6)]; try done.
    + destruct H5. by apply (Hi u' o h).
    + destruct H2. rewrite E in H3. by apply (Hi u o h); [..|congruence].
    + by apply (Hi u u' x).
  - intros x. unfold leaked. cbn. split; intros (Hx & Hk & Hn); (split; [done|]; split; [done|]); intros u Hu.
    + destruct (decide (u = o)) as [->|Huo].
      * apply (Hn v). rewrite lookup_insert_ne, lookup_insert_eq by done. congruence.
      * apply (Hn u). rewrite lookup_insert_ne by done. rewrite lookup_insert_ne; [done|].
        intros <-. destruct Hv as [Hv|Hv]; congruence.
    + destruct (Hcase u x Hu Hk) as [[-> ->]|(_ & _ & Hu')]; [by apply (Hn o)|by apply (Hn u)].
Qed.

(** A new object without a handle. *)
Lemma default_owned v w :
  owned w → w_socks w !! v = None →
  owned (set_sock v kInvalid w) ∧ same_leaks w (set_sock v kInvalid w).
Proof.
  intros [Ho Hi Hb] Hl. split; [split; cbn; [| |done]|].
  - intros u x. rewrite lookup_insert_Some. intros [[_ <-]|[_ Hu]] Hx; [done|by eapply Ho].
  - intros u u' x. rewrite !lookup_insert_Some. intros [[_ E]|[_ H1]] [[_ E']|[_ H2]] Hx; try congruence.
    by apply (Hi u u' x).
  - intros x. unfold leaked. cbn. split; intros (Hx & Hk & Hn); (split; [done|]; split; [done|]); intros u Hu.
    + apply (Hn u). rewrite lookup_insert_ne; [done|]. intros <-. congruence.
    + apply lookup_insert_Some in Hu as [[_ ?]|[_ Hu]]; [done|]. by apply (Hn u).
Qed.

(** A new object for a handle without an owner. *)
Lemma adopt_owned v h w :
  owned w → sock_legal (so_adopt v h) w →
  owned (set_sock v h w) ∧ ∀ x, leaked (set_sock v h w) x ↔ leaked w x ∧ x ≠ h.
Proof.
  intros [Ho Hi Hb] (Hv & Hop & Hk & Hun). split; [split; cbn; [| |done]|].
  - intros u x. rewrite lookup_insert_Some. intros [[_ <-]|[_ Hu]] Hx; [done|by eapply Ho].
  - intros u u' x. rewrite !lookup_insert_Some. intros [[<- E]|[_ H1]] [[<- E']|[_ H2]] Hx; [done|..].
    + subst x. by destruct (Hun _ _ H2).
    + subst x. by destruct (Hun _ _ H1).
    + by apply (Hi u u' x).
  - intros x. unfold leaked. cbn. split.
    + intros (Hx & Hkx & Hn). split; [split_and!; [done|done|]|].
      * intros u Hu. apply (Hn u). rewrite lookup_insert_ne; [done|]. intros <-. congruence.
      * intros ->. apply (Hn v). by rewrite lookup_insert_eq.
    + intros [(Hx & Hkx & Hn) Hne]. split_and!; [done|done|]. intros u Hu.
      apply lookup_insert_Some in Hu as [[_ ?]|[_ Hu]]; [congruence|]. by apply (Hn u).
Qed.

(** An object without a handle goes away. *)
Lemma forget_owned v w :
  owned w → w_socks w !! v = Some kInvalid →
  owned (mkWorld (w_open w) (delete v (w_socks w)) (w_bad w)) ∧
  same_leaks w (mkWorld (w_open w) (delete v (w_socks w)) (w_bad w)).
Proof.
  intros [Ho Hi Hb] Hv. split; [split; cbn; [| |done]|].
  - intros u x. rewrite lookup_delete_Some. intros [_ Hu]. by apply (Ho u x).
  - intros u u' x. rewrite !lookup_delete_Some. intros [_ H4] [_ H5]. by apply (Hi u u' x).
  - intros x. unfold leaked. cbn. split; intros (Hx & Hk & Hn);
      (split; [done|]; split; [done|]); intros u Hu.
    + apply (Hn u). rewrite lookup_delete_ne; [done|]. intros <-. congruence.
    + apply lookup_delete_Some in Hu as [_ Hu]. by apply (Hn u).
Qed.

Lemma sock_exec_owned op w :
  owned w → sock_legal op w →
  owned (sock_exec op w) ∧
  ∀ h, leaked (sock_exec op w) h ↔ leaked w h ∧ h ∉ adopted [op].
Proof.
  intros Hw Hl.
  assert (∀ w', owned w' ∧ same_leaks w w' → adopted [op] = [] →
    owned w' ∧ ∀ h, leaked w' h ↔ leaked w h ∧ h ∉ adopted [op]) as Hsame.
  { intros w' [Ho Hs] ->. split; [done|]. intros h. rewrite (Hs h). set_solver. }
  destruct op as [v|v h|v o|v o|v|v]; cbn [sock_exec].
  - apply Hsame; [|done]. by apply default_owned.
  - destruct (adopt_owned v h w Hw Hl) as [H1 H2]. split; [done|]. intros x. rewrite H2.
    unfold adopted. cbn. by rewrite list_elem_of_singleton.
  - destruct Hl as [Hv Hol]. apply Hsame; [|done]. apply transfer_owned; try done; [|by left].
    intros ->. destruct Hol. congruence.
  - destruct Hl as [Hv Hol]. apply Hsame; [|done]. case_decide as Heq; [done|].
    destruct (close_owned v w Hw Hv) as (H1 & H2 & H3).
    destruct (transfer_owned v o (sock_close v w) H1 Heq) as [H4 H5].
    + right. rewrite H3. by rewrite lookup_insert_eq.
    + rewrite H3. by rewrite lookup_insert_ne.
    + split; [done|]. by etrans.
  - apply Hsame; [|done]. by destruct (close_owned v w Hw Hl) as (? & ? & _).
  - apply Hsame; [|done]. destruct (close_owned v w Hw Hl) as (H1 & H2 & H3).
    destruct (forget_owned v (sock_close v w) H1) as [H4 H5]; [by rewrite H3, lookup_insert_eq|].
    split; [done|]. by etrans.
Qed.

(** A failed connection attempt changes nothing but the handles that are open. *)
Lemma connect_fails v t a w :
  a.2 = false →
  connect_to v t a w =
    (false, match a.1 with None => w | Some h => mkWorld ({[h]} ∪ w_open w) (w_socks w) (w_bad w) end).
Proof. intros Ha. unfold connect_to. destruct a as [[h|] []]; done. Qed.

Lemma connect_loop_fails n v t net i w :
  (∀ k, (net k).2 = false) →
  connect_loop n v t net i w =
    mkWorld (list_to_set (omap (λ k, (net k).1) (seq i n)) ∪ w_open w) (w_socks w) (w_bad w).
Proof.
  intros Hnet. revert i w. induction n as [|n IH]; intros i w; cbn [connect_loop seq omap list_omap].
  { destruct w. cbn. f_equal. set_solver. }
  rewrite connect_fails, IH by done. destruct ((net i).1) as [h|]; cbn; f_equal; set_solver.
Qed.

Lemma client_connected_fails ep v t a w :
  a.2 = false → w_socks w !! v = None →
  client_connected ep v t a w =
    (false, match a.1 with None => w | Some h => mkWorld ({[h]} ∪ w_open w) (w_socks w) (w_bad w) end).
Proof.
  intros Ha Hv. unfold client_connected. rewrite connect_fails by done.
  destruct w as [o socks b]. destruct (a.1) as [h|]; cbn in *; unfold sock_close, handle_of; cbn;
    rewrite lookup_insert_eq; cbn; rewrite decide_False by tauto; cbn; by rewrite delete_insert_id.
Qed.

Lemma ready_loop_fails n ep v t net i w :
  (∀ k, (net k).2 = false) → w_socks w !! v = None →
  ready_loop n ep v t net i w =
    mkWorld (list_to_set (omap (λ k, (net k).1) (seq i n)) ∪ w_open w) (w_socks w) (w_bad w).
Proof.
  intros Hnet. revert i w. induction n as [|n IH]; intros i w Hv; cbn [ready_loop seq omap list_omap].
  { destruct w. cbn. f_equal. set_solver. }
  rewrite client_connected_fails, IH; [|by destruct ((net i).1)|done..].
  destruct ((net i).1) as [h|]; cbn; f_equal; set_solver.
Qed.

Lemma sessions_end `{IterOrder} now io sessions c :
  length (serve_sessions now io sessions c).1 = length sessions ∧
  Forall is_Some (serve_sessions now io sessions c).1.
Proof.
  revert c. induction sessions as [|chunks sessions IH]; intros c; [by split|].
  cbn [serve_sessions].
  destruct (session_terminates_aux (S (length (mjoin chunks) / kHeader)) now (λ _, io) 0 chunks c)
    as (out & c1 & ->).
  { unfold kHeader. pose proof (Nat.div_mod_eq (length (mjoin chunks)) 16).
    pose proof (Nat.mod_upper_bound (length (mjoin chunks)) 16). lia. }
  specialize (IH c1). destruct (serve_sessions now io sessions c1) as [outs c2]. cbn in *.
  destruct IH as [Hl Hs]. split; [by f_equal|]. by constructor.
Qed.

(** ** Theorems *)

(** C30. A [Sock] owns its handle: along every legal sequence of constructions, moves,
    closes and destructions, every valid [Sock] holds an open handle that no other
    holds and no handle is closed that is not open (so none is closed twice); the
    handles that stay open without an owner are exactly those that were so before and
    were never given to a [Sock]. *)
Theorem sock_owns_handle ops w w' :
  owned w → sock_run ops w = Some w' →
  owned w' ∧ ∀ h, leaked w' h ↔ leaked w h ∧ h ∉ adopted ops.
Proof.
  revert w. induction ops as [|op ops IH]; intros w Hw H1; cbn [sock_run] in H1.
  { injection H1 as <-. split; [done|]. intros h. set_solver. }
  case_decide as Hl; [|done]. destruct (sock_exec_owned op w Hw Hl) as [Hw1 Hl1].
  destruct (IH _ Hw1 H1) as [Hw2 Hl2]. split; [done|]. intros h. rewrite Hl2, Hl1.
  unfold adopted. cbn. destruct op; set_solver.
Qed.

Lemma sock_owns_handle_witness :
  ∃ w', sock_run [so_adopt 1 7; so_default 0; so_assign 0 1; so_destroy 1; so_close 0; so_destroy 0]
      (mkWorld {[3; 7]} ∅ 0) = Some w' ∧ owned w' ∧ leaked w' 3 ∧ w_open w' = {[3]}.
Proof.
  eexists. split; [by vm_compute|].
  destruct (sock_owns_handle [so_adopt 1 7; so_default 0; so_assign 0 1; so_destroy 1; so_close 0; so_destroy 0]
    (mkWorld {[3; 7]} ∅ 0) (mkWorld {[3]} ∅ 0)) as [H1 H2];
    [split; [intros v h Hv; discriminate Hv|intros v v' h Hv; discriminate Hv|done]|by vm_compute|].
  split; [exact H1|]. split; [|done]. apply H2.
  split; [|set_solver]. split_and!; [set_solver|done|intros v Hv; discriminate Hv].
Defined.

(** Failed connections leak their handles: when no connection attempt of a worker
    succeeds, it exits with code 1, and every handle that [socket] gave it, one for
    each of up to 200 attempts, is still open and belongs to nobody; the same holds of
    the runner's connection attempts, after which its endpoint is still invalid. *)
Theorem failed_connects_leak (I : IterOrder) now io argv net rounds c :
  wc_port (worker_config argv) ≠ 0 → (∀ k, (net k).2 = false) →
  (∃ w', worker_main now io argv net rounds (mkWorld ∅ ∅ 0) c = (exit_code 1, w', c) ∧
     w_socks w' = ∅ ∧ ∀ k h, (k < kAttempts)%nat → (net k).1 = Some h → h ≠ kInvalid → leaked w' h) ∧
  let w' := ready_loop kAttempts 2 0 1 net 0 (mkWorld ∅ {[2%nat := kInvalid]} 0) in
  sock_valid 2 w' = false ∧
  ∀ k h, (k < kAttempts)%nat → (net k).1 = Some h → h ≠ kInvalid → leaked w' h.
Proof.
  intros Hp Hnet. unfold worker_main. rewrite decide_False by done. generalize kAttempts. intros n.
  rewrite connect_loop_fails, ready_loop_fails by done. cbn [sock_exec set_sock w_open w_socks w_bad].
  assert (∀ k h, (k < n)%nat → (net k).1 = Some h →
    h ∈ (list_to_set (omap (λ k, (net k).1) (seq 0 n)) ∪ ∅ : gset Z)) as Hin.
  { intros k h Hk Hh. apply elem_of_union_l, elem_of_list_to_set, list_elem_of_omap. exists k.
    split; [|done]. apply elem_of_seq. lia. }
  set (opened := list_to_set _ ∪ _) in *. clearbody opened. split.
  - eexists. split; [done|]. split; [done|].
    intros k h Hk Hh Hv. split_and!; [by eapply Hin|done|intros v Hv'; discriminate Hv'].
  - split; [done|]. intros k h Hk Hh Hv. split_and!; [by eapply Hin|done|].
    cbn. intros v [_ E]%lookup_singleton_Some. congruence.
Qed.

Lemma failed_connects_leak_witness :
  ∃ w', @worker_main map_order kClock no_faults ["worker"; "5000"; "A"] (λ k, (Some (Z.of_nat k), false)) 0
      (mkWorld ∅ ∅ 0) fresh_coord = (exit_code 1, w', fresh_coord) ∧ leaked w' 7 ∧ leaked w' 199.
Proof.
  destruct (failed_connects_leak map_order kClock no_faults ["worker"; "5000"; "A"]
    (λ k, (Some (Z.of_nat k), false)) 0 fresh_coord) as [(w' & H1 & _ & H2) _]; [by vm_compute|done|].
  exists w'. split; [exact H1|]. unfold kAttempts in H2.
  split; [apply (H2 7%nat); [lia|done|done]|apply (H2 199%nat); [lia|done|done]].
Defined.

(** The coordinator's exit codes: 2 without a port, 3 without sockets, an uncaught
    exception when the state file cannot be read, 4 to 6 when it cannot listen; otherwise it serves
    every connection to its end and exits with 0 when [accept] fails. *)
Theorem coordinator_exits (I : IterOrder) now io argv os sessions fs x outs fs' :
  coordinator_main now io argv os sessions fs = (x, outs, fs') →
  (x = exit_code 0 ∧ length outs = length sessions ∧ Forall is_Some outs) ∨
  (outs = [] ∧ fs' = fs ∧
   (x ∈ [exit_code 2; exit_code 3; exit_code 4; exit_code 5; exit_code 6] ∨
    ∃ e, x = exit_uncaught e ∧ start (coordinator_state argv) fs = Throw e)).
Proof.
  unfold coordinator_main. intros H1. case_decide; [right; simplify_eq; set_solver|].
  destruct (ls_startup os); cbn in H1; [|right; simplify_eq; set_solver].
  destruct (start _ fs) as [c|e] eqn:Hs; [|right; simplify_eq; eauto 10].
  destruct (ls_socket os); cbn in H1; [|right; simplify_eq; set_solver].
  destruct (ls_bind os); cbn in H1; [|right; simplify_eq; set_solver].
  destruct (ls_listen os); cbn in H1; [|right; simplify_eq; set_solver].
  pose proof (sessions_end now io sessions c) as He.
  destruct (serve_sessions now io sessions c) as [outs' c']. simplify_eq. by left.
Qed.

(** A worker cannot rejoin a restarted coordinator: it publishes every price under
    epoch 1, whatever epoch the reply to its HELLO carries, so a coordinator in any
    other epoch refuses them all and changes nothing. *)
Theorem worker_cannot_rejoin (I : IterOrder) now io kind dev amt boot worker c :
  id_ok dev → in_i64 amt → id_ok boot → id_ok worker → enum_ok kind → g_epoch (co_gov c) ≠ mkId 1 →
  client_publish now io (worker_price kind dev amt boot worker kNow) c
    = (Ret (Status.Status_to_u8 Status.STALE_AUTHORITY), c).
Proof.
  intros Hd Ha Hb Hw Hk Hep.
  assert (publish_price (worker_price kind dev amt boot worker kNow) (co_gov c)
    = (Ret Status.STALE_AUTHORITY, co_gov c)) as Hp.
  { apply stale_publish. cbn. congruence. }
  rewrite (client_publish_ok now io _ Status.STALE_AUTHORITY (co_gov c)); [|..|done|done].
  - by destruct c.
  - unfold price_ok, worker_price. cbn [o_id o_kind o_resource_scope o_device o_amount o_currency
      o_provenance o_label o_valid_from_ms o_valid_to_ms o_observed_at_ms o_generation o_epoch
      o_worker o_boot].
    split_and!; try assumption; [|by_compute..].
    unfold id_ok. cbn [value]. widths. pose proof (Z.mod_pos_bound
      (1000 + PriceKind.PriceKind_to_u8 kind * 100 + value dev) (2 ^ 64)). lia.
  - by vm_compute.
Qed.

(** One worker's three calls before the other's, in either order, and in turns. *)
Definition sample_schedules : list (list bool) :=
  [ [true; true; true; false; false; false]; [false; false; false; true; true; true];
    [true; false; true; false; true; false]; [false; true; false; true; false; true] ].

(** Exit code 0, with [n] checks that all hold. *)
Definition passes (n : nat) (r : Exit * list Outcome) : bool :=
  match r.1 with exit_code 0 => bool_decide (length r.2 = n) && forallb snd r.2 | _ => false end.

(** Under Windows the runner passes: with the calls of worker A before those of worker
    B, after them, or in turns, and with a state file left over from an earlier run,
    it exits with 0 and all of its 31 checks hold. *)
Example runner_passes :
  forallb (λ sched, passes 31 (@runner_main map_order kClock no_faults windows "." 5000 true true true sched
    {["./cg_runner_state.bin" := [1; 2; 3]]})) sample_schedules = true.
Proof. by vm_compute. Qed.

(** Under POSIX it does not: no worker B is started, and the coordinator does not get
    the state file that the runner has removed either. *)
Example posix_runner_fails :
  let argv := posix_argv "./coordinator" (coord_args 5000 "./cg_runner_state.bin") in
  coordinator_port argv = 5000 ∧ coordinator_state argv = "cg_dist_state.bin" ∧
  forallb (λ sched, match (@runner_main map_order kClock no_faults posix "." 5000 true true true sched ∅).1
                    with exit_code 1 => true | _ => false end) sample_schedules = true.
Proof. by vm_compute. Qed.
