(* ===== verification/Tools.v ===== *)
(** * Tools: the command line tool and the example programs

    Models tools/cg_cli.cpp and examples/: each program is a function to the lines
    it prints and its exit code, written with the governor's operations. *)

From stdpp Require Import prelude gmap strings pretty.
From S2P Require Import Prelude Effects Money Identity Units Price Policy Budget Cost.
From S2P Require Import Plan Decision Governor Evaluate Snapshot Ledger System Recovery.
From stdpp Require Import options.

(** ** Printing *)

(** The pieces of one [std::cout << ...] line. *)
Definition line (parts : list string) : string := String.concat EmptyString parts.
Definition dec (z : Z) : string := pretty z.
Definition flag (b : bool) : string := if b then "1" else "0".

(** ** version.hpp *)

Definition COSTGOVERNOR_VERSION : Z * Z * Z := (1, 0, 2).
Definition COSTGOVERNOR_VERSION_STRING : string := "1.0.2".
Definition COSTGOVERNOR_PRODUCT : string := "Cost Governor".

(** The string is the one the three numbers make. *)
Example version_consistent :
  let '(major, minor, patch) := COSTGOVERNOR_VERSION in
  line [dec major; "."; dec minor; "."; dec patch] = COSTGOVERNOR_VERSION_STRING.
Proof. done. Qed.

(** ** Shared set-up *)

Definition tool_now : Z := 1000000000.
(** A [MockClock] that nobody advances. *)
Definition tool_clock : Readings := λ _, tool_now.

Definition tool_policy (currency : string) : CostPolicy := {|
  pol_id := pol_id default_policy; pol_generation := mkId 1; pol_epoch := mkId 1;
  pol_currency := currency; pol_ranking := pol_ranking default_policy;
  pol_min_evidence_freshness_ms := pol_min_evidence_freshness_ms default_policy;
  pol_max_evidence_age_ms := 30000; pol_price_schedule_max_age_ms := 30000;
  pol_max_projection_uncertainty := pol_max_projection_uncertainty default_policy;
  pol_hysteresis_ms := pol_hysteresis_ms default_policy;
  pol_cooldown_ms := pol_cooldown_ms default_policy;
  pol_near_budget_percent := pol_near_budget_percent default_policy;
  pol_at_risk_percent := pol_at_risk_percent default_policy;
  pol_retry_budget := pol_retry_budget default_policy;
  pol_recovery_budget := pol_recovery_budget default_policy;
  pol_recovery_cost_known := pol_recovery_cost_known default_policy;
  pol_allow_synthetic := true; pol_allow_policy := true; pol_allow_measured := true |}.

Definition tool_price (id : Z) (k : PriceKind) (amt t : Z) : PriceObservation := {|
  o_id := mkId id; o_kind := k; o_resource_scope := no_id; o_device := no_id; o_amount := amt;
  o_currency := kDefaultCurrency; o_provenance := Provenance.CONFIGURED_POLICY;
  o_label := DataLabel.POLICY; o_valid_from_ms := 0; o_valid_to_ms := 0; o_observed_at_ms := t;
  o_generation := no_id; o_epoch := mkId 1; o_worker := mkId 1; o_boot := mkId 1 |}.

Definition tool_budget (limit : MoneyMicros) : Budget := {|
  b_id := mkId 1; b_generation := mkId 1; b_policy_generation := mkId 1; b_epoch := mkId 1;
  b_currency := kDefaultCurrency; b_mode := BudgetMode.HARD;
  b_objective := BudgetObjective.MAX_TOTAL_EXECUTION_COST; b_limit := limit;
  b_lifecycle := BudgetLifecycle.CREATED; b_reserved := 0; b_consumed := 0; b_released := 0;
  b_created_at_ms := 0; b_expires_at_ms := 0; b_label := DataLabel.POLICY |}.

Definition tool_plan (id accel transfer : Z) : ExecutionPlan := {|
  p_id := mkId id; p_generation := mkId 1; p_workload := mkId 1; p_workload_generation := mkId 1;
  p_resource := no_id; p_resource_generation := no_id; p_device := no_id;
  p_device_generation := no_id; p_placement := no_id; p_placement_generation := no_id;
  p_recovery_generation := no_id; p_worker := no_id;
  p_expected_accelerator_time := mkAmount accel; p_expected_energy := mkAmount 0;
  p_expected_transfer := mkAmount transfer; p_expected_memory_hold := mkAmount 0;
  p_expected_residency_hold := mkAmount 0; p_expected_storage := mkAmount 0;
  p_expected_retries := 0; p_expected_requests := 1; p_expected_tokens := 0;
  p_expected_operations := 0; p_recovery := RecoveryKind.NONE; p_recovery_recompute_ns := 0;
  p_meets_hard_slo := true; p_completion_probability_percent := 100; p_label := DataLabel.POLICY |}.

(** [BudgetReservation r;] *)
Definition default_reservation : BudgetReservation := {|
  r_id := no_id; r_budget := no_id; r_budget_generation := no_id; r_epoch := no_id; r_amount := 0;
  r_created_at_ms := 0; r_expires_at_ms := 0; r_state := ReservationState.ACTIVE |}.

(** Evidence with its identities, outcome and accelerator time assigned. *)
Definition tool_evidence (id req att gen worker t : Z) (completion success : bool) (evgen accel transfer : Z)
    : CostEvidence := {|
  e_id := mkId id; e_request := mkId req; e_workload := no_id; e_attempt := mkId att;
  e_attempt_gen := mkId gen; e_worker := mkId worker; e_boot := mkId 1; e_epoch := mkId 1;
  e_generation := mkId evgen; e_observed_at_ms := t; e_label := DataLabel.POLICY;
  e_completed_successfully := success; e_is_completion := completion; e_device := no_id;
  e_resource := no_id; e_accelerator_time := mkAmount accel; e_energy := mkAmount 0;
  e_transfer := mkAmount transfer; e_memory_hold := mkAmount 0; e_residency_hold := mkAmount 0;
  e_storage_bytes := mkAmount 0; e_requests := 1; e_tokens := 0; e_operations := 0;
  e_recovery_actions := 0; e_recompute_ns := 0 |}.

(** ** cg_cli.cpp *)
Module Cli.

Definition make_gov : St Impl unit :=
  set_policy (tool_policy kDefaultCurrency) ;;;
  set_worker_boot (mkId 1) (mkId 1) ;;;
  set_price_schedule (mkPriceSchedule (mkId 1) (mkId 1)
    [tool_price 1 PriceKind.ACCELERATOR_TIME 1000 tool_now;
     tool_price 2 PriceKind.TRANSFER 10000 tool_now] tool_now) ;;;
  let* limit := st_lift (@from_units wrapping 100000) in
  create_budget (tool_budget limit) ;;;
  st_ret tt.

Definition two_plans : list ExecutionPlan :=
  [tool_plan 1 2000000000 0; tool_plan 2 1000000000 5000000000].

Definition names : list string :=
  ["accelerator_time"; "energy"; "transfer"; "memory"; "residency"; "storage"; "retry"; "recovery";
   "recomputation"; "other"].

Definition print_breakdown (bd : CostBreakdown) : list string :=
  ((λ i, let c := slot bd i in
     line ["  "; default EmptyString (names !! i); ": ";
           (if cv_known c then to_string (cv_value c) else "UNKNOWN"); " "; cb_currency bd])
   <$> seq 0 kCostComponentCount)
  ++ [line ["  total: "; to_string (cb_total bd); " "; cb_currency bd]].

Definition show_policy : St Impl (list string) :=
  make_gov ;;;
  let* g := st_get in
  let p := g_policy g in
  st_ret [ line ["currency: "; pol_currency p];
           line ["ranking: "; RankingMode.ranking_mode_name (pol_ranking p)];
           line ["max_evidence_age_ms: "; dec (pol_max_evidence_age_ms p)];
           line ["near_budget_percent: "; dec (pol_near_budget_percent p);
                 " at_risk_percent: "; dec (pol_at_risk_percent p)] ].

Section commands.
Context `{IterOrder}.

Definition decide_plans : St Impl CostDecision :=
  let* g := st_get in st_lift (evaluate tool_clock g (mkId 1) two_plans).

Definition evaluate_cmd : St Impl (list string) :=
  make_gov ;;;
  let* d := decide_plans in
  st_ret ([ line ["decision: "; DecisionKind.decision_kind_name (d_kind d)];
            line ["selected plan: "; dec (value (d_selected_plan d))];
            line ["state: "; CostState.cost_state_name (d_state d)] ]
          ++ print_breakdown (d_projected d)).

(** [*find_budget(...)]: dereferencing an empty optional is undefined. *)
Definition the_budget (id : BudgetId) : St Impl Budget :=
  let* g := st_get in
  match find_budget g id with
  | Some b => st_ret b
  | None => st_lift (Throw undefined_behaviour)
  end.

Definition show_budget : St Impl (list string) :=
  make_gov ;;;
  let* amt := st_lift (@from_units wrapping 30) in
  let* (st, _) := reserve tool_clock (mkId 1) (mkId 1) (mkId 1) amt in
  let* b := the_budget (mkId 1) in
  st_ret [ line ["reserve: "; Status.status_name st];
           line ["limit: "; to_string (b_limit b); " reserved: "; to_string (b_reserved b);
                 " consumed: "; to_string (b_consumed b)] ].

Definition breakdown_evidence : CostEvidence :=
  tool_evidence 1 1 0 0 0 0 false false 0 2000000000 1000000000.

Definition show_breakdown : St Impl (list string) :=
  make_gov ;;;
  let* g := st_get in
  let* bd := st_lift (project (g_schedule g) (pol_currency (g_policy g)) tool_now
                        [breakdown_evidence]) in
  st_ret (print_breakdown bd).

Definition show_what_would_change : St Impl (list string) :=
  make_gov ;;;
  let* d := decide_plans in
  st_ret ((λ alt, line [alt_name alt; " applicable="; flag (alt_applicable alt); " projected=";
                        to_string (alt_projected_cost alt)])
          <$> ex_what_would_change (d_explanation d)).

Definition inspect_history : St Impl (list string) :=
  make_gov ;;;
  let* g := st_get in
  st_ret [line ["history entries: "; dec (Z.of_nat (length (g_history g)))]].

(** Saves to and loads from the file system [fs]. *)
Definition validate_state (io : IoFaults) (fs : Files) : res (list string) * Files :=
  match (make_gov ;;; set_state_path "cg_state.bin") initial with
  | (Throw e, _) => (Throw e, fs)
  | (Ret _, g) =>
      match persist io g fs with
      | (Throw e, fs') => (Throw e, fs')
      | (Ret saved, fs') =>
          let '(x, g2) := (set_state_path "cg_state.bin" ;;; load fs') initial in
          ((let! loaded := x in
            Ret [ line ["persist: "; Status.status_name saved];
                  line ["load: "; Status.status_name loaded];
                  line ["loadable budgets: "; dec (Z.of_nat (length (budgets_of g2)))] ]), fs')
      end
  end.

Definition replay_decision : res (list string) :=
  let! a := (st_bind make_gov (λ _, decide_plans) initial).1 in
  let! b := (st_bind make_gov (λ _, decide_plans) initial).1 in
  Ret [line ["replay identical: ";
             if bool_decide (d_selected_plan a = d_selected_plan b)
                && bool_decide (cb_total (d_projected a) = cb_total (d_projected b))
             then "YES" else "NO"]].

(** Standard output, standard error and the exit code. *)
Record Run := mkRun { out : list string; err : list string; code : Z }.

Definition exit_ok (lines : res (list string)) : res Run :=
  let! l := lines in Ret (mkRun l [] 0).

Definition main (io : IoFaults) (argv : list string) (fs : Files) : res Run * Files :=
  let cmd := default "evaluate" (argv !! 1%nat) in
  let go (m : St Impl (list string)) := (exit_ok (m initial).1, fs) in
  if decide (cmd = "show-policy") then go show_policy
  else if decide (cmd = "evaluate" ∨ cmd = "compare-plans") then go evaluate_cmd
  else if decide (cmd = "show-budget") then go show_budget
  else if decide (cmd = "show-breakdown") then go show_breakdown
  else if decide (cmd = "show-what-would-change") then go show_what_would_change
  else if decide (cmd = "inspect-history") then go inspect_history
  else if decide (cmd = "validate-state") then
    let '(x, fs') := validate_state io fs in (exit_ok x, fs')
  else if decide (cmd = "replay-decision") then (exit_ok replay_decision, fs)
  else (Ret (mkRun [] [line ["unknown command: "; cmd];
    "usage: cg [evaluate|compare-plans|show-budget|show-breakdown|show-policy|show-what-would-change|inspect-history|validate-state|replay-decision]"] 2), fs).
End commands.
End Cli.

(** ** examples/ *)
Module Examples.
Section examples.
Context `{IterOrder}.

(** [ex::gov] *)
Definition ex_gov (currency : string) : St Impl unit :=
  set_policy (tool_policy currency) ;;; set_worker_boot (mkId 1) (mkId 1).

Definition accel_price (micros_per_sec : Z) : St Impl unit :=
  set_price_schedule (mkPriceSchedule (mkId 1) (mkId 1)
    [tool_price 1 PriceKind.ACCELERATOR_TIME micros_per_sec tool_now] tool_now).

Definition transfer_price (micros_per_gb : Z) : St Impl unit :=
  let* g := st_get in
  let s := g_schedule g in
  set_price_schedule (mkPriceSchedule (s_id s) (s_generation s)
    (s_observations s ++ [tool_price 2 PriceKind.TRANSFER micros_per_gb tool_now])
    (s_created_at_ms s)).

Definition ex_plan (id ns : Z) : ExecutionPlan := tool_plan id ns 0.

Definition says (label : string) (st : Status) : string := line [label; Status.status_name st].

Definition basic_budget : St Impl (list string) :=
  ex_gov kDefaultCurrency ;;;
  let* limit := st_lift (@from_units wrapping 100) in
  let* created := create_budget (tool_budget limit) in
  let* amt := st_lift (@from_units wrapping 40) in
  let* (reserved, granted) := reserve tool_clock (mkId 1) (mkId 1) (mkId 1) amt in
  λ g,
    let r := default default_reservation granted in
    let '(x, (g1, r1)) := commit tool_clock (g, r) in
    let '(y, (g2, _)) := commit tool_clock (g1, r1) in
    ((let! committed := x in
      let! again := y in
      match find_budget g1 (mkId 1) with
      | None => Throw undefined_behaviour
      | Some after =>
          let! rest := remaining after in
          Ret [ says "create_budget: " created; says "reserve 40.00: " reserved;
                says "commit: " committed;
                line ["consumed="; to_string (b_consumed after); " reserved=";
                      to_string (b_reserved after)];
                line ["remaining="; to_string rest; " lifecycle=";
                      BudgetLifecycle.budget_lifecycle_name (b_lifecycle after)];
                says "release after commit is idempotent (no double-charge): " again ]
      end), g2).

Definition hard_budget_rejection : St Impl (list string) :=
  ex_gov kDefaultCurrency ;;; accel_price 1000 ;;; create_budget (tool_budget 2000) ;;;
  let* g := st_get in
  let* d := st_lift (evaluate tool_clock g (mkId 1) [ex_plan 1 3000000000]) in
  st_ret (line ["decision: "; DecisionKind.decision_kind_name (d_kind d)] ::
    if decide (d_kind d = DecisionKind.NO_FEASIBLE_PLAN) then
      [line ["hard budget exceeded; no feasible plan. binding constraint: ";
             FeasibilityReason.feasibility_reason_name (d_binding_constraint d)]]
    else []).

Definition component_line (label : string) (bd : CostBreakdown) (c : CostComponent) : string :=
  line [label; if cv_known (get bd c) then to_string (cv_value (get bd c)) else "UNKNOWN"].

Definition plan_economics : St Impl (list string) :=
  ex_gov kDefaultCurrency ;;; accel_price 1000 ;;; transfer_price 10000 ;;;
  let* limit := st_lift (@from_units wrapping 100000) in
  create_budget (tool_budget limit) ;;;
  let* g := st_get in
  let* d := st_lift (evaluate tool_clock g (mkId 1)
                       [ex_plan 1 2000000000; tool_plan 2 1000000000 5000000000]) in
  st_ret [ line ["decision: "; DecisionKind.decision_kind_name (d_kind d)];
           line ["selected plan: "; dec (value (d_selected_plan d))];
           line ["projected total: "; to_string (cb_total (d_projected d))];
           component_line "accelerator_time: " (d_projected d) CostComponent.ACCELERATOR_TIME;
           component_line "transfer: " (d_projected d) CostComponent.TRANSFER;
           line ["state: "; CostState.cost_state_name (d_state d)] ].

(** The in-out argument [i] carries the identity [propose_intervention] gave it. *)
Definition post_action_verification : St Impl (list string) :=
  ex_gov kDefaultCurrency ;;; accel_price 1000 ;;;
  let* (proposed, i) := propose_intervention tool_clock (mkCostIntervention no_id no_id
      InterventionKind.SELECT_CHEAPER_PLAN InterventionLifecycle.PROPOSED no_authority 0 0 0 0
      "select cheaper plan") in
  let* authorized := authorize_intervention (i_id i) (i_generation i) in
  let* acknowledged := acknowledge_intervention tool_clock (i_id i) (i_generation i) in
  let* v := verify_intervention tool_clock (i_id i) (i_generation i)
              [tool_evidence 1 1 0 0 0 0 false false 0 1000000000 0] in
  let* g := st_get in
  match interventions_of g with
  | [] => st_lift (Throw undefined_behaviour)
  | front :: _ => st_ret
      [ says "propose: " proposed; says "authorize: " authorized; says "acknowledge: " acknowledged;
        line ["verify: "; VerificationOutcome.verification_outcome_name v];
        line ["intervention lifecycle: ";
              InterventionLifecycle.intervention_lifecycle_name (i_lifecycle front)] ]
  end.

Definition ex_ev (id att ns : Z) (success : bool) : CostEvidence :=
  tool_evidence id 1 att 1 1 1000 true success 1 ns 0.

Definition retry_cost : St Impl (list string) :=
  ex_gov kDefaultCurrency ;;; accel_price 1000 ;;;
  let* s1 := record_attempt (ex_ev 10 1 2000000000 false) in
  let* s2 := record_attempt (ex_ev 11 2 1000000000 false) in
  let* s3 := record_attempt (ex_ev 12 3 3000000000 true) in
  let* g := st_get in
  let* bd := st_lift (project (g_schedule g) kDefaultCurrency 1000 (attempts_of g (mkId 1))) in
  let* s4 := record_attempt (ex_ev 12 3 3000000000 true) in
  let* g' := st_get in
  let* again := st_lift (realized_request_cost tool_clock g' (mkId 1)) in
  st_ret [ says "attempt 1 (fail, 2s): " s1; says "attempt 2 (fail, 1s): " s2;
           says "attempt 3 (ok, 3s):  " s3;
           line ["realized request cost: "; to_string (cb_total bd); " (includes all attempts)"];
           line ["accelerator_time component: ";
                 to_string (cv_value (get bd CostComponent.ACCELERATOR_TIME))];
           line ["retry component (failed attempts only): ";
                 to_string (cv_value (get bd CostComponent.RETRY))];
           says "duplicate attempt 3 rejected: " s4;
           line ["realized cost unchanged: "; to_string again] ].

Definition stale_plan_revalidation : St Impl (list string) :=
  ex_gov kDefaultCurrency ;;; accel_price 1000 ;;;
  let* limit := st_lift (@from_units wrapping 100) in
  create_budget (tool_budget limit) ;;;
  let plans := [ex_plan 1 1000000000] in
  let* g := st_get in
  let* d := st_lift (evaluate tool_clock g (mkId 1) plans) in
  let* before := st_lift (validate_for_dispatch tool_clock g d plans) in
  let s := g_schedule g in
  set_price_schedule (mkPriceSchedule (s_id s) (id_succ (s_generation s)) (s_observations s)
                        (s_created_at_ms s)) ;;;
  let* g' := st_get in
  let* after := st_lift (validate_for_dispatch tool_clock g' d plans) in
  st_ret [ line ["authorized under price generation: ";
                 dec (value (a_price_generation (d_authority d)))];
           says "pre-dispatch check (unchanged): " before;
           says "pre-dispatch check (price changed): " after ].
End examples.
End Examples.

(** ** Theorems *)

Definition commands : list string :=
  ["show-policy"; "evaluate"; "compare-plans"; "show-budget"; "show-breakdown";
   "show-what-would-change"; "inspect-history"; "validate-state"; "replay-decision"].

(** The command line tool: a word that is no command prints the usage to standard
    error and exits with 2 without touching a file; evaluate selects the plan that
    avoids the transfer and prints the components of its cost, replay-decision
    reports an identical decision, validate-state reads back the budget it saved,
    and when the state file can neither be written nor was there before, the
    exception of load ends the tool. *)
Theorem cli_commands :
  (∀ (I : IterOrder) io fs cmd, cmd ∉ commands →
     ∃ usage, Cli.main io ["cg"; cmd] fs = (Ret (Cli.mkRun [] usage 2), fs)) ∧
  (∃ lines, @Cli.main map_order no_faults ["cg"] ∅ = (Ret (Cli.mkRun lines [] 0), ∅) ∧
     take 4 lines = ["decision: AUTHORIZE"; "selected plan: 1"; "state: WITHIN_BUDGET";
                     "  accelerator_time: 0.002000 USD"] ∧
     last lines = Some "  total: 0.002000 USD") ∧
  (@Cli.main map_order no_faults ["cg"; "replay-decision"] ∅).1
    = Ret (Cli.mkRun ["replay identical: YES"] [] 0) ∧
  (@Cli.main map_order no_faults ["cg"; "show-budget"] ∅).1
    = Ret (Cli.mkRun ["reserve: OK"; "limit: 100000.000000 reserved: 30.000000 consumed: 0.000000"] [] 0) ∧
  (@Cli.main map_order no_faults ["cg"; "validate-state"] ∅).1
    = Ret (Cli.mkRun ["persist: OK"; "load: OK"; "loadable budgets: 1"] [] 0) ∧
  @Cli.main map_order (mkIoFaults false 0 false false) ["cg"; "validate-state"] ∅
    = (throw_status Status.PERSISTENCE_CORRUPT, ∅).
Proof.
  split_and!; [| |by vm_compute..].
  - intros I io fs cmd Hc. unfold commands in Hc. rewrite !not_elem_of_cons in Hc. destruct_and! Hc.
    eexists. unfold Cli.main. cbn [lookup list_lookup default].
    repeat (rewrite decide_False by (done || (intros []; done))). done.
  - eexists. split; [by vm_compute|]. split; by vm_compute.
Qed.

(** The examples print what they are there to show: a commit is charged once and
    can be repeated, a plan over a hard budget is infeasible, the cheaper plan wins
    although it uses more accelerator time, an acknowledged intervention with
    evidence is EFFECTIVE, failed attempts are part of the realized cost and
    duplicates change nothing, and a changed price schedule makes a decision stale. *)
Theorem examples_print :
  (Examples.basic_budget initial).1 = Ret
    ["create_budget: OK"; "reserve 40.00: OK"; "commit: OK"; "consumed=40.000000 reserved=0.000000";
     "remaining=60.000000 lifecycle=PARTIALLY_CONSUMED";
     "release after commit is idempotent (no double-charge): OK"] ∧
  (@Examples.hard_budget_rejection map_order initial).1 = Ret
    ["decision: NO_FEASIBLE_PLAN";
     "hard budget exceeded; no feasible plan. binding constraint: HARD_BUDGET_EXCEEDED"] ∧
  (@Examples.plan_economics map_order initial).1 = Ret
    ["decision: AUTHORIZE"; "selected plan: 1"; "projected total: 0.002000";
     "accelerator_time: 0.002000"; "transfer: UNKNOWN"; "state: WITHIN_BUDGET"] ∧
  (@Examples.post_action_verification map_order initial).1 = Ret
    ["propose: OK"; "authorize: OK"; "acknowledge: OK"; "verify: EFFECTIVE";
     "intervention lifecycle: EFFECTIVE"] ∧
  (Examples.retry_cost initial).1 = Ret
    ["attempt 1 (fail, 2s): OK"; "attempt 2 (fail, 1s): OK"; "attempt 3 (ok, 3s):  OK";
     "realized request cost: 0.006000 (includes all attempts)";
     "accelerator_time component: 0.006000"; "retry component (failed attempts only): 0.003000";
     "duplicate attempt 3 rejected: INVALID_INPUT"; "realized cost unchanged: 0.006000"] ∧
  (@Examples.stale_plan_revalidation map_order initial).1 = Ret
    ["authorized under price generation: 1"; "pre-dispatch check (unchanged): OK";
     "pre-dispatch check (price changed): STALE_AUTHORITY"].
Proof. split_and!; by vm_compute. Qed.
