(* ===== verification/Floats.v ===== *)
(** * Floats: the double arithmetic of the programs

    [double] is IEEE 754 binary64 with rounding to nearest, as the Standard Library's
    [SpecFloat] computes it; a [float] is also one.  The cost runtime itself uses no
    floating point; the GPU proof and the benchmark do. *)

From Stdlib Require Export SpecFloat.
From stdpp Require Import prelude.
From S2P Require Import Prelude.
From stdpp Require Import options.

Definition double_of (z : Z) : spec_float := binary_normalize 53 1024 z 0 false.
Definition dmul : spec_float → spec_float → spec_float := SFmul 53 1024.
Definition ddiv : spec_float → spec_float → spec_float := SFdiv 53 1024.
Definition dzero : spec_float := S754_zero false.

(** [static_cast<std::int64_t>]: truncation; undefined outside the range. *)
Definition to_int64 (x : spec_float) : option Z :=
  match x with
  | S754_zero _ => Some 0
  | S754_finite s m e =>
      let v := if 0 <=? e then Z.pos m * 2 ^ e else Z.pos m / 2 ^ (- e) in
      let z := if s then - v else v in
      if decide (in_i64 z) then Some z else None
  | _ => None
  end.
