(* ===== verification/Cuda.v ===== *)
(** * Cuda: the GPU proof program

    Models cuda/cuda_proof.cu: the kernel and its launch over the grid, the calls of
    the CUDA runtime with their checks on a device with memory and events, the
    measurements, and the economics that [main] derives from them.  What the runtime
    answers is a parameter ([Cuda]: whether the n-th call succeeds, the time between
    two recorded events, what fresh memory holds, in which order the threads of a
    launch run); a call outside its contract (an address that is not allocated, a
    copy out of an array) is undefined. *)

From stdpp Require Import prelude gmap strings.
From S2P Require Import Prelude Effects Money Identity Units Price Policy Budget Cost.
From S2P Require Import Plan Decision CostFacts Governor Evaluate Ledger System Recovery Tools.
From S2P Require Import Floats.
From stdpp Require Import options.

(** ** Machine numbers *)

Definition wrap_u32 (z : Z) : Z := z `mod` 2 ^ 32.
Definition wrap_i32 (z : Z) : Z := (z + 2 ^ 31) `mod` 2 ^ 32 - 2 ^ 31.

(** ** The kernel *)
Section saxpy.
Context {F : Type} (axpy : F → F → F → F).   (** [alpha * x + y], contracted or not *)

(** [int i = blockIdx.x * blockDim.x + threadIdx.x] *)
Definition thread_index (dim : Z) (bt : Z * Z) : Z := wrap_i32 (wrap_u32 (bt.1 * dim + bt.2)).

(** One thread of the launch on the device array [a]; [None] is an access out of
    the array. *)
Definition saxpy_thread (alpha : F) (b : list F) (n dim : Z) (a : list F) (bt : Z * Z)
    : option (list F) :=
  let i := thread_index dim bt in
  if i <? n then
    if i <? 0 then None
    else
      x ← a !! Z.to_nat i;
      y ← b !! Z.to_nat i;
      Some (<[Z.to_nat i := axpy alpha x y]> a)
  else Some a.

Fixpoint launch (alpha : F) (b : list F) (n dim : Z) (grid : list (Z * Z)) (a : list F)
    : option (list F) :=
  match grid with
  | [] => Some a
  | bt :: grid' => a' ← saxpy_thread alpha b n dim a bt; launch alpha b n dim grid' a'
  end.
End saxpy.

(** Blocks and threads of [<<<blocks, threads>>>]. *)
Definition grid_of (blocks threads : Z) : list (Z * Z) :=
  b ← seqZ 0 blocks; pair b <$> seqZ 0 threads.

Definition kThreads : Z := 256.
(** [int blocks = (n + threads - 1) / threads] *)
Definition blocks_for (n : Z) : Z := wrap_i32 (n + kThreads - 1) `quot` kThreads.

(** ** The runtime *)

Record Cuda (F : Type) := mkCuda {
  cu_ok : nat → bool;             (** whether the n-th call of the runtime succeeds *)
  cu_elapsed : nat → nat → spec_float;   (** milliseconds between two calls that record events *)
  cu_fresh : nat → Z → F;         (** what the memory holds that the n-th call allocates *)
  cu_devices : Z;                 (** what [cudaGetDeviceCount] stores *)
  cu_order : list (Z * Z) → list (Z * Z);   (** the order in which threads run *)
}.
Arguments mkCuda {F}. Arguments cu_ok {F}. Arguments cu_elapsed {F}. Arguments cu_fresh {F}.
Arguments cu_devices {F}. Arguments cu_order {F}.

(** What the program has done to the device: the number of its calls (a launch
    counts), the arrays and the events that it has created and not released (of an
    event, the call that recorded it last), and the bytes copied either way. *)
Record Device (F : Type) := mkDevice {
  dv_calls : nat;
  dv_mem : gmap nat (list F);
  dv_events : gmap nat (option nat);
  dv_moved : Z;
}.
Arguments mkDevice {F}. Arguments dv_calls {F}. Arguments dv_mem {F}. Arguments dv_events {F}.
Arguments dv_moved {F}.
Definition no_device {F} : Device F := mkDevice 0 ∅ ∅ 0.

(** A program that may call [std::exit], or break a contract of the runtime or of
    the language. *)
Inductive Stop := exit_with (code : Z) | undefined.
Definition Cu (F A : Type) : Type := Device F → (Stop + A) * Device F.
Definition cu_ret {F A} (a : A) : Cu F A := λ d, (inr a, d).
Definition cu_undefined {F A} : Cu F A := λ d, (inl undefined, d).
Definition cu_bind {F A B} (m : Cu F A) (k : A → Cu F B) : Cu F B := λ d,
  match m d with (inr a, d') => k a d' | (inl stop, d') => (inl stop, d') end.
#[local] Notation "'let^' x := m 'in' k" := (cu_bind m (λ x, k))
  (at level 10, x pattern, k at level 200).
#[local] Notation "m ;^ k" := (cu_bind m (λ _, k)) (at level 190, right associativity).
Definition cu_some {F A} (x : option A) : Cu F A :=
  match x with Some a => cu_ret a | None => cu_undefined end.

Section run.
Context {F : Type} (axpy : F → F → F → F) (cu : Cuda F).

(** The effect of a call on what it was given, if it is a call that is allowed. *)
Definition effect (A : Type) : Type :=
  nat → gmap nat (list F) → gmap nat (option nat) → Z →
  option (A * gmap nat (list F) * gmap nat (option nat) * Z).
Definition perform {A} (f : effect A) : Cu F A := λ d,
  match f (dv_calls d) (dv_mem d) (dv_events d) (dv_moved d) with
  | Some (a, mem, evs, moved) => (inr a, mkDevice (S (dv_calls d)) mem evs moved)
  | None => (inl undefined, d)
  end.

(** [check(call, what)]: a failed call exits with code 2. *)
Definition checked {A} (f : effect A) : Cu F A := λ d,
  if cu_ok cu (dv_calls d) then perform f d
  else (inl (exit_with 2), mkDevice (S (dv_calls d)) (dv_mem d) (dv_events d) (dv_moved d)).

(** A call that only answers: [cudaDeviceSynchronize] and the device queries. *)
Definition plain_call : Cu F unit := checked (λ _ mem evs moved, Some (tt, mem, evs, moved)).

(** Sizes are in bytes; a float has four. *)
Definition cuda_malloc (size : Z) : Cu F nat := checked (λ n mem evs moved,
  let address := fresh (dom mem) in
  Some (address, <[address := cu_fresh cu n <$> seqZ 0 (size / 4)]> mem, evs, moved)).
Definition cuda_free (address : nat) : Cu F unit := checked (λ _ mem evs moved,
  match mem !! address with
  | Some _ => Some (tt, delete address mem, evs, moved)
  | None => None
  end).

(** The first [size] bytes of [src] over those of [dst], both at least as long. *)
Definition copy_over (dst src : list F) (size : Z) : option (list F) :=
  let k := Z.to_nat (size / 4) in
  if decide (k ≤ length dst ∧ k ≤ length src)%nat then Some (take k src ++ drop k dst) else None.

(** [cudaMemcpy(dst, src, size, cudaMemcpyHostToDevice)] *)
Definition cuda_memcpy_h2d (dst : nat) (src : list F) (size : Z) : Cu F unit :=
  checked (λ _ mem evs moved,
    array ← mem !! dst;
    array' ← copy_over array src size;
    Some (tt, <[dst := array']> mem, evs, moved + size)).
(** [cudaMemcpy(dst, src, size, cudaMemcpyDeviceToHost)]: the host's array afterwards. *)
Definition cuda_memcpy_d2h (dst : list F) (src : nat) (size : Z) : Cu F (list F) :=
  checked (λ _ mem evs moved,
    array ← mem !! src;
    dst' ← copy_over dst array size;
    Some (dst', mem, evs, moved + size)).

Definition cuda_event_create : Cu F nat := checked (λ _ mem evs moved,
  let event := fresh (dom evs) in Some (event, mem, <[event := None]> evs, moved)).
Definition cuda_event_record (event : nat) : Cu F unit := checked (λ n mem evs moved,
  match evs !! event with
  | Some _ => Some (tt, mem, <[event := Some n]> evs, moved)
  | None => None
  end).
Definition cuda_event_elapsed (t0 t1 : nat) : Cu F spec_float := checked (λ _ mem evs moved,
  match evs !! t0, evs !! t1 with
  | Some (Some n0), Some (Some n1) => Some (cu_elapsed cu n0 n1, mem, evs, moved)
  | _, _ => None
  end).
Definition cuda_event_destroy (event : nat) : Cu F unit := checked (λ _ mem evs moved,
  match evs !! event with
  | Some _ => Some (tt, mem, delete event evs, moved)
  | None => None
  end).

(** [saxpy<<<blocks, threads>>>(da, db, alpha, n)], whose result is not checked. *)
Definition cuda_launch (blocks threads : Z) (da db : nat) (alpha : F) (n : Z) : Cu F unit :=
  perform (λ _ mem evs moved,
    a ← mem !! da;
    b ← mem !! db;
    a' ← launch axpy alpha b n threads (cu_order cu (grid_of blocks threads)) a;
    Some (tt, <[da := a']> mem, evs, moved)).

Record Measured := mkMeasured { ms_device_ns : Z; ms_bytes : Z; ms_alloc_bytes : Z }.

(** [run_workload(n)], with the contents of [hOut]. *)
Definition run_workload (one two zero : F) (n : Z) : Cu F (Measured * list F) :=
  let bytes := n * 4 in
  let^ da := cuda_malloc bytes in
  let^ db := cuda_malloc bytes in
  let hA := replicate (Z.to_nat n) one in
  let hB := replicate (Z.to_nat n) two in
  let hOut := replicate (Z.to_nat n) zero in
  cuda_memcpy_h2d da hA bytes ;^
  cuda_memcpy_h2d db hB bytes ;^
  let^ t0 := cuda_event_create in
  let^ t1 := cuda_event_create in
  cuda_event_record t0 ;^
  let threads := kThreads in
  let blocks := blocks_for n in
  cuda_launch blocks threads da db two n ;^
  cuda_event_record t1 ;^
  plain_call ;^
  let^ ms := cuda_event_elapsed t0 t1 in
  let^ hOut := cuda_memcpy_d2h hOut da bytes in
  plain_call ;^
  cuda_free da ;^
  cuda_free db ;^
  cuda_event_destroy t0 ;^
  cuda_event_destroy t1 ;^
  let^ ns := cu_some (to_int64 (dmul ms (double_of 1000000))) in
  cu_ret (mkMeasured ns (bytes * 2) (bytes * 2), hOut).
End run.

(** ** main *)

Definition cuda_policy : CostPolicy := {|
  pol_id := pol_id default_policy; pol_generation := mkId 1; pol_epoch := mkId 1;
  pol_currency := kDefaultCurrency; pol_ranking := pol_ranking default_policy;
  pol_min_evidence_freshness_ms := pol_min_evidence_freshness_ms default_policy;
  pol_max_evidence_age_ms := 600000; pol_price_schedule_max_age_ms := 600000;
  pol_max_projection_uncertainty := pol_max_projection_uncertainty default_policy;
  pol_hysteresis_ms := pol_hysteresis_ms default_policy;
  pol_cooldown_ms := pol_cooldown_ms default_policy;
  pol_near_budget_percent := pol_near_budget_percent default_policy;
  pol_at_risk_percent := pol_at_risk_percent default_policy;
  pol_retry_budget := pol_retry_budget default_policy;
  pol_recovery_budget := pol_recovery_budget default_policy;
  pol_recovery_cost_known := pol_recovery_cost_known default_policy;
  pol_allow_synthetic := true; pol_allow_policy := true; pol_allow_measured := true |}.

Definition cuda_schedule : PriceSchedule := mkPriceSchedule (mkId 1) (mkId 1)
  [ tool_price 1 PriceKind.ACCELERATOR_TIME 1000 tool_now;
    tool_price 2 PriceKind.TRANSFER 10000 tool_now;
    tool_price 3 PriceKind.ENERGY 200000 tool_now ] tool_now.

Definition cuda_governor : St Impl unit :=
  set_policy cuda_policy ;;;
  set_price_schedule cuda_schedule ;;;
  let* limit := st_lift (@from_units wrapping 100) in
  create_budget (tool_budget limit) ;;;
  st_ret tt.

Definition power_watts : Z := 300.
(** The energy of a plan from its measured time, in doubles. *)
Definition energy_estimate (dev_ns : Z) : option Z :=
  to_int64 (dmul (dmul (ddiv (double_of dev_ns) (double_of 1000000000)) (double_of power_watts))
                 (double_of 1000000)).

Definition cuda_plan (id dev_ns bytes energy : Z) : ExecutionPlan := {|
  p_id := mkId id; p_generation := mkId 1; p_workload := mkId 1; p_workload_generation := mkId 1;
  p_resource := no_id; p_resource_generation := no_id; p_device := no_id;
  p_device_generation := no_id; p_placement := no_id; p_placement_generation := no_id;
  p_recovery_generation := no_id; p_worker := no_id;
  p_expected_accelerator_time := mkAmount dev_ns; p_expected_energy := mkAmount energy;
  p_expected_transfer := mkAmount bytes; p_expected_memory_hold := mkAmount 0;
  p_expected_residency_hold := mkAmount 0; p_expected_storage := mkAmount 0;
  p_expected_retries := 0; p_expected_requests := 1; p_expected_tokens := 0;
  p_expected_operations := 0; p_recovery := RecoveryKind.NONE; p_recovery_recompute_ns := 0;
  p_meets_hard_slo := true; p_completion_probability_percent := 100; p_label := DataLabel.POLICY |}.

(** The two attempts of the retry part. *)
Definition cuda_attempt (id att dev_ns : Z) (success : bool) : CostEvidence :=
  tool_evidence id 1 att 1 1 tool_now true success 1 dev_ns 0.

Record Report := mkReport {
  rp_total_a : MoneyMicros; rp_total_b : MoneyMicros; rp_select_a : bool;
  rp_retry_total : MoneyMicros; rp_duplicate : Status }.

Section main.
Context `{IterOrder}.

Definition plan_econ (g : Impl) (id dev_ns bytes : Z) : option (res CostDecision) :=
  energy ← energy_estimate dev_ns;
  Some (evaluate tool_clock g (mkId 1) [cuda_plan id dev_ns bytes energy]).

(** The retry part, on its own governor: a failed and a successful attempt. *)
Definition retry_attempts (dev_ns : Z) : St Impl Status :=
  set_policy cuda_policy ;;;
  set_worker_boot (mkId 1) (mkId 1) ;;;
  set_price_schedule cuda_schedule ;;;
  record_attempt (cuda_attempt 50 1 dev_ns false) ;;;
  record_attempt (cuda_attempt 51 2 dev_ns true).
Definition retry_economics (dev_ns : Z) : St Impl (MoneyMicros * Status) :=
  retry_attempts dev_ns ;;;
  let* g := st_get in
  let* bd := st_lift (project (g_schedule g) kDefaultCurrency tool_now (attempts_of g (mkId 1))) in
  let* dup := record_attempt (cuda_attempt 51 2 dev_ns true) in
  st_ret (cb_total bd, dup).

(** What [main] computes from the measurements. *)
Definition economics (ma mb : Measured) : option (res Report) :=
  let g := (cuda_governor initial).2 in
  da ← plan_econ g 1 (ms_device_ns ma) (ms_bytes ma);
  db ← plan_econ g 2 (ms_device_ns mb) (ms_bytes mb);
  Some (
    let! da := da in
    let! db := db in
    let! (total, dup) := (retry_economics (ms_device_ns ma) initial).1 in
    Ret (mkReport (cb_total (d_projected da)) (cb_total (d_projected db))
           (cb_total (d_projected da) <=? cb_total (d_projected db)) total dup)).

(** How [main] ends when it is not by [std::exit]: with an exit code, or with an
    exception that nobody catches. *)
Inductive Ending := ends (code : Z) (rep : option Report) | uncaught (e : exn).

Definition cuda_main {F} (axpy : F → F → F → F) (one two zero : F) (cu : Cuda F) : Cu F Ending :=
  plain_call cu ;^
  if cu_devices cu <? 1 then cu_ret (ends 2 None)
  else
    plain_call cu ;^
    plain_call cu ;^
    let^ (ma, _) := run_workload axpy cu one two zero (2 ^ 20) in
    let^ (mb, _) := run_workload axpy cu one two zero (4 * 2 ^ 20) in
    let^ result := cu_some (economics ma mb) in
    match result with
    | Throw e => cu_ret (uncaught e)
    | Ret rep =>
        if decide (rp_duplicate rep ≠ Status.INVALID_INPUT) then cu_ret (ends 3 (Some rep))
        else plain_call cu ;^ cu_ret (ends 0 (Some rep))
    end.
End main.

(** ** The launch covers the array *)

Lemma thread_index_small dim bt :
  0 ≤ bt.1 * dim + bt.2 < 2 ^ 31 → thread_index dim bt = bt.1 * dim + bt.2.
Proof.
  intros Hb. unfold thread_index, wrap_i32, wrap_u32.
  rewrite (Z.mod_small (bt.1 * dim + bt.2)) by lia. rewrite Z.mod_small by lia. lia.
Qed.

(** The threads' indices, block by block, are the numbers below [blocks * threads]. *)
Lemma grid_indices blocks threads :
  0 ≤ threads → 0 ≤ blocks → blocks * threads ≤ 2 ^ 31 →
  thread_index threads <$> grid_of blocks threads = seqZ 0 (blocks * threads).
Proof.
  intros Ht Hb. revert blocks Hb. apply (natlike_ind (λ blocks, blocks * threads ≤ 2 ^ 31 →
    thread_index threads <$> grid_of blocks threads = seqZ 0 (blocks * threads))); [done|].
  intros n Hn IH Hle. rewrite <-Z.add_1_r in *. unfold grid_of in *.
  rewrite (seqZ_app 0 n 1), bind_app, fmap_app, IH by nia.
  rewrite Z.mul_add_distr_r, Z.mul_1_l, (seqZ_app 0 (n * threads) threads) by nia. f_equal.
  change (seqZ (0 + n) 1) with [0 + n]. rewrite bind_singleton, !Z.add_0_l, <-list_fmap_compose.
  rewrite <-(Z.add_0_r (n * threads)), <-fmap_add_seqZ. apply list_fmap_ext. intros i t Hit.
  apply list_elem_of_lookup_2, elem_of_seqZ in Hit. cbn. rewrite thread_index_small; cbn; nia.
Qed.

(** Threads with indices of their own write each element at most once. *)
Lemma launch_spec {F} (axpy : F → F → F → F) alpha b n dim grid a :
  length a = Z.to_nat n → length b = Z.to_nat n → NoDup (thread_index dim <$> grid) →
  Forall (λ i, 0 ≤ i) (thread_index dim <$> grid) →
  ∃ a', launch axpy alpha b n dim grid a = Some a' ∧ length a' = Z.to_nat n ∧
    ∀ k x y, a !! k = Some x → b !! k = Some y →
      a' !! k = Some (if decide (Z.of_nat k ∈ thread_index dim <$> grid) then axpy alpha x y else x).
Proof.
  intros Ha Hb. revert a Ha. induction grid as [|bt grid IH]; intros a Ha Hnd Hpos.
  { exists a. by split_and!. }
  cbn [launch]. rewrite fmap_cons in *. apply NoDup_cons in Hnd as [Hni Hnd].
  apply Forall_cons in Hpos as [Hi Hpos]. set (i := thread_index dim bt) in *.
  unfold saxpy_thread. fold i. destruct (Z.ltb_spec i n) as [Hlt|Hge].
  - rewrite (proj2 (Z.ltb_ge i 0)) by lia.
    destruct (lookup_lt_is_Some_2 a (Z.to_nat i)) as [x Hx]; [lia|].
    destruct (lookup_lt_is_Some_2 b (Z.to_nat i)) as [y Hy]; [lia|]. rewrite Hx, Hy. cbn.
    destruct (IH (<[Z.to_nat i := axpy alpha x y]> a)) as (a' & -> & Hl & Hk);
      [by rewrite length_insert|done|done|].
    exists a'. split_and!; [done|done|]. intros k x' y' Hx' Hy'.
    destruct (decide (k = Z.to_nat i)) as [->|Hne].
    + rewrite (Hk _ (axpy alpha x y) y) by (done || (rewrite list_lookup_insert_eq; [done|lia])).
      rewrite decide_False by (by rewrite Z2Nat.id by lia). rewrite decide_True by (rewrite Z2Nat.id by lia; set_solver).
      congruence.
    + rewrite (Hk _ x' y') by (done || by rewrite list_lookup_insert_ne).
      assert (Z.of_nat k ≠ i) by lia. repeat case_decide; set_solver.
  - cbn. destruct (IH a Ha Hnd Hpos) as (a' & -> & Hl & Hk). exists a'. split_and!; [done|done|].
    intros k x y Hx Hy. rewrite (Hk k x y Hx Hy). assert (Z.of_nat k ≠ i).
    { apply lookup_lt_Some in Hx. lia. }
    repeat case_decide; set_solver.
Qed.

Lemma blocks_cover n : 0 < n ≤ 2 ^ 31 - 256 → n ≤ blocks_for n * kThreads ≤ 2 ^ 31.
Proof.
  intros Hn. unfold blocks_for, kThreads, wrap_i32. rewrite Z.mod_small by lia.
  replace (n + 256 - 1 + 2 ^ 31 - 2 ^ 31) with (n + 255) by lia. rewrite Z.quot_div_nonneg by lia.
  pose proof (Z.div_mod (n + 255) 256 ltac:(lia)). pose proof (Z.mod_pos_bound (n + 255) 256 ltac:(lia)). lia.
Qed.

(** The whole launch. *)
Lemma launch_all {F} (axpy : F → F → F → F) alpha a b n grid :
  0 < n ≤ 2 ^ 31 - 256 → length a = Z.to_nat n → length b = Z.to_nat n →
  grid ≡ₚ grid_of (blocks_for n) kThreads →
  launch axpy alpha b n kThreads grid a = Some (zip_with (axpy alpha) a b).
Proof.
  intros Hn Ha Hb Hg. pose proof (blocks_cover n Hn) as Hc.
  assert (thread_index kThreads <$> grid ≡ₚ seqZ 0 (blocks_for n * kThreads)) as Hidx.
  { rewrite Hg. apply reflexive_eq, grid_indices; unfold kThreads in *; lia. }
  destruct (launch_spec axpy alpha b n kThreads grid a Ha Hb) as (a' & -> & Hl & Hk).
  - rewrite Hidx. apply NoDup_seqZ.
  - rewrite Hidx. apply Forall_forall. intros i Hi%elem_of_seqZ. lia.
  - f_equal. apply list_eq. intros k. destruct (decide (k < Z.to_nat n)%nat) as [Hlt|Hge].
    + destruct (lookup_lt_is_Some_2 a k) as [x Hx]; [lia|].
      destruct (lookup_lt_is_Some_2 b k) as [y Hy]; [lia|].
      rewrite (Hk k x y Hx Hy), decide_True, lookup_zip_with, Hx; [cbn; by rewrite Hy|].
      rewrite Hidx. apply elem_of_seqZ. lia.
    + rewrite !lookup_ge_None_2; rewrite ?length_zip_with; [done|lia..].
Qed.

(** *** Runs in which every call is answered *)
Section answered.
Context {F : Type} (axpy : F → F → F → F) (cu : Cuda F) (Hok : ∀ k, cu_ok cu k = true).
Implicit Types (mem : gmap nat (list F)) (evs : gmap nat (option nat)).

Lemma run_checked {A B} (f : effect A) (k : A → Cu F B) n mem evs moved a mem' evs' moved' :
  f n mem evs moved = Some (a, mem', evs', moved') →
  cu_bind (checked cu f) k (mkDevice n mem evs moved) = k a (mkDevice (S n) mem' evs' moved').
Proof using Hok. intros Hf. unfold cu_bind, checked, perform. cbn. by rewrite Hok, Hf. Qed.

Lemma run_launch {B} blocks threads da db alpha n (k : unit → Cu F B) m mem evs moved a b a' :
  mem !! da = Some a → mem !! db = Some b →
  launch axpy alpha b n threads (cu_order cu (grid_of blocks threads)) a = Some a' →
  cu_bind (cuda_launch axpy cu blocks threads da db alpha n) k (mkDevice m mem evs moved) =
    k tt (mkDevice (S m) (<[da := a']> mem) evs moved).
Proof.
  intros Ha Hb Hl. unfold cu_bind, cuda_launch, perform. cbn. rewrite Ha. cbn. rewrite Hb. cbn.
  by rewrite Hl.
Qed.

(** A copy of a whole array. *)
Lemma copy_whole (dst src : list F) (n : Z) :
  length dst = Z.to_nat n → length src = Z.to_nat n → copy_over dst src (n * 4) = Some src.
Proof.
  intros Hd Hs. unfold copy_over. rewrite Z.div_mul by lia. rewrite decide_True by lia.
  rewrite <-Hs at 1. rewrite firstn_all, drop_ge by lia. by rewrite app_nil_r.
Qed.

Lemma fresh_length k n : length (cu_fresh cu k <$> seqZ 0 (n * 4 / 4)) = Z.to_nat n.
Proof. rewrite length_fmap, length_seqZ, Z.div_mul by lia. done. Qed.

(** What the calls do when they are allowed. *)
Lemma run_plain {B} (k : unit → Cu F B) n mem evs moved :
  cu_bind (plain_call cu) k (mkDevice n mem evs moved) = k tt (mkDevice (S n) mem evs moved).
Proof using Hok. by apply run_checked. Qed.
Lemma run_malloc {B} size (k : nat → Cu F B) n mem evs moved :
  cu_bind (cuda_malloc cu size) k (mkDevice n mem evs moved) =
    k (fresh (dom mem)) (mkDevice (S n)
      (<[fresh (dom mem) := cu_fresh cu n <$> seqZ 0 (size / 4)]> mem) evs moved).
Proof using Hok. by apply run_checked. Qed.
Lemma run_free {B} address (k : unit → Cu F B) n mem evs moved a :
  mem !! address = Some a →
  cu_bind (cuda_free cu address) k (mkDevice n mem evs moved) =
    k tt (mkDevice (S n) (delete address mem) evs moved).
Proof using Hok. intros Ha. apply run_checked. by rewrite Ha. Qed.
Lemma run_h2d {B} dst src size (k : unit → Cu F B) n mem evs moved a a' :
  mem !! dst = Some a → copy_over a src size = Some a' →
  cu_bind (cuda_memcpy_h2d cu dst src size) k (mkDevice n mem evs moved) =
    k tt (mkDevice (S n) (<[dst := a']> mem) evs (moved + size)).
Proof using Hok. intros Ha Hc. apply run_checked. rewrite Ha. cbn. by rewrite Hc. Qed.
Lemma run_d2h {B} dst src size (k : list F → Cu F B) n mem evs moved a dst' :
  mem !! src = Some a → copy_over dst a size = Some dst' →
  cu_bind (cuda_memcpy_d2h cu dst src size) k (mkDevice n mem evs moved) =
    k dst' (mkDevice (S n) mem evs (moved + size)).
Proof using Hok. intros Ha Hc. apply run_checked. rewrite Ha. cbn. by rewrite Hc. Qed.
Lemma run_create {B} (k : nat → Cu F B) n mem evs moved :
  cu_bind (cuda_event_create cu) k (mkDevice n mem evs moved) =
    k (fresh (dom evs)) (mkDevice (S n) mem (<[fresh (dom evs) := None]> evs) moved).
Proof using Hok. by apply run_checked. Qed.
Lemma run_record {B} event (k : unit → Cu F B) n mem evs moved x :
  evs !! event = Some x →
  cu_bind (cuda_event_record cu event) k (mkDevice n mem evs moved) =
    k tt (mkDevice (S n) mem (<[event := Some n]> evs) moved).
Proof using Hok. intros Hx. apply run_checked. by rewrite Hx. Qed.
Lemma run_elapsed {B} t0 t1 (k : spec_float → Cu F B) n mem evs moved n0 n1 :
  evs !! t0 = Some (Some n0) → evs !! t1 = Some (Some n1) →
  cu_bind (cuda_event_elapsed cu t0 t1) k (mkDevice n mem evs moved) =
    k (cu_elapsed cu n0 n1) (mkDevice (S n) mem evs moved).
Proof using Hok. intros H0 H1. apply run_checked. by rewrite H0, H1. Qed.
Lemma run_destroy {B} event (k : unit → Cu F B) n mem evs moved x :
  evs !! event = Some x →
  cu_bind (cuda_event_destroy cu event) k (mkDevice n mem evs moved) =
    k tt (mkDevice (S n) mem (delete event evs) moved).
Proof using Hok. intros Hx. apply run_checked. by rewrite Hx. Qed.

(** Two fresh keys and their removal. *)
Lemma fresh_two {V} (m : gmap nat V) v :
  m !! fresh (dom m) = None ∧ m !! fresh (dom (<[fresh (dom m) := v]> m)) = None ∧
  fresh (dom (<[fresh (dom m) := v]> m)) ≠ fresh (dom m).
Proof.
  pose proof (is_fresh (dom m)) as H1. pose proof (is_fresh (dom (<[fresh (dom m) := v]> m))) as H2.
  rewrite dom_insert in H2 at 2. apply not_elem_of_union in H2 as [Hne Hm].
  split_and!; [by apply not_elem_of_dom|by apply not_elem_of_dom|].
  intros Heq. apply Hne. rewrite Heq. by apply elem_of_singleton.
Qed.
End answered.

(** ** Theorems *)

(** C31. The kernel launch computes saxpy: for every array length up to 2^31 - 256, in
    whatever order the threads of the launch run, no thread leaves its array and
    every element is updated exactly once, so that the result is [alpha * a + b],
    element by element. *)
Theorem launch_is_saxpy {F} (axpy : F → F → F → F) alpha a b n grid :
  0 < n ≤ 2 ^ 31 - 256 → length a = Z.to_nat n → length b = Z.to_nat n →
  grid ≡ₚ grid_of (blocks_for n) kThreads →
  launch axpy alpha b n kThreads grid a = Some (zip_with (axpy alpha) a b).
Proof. apply launch_all. Qed.

Lemma launch_is_saxpy_witness :
  launch (λ al x y, al * x + y) 2 [10; 20; 30] 3 kThreads
    (reverse (grid_of (blocks_for 3) kThreads)) [1; 2; 3] = Some [12; 24; 36].
Proof.
  rewrite (launch_is_saxpy (λ al x y, al * x + y) 2 [1; 2; 3] [10; 20; 30] 3
    (reverse (grid_of (blocks_for 3) kThreads))); [done|lia|done|done|apply reverse_Permutation].
Defined.

(** C38. What the workload measures: for every array length up to 2^31 - 256, when the
    runtime answers every call and the launch runs all threads in some order, then, whatever the fresh device memory holds and
    whatever else is on the device, the array copied back into [hOut] is the kernel's
    ([2 * 1 + 2] in every element), the time is the one between the two events
    recorded just before and just after the launch (the seventh and the ninth call;
    it is assumed to fit an [int64_t]), memory and events are released again so that
    the device is left as it was, and three copies of the array's size crossed the
    bus, of which the measurement reports two. *)
Theorem workload_measures {F} (axpy : F → F → F → F) cu one two zero n ns d :
  (∀ k, cu_ok cu k = true) → (∀ g, cu_order cu g ≡ₚ g) → 0 < n ≤ 2 ^ 31 - 256 →
  to_int64 (dmul (cu_elapsed cu (6 + dv_calls d) (8 + dv_calls d)) (double_of 1000000)) = Some ns →
  run_workload axpy cu one two zero n d =
    (inr (mkMeasured ns (n * 4 * 2) (n * 4 * 2), replicate (Z.to_nat n) (axpy two one two)),
     mkDevice (17 + dv_calls d) (dv_mem d) (dv_events d) (dv_moved d + 3 * (n * 4))).
Proof.
  intros Hok Hord Hn Hns. destruct d as [k mem evs moved]. cbn [dv_calls dv_mem dv_events dv_moved] in *.
  assert (∀ x : F, length (replicate (Z.to_nat n) x) = Z.to_nat n) as Hrep by (intros x; apply length_replicate).
  unfold run_workload. do 2 rewrite (run_malloc cu Hok).
  pose proof (fresh_length cu k n) as Hfa. pose proof (fresh_length cu (S k) n) as Hfb.
  set (fa := cu_fresh cu k <$> _) in *. set (fb := cu_fresh cu (S k) <$> _) in *.
  destruct (fresh_two mem fa) as (Ha & Hb & Hab). destruct (fresh_two evs None) as (He0 & He1 & He01).
  set (da := fresh (dom mem)) in *. set (db := fresh (dom (<[da := fa]> mem))) in *. clearbody da db.
  erewrite (run_h2d cu Hok), (run_h2d cu Hok), !(run_create cu Hok) by first [by simplify_map_eq|by apply copy_whole].
  set (t0 := fresh (dom evs)) in *. set (t1 := fresh (dom (<[t0 := None]> evs))) in *. clearbody t0 t1.
  erewrite (run_record cu Hok), (run_launch axpy cu), (run_record cu Hok), (run_plain cu Hok)
    by first [by simplify_map_eq|by apply launch_all].
  rewrite zip_with_replicate by done.
  erewrite (run_elapsed cu Hok), (run_d2h cu Hok), (run_plain cu Hok)
    by first [by simplify_map_eq|by apply copy_whole].
  erewrite (run_free cu Hok), (run_free cu Hok), (run_destroy cu Hok), (run_destroy cu Hok) by by simplify_map_eq.
  cbn [Nat.add] in Hns. rewrite Hns. unfold cu_some, cu_bind, cu_ret. do 2 f_equal; [..|lia];
    apply map_eq; intros i; destruct (decide (i = da)), (decide (i = db)), (decide (i = t0)),
      (decide (i = t1)); subst; by simplify_map_eq.
Qed.

(** A runtime that answers every call, a launch in reverse, 1 ms per event pair. *)
Definition calm_cuda : Cuda Z := mkCuda (λ _, true) (λ _ _, double_of 1) (λ _ i, i - 7) 1 reverse.

Lemma workload_measures_witness :
  run_workload (λ al x y, al * x + y) calm_cuda 1 2 0 300 no_device =
    (inr (mkMeasured 1000000 2400 2400, replicate 300 4), mkDevice 17 ∅ ∅ 3600).
Proof.
  apply (workload_measures (λ al x y, al * x + y) calm_cuda 1 2 0 300 1000000 no_device);
    [done|intros g; apply reverse_Permutation|lia|by vm_compute].
Defined.

(** ** The retry part *)

(** The attempts that are recorded: negative times are refused. *)
Definition retried (dev_ns : Z) : list CostEvidence :=
  if dev_ns <? 0 then []
  else [cuda_attempt 50 1 dev_ns false; cuda_attempt 51 2 dev_ns true].

Lemma retry_economics_eq dev_ns :
  (retry_economics dev_ns initial).1 =
    (let! bd := project cuda_schedule kDefaultCurrency tool_now (retried dev_ns) in
     Ret (cb_total bd, Status.INVALID_INPUT)).
Proof.
  assert (∃ st g, retry_attempts dev_ns initial = (Ret st, g) ∧ g_schedule g = cuda_schedule ∧
    attempts_of g (mkId 1) = retried dev_ns ∧
    record_attempt (cuda_attempt 51 2 dev_ns true) g = (Ret Status.INVALID_INPUT, g))
    as (st & g & Hr & Hs & Ha & Hd).
  { destruct dev_ns; eexists _, _; (split; [vm_compute; reflexivity|]); by vm_compute. }
  unfold retry_economics, st_bind. rewrite Hr. unfold st_get, st_lift. rewrite Ha, Hs.
  destruct (project _ _ _ _) as [bd|e]; cbn [res_bind]; [|done]. by rewrite Hd.
Qed.

(** The price of an attempt's accelerator time. *)
Lemma retried_price id att dev_ns success :
  price_of cuda_schedule kDefaultCurrency tool_now (cuda_attempt id att dev_ns success)
    CostComponent.ACCELERATOR_TIME = Some (1000, kNsPerSecond).
Proof. by vm_compute. Qed.

Lemma retried_charge dev_ns id att success :
  0 ≤ dev_ns → dev_ns * 1000 ≤ U64_MAX →
  let ev := cuda_attempt id att dev_ns success in
  attempt_chargeable cuda_schedule kDefaultCurrency tool_now ev ∧
  attempt_cost cuda_schedule kDefaultCurrency tool_now ev = ceil_div (dev_ns * 1000) kNsPerSecond.
Proof.
  intros H0 Hle ev. split.
  - unfold attempt_chargeable, charges.
    apply Forall_cons. split; [|by repeat (apply Forall_cons; split; [intros Hne; by destruct Hne|]); apply Forall_nil].
    intros _. exists 1000, kNsPerSecond. split; [apply retried_price|].
    split_and!; [done|done|]. pose proof (ceil_div_bounds (dev_ns * 1000) kNsPerSecond ltac:(done)).
    unfold kNsPerSecond in *. cbn. widths. lia.
  - assert (∀ c, component_value cuda_schedule kDefaultCurrency tool_now ev c 0 = 0) as Hz by done.
    assert (component_value cuda_schedule kDefaultCurrency tool_now ev CostComponent.ACCELERATOR_TIME dev_ns
      = ceil_div (dev_ns * 1000) kNsPerSecond) as Hv.
    { unfold component_value. case_decide as Hd; [by rewrite Hd|]. unfold ev. by rewrite retried_price. }
    unfold attempt_cost, measurable_cost, measurable. rewrite !fmap_cons, !sumZ_cons, fmap_nil.
    change (e_recompute_ns ev) with 0. change (count (e_accelerator_time ev)) with dev_ns.
    rewrite Hv, !Hz. unfold sumZ. cbn [foldr]. lia.
Qed.

(** Failed attempts are paid for: for every measured time, the retry part of the
    program reports the cost of the failed and of the successful attempt together,
    each rounded up to a micro-unit, and the duplicate completion is refused. *)
Theorem retry_pays_both dev_ns :
  0 ≤ dev_ns → dev_ns * 1000 ≤ U64_MAX →
  (retry_economics dev_ns initial).1 =
    Ret (2 * ceil_div (dev_ns * 1000) kNsPerSecond, Status.INVALID_INPUT).
Proof.
  intros H0 Hle. rewrite retry_economics_eq. unfold retried. rewrite (proj2 (Z.ltb_ge dev_ns 0)) by lia.
  destruct (retried_charge dev_ns 50 1 false H0 Hle) as [Hc1 Hv1].
  destruct (retried_charge dev_ns 51 2 true H0 Hle) as [Hc2 Hv2].
  pose proof (ceil_div_bounds (dev_ns * 1000) kNsPerSecond ltac:(done)) as Hb.
  set (evs := [cuda_attempt 50 1 dev_ns false; cuda_attempt 51 2 dev_ns true]).
  assert (sumZ (attempt_cost cuda_schedule kDefaultCurrency tool_now <$> evs)
    = 2 * ceil_div (dev_ns * 1000) kNsPerSecond) as Hsum.
  { unfold evs. rewrite !fmap_cons, !sumZ_cons, Hv1, Hv2. unfold sumZ. cbn. lia. }
  assert (Forall evidence_ok evs) as Hev.
  { unfold evs. repeat constructor; try done; cbn; widths; lia. }
  destruct (project_ret cuda_schedule kDefaultCurrency tool_now evs) as [bd Hbd];
    [by_compute|done|by apply Forall_cons; split; [|apply Forall_singleton]|rewrite Hsum; unfold kNsPerSecond in *; widths; lia|].
  rewrite Hbd. cbn [res_bind]. apply project_inv in Hbd as (_ & -> & _); [|by_compute|done].
  by rewrite Hsum.
Qed.

Lemma retry_pays_both_witness :
  (retry_economics 1500000001 initial).1 = Ret (3002, Status.INVALID_INPUT).
Proof. rewrite (retry_pays_both 1500000001); [by vm_compute|lia|by vm_compute]. Defined.

(** *** How the program ends *)

(** Every exit is with code 2, and what is returned satisfies [Q]. *)
Definition exits {F A} (Q : A → Prop) (m : Cu F A) : Prop :=
  ∀ d, match (m d).1 with inl (exit_with code) => code = 2 | inl undefined => True | inr a => Q a end.

Lemma exits_ret {F A} (Q : A → Prop) a : Q a → exits (F := F) Q (cu_ret a).
Proof. by intros Ha d. Qed.
Lemma exits_some {F A} (Q : A → Prop) x : (∀ a, x = Some a → Q a) → exits (F := F) Q (cu_some x).
Proof. intros Hx d. destruct x; cbn; auto. Qed.
Lemma exits_bind {F A B} (P : A → Prop) (Q : B → Prop) (m : Cu F A) k :
  exits P m → (∀ a, P a → exits Q (k a)) → exits Q (cu_bind m k).
Proof.
  intros Hm Hk d. specialize (Hm d). unfold cu_bind. destruct (m d) as [[c|a] d']; [done|].
  by apply Hk.
Qed.
Lemma exits_perform {F A} (f : effect (F := F) A) : exits (λ _, True) (perform f).
Proof. intros d. unfold perform. by repeat case_match. Qed.
Lemma exits_checked {F A} (cu : Cuda F) (f : effect A) : exits (λ _, True) (checked cu f).
Proof. intros d. unfold checked. destruct (cu_ok cu (dv_calls d)); [apply exits_perform|done]. Qed.

Lemma exits_workload {F} (axpy : F → F → F → F) cu one two zero n :
  exits (λ _, True) (run_workload axpy cu one two zero n).
Proof.
  repeat (eapply exits_bind; [first [apply exits_checked|apply exits_perform]|intros ? _]).
  eapply (exits_bind (λ _, True)); [by apply exits_some|intros ? _]. by apply exits_ret.
Qed.

Definition ends_well (e : Ending) : Prop :=
  match e with
  | ends 2 None | uncaught _ => True
  | ends 0 (Some rep) => rp_duplicate rep = Status.INVALID_INPUT
  | _ => False
  end.

Lemma economics_duplicate `{IterOrder} ma mb rep :
  economics ma mb = Some (Ret rep) → rp_duplicate rep = Status.INVALID_INPUT.
Proof.
  unfold economics. intros He. apply bind_Some in He as (da & _ & He).
  apply bind_Some in He as (db & _ & [= He]). apply res_bind_Ret in He as (da' & _ & He).
  apply res_bind_Ret in He as (db' & _ & He). apply res_bind_Ret in He as ([total dup] & Hr & [= <-]).
  rewrite retry_economics_eq in Hr. by apply res_bind_Ret in Hr as (bd & _ & [= _ <-]).
Qed.

(** The GPU program ends as it says: whatever the runtime answers, it exits with
    code 2 when a call fails or there is no device, and otherwise, unless an exception
    of the cost calculation or a time out of range ends it, with 0 and a report in
    which the duplicate completion was refused; never with 3. *)
Theorem cuda_main_ends {F} (I : IterOrder) (axpy : F → F → F → F) one two zero cu d :
  match (cuda_main axpy one two zero cu d).1 with
  | inl (exit_with code) => code = 2
  | inl undefined => True
  | inr e => ends_well e
  end.
Proof.
  revert d. change (exits ends_well (cuda_main axpy one two zero cu)). unfold cuda_main, plain_call.
  eapply exits_bind; [apply exits_checked|intros ? _].
  destruct (cu_devices cu <? 1); [by apply exits_ret|].
  do 2 (eapply exits_bind; [apply exits_checked|intros ? _]).
  do 2 (eapply exits_bind; [apply exits_workload|intros [? ?] _]).
  eapply exits_bind; [apply exits_some; intros ? He; exact He|intros [rep|e] He; [|by apply exits_ret]].
  apply economics_duplicate in He. rewrite decide_False by (by rewrite He; intros []).
  eapply exits_bind; [apply exits_checked|intros ? _]. by apply exits_ret.
Qed.

(** The plan that does not fit the budget is called the cheaper one: a decision that
    authorizes nothing has a projected total of zero, and [main] compares totals
    without looking at the decision.  Here plan A takes three hundred thousand
    seconds, against one for plan B. *)
Example infeasible_plan_selected :
  let ma := mkMeasured (300000 * 10 ^ 9) 8388608 8388608 in
  let mb := mkMeasured (10 ^ 9) 33554432 33554432 in
  match @economics map_order ma mb with
  | Some (Ret rep) => rp_total_a rep = 0 ∧ rp_total_b rep = 1337 ∧ rp_select_a rep = true
  | _ => False
  end.
Proof. by vm_compute. Qed.
