(* ===== verification/Bench.v ===== *)
(** * Bench: the benchmark

    Models bench/benchmark.cpp: the governor that every phase starts from, the
    operation that each phase repeats, the phases with the outcomes of their
    operations, and the figures that are reported. *)

From stdpp Require Import prelude gmap strings.
From S2P Require Import Prelude Effects Money Identity Units Price Policy Budget Cost.
From S2P Require Import Plan Decision Governor Evaluate Snapshot Ledger System Recovery Tools.
From S2P Require Import Floats.
From stdpp Require Import options.

(** ** The operations that are timed *)

(** The policy's generation and epoch keep their default member initializers. *)
Definition bench_policy : CostPolicy := {|
  pol_id := pol_id default_policy; pol_generation := pol_generation default_policy;
  pol_epoch := pol_epoch default_policy; pol_currency := kDefaultCurrency;
  pol_ranking := pol_ranking default_policy;
  pol_min_evidence_freshness_ms := pol_min_evidence_freshness_ms default_policy;
  pol_max_evidence_age_ms := 300000; pol_price_schedule_max_age_ms := 300000;
  pol_max_projection_uncertainty := pol_max_projection_uncertainty default_policy;
  pol_hysteresis_ms := pol_hysteresis_ms default_policy;
  pol_cooldown_ms := pol_cooldown_ms default_policy;
  pol_near_budget_percent := pol_near_budget_percent default_policy;
  pol_at_risk_percent := pol_at_risk_percent default_policy;
  pol_retry_budget := pol_retry_budget default_policy;
  pol_recovery_budget := pol_recovery_budget default_policy;
  pol_recovery_cost_known := pol_recovery_cost_known default_policy;
  pol_allow_synthetic := true; pol_allow_policy := true; pol_allow_measured := true |}.

Definition bench_gov : St Impl Status :=
  set_policy bench_policy ;;;
  set_worker_boot (mkId 1) (mkId 1) ;;;
  set_price_schedule (mkPriceSchedule (mkId 1) (mkId 1)
    ((λ i : nat, tool_price (Z.of_nat i) PriceKind.ACCELERATOR_TIME 1000 1) <$> seq 1 10) 1) ;;;
  let* limit := st_lift (@from_units wrapping 1000000000) in
  create_budget (tool_budget limit).

Definition make_plan (id : Z) : ExecutionPlan :=
  let p := tool_plan id (2000000000 * (1 + Z.rem id 5)) 0 in {|
  p_id := p_id p; p_generation := p_generation p; p_workload := p_workload p;
  p_workload_generation := p_workload_generation p; p_resource := p_resource p;
  p_resource_generation := p_resource_generation p; p_device := p_device p;
  p_device_generation := p_device_generation p; p_placement := p_placement p;
  p_placement_generation := p_placement_generation p;
  p_recovery_generation := p_recovery_generation p; p_worker := p_worker p;
  p_expected_accelerator_time := p_expected_accelerator_time p;
  p_expected_energy := p_expected_energy p; p_expected_transfer := p_expected_transfer p;
  p_expected_memory_hold := p_expected_memory_hold p;
  p_expected_residency_hold := p_expected_residency_hold p;
  p_expected_storage := p_expected_storage p; p_expected_retries := 0; p_expected_requests := 1;
  p_expected_tokens := 500; p_expected_operations := 0; p_recovery := p_recovery p;
  p_recovery_recompute_ns := p_recovery_recompute_ns p; p_meets_hard_slo := p_meets_hard_slo p;
  p_completion_probability_percent := p_completion_probability_percent p; p_label := p_label p |}.

Definition ingest (i : Z) : St Impl Status :=
  record_attempt (tool_evidence (1000 + i) (i + 1) 1 1 1 1 false false 1 1000000 0).

Definition eval_once `{IterOrder} (now : Readings) (g : Impl) : res CostDecision :=
  evaluate now g (mkId 1) (make_plan <$> [1; 2; 3; 4]).

Definition reserve_release (now : Readings) : St Impl (option Status) :=
  let* (st, granted) := reserve now (mkId 1) (mkId 1) (mkId 1) 1 in
  match st, granted with
  | Status.OK, Some r => λ g,
      let '(x, (g', _)) := release (g, r) in ((let! st' := x in Ret (Some st')), g')
  | _, _ => st_ret None
  end.

(** ** The phases *)

(** [count] times an operation of the governor, with the results. *)
Fixpoint repeated {A} (op : Z → St Impl A) (i : Z) (count : nat) : St Impl (list A) :=
  match count with
  | O => st_ret []
  | S count' =>
      let* x := op i in
      let* xs := repeated op (i + 1) count' in
      st_ret (x :: xs)
  end.

(** The governor of a phase: what [create_budget] answers is ignored. *)
Definition on_bench_gov {A} (m : St Impl A) : res A := (m (bench_gov initial).2).1.

Section phases.
Context `{IterOrder} (now : Readings).

Definition ingest_phase (scale : nat) : res (list Status) := on_bench_gov (repeated ingest 0 scale).
Definition eval_phase (scale : nat) : res (list CostDecision) :=
  on_bench_gov (repeated (λ _, let* g := st_get in st_lift (eval_once now g)) 0 scale).
Definition reserve_phase (scale : nat) : res (list (option Status)) :=
  on_bench_gov (repeated (λ _, reserve_release now) 0 scale).

(** [persist] a hundred times to the same file. *)
Fixpoint persist_times (io : IoFaults) (n : nat) (g : Impl) : St Files (list Status) :=
  match n with
  | O => st_ret []
  | S n' =>
      let* st := persist io g in
      let* sts := persist_times io n' g in
      st_ret (st :: sts)
  end.
Definition persist_phase (io : IoFaults) (fs : Files) : res (list Status) * Files :=
  persist_times io 100 (set_state_path "cg_bench.bin" (bench_gov initial).2).2 fs.

(** Eight threads of ten thousand evaluations each: an evaluation changes nothing,
    so that every interleaving is one sequence of them. *)
Definition concurrent_phase : res (list CostDecision) := eval_phase (8 * 10000).

(** ** The figures *)

Definition scales : list Z := [100; 1000; 10000; 100000; 1000000].

(** [report]: operations per second, and the seconds. *)
Definition report (count ns : Z) : spec_float * spec_float :=
  let secs := ddiv (double_of ns) (double_of 1000000000) in
  (if SFltb dzero secs then ddiv (double_of count) secs else dzero, secs).

(** [main]: the lines it prints, with the nanoseconds that each phase took. *)
Definition bench_lines (ns : nat → Z) : list (string * Z * (spec_float * spec_float)) :=
  let line k name count := (name, count, report count (ns k)) in
  (imap (λ k s, line k "evidence_ingest" s) scales) ++
  (imap (λ k s, line (5 + k)%nat "plan_eval" s) (take 4 scales)) ++
  (imap (λ k s, line (9 + k)%nat "budget_reserve_release" s) (take 4 scales)) ++
  [line 13%nat "persist" 100; line 14%nat "concurrent_eval" (8 * 10000)].
End phases.

(** ** Lemmas *)

(** An operation that always answers [x] and changes nothing. *)
Lemma repeated_same {A} (op : Z → St Impl A) i n g x :
  (∀ k, op k g = (Ret x, g)) → repeated op i n g = (Ret (replicate n x), g).
Proof.
  intros Hop. revert i. induction n as [|n IH]; intros i; [done|].
  cbn [repeated]. unfold st_bind. by rewrite Hop, IH.
Qed.

(** Today, in milliseconds. *)
Definition today : Readings := λ _, 1700000000000.
Definition no_plan (d : CostDecision) : Prop := d_kind d = DecisionKind.NO_FEASIBLE_PLAN.

(** ** Theorems *)

(** The benchmark times refusals: its policy leaves the epoch at zero, so the
    budget it creates is refused; hence in every phase, however many operations it
    has, every piece of evidence that is ingested is refused as stale, every reserve
    fails for want of the budget and nothing is ever released, and, the prices being
    observed at time 1, every evaluation under a clock of today finds no feasible
    plan. *)
Theorem benchmark_times_refusals (scale : nat) :
  (bench_gov initial).1 = Ret Status.STALE_AUTHORITY ∧
  ingest_phase scale = Ret (replicate scale Status.STALE_AUTHORITY) ∧
  (∀ now, reserve_phase now scale = Ret (replicate scale None)) ∧
  ∃ ds, @eval_phase map_order today scale = Ret ds ∧ length ds = scale ∧ Forall no_plan ds.
Proof.
  set (g := (bench_gov initial).2). split; [done|].
  split; [unfold ingest_phase, on_bench_gov; by rewrite (repeated_same _ _ _ _ Status.STALE_AUTHORITY)|].
  split; [intros now; unfold reserve_phase, on_bench_gov; by rewrite (repeated_same _ _ _ _ None)|].
  assert (∃ d, @eval_once map_order today g = Ret d ∧ no_plan d) as (d & Hd & Hn).
  { eexists. split; [vm_compute; reflexivity|done]. }
  exists (replicate scale d). split; [|split; [apply length_replicate|by apply Forall_replicate]].
  unfold eval_phase, on_bench_gov. fold g. rewrite (repeated_same _ _ _ _ d); [done|].
  intros k. unfold st_bind, st_get, st_lift. by rewrite Hd.
Qed.
